(* ===== verification/_CoqProject ===== *)
-Q . S2P
Prelude.v
Cxx.v
FloatFacts.v
ThreadSafeQueue.v
RobotController.v
LidarParse.v
FrameAssembler.v
LidarReceiver.v
LidarDelivery.v
NetworkPreflight.v
CommandRunner.v
CommandOutcome.v
CommandReturns.v
CommandEnds.v
DeviceClock.v
SdkTypes.v
SdkAdapter.v
SdkBinding.v
SdkAdapterSafety.v
SdkAdapterSessions.v
SdkAdapterCalls.v
SdkAdapterFindings.v
RuntimeState.v
NodeConfig.v
NodeLifetime.v
DriverMain.v
NodeBridge.v
NodeOutputs.v
NodeCauses.v
NodeGraph.v
NodeCloud.v
NodeLidar.v
RuntimeWorker.v
RuntimeSamples.v
RuntimeSafety.v
RuntimeInputs.v
NodeDrive.v
RuntimeLogic.v
RuntimeOwnership.v
RuntimePromises.v
RuntimeAnswers.v
RuntimeSessions.v
RuntimeVendor.v
RuntimeSteps.v
RuntimeFindings.v
RuntimeLifecycle.v
RuntimeShutdown.v
