(* ===== verification/Prelude.v ===== *)
(** * Hypertron SW01 ROS 2 bridge: a verification development

    The repository drives an SW01 robot through the vendor's ASTRALL SDK and
    publishes its telemetry and LiDAR streams as a ROS 2 node.  A worker thread
    ([DirectDriverRuntime]) checks the wired network, opens the SDK, and serves
    velocity, mode, authority and emergency-stop requests of other threads through
    a safety gate ([RobotController]) and a bounded queue ([ThreadSafeQueue]); the
    SDK is reached through an adapter ([DirectAstrallSdk]) whose lifecycle gate
    orders public calls, vendor callbacks and teardown.  A second path
    ([lidar_stream]) receives UDP datagrams, parses them, reassembles point cloud
    frames and hands them to the node ([driver_node]), which also turns topics and
    services into calls of the runtime and the runtime's callbacks into messages.

    ** Files, parts and sources

    - [Prelude]: record update, automation, list lemmas.  [Cxx]: the C++ in use
      (fixed-width integers, IEEE-754 through [SpecFloat], strings, [chrono]).
      [FloatFacts]: bounds and validity of rounding.
    - [ThreadSafeQueue] ([thread_safe_queue.hpp]): state [queue]; every member
      function is one atomic transition.
    - [RobotController] ([robot_controller.hpp/.cpp]): state [controller]; every
      member function is one transition with the clock reading as argument;
      [ctl_run] is any history of calls.
    - [LidarParse] ([lidar_stream.hpp/.cpp], the parsers): datagrams as byte
      lists with bounds-checked reads.  [FrameAssembler] (same files,
      [PointCloudFrameAssembler]): slots, packets and statistics.
    - [LidarReceiver] (same files, [UdpLidarDatagramSource] and
      [LidarStreamReceiver]): a transition system of the receive thread, the
      threads that start and stop it and its callbacks, over any source of the
      class [DatagramSource]; the UDP socket is an instance.  [LidarDelivery]:
      what a run delivers.
    - [NetworkPreflight] ([network_preflight.hpp/.cpp]): address and command
      output parsing, evaluation of the facts, [check]; [inet_pton] is a parameter,
      the command runner is one in any monad.
    - [CommandRunner] ([network_preflight.cpp], [execute_readonly_command]): the
      default command runner as a program of system calls; the kernel is a strategy
      that answers each call knowing the whole history.  [CommandOutcome]: what a run
      did; [CommandReturns]: what it promises; [CommandEnds]: when it ends.
    - [SdkTypes] ([astrall_sdk.hpp]): result codes, telemetry, [IAstrallSdk].
    - [SdkAdapter] ([direct_astrall_sdk.cpp], [astrall_vendor_api.hpp]): the
      adapter and any number of threads as a transition system; a thread is the
      stack of what it is inside of.  [SdkAdapterSafety] (all threads),
      [SdkAdapterSessions] (one client thread, the runtime's discipline),
      [SdkAdapterCalls] (an undisturbed call).  [SdkBinding] (same files): the table
      of the vendor's functions and the mapping of its telemetry; the vendor's header
      is a class.
    - [RuntimeState] ([direct_driver_runtime.hpp/.cpp]): the members ([runtime]),
      the calls of other threads and the SDK callbacks, cut where they release
      their locks ([call], [run_action]); [world] adds the clock, the futures
      ([promises]) and a trace of events.
    - [RuntimeWorker] (same files): [worker_main] and all it calls, a program in a
      state monad with exceptions.  Wherever another thread may run it takes a
      step of an arbitrary environment, the sequence [oracle]: other threads'
      actions, the passing of time, the SDK's and the network's answers and
      exceptions.  A theorem for every [oracle] is a theorem for every
      interleaving of that granularity.
    - [RuntimeLifecycle] (same files, [start], [stop], the destructor and
      [ObserverCallbackGuard]): any number of threads as stacks, observer callbacks
      nested on any of them, [stop_mutex_] held across steps; the worker's own code
      is only the bottom of its stack here.  [RuntimeShutdown]: what it promises.
    - [RuntimeSessions]: the worker as a client of the SDK.  [RuntimeVendor]: the
      worker and [SdkAdapter] joined, the worker's calls being calls of thread 0.
    - [RuntimeSamples]: concrete environments for the witnesses.  [RuntimeInputs]:
      the events of a run are the environment's actions.
    - [DeviceClock], [NodeConfig], [NodeBridge] ([driver_node.cpp]): the LiDAR
      clock mapper; the parameters, their validation and the configurations built
      from them; the node's members and every handler as a program of atomic steps
      ([prog]).  [NodeOutputs]: any handlers interleaved, and what they send.
      [NodeCloud]: the point cloud message read back.
    - [NodeLifetime] ([driver_node.cpp], construction and destruction of [Impl]): the
      two bodies and the destruction of the members as the program of the owning
      thread, next to both receivers and the runtime; the constructor may throw at
      every step.  [DriverMain] ([driver_main.cpp]): [main] around it.
    - [NodeGraph] ([driver_node.cpp], [create_graph_interfaces], [NodeObserver]): the
      publishers, subscriptions and services with their topics, types and QoS, and
      the handler each of them reaches.
    - [NodeCauses]: the input behind every output of the node.  [NodeDrive]: the
      node's handlers and the runtime together; the runtime's environment does only
      what the node's outputs tell it.  [NodeLidar]: both receivers, made from the
      node's configuration, and the handlers together.

    The parts meet as follows.  [RuntimeWorker] calls [RobotController],
    [ThreadSafeQueue], [NetworkPreflight] (by its verdict) and the SDK boundary of
    [SdkTypes]; [SdkAdapter] implements that boundary ([RuntimeVendor] runs both
    together).  [LidarReceiver] calls [LidarParse] and [FrameAssembler]; its
    callbacks are the LiDAR handlers of [NodeBridge], whose other handlers call the
    runtime and are called by it.  [NodeConfig] gives all of them their
    configurations.

    ** What the theorems show

    - [RuntimeSafety]: every SDK call that actuates has its cause in the earlier
      events of the run (a fresh tick of the gate, an accepted request, a stop);
      nothing actuates before a caller asked for something.  [NodeDrive]: with the
      node in front, every nonzero move is a finite twist received on the velocity
      topic, and modes and authority are those received on theirs.
    - [NodeLidar]: every row of a published cloud is bit for bit the decoding of a
      point of a datagram of the configured peer, and so is every odometry.
    - [RuntimeLogic] (triples, neutral assertions), [RuntimeOwnership] (who owes
      which future), [RuntimePromises]: when the worker returns every future is
      answered; no null promise is dereferenced; one call of [stop] ends every loop.
    - [RuntimeAnswers]: a caller is told "success" only when the SDK calls its
      request stands for were made after it and succeeded, and a mode was
      confirmed by a later snapshot.
    - [RuntimeSessions]: the worker opens, subscribes, commands and closes sessions
      in the order the SDK asks for, on every path.  [RuntimeVendor]: hence the
      adapter never refuses a call of the worker because of its state, and is
      uninitialized when the worker has returned.
    - [RuntimeSteps]: the shutdown sequence, the mode tables, the delays.
    - [SdkAdapterSafety]: the vendor is entered by one thread at a time, the
      stacks have few shapes, the adapter does not deadlock unless a callback of
      another adapter, run inside this one, calls it unrecognised
      ([SdkAdapterFindings]).  [SdkAdapterSessions], for one client thread and no
      other adapter: the adapter refines an abstract session protocol; a [deinit] from
      outside callbacks returns after the whole teardown, which leaves no callback.
      [SdkAdapterCalls]: every undisturbed call returns what a
      reference function says.
    - [RobotController]: motion only with every gate open and a command within
      the deadman; nothing is replayed; the emergency stop dominates; a reconnect
      needs a fresh handshake; each operation on every branch.
    - [ThreadSafeQueue]: FIFO refinement, bounds.
    - [LidarParse]: no read out of bounds, exact acceptance conditions, round
      trips.  [FrameAssembler]: order-independent reassembly, genuine frames,
      bounded resources, the verdict of every packet, expiry.
    - [LidarDelivery]: the receiver implements parse, assemble, deliver in every
      interleaving; it is silent once a [stop] returned, [stop] returns, and what
      it delivers came from the configured peer.
    - [NetworkPreflight]: ready exactly on matching facts; round trips of the
      command outputs.
    - [DeviceClock]: stamps follow the device clock, within bounds, for device times
      below 2^62 ns.  [NodeConfig]:
      an accepted configuration meets the conditions the other parts rely on.
      [NodeOutputs]: every command to the runtime and every message has its cause
      and fits the gate's limits.  [NodeCloud]: a cloud message read through its
      field table gives the frame's points.
    - [CommandReturns]: a command reports the fate of its child and what was read from
      it (not all it wrote, [CommandEnds.output_may_be_lost]), waits for output within its deadline, and the preflight with this runner is
      ready only on the output of two children that succeeded.  [CommandEnds]: it
      returns, on a system where time passes and no child writes for ever.
    - [NodeLifetime]: no handler runs in a half-built or half-destroyed node, the
      destruction can always be completed, and no thread outlives it.
    - [DriverMain]: a process that exits returns 0, after the node is destroyed and
      its threads have ended, and once spinning it can always get there.
    - [NodeGraph]: the node never sends through a publisher or a broadcaster that
      was not created; with the LiDAR disabled there are none for it.
    - [RuntimeShutdown]: a [stop] that waited leaves no worker and none is created
      after it; [start], [stop] and the destructor never deadlock, although SDK calls
      wait for callbacks that call [stop], as long as no callback calls [start].
    - [SdkBinding]: the snapshot built from the vendor's answers is in range, a
      getter that fails leaves its part alone, telemetry has the expected lengths.
    - [SdkAdapterFindings], [RuntimeFindings] and the examples at the end of
      [NodeConfig], [NodeLifetime], [NodeOutputs], [DeviceClock], [CommandEnds],
      [LidarDelivery] and [RuntimeShutdown]: runs the comments of the code exclude.

    ** Bounds and fuel

    The worker's loops and those of the command runner carry fuel.  [command_returns]
    proves that enough fuel gives one result (a kernel answers as it likes, so no
    number is enough for every kernel).  [stop_ends_the_worker] proves that
    [n0 + queue_capacity + 2] units are enough when [stop] is called once, in
    environment step [n0]: every iteration takes a step, the flag stays set, and after
    it nothing is pushed.  The runtime runs until it is stopped, so no fuel is enough
    without a stop; the safety theorems hold for every fuel.  Transition systems
    (adapter, receiver, node) carry no fuel: their theorems are about every finite
    schedule.  Durations are unbounded integers in nanoseconds ([steady_clock]
    counts 63 bits: centuries), except in [DeviceClock], where 64-bit overflow is
    an outcome of the model; counters of the assembler are far below their width
    and proved so where sums are formed; parser arithmetic is at its width.

    ** Not modelled

    - Of [direct_astrall_sdk.cpp]: the test hooks, and the vendor's own code (its
      header is not in the repository).  A critical section of the gate mutex is one
      step, merged with the release of a mutex that precedes it on the same thread.
    - Of [lidar_stream.cpp]: exceptions of a datagram source, socket address
      structures (addresses are compared as text).
    - Of [network_preflight.cpp]: exhaustion of memory while output is captured.
    - Of [driver_node.cpp]: log lines and statistics; what rclcpp does with a message,
      a QoS profile or a service call.  [sin], [cos], [inet_pton], [inet_ntop] and the
      text of doubles are parameters.
    - Of [driver_main.cpp]: [rclcpp::init], [spin] and [shutdown] are steps without a
      body; [spin] may return at any time.
    - [RuntimeWorker] runs from the creation of the worker to its return;
      [RuntimeLifecycle] has [start] and [stop] around it.  [NodeLifetime] keeps of the
      runtime only whether the worker runs and how many handlers of the node it and
      the SDK are inside of.  The lock-free [observer_errors_] counter is sequential. *)

From stdpp Require Export base tactics list gmap strings pretty option.
From Stdlib Require Export ZArith Lia.

#[global] Open Scope Z_scope.

Declare Scope bridge_scope.
Delimit Scope bridge_scope with bridge.
#[global] Open Scope bridge_scope.

(** ** Record update

    The C++ code assigns one member at a time; a record with an [Eta] instance
    (its own eta expansion) gets a setter for every projection, so that a
    statement [x.f = v;] reads [x <| f := v |>] in the model. *)

Class Eta (R : Type) := eta : R -> R.

Class Setter {R E : Type} (proj : R -> E) := over : (E -> E) -> R -> R.
Arguments over {R E} proj {_} f r.

Ltac derive_setter :=
  lazymatch goal with
  | |- @Setter ?R ?E ?proj =>
      let inst := constr:(_ : Eta R) in
      let body := eval hnf in inst in
      exact (fun (f : E -> E) (record : R) =>
        ltac:(let b := eval cbv beta in (body record) in
              lazymatch eval pattern (proj record) in b with
              | ?ctx _ => let b' := eval cbv beta in (ctx (f (proj record))) in exact b'
              end))
  end.

#[export] Hint Extern 1 (Setter _) => derive_setter : typeclass_instances.

Notation "r <| p := v |>" := (over p (fun _ => v) r)
  (at level 1, left associativity, p constr at level 9, v at level 200)
  : bridge_scope.

(** ** Automation *)

(** Boolean guards of the code as propositions. *)
Ltac bool_prop :=
  repeat match goal with
  | H : _ && _ = true |- _ => apply andb_true_iff in H as [? ?]
  | H : _ && _ = false |- _ => apply andb_false_iff in H
  | H : _ || _ = false |- _ => apply orb_false_iff in H as [? ?]
  | H : _ || _ = true |- _ => apply orb_true_iff in H
  | H : negb _ = true |- _ => apply negb_true_iff in H
  | H : negb _ = false |- _ => apply negb_false_iff in H
  | H : (_ =? _) = true |- _ => apply Z.eqb_eq in H
  | H : (_ =? _) = false |- _ => apply Z.eqb_neq in H
  | H : (_ <? _) = true |- _ => apply Z.ltb_lt in H
  | H : (_ <? _) = false |- _ => apply Z.ltb_ge in H
  | H : (_ <=? _) = true |- _ => apply Z.leb_le in H
  | H : (_ <=? _) = false |- _ => apply Z.leb_gt in H
  | H : bool_decide _ = true |- _ => apply bool_decide_eq_true in H
  | H : bool_decide _ = false |- _ => apply bool_decide_eq_false in H
  | H : Is_true _ |- _ => apply Is_true_true in H
  end.

(** Case analysis on every [if] and [match] of the goal, with equations. *)
Ltac branch :=
  match goal with
  | |- context [if ?b then _ else _] => destruct b eqn:?
  | |- context [match ?x with _ => _ end] => destruct x eqn:?
  end.
Ltac branches := repeat (branch; cbn; try done).

Ltac branch_in H :=
  match type of H with
  | context [if ?b then _ else _] => destruct b eqn:?
  | context [match ?x with _ => _ end] => destruct x eqn:?
  end.

Ltac arith := bool_prop; lia.

(** The development's hint database: invariant preservation lemmas of the
    components, tried by [auto with bridge]. *)
Create HintDb bridge.

(** ** Lists *)

Fixpoint zsum (l : list Z) : Z :=
  match l with [] => 0 | x :: l' => x + zsum l' end.

Lemma zsum_app (l k : list Z) : zsum (l ++ k) = zsum l + zsum k.
Proof. induction l as [|x l IH]; cbn; lia. Qed.

Lemma zsum_nonneg (l : list Z) : Forall (fun x => 0 <= x) l -> 0 <= zsum l.
Proof. induction 1; cbn; lia. Qed.

Lemma zsum_insert (l : list Z) (i : nat) (x y : Z) :
  l !! i = Some x -> zsum (<[i:=y]> l) = zsum l - x + y.
Proof.
  revert i. induction l as [|a l IH]; intros [|i] H; try done.
  - injection H as ->. cbn. lia.
  - change (a + zsum (<[i:=y]> l) = a + zsum l - x + y). rewrite (IH i H). lia.
Qed.

Lemma Forall_insert_inv {A} (P : A -> Prop) (l : list A) i x :
  Forall P l -> P x -> Forall P (<[i:=x]> l).
Proof. intros Hl Hx. by apply Forall_insert. Qed.
#[export] Hint Resolve Forall_insert_inv : bridge.

Lemma lookup_insert_cases {A} (l : list A) i j x y :
  <[i:=x]> l !! j = Some y ->
  (i = j /\ y = x /\ (i < length l)%nat) \/ (i <> j /\ l !! j = Some y).
Proof.
  intros H. destruct (decide (i = j)) as [->|Hne].
  - left. assert (Hlt : (j < length l)%nat).
    { apply lookup_lt_Some in H. by rewrite length_insert in H. }
    rewrite list_lookup_insert_eq in H by done. by simplify_eq.
  - right. by rewrite list_lookup_insert_ne in H.
Qed.

Lemma prefix_snoc_cases {A} (p l : list A) x :
  p `prefix_of` l ++ [x] -> p `prefix_of` l \/ p = l ++ [x].
Proof.
  intros [k Hk]. destruct k as [|y k _] using rev_ind.
  - right. by rewrite app_nil_r in Hk.
  - left. rewrite app_assoc in Hk. apply app_inj_tail in Hk as [-> _]. by exists k.
Qed.

(** ** Strings *)

Lemma string_app_assoc (s1 s2 s3 : string) : (s1 +:+ s2) +:+ s3 = s1 +:+ (s2 +:+ s3).
Proof.
  induction s1 as [|c s1 IH]; [done|].
  change (String c ((s1 +:+ s2) +:+ s3) = String c (s1 +:+ (s2 +:+ s3))). by rewrite IH.
Qed.

Lemma string_app_nil_r (s : string) : s +:+ "" = s.
Proof. induction s as [|c s IH]; [done|]. change (String c (s +:+ "") = String c s). by rewrite IH. Qed.
