(* ===== verification/Cxx.v ===== *)
(** * The C++ the sources use

    Fixed-width integers, IEEE-754 floating point, the C-locale character
    classes, the string routines and [std::chrono] units.  This is the
    language and its standard library, not code of the repository. *)

From S2P Require Import Prelude.
From Stdlib Require Export SpecFloat.
From Stdlib Require Import Ascii.

(** ** Integers *)

(** Conversion to an unsigned type of [w] bits. *)
Definition wrap (w : Z) (z : Z) : Z := z mod 2 ^ w.

(** Conversion to a signed type of [w] bits (two's complement). *)
Definition swrap (w : Z) (z : Z) : Z :=
  let u := wrap w z in if u <? 2 ^ (w - 1) then u else u - 2 ^ w.

Definition INT64_MAX : Z := 2 ^ 63 - 1.
Definition INT64_MIN : Z := - 2 ^ 63.
Definition in_int64 (z : Z) : bool := (INT64_MIN <=? z) && (z <=? INT64_MAX).

(** ** [std::chrono]: every duration and time point in nanoseconds *)

Definition milliseconds (n : Z) : Z := n * 1000000.
Definition seconds (n : Z) : Z := n * 1000000000.

(** ** Floating point: binary32 and binary64 with round to nearest even *)

#[export] Instance spec_float_eq_dec : EqDecision spec_float.
Proof. solve_decision. Defined.

Definition isfinite (x : spec_float) : bool :=
  match x with S754_zero _ | S754_finite _ _ _ => true | _ => false end.

Definition isnan (x : spec_float) : bool :=
  match x with S754_nan => true | _ => false end.

(** [static_cast<double>] of an integer, and of a binary32 value (exact). *)
Definition f64_of_Z (z : Z) : spec_float := binary_normalize 53 1024 z 0 false.
Definition f32_of_Z (z : Z) : spec_float := binary_normalize 24 128 z 0 false.

(** [static_cast<float>] of a double. *)
Definition f32_of_f64 (x : spec_float) : spec_float :=
  match x with
  | S754_finite s m e => binary_round 24 128 s m e
  | _ => x
  end.

Definition f64_mul := SFmul 53 1024.
Definition f64_add := SFadd 53 1024.
Definition f64_div := SFdiv 53 1024.
Definition f64_sqrt := SFsqrt 53 1024.

Definition fzero : spec_float := S754_zero false.
Definition fone32 : spec_float := f32_of_Z 1.
Definition fmone32 : spec_float := f32_of_Z (-1).

(** [std::clamp], [std::min] and [std::max] as the standard defines them. *)
Definition fclamp (v lo hi : spec_float) : spec_float :=
  if SFltb v lo then lo else if SFltb hi v then hi else v.
Definition fmin (a b : spec_float) : spec_float := if SFltb b a then b else a.
Definition fmax (a b : spec_float) : spec_float := if SFltb a b then b else a.

Arguments fclamp : simpl never.
Arguments fone32 : simpl never.
Arguments fmone32 : simpl never.
Arguments f64_of_Z : simpl never.
Arguments f32_of_Z : simpl never.
Arguments f32_of_f64 : simpl never.
Arguments f64_mul : simpl never.
Arguments f64_add : simpl never.
Arguments f64_div : simpl never.
Arguments f64_sqrt : simpl never.

(** ** Characters and strings *)

Definition isspace (c : ascii) : bool :=
  let n := N_of_ascii c in ((n =? 32) || ((9 <=? n) && (n <=? 13)))%N.

Definition isdigit (c : ascii) : bool :=
  let n := N_of_ascii c in ((48 <=? n) && (n <=? 57))%N.

Definition tolower (c : ascii) : ascii :=
  let n := N_of_ascii c in
  if ((65 <=? n) && (n <=? 90))%N then ascii_of_N (n + 32) else c.

Definition chars (s : string) : list ascii := String.list_ascii_of_string s.
Definition of_chars (l : list ascii) : string := String.string_of_list_ascii l.

(** [s.find(needle) != std::string::npos]. *)
Definition str_contains (needle s : string) : bool :=
  match String.index 0 needle s with Some _ => true | None => false end.

Definition str_empty (s : string) : bool :=
  match s with EmptyString => true | _ => false end.

(** [std::string::c_str] as a C function reads it: up to the first NUL. *)
Fixpoint c_str (s : string) : string :=
  match s with
  | EmptyString => EmptyString
  | String c s' => if ascii_dec c Ascii.zero then EmptyString else String c (c_str s')
  end.

(** [stream << std::hex << n]: lower case, no leading zeros. *)
Definition hex_digit (n : N) : ascii :=
  if (n <? 10)%N then ascii_of_N (48 + n) else ascii_of_N (87 + n).

Fixpoint hex_digits (fuel : nat) (n : N) : string :=
  match fuel with
  | O => EmptyString
  | S f =>
      if (n <? 16)%N then String (hex_digit n) EmptyString
      else hex_digits f (n / 16) +:+ String (hex_digit (n mod 16)) EmptyString
  end.

(** A 16-bit code needs at most four digits. *)
Definition hex16 (code : Z) : string := hex_digits 4 (Z.to_N code).

(** ** Facts *)

Lemma wrap_range w z : 0 <= w -> 0 <= wrap w z < 2 ^ w.
Proof. intros Hw. apply Z.mod_pos_bound. by apply Z.pow_pos_nonneg. Qed.

Lemma wrap_small w z : 0 <= z < 2 ^ w -> wrap w z = z.
Proof. apply Z.mod_small. Qed.

Lemma swrap_range w z : 0 < w -> - 2 ^ (w - 1) <= swrap w z < 2 ^ (w - 1).
Proof.
  intros Hw. unfold swrap. pose proof (wrap_range w z ltac:(lia)) as Hr.
  assert (He : 2 ^ w = 2 * 2 ^ (w - 1)).
  { rewrite <- Z.pow_succ_r by lia. f_equal. lia. }
  destruct (_ <? _) eqn:E; bool_prop; lia.
Qed.

Lemma swrap_small w z : 0 < w -> - 2 ^ (w - 1) <= z < 2 ^ (w - 1) -> swrap w z = z.
Proof.
  intros Hw Hz. unfold swrap, wrap.
  assert (He : 2 ^ w = 2 * 2 ^ (w - 1)).
  { rewrite <- Z.pow_succ_r by lia. f_equal. lia. }
  destruct (decide (0 <= z)) as [Hp|Hn].
  - rewrite Z.mod_small by lia. destruct (_ <? _) eqn:E; bool_prop; lia.
  - assert (Hm : z mod 2 ^ w = z + 2 ^ w).
    { replace z with ((z + 2 ^ w) + (-1) * 2 ^ w) at 1 by lia.
      rewrite Z.mod_add by lia. apply Z.mod_small. lia. }
    rewrite Hm. destruct (_ <? _) eqn:E; bool_prop; lia.
Qed.

(** *** Comparison of floats *)

Lemma Pos_compare_cont_flip m n :
  Pos.compare_cont Eq n m = CompOpp (Pos.compare_cont Eq m n).
Proof. apply Pos.compare_antisym. Qed.

Lemma SFcompare_flip x y : SFcompare y x = CompOpp <$> SFcompare x y.
Proof.
  destruct x as [s|s| |s m e], y as [s'|s'| |s' m' e']; cbn; try done;
    destruct s; try destruct s'; try done; rewrite (Z.compare_antisym e e'), ?(Pos_compare_cont_flip m m');
    by destruct (Z.compare e e'), (Pos.compare_cont Eq m m').
Qed.

Lemma SFcompare_nan x y : SFcompare x y = None <-> isnan x || isnan y = true.
Proof. by destruct x as [[]|[]| |[] ??], y as [[]|[]| |[] ??]. Qed.

Lemma SFltb_not_leb x y :
  isnan x = false -> isnan y = false -> SFltb x y = false -> SFleb y x = true.
Proof.
  intros Hx Hy H. unfold SFltb, SFleb in *. rewrite SFcompare_flip.
  destruct (SFcompare x y) as [c|] eqn:E.
  - by destruct c.
  - apply SFcompare_nan in E. by rewrite Hx, Hy in E.
Qed.

Lemma SFleb_not_ltb x y : SFleb x y = true -> SFltb y x = false.
Proof.
  unfold SFltb, SFleb. rewrite (SFcompare_flip x y).
  by destruct (SFcompare x y) as [[]|].
Qed.

Lemma SFleb_refl x : isnan x = false -> SFleb x x = true.
Proof.
  destruct x as [[]|[]| |[] m e]; cbn; try done; intros _; unfold SFleb; cbn;
    rewrite Z.compare_refl; change (Pos.compare_cont Eq m m) with (Pos.compare m m);
    by rewrite Pos.compare_refl.
Qed.

Lemma isfinite_not_nan x : isfinite x = true -> isnan x = false.
Proof. by destruct x. Qed.
#[export] Hint Resolve isfinite_not_nan SFleb_refl : bridge.

(** *** [std::clamp] *)

Definition in_range (lo hi v : spec_float) : bool := SFleb lo v && SFleb v hi.

Lemma fclamp_in_range v lo hi :
  isnan v = false -> isnan lo = false -> isnan hi = false ->
  SFleb lo hi = true -> in_range lo hi (fclamp v lo hi) = true.
Proof.
  intros Hv Hl Hh Hle. unfold in_range, fclamp.
  destruct (SFltb v lo) eqn:E1; [by rewrite SFleb_refl, Hle|].
  destruct (SFltb hi v) eqn:E2; [by rewrite Hle, SFleb_refl|].
  by rewrite !SFltb_not_leb.
Qed.

Lemma fclamp_id v lo hi : in_range lo hi v = true -> fclamp v lo hi = v.
Proof.
  unfold in_range, fclamp. intros H. bool_prop.
  by rewrite !SFleb_not_ltb.
Qed.

Lemma fclamp_finite v lo hi :
  isfinite v = true -> isfinite lo = true -> isfinite hi = true ->
  isfinite (fclamp v lo hi) = true.
Proof. intros. unfold fclamp. by repeat case_match. Qed.

Lemma in_range_finite_bounds lo hi v :
  isfinite lo = true -> isfinite hi = true -> in_range lo hi v = true -> isfinite v = true.
Proof.
  unfold in_range. intros Hl Hh H. bool_prop.
  by destruct lo as [[]|[]| |[] ? ?], hi as [[]|[]| |[] ? ?], v as [[]|[]| |[] ? ?].
Qed.
