(* ===== verification/FloatFacts.v ===== *)
(** * FloatFacts: bounds and validity of IEEE-754 rounding

    The parsers multiply an integer of at most 64 bits by a scale of at most
    [1e9] and then test the product for finiteness.  This file bounds the
    exponents of [SpecFloat]'s rounding, so that the product is known to be
    finite for every such input, and shows that rounding gives numbers the format
    can hold. *)

From S2P Require Import Prelude Cxx.

(** ** Digits and shifts *)

Lemma digits2_pos_bounds m :
  2 ^ (Z.pos (digits2_pos m) - 1) <= Z.pos m < 2 ^ Z.pos (digits2_pos m).
Proof.
  induction m as [m IH|m IH|]; cbn [digits2_pos]; [| |done];
    rewrite Pos2Z.inj_succ; unfold Z.succ;
    replace (Z.pos (digits2_pos m) + 1 - 1) with ((Z.pos (digits2_pos m) - 1) + 1) by lia;
    rewrite !Z.pow_add_r by lia;
    replace (Z.pos (digits2_pos m) - 1 + 1) with (Z.pos (digits2_pos m)) in * by lia; lia.
Qed.

Lemma digits2_le m k : 0 <= m < 2 ^ k -> 0 <= k -> Zdigits2 m <= k.
Proof.
  intros [Hm Hk] H0. destruct m as [|m|m]; cbn [Zdigits2]; [done| |lia].
  pose proof (digits2_pos_bounds m) as [Hl _].
  apply Z.nlt_ge. intros Hlt.
  assert (2 ^ k <= 2 ^ (Z.pos (digits2_pos m) - 1)) by (apply Z.pow_le_mono_r; lia). lia.
Qed.

Lemma shr_1_bounds r : 0 <= shr_m r -> 0 <= shr_m (shr_1 r) <= shr_m r.
Proof. destruct r as [[|[p|p|]|[p|p|]] ? ?]; cbn; lia. Qed.

Lemma iter_shr_1_bounds p r :
  0 <= shr_m r -> 0 <= shr_m (iter_pos shr_1 p r) <= shr_m r.
Proof.
  revert r. induction p as [p IH|p IH|]; intros r Hr; cbn [iter_pos].
  - pose proof (shr_1_bounds r Hr). pose proof (IH (shr_1 r)) as H1.
    pose proof (IH (iter_pos shr_1 p (shr_1 r))). lia.
  - pose proof (IH r Hr). pose proof (IH (iter_pos shr_1 p r)). lia.
  - by apply shr_1_bounds.
Qed.

Lemma shr_m_of_loc m l : shr_m (shr_record_of_loc m l) = m.
Proof. by destruct l as [|[]]. Qed.

(** ** Rounding *)

Lemma shr_fexp_bounds m e l k :
  0 <= m < 2 ^ k -> 0 <= k ->
  let '(r, e') := shr_fexp 53 1024 m e l in
  0 <= shr_m r <= m /\ e' <= Z.max e (-1074) + k.
Proof.
  intros Hm Hk. unfold shr_fexp, shr.
  pose proof (digits2_le m k Hm Hk) as Hd. pose proof (shr_m_of_loc m l) as Hl.
  assert (Hd0 : 0 <= Zdigits2 m) by (destruct m; cbn; lia).
  destruct (fexp _ _ _ - e) as [|p|p] eqn:E; rewrite ?Hl; [lia| |lia].
  pose proof (iter_shr_1_bounds p (shr_record_of_loc m l)) as Hi. rewrite Hl in Hi.
  split; [lia|]. rewrite <- E. unfold fexp, emin. lia.
Qed.

Lemma round_nearest_even_bounds m l :
  0 <= m -> 0 <= round_nearest_even m l <= m + 1.
Proof. intros Hm. unfold round_nearest_even. repeat case_match; lia. Qed.

(** A positive finite or zero value whose mantissa and exponent are bounded. *)
Definition small_float (k b : Z) (x : spec_float) : Prop :=
  match x with
  | S754_zero _ => True
  | S754_finite _ m e => Z.pos m < 2 ^ k /\ e <= b
  | _ => False
  end.

Lemma small_float_finite k b x : small_float k b x -> isfinite x = true.
Proof. by destruct x. Qed.

Lemma binary_round_aux_small s m e l k :
  0 <= m < 2 ^ k -> 0 <= k -> Z.max e (-1074) + 2 * k + 1 <= 971 ->
  small_float (k + 1) (Z.max e (-1074) + 2 * k + 1) (binary_round_aux 53 1024 s m e l).
Proof.
  intros Hm Hk Hb. unfold binary_round_aux.
  pose proof (shr_fexp_bounds m e l k Hm Hk) as H1.
  destruct (shr_fexp 53 1024 m e l) as [r1 e1]. destruct H1 as [H1 He1].
  pose proof (round_nearest_even_bounds (shr_m r1) (loc_of_shr_record r1)) as Hr.
  assert (Hp : 2 ^ (k + 1) = 2 * 2 ^ k) by (rewrite Z.pow_add_r by lia; lia).
  pose proof (shr_fexp_bounds (round_nearest_even (shr_m r1) (loc_of_shr_record r1)) e1
    loc_Exact (k + 1)) as H2.
  destruct (shr_fexp _ _ _ e1 _) as [r2 e2]. destruct H2 as [H2 He2]; [lia|lia|].
  destruct (shr_m r2) as [|m2|m2]; [done| |lia].
  replace (e2 <=? 1024 - 53) with true by lia. cbn [small_float]. lia.
Qed.

Lemma iter_xO m d : Z.pos (Pos.iter xO m d) = Z.pos m * 2 ^ Z.pos d.
Proof.
  induction d as [|d IH] using Pos.peano_ind; [cbn; lia|].
  rewrite Pos.iter_succ, Pos2Z.inj_succ, Z.pow_succ_r by lia.
  rewrite (Pos2Z.inj_xO (Pos.iter xO m d)), IH. lia.
Qed.

Lemma binary_round_int_small s m :
  Z.pos m < 2 ^ 64 -> small_float 65 129 (binary_round 53 1024 s m 0).
Proof.
  intros Hm. unfold binary_round, shl_align.
  pose proof (digits2_pos_bounds m) as [_ Hu].
  pose proof (digits2_le (Z.pos m) 64) as Hd. cbn [Zdigits2] in Hd.
  destruct (fexp _ _ _ - 0) as [|d|d] eqn:E.
  1,2: apply (binary_round_aux_small _ _ 0 _ 64); lia.
  rewrite Z.add_0_r, Z.sub_0_r in *. unfold fexp, emin in *.
  assert (Hz : Z.pos (Pos.iter xO m d) < 2 ^ 53).
  { rewrite iter_xO. replace 53 with (Z.pos (digits2_pos m) + Z.pos d) by lia.
    rewrite Z.pow_add_r by lia. nia. }
  pose proof (binary_round_aux_small s (Z.pos (Pos.iter xO m d))
    (Z.max (Z.pos (digits2_pos m) - 53) (3 - 1024 - 53)) loc_Exact 53) as H.
  destruct (binary_round_aux _ _ _ _ _ _); cbn [small_float] in *; try (apply H; lia).
  destruct H as [H1 H2]; [lia..|]. split; [|lia].
  apply Z.lt_le_trans with (2 ^ (53 + 1)); [done|]. by apply Z.pow_le_mono_r.
Qed.

Lemma f64_of_Z_small z : - 2 ^ 64 < z < 2 ^ 64 -> small_float 65 129 (f64_of_Z z).
Proof.
  intros Hz. unfold f64_of_Z, binary_normalize. destruct z as [|m|m]; [done| |];
    apply binary_round_int_small; lia.
Qed.

Lemma f64_mul_small x y k b k' b' :
  small_float k b x -> small_float k' b' y -> 0 <= k -> 0 <= k' ->
  Z.max (b + b') (-1074) + 2 * (k + k') + 1 <= 971 ->
  isfinite (f64_mul x y) = true.
Proof.
  intros Hx Hy Hk Hk' Hb. unfold f64_mul.
  destruct x as [?|?| |sx mx ex], y as [?|?| |sy my ey]; try contradiction;
    [reflexivity..|].
  cbn [SFmul].
  cbn [small_float] in Hx, Hy. destruct Hx as [Hx Hex], Hy as [Hy Hey].
  eapply small_float_finite, (binary_round_aux_small _ _ _ _ (k + k')); [|lia|lia].
  split; [lia|]. rewrite Z.pow_add_r, Pos2Z.inj_mul by lia. nia.
Qed.

Lemma SFleb_exponent m e m' e' :
  SFleb (S754_finite false m e) (S754_finite false m' e') = true -> e <= e'.
Proof.
  unfold SFleb. cbn. destruct (Z.compare_spec e e'); [lia|lia|done].
Qed.

(** A valid double of magnitude at most [1e9] has a small exponent. *)
Lemma valid_le_1e9_small x :
  valid_binary 53 1024 x = true -> isfinite x = true ->
  SFleb (SFabs x) (f64_of_Z 1000000000) = true -> small_float 53 (-23) x.
Proof.
  change (f64_of_Z 1000000000) with (S754_finite false 8388608000000000 (-23)).
  destruct x as [?|?| |s m e]; cbn [valid_binary isfinite small_float SFabs];
    [intros; exact I|discriminate|discriminate|]. intros Hv _ Hle.
  unfold bounded, canonical_mantissa, fexp, emin in Hv. bool_prop.
  pose proof (digits2_pos_bounds m) as [_ Hu]. split.
  - apply Z.lt_le_trans with (2 ^ Z.pos (digits2_pos m)); [done|].
    apply Z.pow_le_mono_r; lia.
  - by apply SFleb_exponent in Hle.
Qed.

(** ** Rounding is never a NaN *)

Lemma shr_fexp_nonneg prec emax m e l : 0 <= m -> 0 <= shr_m (shr_fexp prec emax m e l).1.
Proof.
  intros Hm. unfold shr_fexp, shr. pose proof (shr_m_of_loc m l) as Hl.
  destruct (fexp _ _ _ - e) as [|p|p]; cbn [fst]; rewrite ?Hl; [done| |done].
  pose proof (iter_shr_1_bounds p (shr_record_of_loc m l)) as Hi. rewrite Hl in Hi. lia.
Qed.

Lemma binary_round_not_nan prec emax s m e :
  isnan (binary_round prec emax s m e) = false.
Proof.
  unfold binary_round. destruct (shl_align _ _ _) as [mz ez]. unfold binary_round_aux.
  pose proof (shr_fexp_nonneg prec emax (Z.pos mz) ez loc_Exact ltac:(lia)) as H1.
  destruct (shr_fexp prec emax (Z.pos mz) ez loc_Exact) as [r1 e1]. cbn [fst] in H1.
  pose proof (round_nearest_even_bounds (shr_m r1) (loc_of_shr_record r1) H1) as H2.
  pose proof (shr_fexp_nonneg prec emax (round_nearest_even (shr_m r1) (loc_of_shr_record r1)) e1
    loc_Exact ltac:(lia)) as H3.
  destruct (shr_fexp _ _ _ e1 _) as [r2 e2]. cbn [fst] in H3.
  destruct (shr_m r2); [done| |lia]. by destruct (_ <=? _).
Qed.

Lemma f32_of_f64_not_nan x : isnan x = false -> isnan (f32_of_f64 x) = false.
Proof. destruct x; try done. intros _. apply binary_round_not_nan. Qed.

(** ** Rounding gives canonical numbers *)

Lemma shr_1_half r : 0 <= shr_m r -> shr_m (shr_1 r) = shr_m r / 2.
Proof.
  destruct r as [m r s]. cbn [shr_m]. intros Hm. transitivity (Z.div2 m); [|apply Z.div2_div].
  destruct m as [|[p|p|]|p]; (done || lia).
Qed.

Lemma iter_shr_1_div p r : 0 <= shr_m r -> shr_m (iter_pos shr_1 p r) = shr_m r / 2 ^ Z.pos p.
Proof.
  revert r. induction p as [p IH|p IH|]; intros r Hr; cbn [iter_pos].
  - pose proof (shr_1_bounds r Hr). pose proof (iter_shr_1_bounds p (shr_1 r) ltac:(lia)).
    rewrite !IH, shr_1_half, !Z.div_div by lia. f_equal.
    replace (Z.pos p~1) with (1 + (Z.pos p + Z.pos p)) by lia. rewrite !Z.pow_add_r by lia. lia.
  - pose proof (iter_shr_1_bounds p r Hr). rewrite !IH, Z.div_div by lia. f_equal.
    replace (Z.pos p~0) with (Z.pos p + Z.pos p) by lia. by rewrite !Z.pow_add_r by lia.
  - by apply shr_1_half.
Qed.

Section Canonical.
  Context (prec emax : Z) (Hprec : 0 < prec).

(** A mantissa of at most [prec] digits, or the next power of two, which is full
    unless the exponent is the smallest one. *)
Definition rounded (m e : Z) : Prop :=
  emin prec emax <= e /\ 0 <= m <= 2 ^ prec /\ (e = emin prec emax \/ 2 ^ (prec - 1) <= m).

Lemma shr_fexp_aligned m e l r e' :
  0 <= m -> e <= fexp prec emax (Zdigits2 m + e) ->
  shr_fexp prec emax m e l = (r, e') ->
  e' = fexp prec emax (Zdigits2 m + e) /\ shr_m r = m / 2 ^ (e' - e).
Proof.
  intros Hm He. unfold shr_fexp, shr. pose proof (shr_m_of_loc m l) as Hl.
  destruct (fexp _ _ _ - e) as [|p|p] eqn:E; intros [= <- <-]; [| |lia].
  - rewrite Z.sub_diag, Z.div_1_r. split; [lia|done].
  - split; [lia|]. rewrite iter_shr_1_div, Hl by lia. do 2 f_equal. lia.
Qed.

Lemma first_shift_rounded m e l r e' :
  0 < m -> e <= fexp prec emax (Zdigits2 m + e) ->
  shr_fexp prec emax m e l = (r, e') -> rounded (shr_m r) e' /\ shr_m r < 2 ^ prec.
Proof.
  intros Hm He H. apply shr_fexp_aligned in H as [-> ->]; [|lia|done].
  destruct m as [|m|m]; try lia. cbn [Zdigits2] in *. pose proof (digits2_pos_bounds m) as [Hl Hu].
  set (k := fexp prec emax (Z.pos (digits2_pos m) + e) - e) in *. set (d := Z.pos (digits2_pos m)) in *.
  assert (Hk : 0 <= k) by (unfold k; lia).
  assert (Hdk : d - k <= prec) by (unfold k, fexp; lia).
  assert (H0 : 0 <= Z.pos m / 2 ^ k) by (apply Z.div_pos; lia).
  assert (Hlt : Z.pos m / 2 ^ k < 2 ^ prec).
  { apply Z.div_lt_upper_bound; [lia|]. rewrite <- Z.pow_add_r by lia.
    apply Z.lt_le_trans with (1 := Hu). apply Z.pow_le_mono_r; lia. }
  split; [|done]. split_and!; [unfold fexp; lia|done|lia|].
  destruct (Z.max_spec (d + e - prec) (emin prec emax)) as [[_ E]|[_ E]]; [by left|right].
  assert (Hp : d - 1 = prec - 1 + k) by (unfold k, fexp; lia).
  apply Z.div_le_lower_bound; [lia|]. rewrite Z.mul_comm, <- Z.pow_add_r by lia. by rewrite <- Hp.
Qed.

Lemma digits2_full m : 2 ^ (prec - 1) <= m < 2 ^ prec -> Zdigits2 m = prec.
Proof.
  intros [Hl Hu]. assert (0 < 2 ^ (prec - 1)) by lia.
  pose proof (digits2_le m prec ltac:(lia) ltac:(lia)). destruct m as [|m|m]; try lia. cbn [Zdigits2] in *.
  pose proof (digits2_pos_bounds m) as [_ Hd]. apply Z.le_antisymm; [done|].
  apply Z.nlt_ge. intros Hlt. assert (2 ^ Z.pos (digits2_pos m) <= 2 ^ (prec - 1)) by (apply Z.pow_le_mono_r; lia). lia.
Qed.

(** The exponent of a rounded mantissa that is not the next power of two. *)
Lemma rounded_canonical m e : rounded m e -> m < 2 ^ prec -> fexp prec emax (Zdigits2 m + e) = e.
Proof.
  intros (He & [H0 _] & Hm) Hlt. unfold fexp. destruct Hm as [->|Hm].
  - pose proof (digits2_le m prec ltac:(lia) ltac:(lia)). lia.
  - rewrite digits2_full by lia. lia.
Qed.

Lemma second_shift_canonical m e r e' :
  rounded m e -> shr_fexp prec emax m e loc_Exact = (r, e') ->
  fexp prec emax (Zdigits2 (shr_m r) + e') = e'.
Proof.
  intros Hr H. destruct (Z.eq_dec m (2 ^ prec)) as [->|Hne].
  - assert (Hd : Zdigits2 (2 ^ prec) = prec + 1).
    { destruct (2 ^ prec) as [|q|q] eqn:E; try lia. cbn [Zdigits2]. pose proof (digits2_pos_bounds q) as [Hl Hu].
      rewrite <- E in Hl, Hu. apply Z.pow_lt_mono_r_iff in Hu; [|lia..].
      apply Z.pow_le_mono_r_iff in Hl; lia. }
    destruct Hr as (He & _). assert (Hf : fexp prec emax (prec + 1 + e) = e + 1) by (unfold fexp; lia).
    apply shr_fexp_aligned in H as [-> ->]; rewrite ?Hd, ?Hf; [|lia..].
    replace (e + 1 - e) with 1 by lia. replace (2 ^ prec) with (2 ^ (prec - 1) * 2 ^ 1)
      by (rewrite <- Z.pow_add_r by lia; f_equal; lia).
    rewrite Z.div_mul by lia. apply rounded_canonical; [|apply Z.pow_lt_mono_r; lia].
    split_and!; [lia|lia|apply Z.pow_le_mono_r; lia|by right].
  - destruct Hr as (He & Hm & Hf). assert (Hlt : m < 2 ^ prec) by lia.
    pose proof (rounded_canonical m e (conj He (conj Hm Hf)) Hlt) as Hc.
    apply shr_fexp_aligned in H as [-> ->]; [|lia|lia].
    by rewrite Hc, Z.sub_diag, Z.div_1_r.
Qed.

Lemma binary_round_aux_valid s m e l :
  0 < m -> e <= fexp prec emax (Zdigits2 m + e) ->
  valid_binary prec emax (binary_round_aux prec emax s m e l) = true.
Proof.
  intros Hm He. unfold binary_round_aux.
  destruct (shr_fexp prec emax m e l) as [r1 e1] eqn:E1.
  apply first_shift_rounded in E1 as [(H1 & H2 & H3) Hlt]; [|done..].
  assert (Hn : shr_m r1 <= round_nearest_even (shr_m r1) (loc_of_shr_record r1) <= shr_m r1 + 1).
  { unfold round_nearest_even. repeat case_match; lia. }
  destruct (shr_fexp prec emax (round_nearest_even _ _) e1 loc_Exact) as [r2 e2] eqn:E2.
  apply second_shift_canonical in E2; [|split_and!; (lia || destruct H3; auto with lia)].
  destruct (shr_m r2) as [|q|q]; [done| |done].
  destruct (e2 <=? emax - prec) eqn:Hb; [|done]. cbn [valid_binary]. unfold bounded, canonical_mantissa.
  cbn [Zdigits2] in E2. by rewrite E2, Z.eqb_refl, Hb.
Qed.

Lemma binary_round_valid s m e : valid_binary prec emax (binary_round prec emax s m e) = true.
Proof.
  unfold binary_round, shl_align.
  destruct (fexp prec emax (Z.pos (digits2_pos m) + e) - e) as [|p|p] eqn:E;
    apply binary_round_aux_valid; try lia; cbn [Zdigits2]; [lia|lia|].
  assert (Hd : Z.pos (digits2_pos (Pos.iter xO m p)) = Z.pos (digits2_pos m) + Z.pos p).
  { clear. induction p as [|p IH] using Pos.peano_ind; [cbn; lia|].
    rewrite Pos.iter_succ. cbn [digits2_pos]. lia. }
  rewrite Hd. apply Z.eq_le_incl. f_equal. lia.
Qed.
End Canonical.

(** Narrowing gives a number a [float] can hold. *)
Lemma f32_of_f64_valid x : valid_binary 24 128 (f32_of_f64 x) = true.

Proof. destruct x; [done..|]. by apply binary_round_valid. Qed.
