(* ===== verification/ThreadSafeQueue.v ===== *)
(** * ThreadSafeQueue: the bounded queue of [thread_safe_queue.hpp]

    Every member function holds [mutex_] for its whole body, so each is one
    atomic transition of the state below; [wait_pop_for] releases the mutex
    while it waits, and the model takes the operations other threads complete
    during the wait as an argument. *)

From S2P Require Import Prelude.

Inductive OverflowPolicy := RejectNew | DropOldest.

#[export] Instance OverflowPolicy_eq_dec : EqDecision OverflowPolicy.
Proof. solve_decision. Defined.

Record queue (T : Type) := mkQueue {
  capacity : nat;
  policy : OverflowPolicy;
  items : list T;
  closed : bool;
}.
Arguments mkQueue {T} _ _ _ _.
Arguments capacity {T} _.
Arguments policy {T} _.
Arguments items {T} _.
Arguments closed {T} _.

#[export] Instance eta_queue {T} : Eta (queue T) :=
  fun q => mkQueue (capacity q) (policy q) (items q) (closed q).

Section Operations.
Context {T : Type}.
Implicit Types (q : queue T) (v : T).

(** The constructor; [None] is its [std::invalid_argument]. *)
Definition make_queue (cap : nat) (pol : OverflowPolicy) : option (queue T) :=
  if decide (cap = 0%nat) then None else Some (mkQueue cap pol [] false).

Definition push v q : bool * queue T :=
  if closed q then (false, q)
  else if decide (length (items q) = capacity q) then
    match policy q with
    | RejectNew => (false, q)
    | DropOldest => (true, q <| items := tail (items q) ++ [v] |>)
    end
  else (true, q <| items := items q ++ [v] |>).

Definition pop_locked q : option T * queue T :=
  match items q with
  | [] => (None, q)
  | v :: rest => (Some v, q <| items := rest |>)
  end.

Definition try_pop q : option T * queue T := pop_locked q.

Definition close q : queue T := q <| closed := true |>.

Definition is_closed q : bool := closed q.

Definition size q : nat := length (items q).

(** One completed call of some thread, and what it returned. *)
Inductive qop := QPush (v : T) | QPop | QClose.
Inductive qret := RPush (v : T) (accepted : bool) | RPop (o : option T) | RClose.

Definition qstep (o : qop) q : qret * queue T :=
  match o with
  | QPush v => let '(b, q') := push v q in (RPush v b, q')
  | QPop => let '(r, q') := try_pop q in (RPop r, q')
  | QClose => (RClose, close q)
  end.

Fixpoint qrun (os : list qop) q : list qret * queue T :=
  match os with
  | [] => ([], q)
  | o :: os' =>
      let '(r, q1) := qstep o q in
      let '(rs, q2) := qrun os' q1 in (r :: rs, q2)
  end.

(** The wait ends when the predicate holds or the timeout passed; either
    way the queue is popped under the mutex in the state the operations
    [during] the wait left. *)
Definition wait_pop_for (during : list qop) q : option T * queue T :=
  pop_locked (qrun during q).2.

(** What a trace accepted and what it handed out. *)
Definition accepted (rs : list qret) : list T :=
  flat_map (fun r => match r with RPush v true => [v] | _ => [] end) rs.
Definition popped (rs : list qret) : list T :=
  flat_map (fun r => match r with RPop (Some v) => [v] | _ => [] end) rs.

Record queue_wf q : Prop := {
  wf_capacity : (0 < capacity q)%nat;
  wf_bounded : (length (items q) <= capacity q)%nat;
}.
End Operations.
Arguments qop T : clear implicits.
Arguments qret T : clear implicits.

(** ** Facts *)

Section Facts.
Context {T : Type}.
Implicit Types (q : queue T) (v : T) (os : list (qop T)) (rs : list (qret T)).

Lemma make_queue_wf cap pol q : make_queue cap pol = Some q -> queue_wf q.
Proof. unfold make_queue. case_decide; [done|]. intros [= <-]. split; cbn; lia. Qed.

Lemma push_wf v q b q' : push v q = (b, q') -> queue_wf q -> queue_wf q'.
Proof.
  unfold push. intros H [Hc Hb].
  destruct (closed q); [by simplify_eq|].
  case_decide as Hd; [destruct (policy q)|]; simplify_eq/=; split; cbn; try lia.
  - rewrite length_app. cbn. destruct (items q); cbn in *; lia.
  - rewrite length_app. cbn. lia.
Qed.

Lemma pop_wf q r q' : pop_locked q = (r, q') -> queue_wf q -> queue_wf q'.
Proof.
  unfold pop_locked. intros H [Hc Hb].
  destruct (items q) eqn:E; simplify_eq/=; split; cbn; try rewrite E in *; cbn in *; lia.
Qed.

Lemma try_pop_items q r q' : try_pop q = (r, q') -> items q = option_list r ++ items q'.
Proof. unfold try_pop, pop_locked. destruct (items q) eqn:E; intros [= <- <-]; by rewrite ?E. Qed.

Lemma qstep_wf o q r q' : qstep o q = (r, q') -> queue_wf q -> queue_wf q'.
Proof.
  destruct o as [v| |]; cbn; intros H Hwf.
  - destruct (push v q) eqn:E. simplify_eq/=. eauto using push_wf.
  - unfold try_pop in H. destruct (pop_locked q) eqn:E. simplify_eq/=. eauto using pop_wf.
  - simplify_eq/=. by destruct Hwf.
Qed.

(** The members the operations never touch. *)
Lemma qstep_const o q r q' :
  qstep o q = (r, q') -> capacity q' = capacity q /\ policy q' = policy q.
Proof.
  destruct o as [v| |]; cbn; unfold try_pop, push, pop_locked, close; intros H;
    repeat case_match; simplify_eq/=; done.
Qed.

(** One step of a RejectNew queue moves elements only from the accepted
    input to the tail and from the head to the output. *)
Lemma qstep_fifo o q r q' :
  policy q = RejectNew -> qstep o q = (r, q') ->
  popped [r] ++ items q' = items q ++ accepted [r].
Proof.
  intros Hp. destruct o as [v| |]; cbn; unfold try_pop, push, pop_locked, close;
    rewrite ?Hp; intros H; repeat case_match; simplify_eq/=;
    rewrite ?app_nil_r; try done; congruence.
Qed.

(** The same for DropOldest, which may also drop a head. *)
Lemma qstep_sublist o q r q' :
  qstep o q = (r, q') ->
  popped [r] ++ items q' `sublist_of` items q ++ accepted [r].
Proof.
  destruct o as [v| |]; cbn; unfold try_pop, push, pop_locked, close;
    intros H; repeat case_match; simplify_eq/=; rewrite ?app_nil_r; try done;
    try (by apply sublist_inserts_r).
  - destruct (items q); cbn; [done|]. by apply sublist_cons.
  - by match goal with E : items _ = _ |- _ => rewrite E end.
Qed.

Lemma qrun_wf os q rs q' : qrun os q = (rs, q') -> queue_wf q -> queue_wf q'.
Proof.
  revert q rs. induction os as [|o os IH]; intros q rs; cbn; [by intros [= _ <-]|].
  destruct (qstep o q) as [r q1] eqn:E1, (qrun os q1) as [rs1 q2] eqn:E2.
  intros [= _ <-] ?. eauto using qstep_wf.
Qed.

Lemma accepted_cons r rs : accepted (r :: rs) = accepted [r] ++ accepted rs.
Proof. unfold accepted. cbn. by rewrite app_nil_r. Qed.
Lemma popped_cons r rs : popped (r :: rs) = popped [r] ++ popped rs.
Proof. unfold popped. cbn. by rewrite app_nil_r. Qed.

Lemma push_accepted v q q' :
  policy q = RejectNew -> push v q = (true, q') -> items q' = items q ++ [v].
Proof. unfold push. intros Hp. rewrite Hp. intros H. repeat case_match; by simplify_eq/=. Qed.

Lemma push_rejected v q q' :
  push v q = (false, q') -> q' = q /\ (closed q = true \/ length (items q) = capacity q).
Proof. unfold push. intros H. repeat case_match; simplify_eq/=; auto. Qed.

Lemma push_policy v q b q' : push v q = (b, q') -> policy q' = policy q.
Proof. unfold push. intros H. repeat case_match; by simplify_eq/=. Qed.

Lemma push_capacity v q b q' : push v q = (b, q') -> capacity q' = capacity q.
Proof. unfold push. intros H. repeat case_match; by simplify_eq/=. Qed.

(** The refinement of a RejectNew queue to a FIFO: over every sequence of
    calls by any number of threads, the values handed out followed by the
    values still queued are the values that were queued followed by the
    accepted ones, in order: nothing accepted is lost, duplicated or
    reordered.  Claim C31. *)
Theorem reject_new_refines_fifo os q rs q' :
  policy q = RejectNew -> qrun os q = (rs, q') ->
  popped rs ++ items q' = items q ++ accepted rs.
Proof.
  revert q rs. induction os as [|o os IH]; intros q rs Hp; cbn.
  { intros [= <- <-]. cbn. by rewrite app_nil_r. }
  destruct (qstep o q) as [r q1] eqn:E1, (qrun os q1) as [rs1 q2] eqn:E2.
  intros [= <- <-]. rewrite accepted_cons, popped_cons, <- app_assoc.
  rewrite (IH q1 rs1) by (done || by rewrite (proj2 (qstep_const _ _ _ _ E1))).
  by rewrite !app_assoc, (qstep_fifo o q r q1).
Qed.

(** A DropOldest queue only loses the oldest values: what it hands out and
    keeps is a subsequence, in order, of what was queued and accepted, and
    the queue never exceeds its capacity. *)
Theorem drop_oldest_bounded_subsequence os q rs q' :
  queue_wf q -> qrun os q = (rs, q') ->
  popped rs ++ items q' `sublist_of` items q ++ accepted rs /\
  (size q' <= capacity q)%nat.
Proof.
  intros Hwf Hrun. split.
  - clear Hwf. revert q rs Hrun. induction os as [|o os IH]; intros q rs; cbn.
    { intros [= <- <-]. cbn. by rewrite app_nil_r. }
    destruct (qstep o q) as [r q1] eqn:E1, (qrun os q1) as [rs1 q2] eqn:E2.
    intros [= <- <-]. rewrite accepted_cons, popped_cons, <- app_assoc.
    transitivity (popped [r] ++ items q1 ++ accepted rs1).
    { apply sublist_app; [done|]. eauto. }
    rewrite !app_assoc. apply sublist_app; [|done]. eauto using qstep_sublist.
  - assert (Hc : capacity q' = capacity q).
    { clear Hwf. revert q rs Hrun. induction os as [|o os IH]; intros q rs; cbn.
      { by intros [= _ <-]. }
      destruct (qstep o q) as [r q1] eqn:E1, (qrun os q1) as [rs1 q2] eqn:E2.
      intros [= _ <-]. rewrite (IH _ _ E2). by eapply qstep_const. }
    rewrite <- Hc. eapply qrun_wf in Hrun; [|done]. apply wf_bounded, Hrun.
Qed.
End Facts.

(** ** Witnesses *)

Definition sample_queue (pol : OverflowPolicy) : queue nat := mkQueue 2 pol [7%nat] false.
Definition sample_ops : list (qop nat) :=
  [QPush 1%nat; QPush 2%nat; QPop; QPush 3%nat; QPop; QClose; QPush 4%nat].

Lemma reject_new_refines_fifo_witness :
  popped (qrun sample_ops (sample_queue RejectNew)).1 = [7; 1]%nat /\
  popped (qrun sample_ops (sample_queue RejectNew)).1 ++
    items (qrun sample_ops (sample_queue RejectNew)).2 = [7; 1; 3]%nat.
Proof.
  split; [reflexivity|].
  rewrite (reject_new_refines_fifo sample_ops (sample_queue RejectNew)
             (qrun sample_ops (sample_queue RejectNew)).1
             (qrun sample_ops (sample_queue RejectNew)).2); reflexivity.
Defined.

Lemma drop_oldest_bounded_subsequence_witness :
  popped (qrun sample_ops (sample_queue DropOldest)).1 = [1; 2]%nat /\
  (size (qrun sample_ops (sample_queue DropOldest)).2 <= 2)%nat.
Proof.
  split; [reflexivity|].
  apply (drop_oldest_bounded_subsequence sample_ops (sample_queue DropOldest)
           (qrun sample_ops (sample_queue DropOldest)).1); [|reflexivity].
  split; cbn; lia.
Defined.
