(* ===== verification/RobotController.v ===== *)
(** * RobotController: the safety gate of [robot_controller.hpp/.cpp]

    Every public member locks [mutex_] for its whole body, so each is one
    atomic transition of [controller]; the reading of the monotonic clock a
    member takes is its [now] argument.  Velocities are binary32 values. *)

From S2P Require Import Prelude Cxx.
From Stdlib Require Import Ascii.

(** ** Value types *)

Inductive BridgeError :=
  | Protocol | FeatureUnavailable | InvalidCommand | Timeout | SdkDisconnected
  | NoControlAuthority | EmergencyStopLatched | RobotSystemError | SdkCallFailed.

#[export] Instance BridgeError_eq_dec : EqDecision BridgeError.
Proof. solve_decision. Defined.

(** The underlying [std::uint16_t] values. *)
Definition bridge_error_code (e : BridgeError) : Z :=
  match e with
  | Protocol => 1 | FeatureUnavailable => 2 | InvalidCommand => 3 | Timeout => 4
  | SdkDisconnected => 5 | NoControlAuthority => 6 | EmergencyStopLatched => 7
  | RobotSystemError => 8 | SdkCallFailed => 9
  end.

Record VelocityPayload := mkVelocity {
  vx : spec_float; vy : spec_float; vyaw : spec_float }.

#[export] Instance VelocityPayload_eq_dec : EqDecision VelocityPayload.
Proof. solve_decision. Defined.

Definition zero_velocity : VelocityPayload := mkVelocity fzero fzero fzero.

Record ControllerStatus := mkStatus {
  cs_sdk_linked : bool;
  cs_control_authority : bool;
  cs_sport_status : Z;
  cs_error_code : Z }.

Definition default_status : ControllerStatus := mkStatus false false 0 0.

Record VelocityDecision := mkVelocityDecision {
  vd_accepted : bool; vd_value : VelocityPayload;
  vd_error : BridgeError; vd_reason : string }.

Record ModeDecision := mkModeDecision {
  md_accepted : bool; md_mode : Z; md_error : BridgeError; md_reason : string }.

Record EstopDecision := mkEstopDecision {
  ed_accepted : bool; ed_latched : bool; ed_reason : string }.

Record controller := mkController {
  command_deadman : Z;               (* config_.command_deadman, nanoseconds *)
  status_ : ControllerStatus;
  latest_velocity_ : VelocityPayload;
  last_velocity_time_ : Z;
  has_velocity_ : bool;
  estop_latched_ : bool;
  driver_ready_ : bool;
  motion_transition_gate_ : bool;
  mode_transition_pending_ : bool;
  pending_mode_ : Z }.

#[export] Instance eta_controller : Eta controller := fun c =>
  mkController (command_deadman c) (status_ c) (latest_velocity_ c)
    (last_velocity_time_ c) (has_velocity_ c) (estop_latched_ c) (driver_ready_ c)
    (motion_transition_gate_ c) (mode_transition_pending_ c) (pending_mode_ c).

Definition kSportStateMove : Z := 0xB104.

(** ** Mode names *)

Fixpoint skip_space (l : list ascii) : list ascii :=
  match l with c :: l' => if isspace c then skip_space l' else l | [] => [] end.

Definition normalized_mode (input : string) : string :=
  of_chars (map tolower (rev (skip_space (rev (skip_space (chars input)))))).

Definition kModes : list (string * Z) :=
  [("damping", 0xA101); ("stand", 0xA102); ("down", 0xA103); ("move", 0xA104);
   ("auto_charge", 0xA105); ("exit_charge", 0xA106);
   ("recover", 0xA1FF); ("recovery", 0xA1FF)]%string.

Fixpoint find_mode (l : list (string * Z)) (name : string) : option Z :=
  match l with
  | [] => None
  | (k, m) :: l' => if decide (k = name) then Some m else find_mode l' name
  end.

Arguments find_mode : simpl never.
Arguments kModes : simpl never.

(** ** Operations *)

Definition make_controller (deadman : Z) : option controller :=
  if deadman <=? 0 then None
  else Some (mkController deadman default_status zero_velocity 0 false false false
               false false 0).

Definition movement_ready_locked (c : controller) : bool :=
  driver_ready_ c && negb (motion_transition_gate_ c) &&
  negb (mode_transition_pending_ c) && cs_sdk_linked (status_ c) &&
  cs_control_authority (status_ c) &&
  (cs_sport_status (status_ c) =? kSportStateMove) &&
  (cs_error_code (status_ c) =? 0) && negb (estop_latched_ c).

Definition force_zero_locked (now : Z) (c : controller) : controller :=
  c <| latest_velocity_ := zero_velocity |> <| has_velocity_ := false |>
    <| last_velocity_time_ := now |>.

Definition rejection_locked (c : controller) : VelocityDecision :=
  let reject := mkVelocityDecision false zero_velocity in
  if negb (driver_ready_ c) then
    reject Protocol "driver readiness gate is not armed"
  else if negb (cs_sdk_linked (status_ c)) then
    reject SdkDisconnected "ASTRALL SDK is disconnected"
  else if negb (cs_error_code (status_ c) =? 0) then
    reject RobotSystemError "robot system error is active"
  else if negb (cs_control_authority (status_ c)) then
    reject NoControlAuthority "ASTRALL control authority is unavailable"
  else if estop_latched_ c then
    reject EmergencyStopLatched "software emergency stop is latched"
  else if motion_transition_gate_ c || mode_transition_pending_ c then
    reject InvalidCommand "motion is gated by a mode transition"
  else
    reject InvalidCommand "robot is not in all-terrain Move state".

Definition finite_velocity (v : VelocityPayload) : bool :=
  isfinite (vx v) && isfinite (vy v) && isfinite (vyaw v).

Definition clamp_velocity (v : VelocityPayload) : VelocityPayload :=
  mkVelocity (fclamp (vx v) fmone32 fone32) (fclamp (vy v) fmone32 fone32)
    (fclamp (vyaw v) fmone32 fone32).

Arguments clamp_velocity : simpl never.

Definition accept_velocity (now : Z) (command : VelocityPayload) (c : controller)
  : VelocityDecision * controller :=
  if negb (isfinite (vx command)) || negb (isfinite (vy command)) ||
     negb (isfinite (vyaw command)) then
    (mkVelocityDecision false zero_velocity InvalidCommand
       "velocity contains a non-finite value", force_zero_locked now c)
  else if negb (movement_ready_locked c) then
    let c' := force_zero_locked now c in (rejection_locked c', c')
  else
    let command := clamp_velocity command in
    (mkVelocityDecision true command Protocol "",
     c <| latest_velocity_ := command |> <| last_velocity_time_ := now |>
       <| has_velocity_ := true |>).

Definition velocity_for_tick (now : Z) (c : controller) : VelocityDecision :=
  if negb (movement_ready_locked c) || negb (has_velocity_ c) ||
     (command_deadman c <? now - last_velocity_time_ c) then
    mkVelocityDecision false zero_velocity Timeout "velocity deadman or safety gate"
  else mkVelocityDecision true (latest_velocity_ c) Protocol "".

Definition trigger_estop (now : Z) (c : controller) : EstopDecision * controller :=
  (mkEstopDecision true true "software emergency stop latched",
   force_zero_locked now (c <| estop_latched_ := true |>)).

Definition clear_estop (now : Z) (c : controller) : EstopDecision * controller :=
  (mkEstopDecision true false
     "software emergency stop cleared; a new velocity is required",
   force_zero_locked now (c <| estop_latched_ := false |>)).

Definition request_mode (now : Z) (name : string) (c : controller)
  : ModeDecision * controller :=
  let normalized := normalized_mode name in
  match find_mode kModes normalized with
  | None =>
      (mkModeDecision false 0 InvalidCommand ("unknown robot mode: " +:+ normalized), c)
  | Some mode =>
      let reject := mkModeDecision false mode in
      if negb (driver_ready_ c) then
        (reject Protocol "driver readiness gate is not armed", c)
      else if mode_transition_pending_ c then
        (reject InvalidCommand "another mode transition is pending", c)
      else if negb (cs_sdk_linked (status_ c)) then
        (reject SdkDisconnected "ASTRALL SDK is disconnected", c)
      else if negb (cs_error_code (status_ c) =? 0) then
        (reject RobotSystemError "robot system error is active", c)
      else if negb (cs_control_authority (status_ c)) then
        (reject NoControlAuthority "ASTRALL control authority is unavailable", c)
      else if estop_latched_ c && negb (mode =? 0xA101) then
        (reject EmergencyStopLatched "software emergency stop is latched", c)
      else
        (mkModeDecision true mode Protocol "",
         force_zero_locked now
           (c <| mode_transition_pending_ := true |> <| pending_mode_ := mode |>
              <| motion_transition_gate_ := true |>))
  end.

Definition complete_mode_transition (now : Z) (success : bool) (c : controller)
  : controller :=
  let entered_move := success && mode_transition_pending_ c &&
                      (pending_mode_ c =? 0xA104) in
  force_zero_locked now
    (c <| mode_transition_pending_ := false |> <| pending_mode_ := 0 |>
       <| motion_transition_gate_ := negb entered_move |>).

Definition set_driver_ready (now : Z) (ready : bool) (c : controller) : controller :=
  let c := c <| driver_ready_ := ready |> in
  if negb ready then
    force_zero_locked now
      (c <| mode_transition_pending_ := false |> <| pending_mode_ := 0 |>
         <| motion_transition_gate_ := true |>)
  else c.

Definition mode_transition_pending (c : controller) : bool :=
  mode_transition_pending_ c.

Definition invalidate_connection (now : Z) (c : controller) : controller :=
  force_zero_locked now
    (c <| driver_ready_ := false |> <| mode_transition_pending_ := false |>
       <| pending_mode_ := 0 |> <| motion_transition_gate_ := true |>).

Definition update_robot_state (now : Z) (state : ControllerStatus) (c : controller)
  : controller :=
  let was_ready := movement_ready_locked c in
  let c := c <| status_ := state |> in
  let c :=
    if negb (cs_sdk_linked state) || negb (cs_control_authority state) ||
       negb (cs_error_code state =? 0)
    then c <| mode_transition_pending_ := false |> <| pending_mode_ := 0 |>
           <| motion_transition_gate_ := true |>
    else c in
  if negb (Bool.eqb was_ready (movement_ready_locked c)) ||
     negb (movement_ready_locked c)
  then force_zero_locked now c else c.

Definition emergency_stop_latched (c : controller) : bool := estop_latched_ c.
Definition status (c : controller) : ControllerStatus := status_ c.
Definition joint_interface_available (c : controller) : bool := false.

(** ** The gate as a transition system *)

Inductive ctl_op :=
  | OpVelocity (v : VelocityPayload)
  | OpTriggerEstop | OpClearEstop
  | OpRequestMode (name : string)
  | OpComplete (success : bool)
  | OpSetReady (ready : bool)
  | OpInvalidate
  | OpUpdate (s : ControllerStatus).

Definition ctl_step (now : Z) (o : ctl_op) (c : controller) : controller :=
  match o with
  | OpVelocity v => (accept_velocity now v c).2
  | OpTriggerEstop => (trigger_estop now c).2
  | OpClearEstop => (clear_estop now c).2
  | OpRequestMode name => (request_mode now name c).2
  | OpComplete s => complete_mode_transition now s c
  | OpSetReady r => set_driver_ready now r c
  | OpInvalidate => invalidate_connection now c
  | OpUpdate s => update_robot_state now s c
  end.

(** A history: the calls with the clock reading of each, oldest first. *)
Fixpoint ctl_run (h : list (Z * ctl_op)) (c : controller) : controller :=
  match h with
  | [] => c
  | (t, o) :: h' => ctl_run h' (ctl_step t o c)
  end.

Inductive ctl_reachable (deadman : Z) : controller -> Prop :=
  | ctl_init c : make_controller deadman = Some c -> ctl_reachable deadman c
  | ctl_next c now o : ctl_reachable deadman c -> ctl_reachable deadman (ctl_step now o c).

(** ** The invariant *)

Definition velocity_in_range (v : VelocityPayload) : bool :=
  in_range fmone32 fone32 (vx v) && in_range fmone32 fone32 (vy v) &&
  in_range fmone32 fone32 (vyaw v).

Record controller_inv (c : controller) : Prop := {
  inv_deadman : 0 < command_deadman c;
  inv_has_ready : has_velocity_ c = true -> movement_ready_locked c = true;
  inv_range : has_velocity_ c = true -> velocity_in_range (latest_velocity_ c) = true;
  inv_zero : has_velocity_ c = false -> latest_velocity_ c = zero_velocity;
  inv_pending_gate : mode_transition_pending_ c = true -> motion_transition_gate_ c = true;
  inv_pending_mode : mode_transition_pending_ c = false -> pending_mode_ c = 0;
  inv_pending_known :
    mode_transition_pending_ c = true -> exists name, find_mode kModes name = Some (pending_mode_ c);
  inv_pending_safe : mode_transition_pending_ c = true ->
    cs_sdk_linked (status_ c) = true /\ cs_control_authority (status_ c) = true /\
    cs_error_code (status_ c) = 0 }.

(** ** Basic facts *)

Lemma force_zero_not_ready now c :
  movement_ready_locked (force_zero_locked now c) = movement_ready_locked c.
Proof. done. Qed.

Lemma finite_velocity_guard v :
  negb (isfinite (vx v)) || negb (isfinite (vy v)) || negb (isfinite (vyaw v)) =
  negb (finite_velocity v).
Proof. unfold finite_velocity. by destruct (isfinite (vx v)), (isfinite (vy v)), (isfinite (vyaw v)). Qed.

Lemma clamp_velocity_in_range v :
  finite_velocity v = true -> velocity_in_range (clamp_velocity v) = true.
Proof.
  unfold finite_velocity, velocity_in_range, clamp_velocity. intros H. bool_prop. cbn.
  by rewrite !fclamp_in_range by auto with bridge.
Qed.
#[export] Hint Resolve clamp_velocity_in_range : bridge.

Lemma movement_ready_elim c :
  movement_ready_locked c = true ->
  driver_ready_ c = true /\ motion_transition_gate_ c = false /\
  mode_transition_pending_ c = false /\ cs_sdk_linked (status_ c) = true /\
  cs_control_authority (status_ c) = true /\
  cs_sport_status (status_ c) = kSportStateMove /\
  cs_error_code (status_ c) = 0 /\ estop_latched_ c = false.
Proof. unfold movement_ready_locked. intros H. bool_prop. done. Qed.

Lemma movement_ready_intro c :
  driver_ready_ c = true -> motion_transition_gate_ c = false ->
  mode_transition_pending_ c = false -> cs_sdk_linked (status_ c) = true ->
  cs_control_authority (status_ c) = true ->
  cs_sport_status (status_ c) = kSportStateMove ->
  cs_error_code (status_ c) = 0 -> estop_latched_ c = false ->
  movement_ready_locked c = true.
Proof. unfold movement_ready_locked. by intros -> -> -> -> -> -> -> ->. Qed.

(** The eight documented names map to these seven codes. *)
Definition known_modes : list Z :=
  [0xA101; 0xA102; 0xA103; 0xA104; 0xA105; 0xA106; 0xA1FF].

Lemma find_mode_known name m : find_mode kModes name = Some m -> m ∈ known_modes.
Proof.
  unfold find_mode, kModes. repeat case_decide; intros [= <-]; unfold known_modes; set_solver.
Qed.

(** ** The two faces of a request *)

Lemma accept_velocity_spec now v c :
  accept_velocity now v c =
    if negb (finite_velocity v) then
      (mkVelocityDecision false zero_velocity InvalidCommand
         "velocity contains a non-finite value", force_zero_locked now c)
    else if negb (movement_ready_locked c) then
      (rejection_locked c, force_zero_locked now c)
    else
      (mkVelocityDecision true (clamp_velocity v) Protocol "",
       c <| latest_velocity_ := clamp_velocity v |> <| last_velocity_time_ := now |>
         <| has_velocity_ := true |>).
Proof. unfold accept_velocity. by rewrite finite_velocity_guard. Qed.

Lemma rejection_not_accepted c : vd_accepted (rejection_locked c) = false.
Proof. unfold rejection_locked. by repeat case_match. Qed.

Lemma accepted_iff now v c :
  vd_accepted (accept_velocity now v c).1 = true <->
  finite_velocity v = true /\ movement_ready_locked c = true.
Proof.
  rewrite accept_velocity_spec.
  destruct (finite_velocity v); [|by split; [|intros []]].
  destruct (movement_ready_locked c); [done|].
  split; [|by intros []]. change (vd_accepted (rejection_locked c) = true -> true = true /\ false = true).
  by rewrite rejection_not_accepted.
Qed.

Lemma tick_accepted_iff now c :
  vd_accepted (velocity_for_tick now c) = true <->
  movement_ready_locked c = true /\ has_velocity_ c = true /\
  now - last_velocity_time_ c <= command_deadman c.
Proof.
  unfold velocity_for_tick.
  destruct (movement_ready_locked c); [|by split; [|intros []]].
  destruct (has_velocity_ c); [|by split; [|intros (_ & ? & _)]]. cbn.
  destruct (_ <? _) eqn:E; bool_prop; (split; [|done || lia]); [done|]. intros _. by split_and!.
Qed.

Lemma tick_value now c :
  vd_value (velocity_for_tick now c) =
    if vd_accepted (velocity_for_tick now c) then latest_velocity_ c else zero_velocity.
Proof. unfold velocity_for_tick. by case_match. Qed.

(** ** Invariant preservation *)

Lemma make_controller_inv d c : make_controller d = Some c -> controller_inv c.
Proof.
  unfold make_controller. destruct (d <=? 0) eqn:E; [done|]. intros [= <-].
  split; cbn; try done. by bool_prop.
Qed.

(** An operation that forces zero has only the pending members to answer for. *)
Lemma force_zero_inv now c :
  0 < command_deadman c ->
  (mode_transition_pending_ c = true -> motion_transition_gate_ c = true) ->
  (mode_transition_pending_ c = false -> pending_mode_ c = 0) ->
  (mode_transition_pending_ c = true ->
    (exists name, find_mode kModes name = Some (pending_mode_ c)) /\
    cs_sdk_linked (status_ c) = true /\ cs_control_authority (status_ c) = true /\
    cs_error_code (status_ c) = 0) ->
  controller_inv (force_zero_locked now c).
Proof. intros ? ? ? H. split; cbn; naive_solver. Qed.
#[export] Hint Resolve force_zero_inv : bridge.

Lemma controller_inv_force_zero now c :
  controller_inv c -> controller_inv (force_zero_locked now c).
Proof. intros []. apply force_zero_inv; naive_solver. Qed.
#[export] Hint Resolve controller_inv_force_zero : bridge.

Lemma accept_velocity_inv now v c :
  controller_inv c -> controller_inv (accept_velocity now v c).2.
Proof.
  intros Hc. rewrite accept_velocity_spec.
  destruct (finite_velocity v) eqn:Ef; cbn; [|by auto with bridge].
  destruct (movement_ready_locked c) eqn:Er; cbn; [|by auto with bridge].
  destruct Hc. split; cbn; try done; auto with bridge.
Qed.

Lemma request_mode_inv now name c :
  controller_inv c -> controller_inv (request_mode now name c).2.
Proof.
  intros Hc. unfold request_mode.
  destruct (find_mode _ _) as [m|] eqn:Em; [|done].
  repeat (case_match; [done|]). cbn. bool_prop. destruct Hc.
  apply force_zero_inv; cbn; try done. intros _.
  split; [by exists (normalized_mode name)|done].
Qed.

Lemma update_robot_state_inv now s c :
  controller_inv c -> controller_inv (update_robot_state now s c).
Proof.
  intros [Hd Hr Hg Hz Hpg Hpm Hpk Hps]. unfold update_robot_state.
  set (drop := negb (cs_sdk_linked s) || _ || _).
  set (c1 := if drop then _ else _).
  assert (Hc1 : 0 < command_deadman c1 /\
    (mode_transition_pending_ c1 = true -> motion_transition_gate_ c1 = true) /\
    (mode_transition_pending_ c1 = false -> pending_mode_ c1 = 0) /\
    (mode_transition_pending_ c1 = true ->
      (exists name, find_mode kModes name = Some (pending_mode_ c1)) /\
      cs_sdk_linked (status_ c1) = true /\ cs_control_authority (status_ c1) = true /\
      cs_error_code (status_ c1) = 0) /\
    has_velocity_ c1 = has_velocity_ c /\ latest_velocity_ c1 = latest_velocity_ c).
  { subst c1. destruct drop eqn:Ed; subst drop; cbn; bool_prop; naive_solver. }
  destruct Hc1 as (? & ? & ? & ? & Hh & Hl).
  destruct (negb (Bool.eqb _ _) || _) eqn:E; [by apply force_zero_inv|].
  apply orb_false_iff in E as [E1 E2].
  apply negb_false_iff, eqb_prop in E1. apply negb_false_iff in E2.
  split; rewrite ?Hh, ?Hl; naive_solver.
Qed.

Lemma ctl_step_inv now o c : controller_inv c -> controller_inv (ctl_step now o c).
Proof.
  intros Hc. destruct o; cbn; eauto using accept_velocity_inv, request_mode_inv,
    update_robot_state_inv.
  - destruct Hc. apply force_zero_inv; cbn; naive_solver.
  - destruct Hc. apply force_zero_inv; cbn; naive_solver.
  - destruct Hc. apply force_zero_inv; cbn; naive_solver.
  - unfold set_driver_ready. destruct Hc, ready; cbn.
    + split; cbn; try done. intros Hv. apply movement_ready_elim in inv_has_ready0 as ?; [|done].
      apply movement_ready_intro; naive_solver.
    + apply force_zero_inv; cbn; naive_solver.
  - destruct Hc. apply force_zero_inv; cbn; naive_solver.
Qed.
#[export] Hint Resolve ctl_step_inv : bridge.

Lemma ctl_run_inv h c : controller_inv c -> controller_inv (ctl_run h c).
Proof. revert c. induction h as [|[t o] h IH]; cbn; auto with bridge. Qed.

Lemma ctl_run_app h1 h2 c : ctl_run (h1 ++ h2) c = ctl_run h2 (ctl_run h1 c).
Proof. revert c. induction h1 as [|[t o] h IH]; cbn; auto. Qed.

(** ** Which operations can open motion *)

(** An operation after which no velocity is stored. *)
Definition revokes (o : ctl_op) (c' : controller) : Prop := has_velocity_ c' = false.

Lemma ctl_step_has_velocity now o c :
  controller_inv c -> has_velocity_ (ctl_step now o c) = true ->
  (exists v, o = OpVelocity v /\ finite_velocity v = true /\
     movement_ready_locked c = true /\
     latest_velocity_ (ctl_step now o c) = clamp_velocity v /\
     last_velocity_time_ (ctl_step now o c) = now) \/
  (has_velocity_ c = true /\
   latest_velocity_ (ctl_step now o c) = latest_velocity_ c /\
   last_velocity_time_ (ctl_step now o c) = last_velocity_time_ c).
Proof.
  intros Hc. destruct o; cbn; try done.
  - rewrite accept_velocity_spec. destruct (finite_velocity v) eqn:Ef; cbn; [|done].
    destruct (movement_ready_locked c) eqn:Er; cbn; [|done]. left. by exists v.
  - unfold request_mode. destruct (find_mode _ _); [|by right].
    repeat (case_match; [by right|]). done.
  - unfold set_driver_ready. destruct ready; cbn; [by right|done].
  - unfold update_robot_state.
    destruct (negb (Bool.eqb _ _) || _); cbn; [done|]. right.
    by destruct (negb (cs_sdk_linked s) || _ || _).
Qed.

(** While no velocity operation runs, nothing is ever stored anew. *)
Lemma ctl_run_keeps h c :
  controller_inv c -> Forall (fun to => ~ exists v, to.2 = OpVelocity v) h ->
  has_velocity_ (ctl_run h c) = true ->
  has_velocity_ c = true /\ latest_velocity_ (ctl_run h c) = latest_velocity_ c /\
  last_velocity_time_ (ctl_run h c) = last_velocity_time_ c.
Proof.
  intros Hc Hh. revert c Hc. induction Hh as [|[t o] h Hno Hh IH]; intros c Hc Hv; [done|].
  cbn in *. destruct (IH (ctl_step t o c)) as (Hv1 & Hl & Ht); auto with bridge.
  destruct (ctl_step_has_velocity t o c Hc Hv1) as [(v & -> & _)|(? & ? & ?)].
  - exfalso. apply Hno. by exists v.
  - split_and!; congruence.
Qed.

(** The closed gate after an invalidation: one of the three keys is missing. *)
Definition no_ready (h : list (Z * ctl_op)) : Prop :=
  Forall (fun to => to.2 <> OpSetReady true) h.
Definition no_completion (h : list (Z * ctl_op)) : Prop :=
  Forall (fun to => to.2 <> OpComplete true) h.
Definition no_move_request (h : list (Z * ctl_op)) : Prop :=
  Forall (fun to => forall name, to.2 = OpRequestMode name ->
            find_mode kModes (normalized_mode name) <> Some 0xA104) h.

Ltac ctl_cases o :=
  destruct o as [v| | |name|[]|[]| |s]; cbn; rewrite ?accept_velocity_spec;
  unfold request_mode, set_driver_ready, update_robot_state, complete_mode_transition;
  cbn.

Lemma ctl_step_ready_false t o c :
  driver_ready_ c = false -> o <> OpSetReady true -> driver_ready_ (ctl_step t o c) = false.
Proof. intros Hr Ho. ctl_cases o; repeat case_match; done. Qed.

Lemma ctl_step_gate_completion t o c :
  motion_transition_gate_ c = true -> o <> OpComplete true ->
  motion_transition_gate_ (ctl_step t o c) = true.
Proof. intros Hg Ho. ctl_cases o; repeat case_match; done. Qed.

Lemma ctl_step_gate_no_move t o c :
  motion_transition_gate_ c = true -> pending_mode_ c <> 0xA104 ->
  (forall name, o = OpRequestMode name ->
     find_mode kModes (normalized_mode name) <> Some 0xA104) ->
  motion_transition_gate_ (ctl_step t o c) = true /\
  pending_mode_ (ctl_step t o c) <> 0xA104.
Proof.
  intros Hg Hp Ho. ctl_cases o; repeat case_match; cbn; try done.
  - split; [done|]. intros ->. by apply (Ho name).
  - split; [|done]. apply negb_true_iff. apply andb_false_iff. right. by apply Z.eqb_neq.
Qed.

Lemma ctl_run_closed h c :
  controller_inv c -> driver_ready_ c = false -> motion_transition_gate_ c = true ->
  pending_mode_ c <> 0xA104 ->
  no_ready h \/ no_completion h \/ no_move_request h ->
  movement_ready_locked (ctl_run h c) = false.
Proof.
  intros Hinv Hr Hg Hp Hh. apply not_true_iff_false. intros Hm.
  apply movement_ready_elim in Hm as (Hr' & Hg' & _).
  destruct Hh as [Hh|[Hh|Hh]].
  - assert (driver_ready_ (ctl_run h c) = false); [|congruence].
    clear -Hr Hh. revert c Hr. induction Hh as [|[t o] h Ho Hh IH]; cbn; auto using ctl_step_ready_false.
  - assert (motion_transition_gate_ (ctl_run h c) = true); [|congruence].
    clear -Hg Hh. revert c Hg. induction Hh as [|[t o] h Ho Hh IH]; cbn; auto using ctl_step_gate_completion.
  - assert (motion_transition_gate_ (ctl_run h c) = true); [|congruence].
    clear -Hg Hp Hh. revert c Hg Hp. induction Hh as [|[t o] h Ho Hh IH]; cbn; [done|].
    intros c Hg Hp. destruct (ctl_step_gate_no_move t o c); auto.
Qed.

Lemma ctl_step_latched t o c :
  estop_latched_ c = true -> o <> OpClearEstop -> estop_latched_ (ctl_step t o c) = true.
Proof. intros Hl Ho. ctl_cases o; repeat case_match; done. Qed.

Lemma ctl_run_latched h c :
  estop_latched_ c = true -> Forall (fun to => to.2 <> OpClearEstop) h ->
  estop_latched_ (ctl_run h c) = true.
Proof.
  intros Hl Hh. revert c Hl. induction Hh as [|[t o] h Ho Hh IH]; cbn; auto using ctl_step_latched.
Qed.

Lemma latched_not_ready c : estop_latched_ c = true -> movement_ready_locked c = false.
Proof.
  intros Hl. apply not_true_iff_false. intros Hm.
  destruct (movement_ready_elim c Hm) as (? & ? & ? & ? & ? & ? & ? & ?). congruence.
Qed.

Lemma request_mode_accepted_iff now name c :
  md_accepted (request_mode now name c).1 = true <->
  exists m, find_mode kModes (normalized_mode name) = Some m /\
    driver_ready_ c = true /\ mode_transition_pending_ c = false /\
    cs_sdk_linked (status_ c) = true /\ cs_error_code (status_ c) = 0 /\
    cs_control_authority (status_ c) = true /\
    (estop_latched_ c = true -> m = 0xA101).
Proof.
  unfold request_mode. destruct (find_mode _ _) as [m|]; [|cbn; naive_solver].
  split.
  - intros H. repeat (case_match; [done|]). exists m. bool_prop.
    split_and!; try done. intros Hl. rewrite Hl in *. bool_prop.
    by match goal with E : _ || _ |- _ => idtac | E : _ = false \/ _ = false |- _ =>
      destruct E as [?|E]; [done|]; apply negb_false_iff, Z.eqb_eq in E end.
  - intros (m' & [= <-] & Hr & Hp & Hl & He & Ha & Hs). rewrite Hr, Hp, Hl, He, Ha. cbn.
    destruct (estop_latched_ c); cbn; [|done]. by rewrite Hs.
Qed.

Lemma ctl_step_deadman t o c : command_deadman (ctl_step t o c) = command_deadman c.
Proof. ctl_cases o; repeat case_match; done. Qed.

Lemma ctl_run_deadman h c : command_deadman (ctl_run h c) = command_deadman c.
Proof.
  revert c. induction h as [|[t o] h IH]; intros c; cbn; [done|].
  by rewrite IH, ctl_step_deadman.
Qed.

Lemma ctl_reachable_inv d c :
  ctl_reachable d c -> controller_inv c /\ command_deadman c = d.
Proof.
  induction 1 as [c H|c t o _ [IH1 IH2]].
  - split; [by eapply make_controller_inv|].
    unfold make_controller in H. by destruct (d <=? 0); simplify_eq.
  - by rewrite ctl_step_deadman; auto with bridge.
Qed.

Lemma ctl_reachable_run d h c : ctl_reachable d c -> ctl_reachable d (ctl_run h c).
Proof.
  revert c. induction h as [|[t o] h IH]; intros c Hc; cbn; [done|].
  apply IH. by constructor.
Qed.

(** The stored velocity comes from the last velocity call of the history, and
    motion stayed enabled ever since. *)
Lemma stored_velocity_origin h c0 :
  controller_inv c0 -> has_velocity_ c0 = false -> has_velocity_ (ctl_run h c0) = true ->
  exists h1 t v h2, h = h1 ++ (t, OpVelocity v) :: h2 /\ finite_velocity v = true /\
    latest_velocity_ (ctl_run h c0) = clamp_velocity v /\
    last_velocity_time_ (ctl_run h c0) = t /\
    movement_ready_locked (ctl_run h1 c0) = true /\
    forall p, p `prefix_of` h2 ->
      movement_ready_locked (ctl_run (h1 ++ (t, OpVelocity v) :: p) c0) = true.
Proof.
  intros Hinv H0. induction h as [|[t o] h IH] using rev_ind; intros Hv.
  { cbn in Hv. congruence. }
  rewrite ctl_run_app in *. cbn in *.
  set (c := ctl_run h c0) in *.
  assert (Hc : controller_inv c) by by apply ctl_run_inv.
  destruct (ctl_step_has_velocity t o c Hc Hv) as [(v & -> & Hf & Hr & Hl & Ht)|(Hv' & Hl & Ht)].
  - exists h, t, v, []. split_and!; try done.
    intros p ->%prefix_nil_inv. rewrite ctl_run_app. cbn.
    apply (inv_has_ready _ (ctl_step_inv t (OpVelocity v) c Hc)), Hv.
  - destruct (IH Hv') as (h1 & t1 & v & h2 & -> & Hf & Hl1 & Ht1 & Hr1 & Hp).
    exists h1, t1, v, (h2 ++ [(t, o)]). split_and!; try congruence.
    { by rewrite <- app_assoc. }
    intros p Hpre. destruct (prefix_snoc_cases _ _ _ Hpre) as [?| ->]; [by apply Hp|].
    rewrite app_comm_cons, app_assoc, ctl_run_app. cbn. fold c.
      apply (inv_has_ready _ (ctl_step_inv t o c Hc)), Hv.
Qed.

(** ** Properties *)

(** A tick hands out a velocity only when every gate of the safety contract is
    open (ready handshake, link, authority, Move state, no system error, no
    pending mode change, no software stop), the command is at most one deadman
    old, and every component lies in [-1, 1].  Claim C17. *)
Theorem tick_only_when_safe deadman c now :
  ctl_reachable deadman c -> vd_accepted (velocity_for_tick now c) = true ->
  driver_ready_ c = true /\ motion_transition_gate_ c = false /\
  mode_transition_pending_ c = false /\ cs_sdk_linked (status_ c) = true /\
  cs_control_authority (status_ c) = true /\
  cs_sport_status (status_ c) = kSportStateMove /\ cs_error_code (status_ c) = 0 /\
  estop_latched_ c = false /\ now - last_velocity_time_ c <= deadman /\
  velocity_in_range (vd_value (velocity_for_tick now c)) = true.
Proof.
  intros [Hinv Hd]%ctl_reachable_inv Ha. rewrite tick_value, Ha.
  apply tick_accepted_iff in Ha as (Hr & Hv & Ht).
  apply movement_ready_elim in Hr as (? & ? & ? & ? & ? & ? & ? & ?).
  split_and!; try done; [lia|]. by apply inv_range.
Qed.

(** Non-replay: after any history of calls on a fresh gate, a velocity a tick
    hands out is the clamped command of the last velocity call that the gate
    accepted, that call is at most one deadman old, and motion has been
    enabled in every state since: no stop, clear, mode change, disconnect or
    status loss lies between.  Claim C18. *)
Theorem tick_never_replays deadman c0 h now :
  make_controller deadman = Some c0 ->
  vd_accepted (velocity_for_tick now (ctl_run h c0)) = true ->
  exists h1 t v h2, h = h1 ++ (t, OpVelocity v) :: h2 /\
    finite_velocity v = true /\
    vd_value (velocity_for_tick now (ctl_run h c0)) = clamp_velocity v /\
    now - t <= deadman /\ movement_ready_locked (ctl_run h1 c0) = true /\
    forall p, p `prefix_of` h2 ->
      movement_ready_locked (ctl_run (h1 ++ (t, OpVelocity v) :: p) c0) = true.
Proof.
  intros H0 Ha. pose proof (make_controller_inv _ _ H0) as Hinv.
  rewrite tick_value, Ha. apply tick_accepted_iff in Ha as (_ & Hv & Ht).
  destruct (stored_velocity_origin h c0) as (h1 & t & v & h2 & ? & ? & Hl & Hlt & ? & ?); try done.
  { unfold make_controller in H0. by destruct (deadman <=? 0); simplify_eq. }
  exists h1, t, v, h2. split_and!; try done.
  rewrite ctl_run_deadman in Ht. rewrite Hlt in Ht.
  unfold make_controller in H0. by destruct (deadman <=? 0); simplify_eq.
Qed.

(** The software stop dominates: from the moment it latches and until a clear,
    whatever else is called, no velocity is accepted, no tick hands one out,
    and the only mode a request can obtain is damping.  Claim C19. *)
Theorem estop_dominates c t h :
  Forall (fun to => to.2 <> OpClearEstop) h ->
  let c' := ctl_run h (trigger_estop t c).2 in
  estop_latched_ c' = true /\
  (forall now v, vd_accepted (accept_velocity now v c').1 = false) /\
  (forall now, vd_accepted (velocity_for_tick now c') = false) /\
  (forall now name, md_accepted (request_mode now name c').1 = true ->
     md_mode (request_mode now name c').1 = 0xA101).
Proof.
  intros Hh c'. assert (Hl : estop_latched_ c' = true) by by apply ctl_run_latched.
  pose proof (latched_not_ready _ Hl) as Hn. split_and!; [done| | |].
  - intros now v. apply not_true_iff_false. rewrite accepted_iff. intros [_ ?]. congruence.
  - intros now. apply not_true_iff_false. rewrite tick_accepted_iff. intros (? & _). congruence.
  - intros now name Ha. pose proof Ha as (m & Hm & _ & _ & _ & _ & _ & Hd)%request_mode_accepted_iff.
    revert Ha. unfold request_mode. rewrite Hm. repeat case_match; try done.
    intros _. by apply Hd.
Qed.

(** After a connection loss motion needs a fresh handshake: a history that
    lacks a ready arming, or a confirmed mode transition, or a request for the
    Move mode never enables motion again.  The software stop survives the
    loss.  Claim C20. *)
Theorem reconnect_needs_fresh_handshake c t h :
  controller_inv c -> no_ready h \/ no_completion h \/ no_move_request h ->
  movement_ready_locked (ctl_run h (invalidate_connection t c)) = false /\
  (forall now v, vd_accepted (accept_velocity now v
                    (ctl_run h (invalidate_connection t c))).1 = false) /\
  estop_latched_ (invalidate_connection t c) = estop_latched_ c.
Proof.
  intros Hc Hh.
  assert (Hn : movement_ready_locked (ctl_run h (invalidate_connection t c)) = false).
  { apply ctl_run_closed; try done. by apply (ctl_step_inv t OpInvalidate c Hc). }
  split_and!; [done| |done].
  intros now v. apply not_true_iff_false. rewrite accepted_iff. intros [_ ?]. congruence.
Qed.

(** A velocity call is accepted exactly when its components are finite and the
    gate is open; then it stores the clamped command with the current time.
    Otherwise the stored motion is zeroed, and the error names a condition
    that really fails, in the order readiness, link, system error, authority,
    stop, mode transition, Move state. *)
Theorem accept_velocity_correct now v c :
  let '(d, c') := accept_velocity now v c in
  (vd_accepted d = true <-> finite_velocity v = true /\ movement_ready_locked c = true) /\
  (if vd_accepted d
   then vd_value d = clamp_velocity v /\ velocity_in_range (vd_value d) = true /\
        latest_velocity_ c' = vd_value d /\ last_velocity_time_ c' = now /\
        has_velocity_ c' = true
   else vd_value d = zero_velocity /\ c' = force_zero_locked now c /\
        match vd_error d with
        | Protocol => driver_ready_ c = false
        | SdkDisconnected => cs_sdk_linked (status_ c) = false
        | RobotSystemError => cs_error_code (status_ c) <> 0
        | NoControlAuthority => cs_control_authority (status_ c) = false
        | EmergencyStopLatched => estop_latched_ c = true
        | InvalidCommand =>
            finite_velocity v = false \/ motion_transition_gate_ c = true \/
            mode_transition_pending_ c = true \/
            cs_sport_status (status_ c) <> kSportStateMove
        | _ => False
        end).
Proof.
  pose proof (accepted_iff now v c) as Hiff. revert Hiff. rewrite accept_velocity_spec.
  destruct (finite_velocity v) eqn:Ef; cbn -[rejection_locked]; [|by auto 10].
  destruct (movement_ready_locked c) eqn:Er; cbn -[rejection_locked].
  - intros ?. split_and!; auto with bridge.
  - intros ?. split; [done|]. rewrite rejection_not_accepted.
    unfold rejection_locked. repeat case_match; cbn in *; bool_prop; split_and!; try done; auto.
    + tauto.
    + do 3 right. intros Hs. rewrite movement_ready_intro in Er by tauto. done.
Qed.

(** A mode request is accepted exactly for one of the eight documented names
    (up to case and surrounding blanks) when the driver is ready, linked, free
    of errors and in authority, no transition is pending, and a latched stop
    only lets damping through.  Acceptance zeroes the motion and gates it until
    the transition completes; a rejection changes nothing. *)
Theorem request_mode_correct now name c :
  let '(d, c') := request_mode now name c in
  (md_accepted d = true <->
   exists m, find_mode kModes (normalized_mode name) = Some m /\
    driver_ready_ c = true /\ mode_transition_pending_ c = false /\
    cs_sdk_linked (status_ c) = true /\ cs_error_code (status_ c) = 0 /\
    cs_control_authority (status_ c) = true /\
    (estop_latched_ c = true -> m = 0xA101)) /\
  (if md_accepted d
   then md_mode d ∈ known_modes /\ mode_transition_pending c' = true /\
        pending_mode_ c' = md_mode d /\ has_velocity_ c' = false /\
        movement_ready_locked c' = false
   else c' = c).
Proof.
  pose proof (request_mode_accepted_iff now name c) as Hiff. revert Hiff.
  unfold request_mode. destruct (find_mode _ _) as [m|] eqn:Em; cbn; [|done].
  repeat (case_match; cbn; [done|]). intros Hiff. split; [done|]. split_and!; try done.
  - by eapply find_mode_known.
  - unfold movement_ready_locked. cbn. by destruct (driver_ready_ c).
Qed.

(** A transition can reopen the motion gate only by completing successfully
    while the controller is waiting for Move; every other completion leaves
    the gate shut, and both outcomes discard the stored velocity. *)
Theorem completion_opens_gate_only_for_move now success c :
  let c' := complete_mode_transition now success c in
  (motion_transition_gate_ c' = false <->
   success = true /\ mode_transition_pending_ c = true /\ pending_mode_ c = 0xA104) /\
  mode_transition_pending c' = false /\ has_velocity_ c' = false /\
  (controller_inv c -> controller_inv c').
Proof.
  cbn. split_and!; try done.
  - rewrite negb_false_iff. rewrite !andb_true_iff, Z.eqb_eq. tauto.
  - by apply (ctl_step_inv now (OpComplete success)).
Qed.

(** ** Witnesses *)

(** A gate opened the way the runtime opens it: ready, linked with authority,
    a confirmed Move transition, then one velocity. *)
Definition sample_velocity : VelocityPayload :=
  mkVelocity (f32_of_Z 2) fzero (S754_finite true 8388608 (-24)).

Definition sample_history : list (Z * ctl_op) :=
  [(0, OpSetReady true); (1, OpUpdate (mkStatus true true 0xB102 0));
   (2, OpRequestMode " Move "); (3, OpComplete true);
   (4, OpUpdate (mkStatus true true 0xB104 0)); (10, OpVelocity sample_velocity)].

Definition sample_controller (h : list (Z * ctl_op)) : controller :=
  ctl_run h (mkController 100 default_status zero_velocity 0 false false false
               false false 0).

Lemma tick_only_when_safe_witness :
  vd_value (velocity_for_tick 50 (sample_controller sample_history)) =
    mkVelocity fone32 fzero (S754_finite true 8388608 (-24)) /\
  velocity_in_range (vd_value (velocity_for_tick 50 (sample_controller sample_history))) = true.
Proof.
  split; [vm_compute; reflexivity|].
  apply (tick_only_when_safe 100 (sample_controller sample_history) 50).
  - apply ctl_reachable_run. by apply ctl_init.
  - vm_compute. reflexivity.
Defined.

Lemma tick_never_replays_witness :
  exists h1 t v h2, sample_history = h1 ++ (t, OpVelocity v) :: h2 /\ 50 - t <= 100.
Proof.
  destruct (tick_never_replays 100 (sample_controller []) sample_history 50)
    as (h1 & t & v & h2 & Hh & _ & _ & Ht & _).
  - reflexivity.
  - vm_compute. reflexivity.
  - exists h1, t, v, h2. split; assumption.
Defined.

Lemma estop_dominates_witness :
  vd_accepted (velocity_for_tick 50
    (ctl_run sample_history (trigger_estop 11 (sample_controller sample_history)).2)) = false.
Proof.
  apply (estop_dominates (sample_controller sample_history) 11 sample_history).
  repeat constructor; discriminate.
Defined.

Lemma reconnect_needs_fresh_handshake_witness :
  movement_ready_locked
    (ctl_run [(30, OpSetReady true); (31, OpUpdate (mkStatus true true 0xB104 0))]
       (invalidate_connection 20 (sample_controller sample_history))) = false.
Proof.
  apply (reconnect_needs_fresh_handshake (sample_controller sample_history) 20).
  - apply (ctl_run_inv sample_history). apply (make_controller_inv 100). reflexivity.
  - right. left. repeat constructor; discriminate.
Defined.
