(* ===== verification/LidarParse.v ===== *)
(** * LidarParse: the datagram parsers of [lidar_stream.hpp/.cpp]

    [AstrallPosCloudData] (UDP 6100) and [AstrallOdometryData] (UDP 6101).  A
    datagram is a list of bytes, or [None] for a null pointer.  Every read
    goes through a bounds check of the model: an outcome [None] is a read
    outside the datagram, which the C++ does not check for, and the parsers
    are proved never to have it.  A parse failure is an ordinary result with
    [ok = false] and a reason. *)

From S2P Require Import Prelude Cxx FloatFacts.
From Stdlib Require Import Strings.Byte.

Abbreviation bytes := (list byte).

(** ** Little-endian reads *)

Definition u8 (data : bytes) (i : Z) : option Z :=
  if i <? 0 then None
  else (fun b => Z.of_N (Byte.to_N b)) <$> data !! Z.to_nat i.

Definition ReadU16LE (data : bytes) (p : Z) : option Z :=
  b0 ← u8 data p; b1 ← u8 data (p + 1);
  Some (wrap 16 (Z.lor (Z.land b0 0xFF) (Z.shiftl b1 8))).

Definition ReadU32LE (data : bytes) (p : Z) : option Z :=
  b0 ← u8 data p; b1 ← u8 data (p + 1);
  b2 ← u8 data (p + 2); b3 ← u8 data (p + 3);
  Some (Z.lor (Z.lor (Z.lor (Z.land b0 0xFF) (Z.shiftl (Z.land b1 0xFF) 8))
                (Z.shiftl (Z.land b2 0xFF) 16))
          (Z.shiftl (Z.land b3 0xFF) 24)).

Definition ReadU64LE (data : bytes) (p : Z) : option Z :=
  lo ← ReadU32LE data p; hi ← ReadU32LE data (p + 4);
  Some (Z.lor lo (Z.shiftl hi 32)).

Definition ReadI32LE (data : bytes) (p : Z) : option Z :=
  swrap 32 <$> ReadU32LE data p.

Definition ReadI64LE (data : bytes) (p : Z) : option Z :=
  lo ← ReadU32LE data p; hi ← ReadU32LE data (p + 4);
  Some (swrap 64 (Z.lor lo (Z.shiftl hi 32))).

Definition kHeadMarker : Z := 0xAA55.
Definition kTailMarker : Z := 0xFF00.
Definition kMaxPosNum : Z := 50.
Definition kPointBytes : Z := 28.

(** ** Values *)

Record LidarPoint := mkPoint {
  pt_x : spec_float; pt_y : spec_float; pt_z : spec_float;
  rgba : Z; rgba_channels : list Z }.

#[export] Instance LidarPoint_eq_dec : EqDecision LidarPoint.
Proof. solve_decision. Defined.

(** [operator==]: IEEE equality of the coordinates. *)
Definition LidarPoint_eqb (a b : LidarPoint) : bool :=
  SFeqb (pt_x a) (pt_x b) && SFeqb (pt_y a) (pt_y b) && SFeqb (pt_z a) (pt_z b) &&
  (rgba a =? rgba b) && bool_decide (rgba_channels a = rgba_channels b).

(** [std::vector<LidarPoint>::operator==]. *)
Fixpoint points_eqb (a b : list LidarPoint) : bool :=
  match a, b with
  | [], [] => true
  | p :: a', q :: b' => LidarPoint_eqb p q && points_eqb a' b'
  | _, _ => false
  end.

Record LidarOdometry := mkOdometry {
  od_timestamp_ns : Z;
  od_x : spec_float; od_y : spec_float; od_z : spec_float;
  od_qx : spec_float; od_qy : spec_float; od_qz : spec_float; od_qw : spec_float }.

Definition default_odometry : LidarOdometry :=
  mkOdometry 0 fzero fzero fzero fzero fzero fzero fzero.

Record LidarParseConfig := mkParseConfig {
  point_position_scale : spec_float;
  odom_position_scale : spec_float;
  odom_quaternion_scale : spec_float;
  odom_quaternion_order : string }.

Definition default_parse_config : LidarParseConfig :=
  mkParseConfig (S754_finite false 4611686018427388 (-62))    (* 1e-3 *)
    (S754_finite false 4722366482869645 (-72))                (* 1e-6 *)
    (f64_of_Z 1) "xyzw".

Record PointCloudPacketResult := mkPacket {
  pk_ok : bool; pk_reason : string; pk_timestamp_ns : Z; pk_total : Z;
  pk_index : Z; pk_pos_num : Z; pk_points : list LidarPoint }.

#[export] Instance eta_packet : Eta PointCloudPacketResult := fun r =>
  mkPacket (pk_ok r) (pk_reason r) (pk_timestamp_ns r) (pk_total r) (pk_index r)
    (pk_pos_num r) (pk_points r).

Definition empty_packet : PointCloudPacketResult := mkPacket false "" 0 0 0 0 [].

Record OdometryPacketResult := mkOdomPacket {
  op_ok : bool; op_reason : string; op_odometry : LidarOdometry }.

#[export] Instance eta_odom_packet : Eta OdometryPacketResult := fun r =>
  mkOdomPacket (op_ok r) (op_reason r) (op_odometry r).

Definition empty_odom_packet : OdometryPacketResult :=
  mkOdomPacket false "" default_odometry.

(** ** Configuration checks *)

Definition IsFinitePositive (v : spec_float) : bool := isfinite v && SFltb fzero v.

Definition scale_limit : spec_float := f64_of_Z 1000000000.

Definition ValidateScales (config : LidarParseConfig) : bool :=
  IsFinitePositive (point_position_scale config) &&
  IsFinitePositive (odom_position_scale config) &&
  IsFinitePositive (odom_quaternion_scale config) &&
  SFleb (SFabs (point_position_scale config)) scale_limit &&
  SFleb (SFabs (odom_position_scale config)) scale_limit &&
  SFleb (SFabs (odom_quaternion_scale config)) scale_limit.

Definition ValidQuaternionOrder (order : string) : bool :=
  bool_decide (order = "xyzw"%string) || bool_decide (order = "wxyz"%string).

Definition MakeReason (what : string) : string := "lidar parse failure: " +:+ what.

(** ** Point clouds *)

Record CloudLayout := mkCloudLayout {
  cl_timestamp_at : Z; cl_total_at : Z; cl_index_at : Z; cl_posnum_at : Z;
  cl_pos_at : Z; cl_fixed_len : Z }.

Definition kPackedCloud : CloudLayout :=
  mkCloudLayout 2 10 14 18 20 (20 + 28 * kMaxPosNum + 2).
Definition kAlignedCloud : CloudLayout :=
  mkCloudLayout 8 16 20 24 28 (28 + 28 * kMaxPosNum + 2).

Definition scaled (c : Z) (scale : spec_float) : spec_float :=
  f64_mul (f64_of_Z c) scale.

(** One iteration of the decoding loop; the inner [None] is its failure
    return for a non-finite coordinate. *)
Definition decode_point (data : bytes) (scale : spec_float) (p : Z)
  : option (option LidarPoint) :=
  rx ← ReadI32LE data p; ry ← ReadI32LE data (p + 4); rz ← ReadI32LE data (p + 8);
  let x := scaled rx scale in
  let y := scaled ry scale in
  let z := scaled rz scale in
  if negb (isfinite x) || negb (isfinite y) || negb (isfinite z) then Some None
  else
    c0 ← ReadU32LE data (p + 12); c1 ← ReadU32LE data (p + 16);
    c2 ← ReadU32LE data (p + 20); c3 ← ReadU32LE data (p + 24);
    Some (Some (mkPoint (f32_of_f64 x) (f32_of_f64 y) (f32_of_f64 z) c0 [c0; c1; c2; c3])).

Fixpoint decode_points (data : bytes) (scale : spec_float) (n : nat) (p : Z)
  : option (option (list LidarPoint)) :=
  match n with
  | O => Some (Some [])
  | S n' =>
      d ← decode_point data scale p;
      match d with
      | None => Some None
      | Some pt =>
          rest ← decode_points data scale n' (p + kPointBytes);
          Some (match rest with Some pts => Some (pt :: pts) | None => None end)
      end
  end.

Definition ParsePointCloudWithLayout (data : bytes) (layout : CloudLayout)
  (config : LidarParseConfig) (result : PointCloudPacketResult)
  : option (bool * PointCloudPacketResult) :=
  let len := Z.of_nat (length data) in
  let fail what r := Some (false, r <| pk_reason := MakeReason what |>) in
  if len <? cl_posnum_at layout + 2 then fail "datagram too short for header" result
  else
    pos_num ← ReadU16LE data (cl_posnum_at layout);
    if pos_num =? 0 then fail "pos_num is zero" result
    else if kMaxPosNum <? pos_num then fail "pos_num exceeds the 50-point bound" result
    else
      let dynamic_len := cl_pos_at layout + kPointBytes * pos_num + 2 in
      let tail :=
        if len =? dynamic_len then Some (cl_pos_at layout + kPointBytes * pos_num)
        else if len =? cl_fixed_len layout then Some (cl_fixed_len layout - 2)
        else None in
      match tail with
      | None => fail "datagram length matches no valid tail" result
      | Some tail_at =>
          marker ← ReadU16LE data tail_at;
          if negb (marker =? kTailMarker) then fail "tail marker is not 0xFF00" result
          else
            ts ← ReadU64LE data (cl_timestamp_at layout);
            total ← ReadU32LE data (cl_total_at layout);
            index ← ReadU32LE data (cl_index_at layout);
            let result := result <| pk_timestamp_ns := ts |> <| pk_total := total |>
                            <| pk_index := index |> <| pk_pos_num := pos_num |> in
            if total =? 0 then fail "total point count is zero" result
            else
              d ← decode_points data (point_position_scale config)
                    (Z.to_nat pos_num) (cl_pos_at layout);
              match d with
              | None => fail "point coordinate scaled to non-finite" result
              | Some pts => Some (true, result <| pk_points := pts |> <| pk_ok := true |>)
              end
      end.

Definition ParsePointCloudPacket (data : option bytes) (config : LidarParseConfig)
  : option PointCloudPacketResult :=
  let result := empty_packet in
  if negb (ValidateScales config) then
    Some (result <| pk_reason := MakeReason "invalid scale coefficients" |>)
  else
    match data with
    | None => Some (result <| pk_reason := MakeReason "datagram too short" |>)
    | Some data =>
        if Z.of_nat (length data) <? 2 then
          Some (result <| pk_reason := MakeReason "datagram too short" |>)
        else
          head ← ReadU16LE data 0;
          if negb (head =? kHeadMarker) then
            Some (result <| pk_reason := MakeReason "head marker is not 0xAA55" |>)
          else
            r ← ParsePointCloudWithLayout data kPackedCloud config result;
            let '(ok, result) := (r : bool * PointCloudPacketResult) in
            if ok then Some result
            else
              let packed_reason := pk_reason result in
              r ← ParsePointCloudWithLayout data kAlignedCloud config result;
            let '(ok, result) := (r : bool * PointCloudPacketResult) in
              if ok then Some result
              else
                Some (result <| pk_reason :=
                        if str_empty packed_reason then pk_reason result else packed_reason |>
                      <| pk_ok := false |>)
    end.

(** ** Odometry *)

Record OdomLayout := mkOdomLayout {
  ol_len : Z; ol_timestamp_at : Z; ol_x_at : Z; ol_tail_at : Z }.

Definition kPackedOdom : OdomLayout := mkOdomLayout 68 2 10 66.
Definition kAlignedOdom : OdomLayout := mkOdomLayout 80 8 16 72.

Definition quaternion_norm (qx qy qz qw : spec_float) : spec_float :=
  f64_sqrt (f64_add (f64_add (f64_add (f64_mul qx qx) (f64_mul qy qy)) (f64_mul qz qz))
              (f64_mul qw qw)).

Definition ParseOdomWithLayout (data : bytes) (layout : OdomLayout)
  (config : LidarParseConfig) (result : OdometryPacketResult)
  : option (bool * OdometryPacketResult) :=
  let fail what := Some (false, result <| op_reason := MakeReason what |>) in
  if negb (Z.of_nat (length data) =? ol_len layout) then Some (false, result)
  else
    head ← ReadU16LE data 0;
    if negb (head =? kHeadMarker) then fail "head marker is not 0xAA55"
    else
      tail ← ReadU16LE data (ol_tail_at layout);
      if negb (tail =? kTailMarker) then fail "tail marker is not 0xFF00"
      else
        ts ← ReadU64LE data (ol_timestamp_at layout);
        let sx := odom_position_scale config in
        rx ← ReadI64LE data (ol_x_at layout);
        ry ← ReadI64LE data (ol_x_at layout + 8);
        rz ← ReadI64LE data (ol_x_at layout + 16);
        let x := scaled rx sx in
        let y := scaled ry sx in
        let z := scaled rz sx in
        if negb (isfinite x) || negb (isfinite y) || negb (isfinite z) then
          fail "odometry position scaled to non-finite"
        else if negb (ValidQuaternionOrder (odom_quaternion_order config)) then
          fail "odom_quaternion_order must be 'xyzw' or 'wxyz'"
        else
          let sq := odom_quaternion_scale config in
          r0 ← ReadI64LE data (ol_x_at layout + 24);
          r1 ← ReadI64LE data (ol_x_at layout + 32);
          r2 ← ReadI64LE data (ol_x_at layout + 40);
          r3 ← ReadI64LE data (ol_x_at layout + 48);
          let raw0 := scaled r0 sq in
          let raw1 := scaled r1 sq in
          let raw2 := scaled r2 sq in
          let raw3 := scaled r3 sq in
          let '(qx, qy, qz, qw) :=
            if bool_decide (odom_quaternion_order config = "wxyz"%string)
            then (raw1, raw2, raw3, raw0) else (raw0, raw1, raw2, raw3) in
          let norm := quaternion_norm qx qy qz qw in
          if negb (isfinite norm) || SFeqb norm fzero then
            fail "odometry quaternion norm is zero"
          else
            Some (true,
              result <| op_odometry :=
                mkOdometry ts x y z (f64_div qx norm) (f64_div qy norm)
                  (f64_div qz norm) (f64_div qw norm) |> <| op_ok := true |>).

Definition ParseOdometryPacket (data : option bytes) (config : LidarParseConfig)
  : option OdometryPacketResult :=
  let result := empty_odom_packet in
  let reason what (r : OdometryPacketResult) := r <| op_reason := MakeReason what |> in
  if negb (ValidateScales config) then Some (reason "invalid scale coefficients" result)
  else
    match data with
    | None => Some (reason "datagram too short" result)
    | Some data =>
        let len := Z.of_nat (length data) in
        if len <? 2 then Some (reason "datagram too short" result)
        else if (len <? ol_len kPackedOdom) && (len <? ol_len kAlignedOdom) then
          Some (reason "datagram too short" result)
        else
          head ← ReadU16LE data 0;
          if negb (head =? kHeadMarker) then
            Some (reason "head marker is not 0xAA55" result)
          else
            r ← ParseOdomWithLayout data kPackedOdom config result;
            let '(ok, result) := (r : bool * OdometryPacketResult) in
            if ok then Some result
            else
              r ← ParseOdomWithLayout data kAlignedOdom config result;
            let '(ok, result) := (r : bool * OdometryPacketResult) in
              if ok then Some result
              else if str_empty (op_reason result) then
                Some (reason "datagram length matches neither layout" result)
              else Some result
    end.

(** ** The wire format, stated independently of the parsers

    A little-endian field is the base-256 value of its bytes; [le_bytes] writes
    one. *)

Definition byte_z (b : byte) : Z := Z.of_N (Byte.to_N b).

Fixpoint le_value (l : bytes) : Z :=
  match l with [] => 0 | b :: l' => byte_z b + 256 * le_value l' end.

Definition field (data : bytes) (p : Z) (n : nat) : Z :=
  le_value (take n (drop (Z.to_nat p) data)).

Definition z_byte (z : Z) : byte :=
  default Byte.x00 (Byte.of_N (Z.to_N (z mod 256))).

Fixpoint le_bytes (n : nat) (z : Z) : bytes :=
  match n with O => [] | S n' => z_byte z :: le_bytes n' (z / 256) end.

(** *** Point clouds

    A datagram has the format of a layout when its declared point count is
    between 1 and 50, its length is that of the dynamic or of the fixed tail,
    its last two bytes are the tail marker and its total is not zero. *)

Definition cloud_format (L : CloudLayout) (data : bytes) : bool :=
  let len := Z.of_nat (length data) in
  let num := field data (cl_posnum_at L) 2 in
  (cl_posnum_at L + 2 <=? len) && (1 <=? num) && (num <=? 50) &&
  ((len =? cl_pos_at L + 28 * num + 2) || (len =? cl_pos_at L + 28 * 50 + 2)) &&
  (field data (len - 2) 2 =? 0xFF00) && negb (field data (cl_total_at L) 4 =? 0).

Definition cloud_layout (L : CloudLayout) : Prop := L = kPackedCloud \/ L = kAlignedCloud.

Definition cloud_point (data : bytes) (scale : spec_float) (p : Z) : LidarPoint :=
  let coord q := f32_of_f64 (scaled (swrap 32 (field data q 4)) scale) in
  mkPoint (coord p) (coord (p + 4)) (coord (p + 8)) (field data (p + 12) 4)
    [field data (p + 12) 4; field data (p + 16) 4; field data (p + 20) 4;
     field data (p + 24) 4].

Fixpoint cloud_points (data : bytes) (scale : spec_float) (n : nat) (p : Z)
  : list LidarPoint :=
  match n with
  | O => []
  | S n' => cloud_point data scale p :: cloud_points data scale n' (p + 28)
  end.

(** A failed attempt only sets a reason; it may also have filled in the header
    fields, which the caller ignores. *)
Definition failed_cloud (r r' : PointCloudPacketResult) : Prop :=
  pk_reason r' <> ""%string /\ pk_ok r' = pk_ok r /\ pk_points r' = pk_points r.

Definition parsed_cloud (L : CloudLayout) (data : bytes) (config : LidarParseConfig)
  (reason : string) : PointCloudPacketResult :=
  let num := field data (cl_posnum_at L) 2 in
  mkPacket true reason (field data (cl_timestamp_at L) 8) (field data (cl_total_at L) 4)
    (field data (cl_index_at L) 4) num
    (cloud_points data (point_position_scale config) (Z.to_nat num) (cl_pos_at L)).

Definition cloud_accepts (config : LidarParseConfig) (data : bytes) : bool :=
  ValidateScales config &&
  ((2 <=? Z.of_nat (length data)) && (field data 0 2 =? kHeadMarker)) &&
  (cloud_format kPackedCloud data || cloud_format kAlignedCloud data).

(** *** Odometry *)

Definition odom_coord (data : bytes) (L : OdomLayout) (scale : spec_float) (k : Z)
  : spec_float := scaled (swrap 64 (field data (ol_x_at L + 8 * k) 8)) scale.

(** The four components in the order x, y, z, w. *)
Definition odom_quaternion (data : bytes) (L : OdomLayout) (config : LidarParseConfig)
  : spec_float * spec_float * spec_float * spec_float :=
  let q := odom_coord data L (odom_quaternion_scale config) in
  if bool_decide (odom_quaternion_order config = "wxyz"%string)
  then (q 4, q 5, q 6, q 3) else (q 3, q 4, q 5, q 6).

Definition odom_norm (data : bytes) (L : OdomLayout) (config : LidarParseConfig)
  : spec_float :=
  let '(qx, qy, qz, qw) := odom_quaternion data L config in quaternion_norm qx qy qz qw.

Definition odom_layout (L : OdomLayout) : Prop := L = kPackedOdom \/ L = kAlignedOdom.

Definition odom_format (L : OdomLayout) (config : LidarParseConfig) (data : bytes)
  : bool :=
  (Z.of_nat (length data) =? ol_len L) && (field data 0 2 =? 0xAA55) &&
  (field data (ol_tail_at L) 2 =? 0xFF00) &&
  ValidQuaternionOrder (odom_quaternion_order config) &&
  isfinite (odom_norm data L config) && negb (SFeqb (odom_norm data L config) fzero).

Definition odom_value (data : bytes) (L : OdomLayout) (config : LidarParseConfig)
  : LidarOdometry :=
  let p := odom_coord data L (odom_position_scale config) in
  let '(qx, qy, qz, qw) := odom_quaternion data L config in
  let norm := odom_norm data L config in
  mkOdometry (field data (ol_timestamp_at L) 8) (p 0) (p 1) (p 2)
    (f64_div qx norm) (f64_div qy norm) (f64_div qz norm) (f64_div qw norm).

Definition odom_accepts (config : LidarParseConfig) (data : bytes) : bool :=
  ValidateScales config &&
  (odom_format kPackedOdom config data || odom_format kAlignedOdom config data).

(** *** Encoders: the datagrams the vendor documents *)

Record raw_point := mkRaw {
  raw_x : Z; raw_y : Z; raw_z : Z; raw_c0 : Z; raw_c1 : Z; raw_c2 : Z; raw_c3 : Z }.

Definition raw_point_wf (r : raw_point) : Prop :=
  - 2 ^ 31 <= raw_x r < 2 ^ 31 /\ - 2 ^ 31 <= raw_y r < 2 ^ 31 /\
  - 2 ^ 31 <= raw_z r < 2 ^ 31 /\ 0 <= raw_c0 r < 2 ^ 32 /\ 0 <= raw_c1 r < 2 ^ 32 /\
  0 <= raw_c2 r < 2 ^ 32 /\ 0 <= raw_c3 r < 2 ^ 32.

Definition encode_point (r : raw_point) : bytes :=
  le_bytes 4 (raw_x r) ++ le_bytes 4 (raw_y r) ++ le_bytes 4 (raw_z r) ++
  le_bytes 4 (raw_c0 r) ++ le_bytes 4 (raw_c1 r) ++ le_bytes 4 (raw_c2 r) ++
  le_bytes 4 (raw_c3 r).

Definition pad (n : Z) (b : byte) : bytes := replicate (Z.to_nat n) b.

Definition encode_header (L : CloudLayout) (fill : byte) (ts total index num : Z) : bytes :=
  le_bytes 2 kHeadMarker ++ pad (cl_timestamp_at L - 2) fill ++ le_bytes 8 ts ++
  le_bytes 4 total ++ le_bytes 4 index ++ le_bytes 2 num ++
  pad (cl_pos_at L - cl_posnum_at L - 2) fill.

Definition encode_cloud (L : CloudLayout) (fixed : bool) (fill : byte)
  (ts total index : Z) (raws : list raw_point) : bytes :=
  let num := Z.of_nat (length raws) in
  encode_header L fill ts total index num ++ concat (map encode_point raws) ++
  (if fixed then pad (28 * (50 - num)) fill else []) ++ le_bytes 2 kTailMarker.

Definition odom_args_wf (ts x y z q0 q1 q2 q3 : Z) : Prop :=
  0 <= ts < 2 ^ 64 /\ Forall (fun v => - 2 ^ 63 <= v < 2 ^ 63) [x; y; z; q0; q1; q2; q3].

Definition cloud_args_wf (ts total index : Z) (raws : list raw_point) : Prop :=
  0 <= ts < 2 ^ 64 /\ 0 < total < 2 ^ 32 /\ 0 <= index < 2 ^ 32 /\
  (1 <= length raws <= 50)%nat /\ Forall raw_point_wf raws.

Definition decode_raw (scale : spec_float) (r : raw_point) : LidarPoint :=
  mkPoint (f32_of_f64 (scaled (raw_x r) scale)) (f32_of_f64 (scaled (raw_y r) scale))
    (f32_of_f64 (scaled (raw_z r) scale)) (raw_c0 r)
    [raw_c0 r; raw_c1 r; raw_c2 r; raw_c3 r].

Definition encode_odom (L : OdomLayout) (fill : byte) (ts x y z q0 q1 q2 q3 : Z) : bytes :=
  le_bytes 2 kHeadMarker ++ pad (ol_timestamp_at L - 2) fill ++ le_bytes 8 ts ++
  le_bytes 8 x ++ le_bytes 8 y ++ le_bytes 8 z ++ le_bytes 8 q0 ++ le_bytes 8 q1 ++
  le_bytes 8 q2 ++ le_bytes 8 q3 ++ le_bytes 2 kTailMarker ++
  pad (ol_len L - ol_tail_at L - 2) fill.

(** Every [double] is a valid binary64 value. *)
Definition config_doubles (config : LidarParseConfig) : bool :=
  valid_binary 53 1024 (point_position_scale config) &&
  valid_binary 53 1024 (odom_position_scale config) &&
  valid_binary 53 1024 (odom_quaternion_scale config).

(** *** Little-endian reads *)

Lemma byte_z_range b : 0 <= byte_z b < 256.
Proof. unfold byte_z. pose proof (Byte.to_N_bounded b). lia. Qed.

Lemma byte_z_z_byte z : byte_z (z_byte z) = z mod 256.
Proof.
  unfold byte_z, z_byte. pose proof (Z.mod_pos_bound z 256 ltac:(lia)).
  destruct (Byte.of_N _) as [b|] eqn:E; cbn.
  - apply Byte.to_of_N in E. rewrite E. lia.
  - apply Byte.of_N_None_iff in E. lia.
Qed.

Lemma le_value_range l : 0 <= le_value l < 256 ^ Z.of_nat (length l).
Proof.
  induction l as [|b l IH]; cbn -[Z.pow Z.of_nat]; [lia|].
  pose proof (byte_z_range b). rewrite Nat2Z.inj_succ, Z.pow_succ_r by lia. nia.
Qed.

Lemma le_value_app l k :
  le_value (l ++ k) = le_value l + 256 ^ Z.of_nat (length l) * le_value k.
Proof.
  induction l as [|b l IH]; cbn -[Z.pow Z.of_nat]; [lia|].
  rewrite IH, Nat2Z.inj_succ, Z.pow_succ_r by lia. lia.
Qed.

Lemma length_le_bytes n z : length (le_bytes n z) = n.
Proof. revert z. induction n as [|n IH]; intros z; cbn; auto. Qed.

Lemma le_value_le_bytes n z : le_value (le_bytes n z) = z mod 256 ^ Z.of_nat n.
Proof.
  revert z. induction n as [|n IH]; intros z; cbn [le_bytes le_value].
  { by rewrite Z.mod_1_r. }
  rewrite byte_z_z_byte, IH, Nat2Z.inj_succ, Z.pow_succ_r by lia.
  rewrite Z.rem_mul_r; lia.
Qed.

Lemma lor_shiftl_add a b n :
  0 <= n -> 0 <= a < 2 ^ n -> Z.lor a (Z.shiftl b n) = a + 2 ^ n * b.
Proof.
  intros Hn Ha.
  rewrite <- Z.add_nocarry_lor; [rewrite Z.shiftl_mul_pow2 by done; lia|].
  apply Z.bits_inj'. intros m Hm. rewrite Z.land_spec, Z.bits_0.
  destruct (decide (m < n)).
  - rewrite Z.shiftl_spec_low by done. apply andb_false_r.
  - destruct (decide (a = 0)) as [->|]; [by rewrite Z.bits_0|].
    rewrite (Z.bits_above_log2 a m); [done|lia|].
    apply Z.log2_lt_pow2; [lia|]. apply Z.lt_le_trans with (2 ^ n); [lia|].
    apply Z.pow_le_mono_r; lia.
Qed.

Lemma land_byte b : Z.land (byte_z b) 0xFF = byte_z b.
Proof.
  change 0xFF with (Z.ones 8). rewrite Z.land_ones by lia.
  apply Z.mod_small, byte_z_range.
Qed.

Lemma u8_add data p k i l :
  0 <= p -> k = Z.of_nat i -> drop (Z.to_nat p) data = l ->
  u8 data (p + k) = byte_z <$> l !! i.
Proof.
  intros Hp -> <-. unfold u8. destruct (_ <? _) eqn:E; [arith|].
  rewrite lookup_drop. do 2 f_equal. lia.
Qed.

Lemma u8_at data p b l :
  0 <= p -> drop (Z.to_nat p) data = b :: l -> u8 data p = Some (byte_z b).
Proof.
  intros Hp H. replace p with (p + 0) by lia.
  by rewrite (u8_add data p 0 0 _ Hp eq_refl H).
Qed.

Lemma drop_split (data : bytes) p n :
  0 <= p -> p + Z.of_nat n <= Z.of_nat (length data) ->
  exists l r : bytes, drop (Z.to_nat p) data = l ++ r /\ length l = n /\
    take n (drop (Z.to_nat p) data) = l.
Proof.
  intros Hp Hn. exists (take n (drop (Z.to_nat p) data)), (drop n (drop (Z.to_nat p) data)).
  split_and!; [by rewrite take_drop| |done].
  rewrite length_take, length_drop. lia.
Qed.

Lemma ReadU16LE_field data p :
  0 <= p -> p + 2 <= Z.of_nat (length data) -> ReadU16LE data p = Some (field data p 2).
Proof.
  intros Hp Hl. unfold ReadU16LE, field.
  destruct (drop_split data p 2 Hp Hl) as ([|b0 [|b1 []]] & r & Hd & Hn & ->); try done.
  rewrite (u8_at _ _ _ _ Hp Hd), (u8_add _ _ 1 1 _ Hp eq_refl Hd). cbn -[Z.land Z.shiftl Z.lor].
  pose proof (byte_z_range b0). pose proof (byte_z_range b1).
  rewrite land_byte, lor_shiftl_add by lia. rewrite wrap_small by lia. f_equal. lia.
Qed.

Lemma ReadU32LE_field data p :
  0 <= p -> p + 4 <= Z.of_nat (length data) -> ReadU32LE data p = Some (field data p 4).
Proof.
  intros Hp Hl. unfold ReadU32LE, field.
  destruct (drop_split data p 4 Hp Hl) as ([|b0 [|b1 [|b2 [|b3 []]]]] & r & Hd & Hn & ->); try done.
  rewrite (u8_at _ _ _ _ Hp Hd), (u8_add _ _ 1 1 _ Hp eq_refl Hd), (u8_add _ _ 2 2 _ Hp eq_refl Hd),
    (u8_add _ _ 3 3 _ Hp eq_refl Hd). cbn -[Z.land Z.shiftl Z.lor].
  pose proof (byte_z_range b0). pose proof (byte_z_range b1).
  pose proof (byte_z_range b2). pose proof (byte_z_range b3).
  rewrite !land_byte, (lor_shiftl_add (byte_z b0)), (lor_shiftl_add (byte_z b0 + _)),
    (lor_shiftl_add (byte_z b0 + _ + _)) by lia. f_equal. lia.
Qed.

Lemma field_range data p n : 0 <= field data p n < 256 ^ Z.of_nat n.
Proof.
  unfold field. pose proof (le_value_range (take n (drop (Z.to_nat p) data))) as H.
  assert (256 ^ Z.of_nat (length (take n (drop (Z.to_nat p) data))) <= 256 ^ Z.of_nat n).
  { apply Z.pow_le_mono_r; [lia|]. rewrite length_take. lia. }
  lia.
Qed.

Lemma field_8 data p :
  0 <= p -> p + 8 <= Z.of_nat (length data) ->
  field data p 8 = field data p 4 + 2 ^ 32 * field data (p + 4) 4.
Proof.
  intros Hp Hl. unfold field. rewrite Z2Nat.inj_add by lia.
  rewrite <- drop_drop. change (take 8) with (@take byte (4 + 4)).
  rewrite <- take_take_drop, le_value_app, length_take, length_drop.
  replace (4 `min` _)%nat with 4%nat by lia. done.
Qed.

Lemma ReadU64LE_field data p :
  0 <= p -> p + 8 <= Z.of_nat (length data) -> ReadU64LE data p = Some (field data p 8).
Proof.
  intros Hp Hl. unfold ReadU64LE. rewrite !ReadU32LE_field by lia. cbn -[Z.lor Z.shiftl].
  pose proof (field_range data p 4). rewrite lor_shiftl_add by lia. by rewrite field_8.
Qed.

Lemma ReadI32LE_field data p :
  0 <= p -> p + 4 <= Z.of_nat (length data) ->
  ReadI32LE data p = Some (swrap 32 (field data p 4)).
Proof. intros Hp Hl. unfold ReadI32LE. by rewrite ReadU32LE_field. Qed.

Lemma ReadI64LE_field data p :
  0 <= p -> p + 8 <= Z.of_nat (length data) ->
  ReadI64LE data p = Some (swrap 64 (field data p 8)).
Proof.
  intros Hp Hl. unfold ReadI64LE. rewrite !ReadU32LE_field by lia. cbn -[Z.lor Z.shiftl swrap].
  pose proof (field_range data p 4). rewrite lor_shiftl_add by lia. by rewrite field_8.
Qed.

Ltac read_fields :=
  rewrite ?ReadU16LE_field, ?ReadU32LE_field, ?ReadU64LE_field, ?ReadI32LE_field,
    ?ReadI64LE_field by lia; cbn [mbind option_bind].

(** *** Scaled values are finite *)

Lemma ValidateScales_small config :
  ValidateScales config = true -> config_doubles config = true ->
  small_float 53 (-23) (point_position_scale config) /\
  small_float 53 (-23) (odom_position_scale config) /\
  small_float 53 (-23) (odom_quaternion_scale config).
Proof.
  unfold ValidateScales, IsFinitePositive, config_doubles. intros H1 H2. bool_prop.
  split_and!; by apply valid_le_1e9_small.
Qed.

Lemma scaled_finite c scale :
  - 2 ^ 63 <= c < 2 ^ 63 -> small_float 53 (-23) scale -> isfinite (scaled c scale) = true.
Proof.
  intros Hc Hs. unfold scaled.
  apply (f64_mul_small _ _ 65 129 53 (-23)); [apply f64_of_Z_small; lia|done|lia..].
Qed.

Lemma scaled_swrap_finite w c scale :
  0 < w <= 64 -> small_float 53 (-23) scale -> isfinite (scaled (swrap w c) scale) = true.
Proof.
  intros Hw Hs. apply scaled_finite; [|done].
  pose proof (swrap_range w c ltac:(lia)).
  assert (2 ^ (w - 1) <= 2 ^ 63) by (apply Z.pow_le_mono_r; lia). lia.
Qed.

(** *** The point cloud parser *)

Lemma decode_point_spec data scale p :
  0 <= p -> p + 28 <= Z.of_nat (length data) -> small_float 53 (-23) scale ->
  decode_point data scale p = Some (Some (cloud_point data scale p)).
Proof.
  intros Hp Hl Hs. unfold decode_point. read_fields.
  by rewrite !scaled_swrap_finite by (done || lia).
Qed.

Lemma decode_points_spec data scale n p :
  0 <= p -> p + 28 * Z.of_nat n <= Z.of_nat (length data) -> small_float 53 (-23) scale ->
  decode_points data scale n p = Some (Some (cloud_points data scale n p)).
Proof.
  revert p. induction n as [|n IH]; intros p Hp Hl Hs; cbn [decode_points cloud_points]; [done|].
  rewrite decode_point_spec by (done || lia). cbn [mbind option_bind].
  unfold kPointBytes. by rewrite IH by (done || lia).
Qed.

Lemma length_cloud_points data scale n p : length (cloud_points data scale n p) = n.
Proof. revert p. induction n; intros p; cbn; auto. Qed.

Lemma tail_choice (L : CloudLayout) len num :
  cl_fixed_len L = cl_pos_at L + 28 * 50 + 2 ->
  (if len =? cl_pos_at L + kPointBytes * num + 2 then Some (cl_pos_at L + kPointBytes * num)
   else if len =? cl_fixed_len L then Some (cl_fixed_len L - 2) else None) =
  (if (len =? cl_pos_at L + 28 * num + 2) || (len =? cl_pos_at L + 28 * 50 + 2)
   then Some (len - 2) else None).
Proof.
  intros ->. unfold kPointBytes.
  destruct (Z.eqb_spec len (cl_pos_at L + 28 * num + 2)); cbn [orb]; [f_equal; lia|].
  destruct (Z.eqb_spec len (cl_pos_at L + 28 * 50 + 2)); [f_equal; lia|done].
Qed.

Lemma ParsePointCloudWithLayout_spec L data config r :
  cloud_layout L -> small_float 53 (-23) (point_position_scale config) ->
  (cloud_format L data = true ->
   ParsePointCloudWithLayout data L config r =
     Some (true, parsed_cloud L data config (pk_reason r))) /\
  (cloud_format L data = false -> exists r',
   ParsePointCloudWithLayout data L config r = Some (false, r') /\ failed_cloud r r').
Proof.
  intros HL Hs. unfold ParsePointCloudWithLayout, cloud_format.
  set (len := Z.of_nat (length data)).
  assert (Hwf : 0 <= cl_timestamp_at L /\ cl_timestamp_at L + 8 <= cl_total_at L /\
    cl_total_at L + 4 <= cl_index_at L /\ cl_index_at L + 4 <= cl_posnum_at L /\
    cl_posnum_at L + 2 <= cl_pos_at L /\ cl_fixed_len L = cl_pos_at L + 28 * 50 + 2).
  { destruct HL as [-> | ->]; unfold kPackedCloud, kAlignedCloud, kMaxPosNum; cbn; lia. }
  destruct (len <? cl_posnum_at L + 2) eqn:E1.
  { replace (_ <=? len) with false by arith. split; [done|]. by intros _; eexists. }
  replace (_ <=? len) with true by arith. rewrite ReadU16LE_field by arith.
  cbn [mbind option_bind andb]. pose proof (field_range data (cl_posnum_at L) 2) as Hn.
  set (num := field data (cl_posnum_at L) 2) in *.
  destruct (num =? 0) eqn:E2.
  { replace (1 <=? num) with false by arith. split; [done|]. by intros _; eexists. }
  unfold kMaxPosNum. destruct (50 <? num) eqn:E3.
  { replace (num <=? 50) with false by arith. rewrite andb_false_r.
    split; [done|]. by intros _; eexists. }
  replace (1 <=? num) with true by arith. replace (num <=? 50) with true by arith.
  rewrite tail_choice by lia. cbn [andb].
  destruct (_ || _) eqn:E4; [|split; [done|]; by intros _; eexists].
  assert (Hlen : cl_pos_at L + 28 * num + 2 <= len) by (destruct (orb_prop _ _ E4); arith).
  cbn [andb]. rewrite ReadU16LE_field by (bool_prop; subst len; lia).
  cbn [mbind option_bind]. unfold kTailMarker.
  destruct (_ =? 0xFF00) eqn:E5; cbn [negb]; [|split; [done|]; by intros _; eexists].
  rewrite ReadU64LE_field, !ReadU32LE_field by (bool_prop; subst len; lia).
  cbn [mbind option_bind andb].
  destruct (field data (cl_total_at L) 4 =? 0) eqn:E6; cbn [negb].
  { split; [done|]. by intros _; eexists. }
  rewrite decode_points_spec by (done || (bool_prop; subst len; lia)).
  split; [done|discriminate].
Qed.

Lemma cloud_format_length L data :
  cloud_layout L -> cloud_format L data = true -> 30 <= Z.of_nat (length data).
Proof.
  intros HL. unfold cloud_format.
  destruct HL as [-> | ->]; unfold kPackedCloud, kAlignedCloud, kMaxPosNum; cbn -[field];
    intros H; bool_prop; destruct_or!; arith.
Qed.

Lemma cloud_format_num L data :
  cloud_format L data = true ->
  1 <= field data (cl_posnum_at L) 2 <= 50 /\ field data (cl_total_at L) 4 <> 0.
Proof. unfold cloud_format. intros H. bool_prop. lia. Qed.

Lemma cloud_formats_disjoint data :
  cloud_format kPackedCloud data = true -> cloud_format kAlignedCloud data = false.
Proof.
  intros Hp. apply not_true_iff_false. intros Ha. revert Hp Ha.
  unfold cloud_format, kPackedCloud, kAlignedCloud, kMaxPosNum. cbn -[field].
  intros Hp Ha. bool_prop. destruct_or!; arith.
Qed.

(** The packet parser in terms of the format. *)
Lemma ParsePointCloudPacket_formats data config :
  ValidateScales config = true -> config_doubles config = true ->
  (2 <=? Z.of_nat (length data)) && (field data 0 2 =? kHeadMarker) = true ->
  (forall L, cloud_layout L -> cloud_format L data = true -> exists reason,
     ParsePointCloudPacket (Some data) config = Some (parsed_cloud L data config reason)) /\
  (cloud_format kPackedCloud data = false -> cloud_format kAlignedCloud data = false ->
   exists r, ParsePointCloudPacket (Some data) config = Some r /\
     failed_cloud empty_packet r).
Proof.
  intros Hv Hd Hh. bool_prop. pose proof (ValidateScales_small _ Hv Hd) as (Hs & _ & _).
  unfold ParsePointCloudPacket. rewrite Hv. replace (_ <? 2) with false by arith.
  read_fields. replace (field data 0 2 =? kHeadMarker) with true by arith. cbn [negb].
  pose proof (ParsePointCloudWithLayout_spec kPackedCloud data config) as Hp.
  pose proof (ParsePointCloudWithLayout_spec kAlignedCloud data config) as Ha.
  split.
  - intros L [-> | ->] HL.
    + destruct (Hp empty_packet (or_introl eq_refl) Hs) as [Hok _]. rewrite (Hok HL). by eexists.
    + destruct (Hp empty_packet (or_introl eq_refl) Hs) as [_ (r & -> & Hr)].
      { apply not_true_iff_false. intros Hx%cloud_formats_disjoint. congruence. }
      cbn [mbind option_bind].
      destruct (Ha r (or_intror eq_refl) Hs) as [Hok _]. rewrite (Hok HL). by eexists.
  - intros Hnp Hna.
    destruct (Hp empty_packet (or_introl eq_refl) Hs) as [_ (r & -> & Hr)]; [done|].
    cbn [mbind option_bind].
    destruct (Ha r (or_intror eq_refl) Hs) as [_ (r' & -> & Hr')]; [done|].
    cbn [mbind option_bind]. eexists. split; [done|].
    destruct Hr as (Hr1 & Hr2 & Hr3), Hr' as (? & ? & ?). unfold failed_cloud. cbn in *.
    split_and!; [|done|congruence]. destruct (pk_reason r); [by destruct Hr1|done].
Qed.

(** *** The odometry parser *)

Definition failed_odom (r r' : OdometryPacketResult) : Prop :=
  op_ok r' = op_ok r /\ op_odometry r' = op_odometry r.

Lemma ParseOdomWithLayout_spec L data config r :
  odom_layout L -> small_float 53 (-23) (odom_position_scale config) ->
  small_float 53 (-23) (odom_quaternion_scale config) ->
  (odom_format L config data = true ->
   ParseOdomWithLayout data L config r =
     Some (true, mkOdomPacket true (op_reason r) (odom_value data L config))) /\
  (odom_format L config data = false -> exists r',
   ParseOdomWithLayout data L config r = Some (false, r') /\ failed_odom r r').
Proof.
  intros HL Hs Hq.
  assert (Hwf : 0 <= ol_timestamp_at L /\ ol_timestamp_at L + 8 <= ol_x_at L /\
    ol_x_at L + 56 <= ol_tail_at L /\ ol_tail_at L + 2 <= ol_len L).
  { destruct HL as [-> | ->]; cbn; lia. }
  unfold ParseOdomWithLayout, odom_format.
  destruct (_ =? ol_len L) eqn:E1; cbn [negb]; [|split; [done|]; by intros _; eexists].
  bool_prop. read_fields. unfold kHeadMarker, kTailMarker.
  destruct (field data 0 2 =? _); cbn [negb]; [|split; [done|]; by intros _; eexists].
  destruct (field data (ol_tail_at L) 2 =? _); cbn [negb]; [|split; [done|]; by intros _; eexists].
  rewrite !scaled_swrap_finite by (done || lia). cbn [negb orb].
  destruct (ValidQuaternionOrder _); cbn [negb andb]; [|split; [done|]; by intros _; eexists].
  unfold odom_value, odom_norm, odom_quaternion, odom_coord.
  change (8 * 0) with 0. change (8 * 1) with 8. change (8 * 2) with 16.
  change (8 * 3) with 24. change (8 * 4) with 32. change (8 * 5) with 40.
  change (8 * 6) with 48. rewrite Z.add_0_r.
  destruct (bool_decide _).
  all: match goal with |- context [negb (isfinite ?n) || _] => destruct (isfinite n); [|split; [done|]; by intros _; eexists] end.
  all: cbn [negb orb andb].
  all: match goal with |- context [SFeqb ?n fzero] => destruct (SFeqb n fzero); [split; [done|]; by intros _; eexists|] end.
  all: split; [done|discriminate].
Qed.

(** *** Encoders *)

Lemma field_skip (l r : bytes) p n :
  Z.of_nat (length l) <= p ->
  field (l ++ r) p n = field r (p - Z.of_nat (length l)) n.
Proof.
  intros Hp. unfold field. rewrite drop_app_ge by lia. do 3 f_equal. lia.
Qed.

Lemma field_here n z r : field (le_bytes n z ++ r) 0 n = z mod 256 ^ Z.of_nat n.
Proof.
  unfold field. change (Z.to_nat 0) with 0%nat. rewrite drop_0.
  rewrite <- (length_le_bytes n z) at 1. rewrite take_app_length. apply le_value_le_bytes.
Qed.

Lemma field_last (l : bytes) z :
  0 <= z < 2 ^ 16 ->
  field (l ++ le_bytes 2 z) (Z.of_nat (length (l ++ le_bytes 2 z)) - 2) 2 = z.
Proof.
  intros Hz. rewrite length_app, length_le_bytes, field_skip by lia.
  replace (_ - 2 - _) with 0 by lia. rewrite <- (app_nil_r (le_bytes 2 z)), field_here.
  by apply Z.mod_small.
Qed.

(** The signed conversion undoes the encoding's reduction. *)
Lemma swrap_mod w n z :
  w = 8 * Z.of_nat n -> (0 < n)%nat -> - 2 ^ (w - 1) <= z < 2 ^ (w - 1) ->
  swrap w (z mod 256 ^ Z.of_nat n) = z.
Proof.
  intros -> Hn Hz. rewrite <- (swrap_small (8 * Z.of_nat n) z) at 2 by lia.
  unfold swrap, wrap. rewrite Z.pow_mul_r by lia. change (2 ^ 8) with 256.
  by rewrite Zmod_mod.
Qed.

(** Evaluates the one field of the goal in an encoded datagram. *)
Ltac encoded_length :=
  rewrite ?length_app, ?length_le_bytes, ?length_replicate; lia.
Ltac encoded_field :=
  repeat (rewrite field_skip; [|encoded_length]);
  match goal with |- context [field _ ?p _] => replace p with 0 by encoded_length end;
  rewrite field_here;
  first [apply swrap_mod; [done|lia|done] | apply Z.mod_small; lia | done].

Lemma length_encode_point r : length (encode_point r) = 28%nat.
Proof. unfold encode_point. by rewrite !length_app, !length_le_bytes. Qed.

Lemma length_encode_points raws :
  length (concat (map encode_point raws)) = (28 * length raws)%nat.
Proof.
  induction raws as [|r raws IH]; cbn [map concat length]; [done|].
  rewrite length_app, length_encode_point, IH. lia.
Qed.

Lemma cloud_point_encode pre r post scale :
  raw_point_wf r ->
  cloud_point (pre ++ encode_point r ++ post) scale (Z.of_nat (length pre)) = decode_raw scale r.
Proof.
  intros (Hx & Hy & Hz & H0 & H1 & H2 & H3). unfold cloud_point, decode_raw, encode_point.
  rewrite <- !app_assoc.
  assert (forall z, length (le_bytes 4 z) = 4%nat) by (intros; apply length_le_bytes).
  repeat first [done | f_equal; encoded_field | f_equal].
Qed.

Lemma cloud_points_encode raws pre post scale :
  Forall raw_point_wf raws ->
  cloud_points (pre ++ concat (map encode_point raws) ++ post) scale (length raws)
    (Z.of_nat (length pre)) = map (decode_raw scale) raws.
Proof.
  intros Hr. revert pre. induction Hr as [|r raws Hr _ IH]; intros pre;
    cbn [map concat length cloud_points]; [done|].
  rewrite <- app_assoc, cloud_point_encode by done. f_equal.
  rewrite (app_assoc pre).
  replace (Z.of_nat (length pre) + 28) with (Z.of_nat (length (pre ++ encode_point r))); [done|].
  rewrite length_app, length_encode_point. lia.
Qed.

Lemma length_encode_header L fill ts total index num :
  cloud_layout L ->
  Z.of_nat (length (encode_header L fill ts total index num)) = cl_pos_at L.
Proof.
  intros [-> | ->]; unfold encode_header, pad; cbn [cl_timestamp_at cl_pos_at cl_posnum_at
    kPackedCloud kAlignedCloud]; rewrite !length_app, !length_le_bytes, !length_replicate; done.
Qed.

Lemma length_encode_cloud L fixed fill ts total index raws :
  cloud_layout L -> (length raws <= 50)%nat ->
  Z.of_nat (length (encode_cloud L fixed fill ts total index raws)) =
    cl_pos_at L + 28 * (if fixed then 50 else Z.of_nat (length raws)) + 2.
Proof.
  intros HL Hn. unfold encode_cloud, pad.
  rewrite !length_app, !Nat2Z.inj_add, length_encode_header, length_encode_points,
    length_le_bytes by done.
  destruct fixed; rewrite ?length_replicate; cbn [length]; lia.
Qed.

Lemma encode_header_fields L fill ts total index num rest :
  cloud_layout L -> 0 <= ts < 2 ^ 64 -> 0 <= total < 2 ^ 32 -> 0 <= index < 2 ^ 32 ->
  0 <= num < 2 ^ 16 ->
  let d := encode_header L fill ts total index num ++ rest in
  field d 0 2 = kHeadMarker /\ field d (cl_timestamp_at L) 8 = ts /\
  field d (cl_total_at L) 4 = total /\ field d (cl_index_at L) 4 = index /\
  field d (cl_posnum_at L) 2 = num.
Proof.
  intros HL Ht Hn Hi Hm d. subst d. unfold encode_header, pad. rewrite <- !app_assoc.
  destruct HL as [-> | ->]; cbn [cl_timestamp_at cl_total_at cl_index_at cl_pos_at cl_posnum_at
    kPackedCloud kAlignedCloud]; split_and!; encoded_field.
Qed.

(** *** Whole datagrams *)

Lemma ParsePointCloudPacket_rejects data config :
  (forall d, data = Some d -> ValidateScales config &&
     ((2 <=? Z.of_nat (length d)) && (field d 0 2 =? kHeadMarker)) = false) ->
  exists r, ParsePointCloudPacket data config = Some r /\ failed_cloud empty_packet r.
Proof.
  intros H. unfold ParsePointCloudPacket.
  destruct (ValidateScales config); cbn [negb]; [|by eexists].
  destruct data as [d|]; [|by eexists]. specialize (H d eq_refl). cbn [andb] in H.
  destruct (_ <? 2) eqn:E1; [by eexists|].
  replace (2 <=? _) with true in H by arith. cbn [andb] in H. bool_prop.
  read_fields. replace (_ =? kHeadMarker) with false by arith. by eexists.
Qed.

Lemma ParsePointCloudPacket_total data config :
  config_doubles config = true ->
  exists r, ParsePointCloudPacket data config = Some r /\
    (pk_ok r = true /\ (exists d, data = Some d /\ cloud_accepts config d = true) \/
     failed_cloud empty_packet r /\ forall d, data = Some d -> cloud_accepts config d = false).
Proof.
  intros Hd. unfold cloud_accepts.
  destruct (match data with Some d => ValidateScales config &&
     ((2 <=? Z.of_nat (length d)) && (field d 0 2 =? kHeadMarker)) | None => false end) eqn:E.
  - destruct data as [d|]; [|done]. apply andb_true_iff in E as [Hv Hh].
    destruct (ParsePointCloudPacket_formats d config Hv Hd Hh) as [Hok Hno].
    destruct (cloud_format kPackedCloud d) eqn:Ep; [|destruct (cloud_format kAlignedCloud d) eqn:Ea].
    + destruct (Hok kPackedCloud (or_introl eq_refl) Ep) as [reason ->].
      eexists. split; [done|]. left. split; [done|]. exists d. by rewrite Hv, Hh, Ep.
    + destruct (Hok kAlignedCloud (or_intror eq_refl) Ea) as [reason ->].
      eexists. split; [done|]. left. split; [done|]. exists d. by rewrite Hv, Hh, Ep, Ea.
    + destruct (Hno eq_refl eq_refl) as (r & -> & Hr). eexists. split; [done|]. right.
      split; [done|]. intros d' [= <-]. rewrite Ep, Ea. apply andb_false_r.
  - destruct (ParsePointCloudPacket_rejects data config) as (r & -> & Hr).
    { by intros d ->. }
    eexists. split; [done|]. right. split; [done|]. intros d ->. by rewrite E.
Qed.

Lemma odom_formats_disjoint config data :
  odom_format kPackedOdom config data = true -> odom_format kAlignedOdom config data = false.
Proof.
  intros Hp. apply not_true_iff_false. intros Ha. revert Hp Ha.
  unfold odom_format, kPackedOdom, kAlignedOdom. cbn [ol_len]. intros Hp Ha. arith.
Qed.

Lemma odom_format_head L config data :
  odom_layout L -> odom_format L config data = true ->
  68 <= Z.of_nat (length data) /\ field data 0 2 = kHeadMarker.
Proof.
  unfold odom_format. intros [-> | ->] H; cbn [ol_len kPackedOdom kAlignedOdom] in H;
    bool_prop; (split; [lia|done]).
Qed.

Definition odom_result (config : LidarParseConfig) (data : option bytes)
  (r : OdometryPacketResult) : Prop :=
  op_ok r = true /\ (exists d L, data = Some d /\ odom_layout L /\
    odom_accepts config d = true /\ odom_format L config d = true /\
    op_odometry r = odom_value d L config) \/
  (op_reason r <> ""%string /\ op_ok r = false /\ op_odometry r = default_odometry) /\
  forall d, data = Some d -> odom_accepts config d = false.

Lemma odom_formats_false config d :
  Z.of_nat (length d) < 68 \/ field d 0 2 <> kHeadMarker -> odom_accepts config d = false.
Proof.
  intros H. apply not_true_iff_false. unfold odom_accepts.
  intros [_ [Hf|Hf]%orb_true_iff]%andb_true_iff;
    apply odom_format_head in Hf; (lia || (by left) || by right).
Qed.

Lemma ParseOdometryPacket_total data config :
  config_doubles config = true ->
  exists r, ParseOdometryPacket data config = Some r /\ odom_result config data r.
Proof.
  intros Hd. unfold ParseOdometryPacket.
  destruct (ValidateScales config) eqn:Hv; cbn [negb].
  2: { eexists; split; [done|]. right. split; [done|]. intros d _. unfold odom_accepts. by rewrite Hv. }
  destruct data as [d|]; [|by eexists; split; [|right]].
  assert (Hrej : forall what, Z.of_nat (length d) < 68 \/ field d 0 2 <> kHeadMarker ->
    odom_result config (Some d) (mkOdomPacket false (MakeReason what) default_odometry)).
  { intros what H. right. split; [done|]. intros d' [= <-]. by apply odom_formats_false. }
  destruct (_ <? 2) eqn:E1; [eexists; split; [done|]; apply Hrej; arith|].
  unfold ol_len at 1 2. cbn [kPackedOdom kAlignedOdom].
  destruct ((_ <? 68) && _) eqn:E2; [eexists; split; [done|]; apply Hrej; arith|].
  assert (68 <= Z.of_nat (length d)) by (bool_prop; destruct_or!; arith).
  read_fields. destruct (_ =? kHeadMarker) eqn:E3; cbn [negb];
    [|eexists; split; [done|]; apply Hrej; right; arith].
  pose proof (ValidateScales_small _ Hv Hd) as (_ & Hs & Hq).
  destruct (ParseOdomWithLayout_spec kPackedOdom d config empty_odom_packet) as [Hp Hp'];
    [by left|done|done|].
  destruct (odom_format kPackedOdom config d) eqn:Ep.
  { rewrite Hp by done. eexists. split; [done|]. left. split; [done|]. exists d, kPackedOdom.
    split_and!; try done; [by left|]. unfold odom_accepts. by rewrite Hv, Ep. }
  destruct Hp' as (r & -> & Hr); [done|]. cbn [mbind option_bind].
  destruct (ParseOdomWithLayout_spec kAlignedOdom d config r) as [Ha Ha']; [by right|done|done|].
  destruct (odom_format kAlignedOdom config d) eqn:Ea.
  { rewrite Ha by done. eexists. split; [done|]. left. split; [done|]. exists d, kAlignedOdom.
    split_and!; try done; [by right|]. unfold odom_accepts. by rewrite Hv, Ep, Ea. }
  destruct Ha' as (r' & -> & Hr'); [done|]. cbn [mbind option_bind].
  unfold failed_odom in *. destruct Hr as [Hr1 Hr2], Hr' as [Hr1' Hr2'].
  assert (Hno : forall d', Some d = Some d' -> odom_accepts config d' = false).
  { intros d' [= <-]. unfold odom_accepts. rewrite Ep, Ea. apply andb_false_r. }
  destruct (op_reason r') eqn:Er; cbn [str_empty]; eexists; (split; [done|]); right;
    (split; [|done]); split_and!; try (cbn; congruence);
    cbn [op_ok op_odometry over eta_odom_packet]; by rewrite ?Hr1', ?Hr2', ?Hr1, ?Hr2.
Qed.

Lemma length_encode_odom L fill ts x y z q0 q1 q2 q3 :
  odom_layout L ->
  Z.of_nat (length (encode_odom L fill ts x y z q0 q1 q2 q3)) = ol_len L.
Proof.
  intros [-> | ->]; unfold encode_odom, pad; cbn [ol_len ol_timestamp_at ol_tail_at kPackedOdom
    kAlignedOdom]; rewrite !length_app, !length_le_bytes, !length_replicate; done.
Qed.

Lemma encode_odom_fields L fill ts x y z q0 q1 q2 q3 :
  odom_layout L -> odom_args_wf ts x y z q0 q1 q2 q3 ->
  let d := encode_odom L fill ts x y z q0 q1 q2 q3 in
  field d 0 2 = kHeadMarker /\ field d (ol_tail_at L) 2 = kTailMarker /\
  field d (ol_timestamp_at L) 8 = ts /\
  forall scale k v, [x; y; z; q0; q1; q2; q3] !! k = Some v ->
    odom_coord d L scale (Z.of_nat k) = scaled v scale.
Proof.
  intros HL (Ht & Hv) d. subst d.
  assert (Hlk : forall k v, [x; y; z; q0; q1; q2; q3] !! k = Some v ->
    - 2 ^ (64 - 1) <= v < 2 ^ (64 - 1)).
  { intros k v Hk. exact (Forall_lookup_1 _ _ _ _ Hv Hk). }
  unfold odom_coord, encode_odom, pad.
  destruct HL as [-> | ->]; cbn [ol_tail_at ol_timestamp_at ol_x_at ol_len kPackedOdom
    kAlignedOdom]; split_and!; try encoded_field;
    intros scale k v Hk; pose proof (Hlk _ _ Hk); f_equal; revert Hk;
    destruct k as [|[|[|[|[|[|[|n]]]]]]]; intros [= ->]; encoded_field.
Qed.

(** ** Properties *)

(** What a successful parse returns. *)
Lemma ParsePointCloudPacket_ok data config r :
  config_doubles config = true -> ParsePointCloudPacket data config = Some r -> pk_ok r = true ->
  exists d L reason, data = Some d /\ cloud_layout L /\ cloud_format L d = true /\
    r = parsed_cloud L d config reason.
Proof.
  intros Hd Hp Hok. destruct (ParsePointCloudPacket_total data config Hd) as (r' & Hp' & Hr).
  rewrite Hp in Hp'. injection Hp' as <-. destruct Hr as [(_ & d & -> & Ha)|[(_ & Hno & _) _]]; [|cbn in Hno; congruence].
  unfold cloud_accepts in Ha. apply andb_true_iff in Ha as [[Hv Hh]%andb_true_iff Hf].
  destruct (ParsePointCloudPacket_formats d config Hv Hd Hh) as [Hall _].
  assert (HL : exists L, cloud_layout L /\ cloud_format L d = true).
  { apply orb_true_iff in Hf as [Hf|Hf]; eexists; (split; [|exact Hf]); [by left|by right]. }
  destruct HL as (L & HL & HfL). destruct (Hall L HL HfL) as [reason Hr]. exists d, L, reason.
  split_and!; try done. rewrite Hp in Hr. by injection Hr.
Qed.

Lemma cloud_points_lookup data scale n p o x :
  cloud_points data scale n p !! o = Some x ->
  (o < n)%nat /\ x = cloud_point data scale (p + kPointBytes * Z.of_nat o).
Proof.
  revert p o. induction n as [|n IH]; intros p [|o]; cbn [cloud_points lookup list_lookup]; try done.
  - intros [= <-]. split; [lia|]. f_equal. lia.
  - intros [Hn ->]%IH. split; [lia|]. f_equal. unfold kPointBytes. lia.
Qed.

(** The point cloud parser never reads outside the datagram, whatever its
    bytes, its length and the configuration, and always returns.  It reports
    success exactly for a datagram that starts with the head marker and has the
    packed or the type-aligned format, with a dynamic or fixed tail; the result
    then holds the little-endian fields and the scaled points of that layout,
    between 1 and 50 of them, and the non-finite rejection never happens.
    Every other datagram gets a readable reason and no points.  Claim C37. *)
Theorem point_cloud_parser_correct data config :
  config_doubles config = true ->
  exists r, ParsePointCloudPacket data config = Some r /\
    (pk_ok r = true <-> exists d, data = Some d /\ cloud_accepts config d = true) /\
    (pk_ok r = false -> pk_reason r <> ""%string /\ pk_points r = []) /\
    (forall d L, data = Some d -> cloud_layout L -> cloud_accepts config d = true ->
       cloud_format L d = true ->
       r = parsed_cloud L d config (pk_reason r) /\
       1 <= pk_pos_num r <= 50 /\ Z.of_nat (length (pk_points r)) = pk_pos_num r /\
       0 < pk_total r).
Proof.
  intros Hd. destruct (ParsePointCloudPacket_total data config Hd) as (r & Hp & Hr).
  exists r. split; [done|]. split_and!.
  - destruct Hr as [[Hok Hex]|[(_ & Hok & _) Hno]]; [done|]. cbn in Hok. rewrite Hok.
    split; [done|]. intros (d & -> & Ha). by rewrite Hno in Ha.
  - intros Hok. destruct Hr as [[? _]|[(? & _ & ?) _]]; [congruence|done].
  - intros d L -> HL Ha Hf. unfold cloud_accepts in Ha.
    apply andb_true_iff in Ha as [[Hv Hh]%andb_true_iff _].
    destruct (ParsePointCloudPacket_formats d config Hv Hd Hh) as [Hok _].
    destruct (Hok L HL Hf) as [reason Hp']. rewrite Hp' in Hp. injection Hp as <-.
    pose proof (cloud_format_num L d Hf). pose proof (field_range d (cl_total_at L) 4).
    cbn -[field]. rewrite length_cloud_points. split_and!; (done || lia).
Qed.

(** Round trip: an encoded datagram of either layout, with 1 to 50 points and
    either tail, whatever the padding bytes, parses to exactly the encoded
    time stamp, total, index and points, each coordinate scaled once and the
    four colour words kept.  Claim C38. *)
Theorem point_cloud_round_trip L fixed fill ts total index raws config :
  cloud_layout L -> cloud_args_wf ts total index raws ->
  ValidateScales config = true -> config_doubles config = true ->
  exists reason,
    ParsePointCloudPacket (Some (encode_cloud L fixed fill ts total index raws)) config =
      Some (mkPacket true reason ts total index (Z.of_nat (length raws))
              (map (decode_raw (point_position_scale config)) raws)).
Proof.
  intros HL (Ht & Hn & Hi & Hk & Hr) Hv Hd.
  set (d := encode_cloud L fixed fill ts total index raws).
  assert (Hlen := length_encode_cloud L fixed fill ts total index raws HL ltac:(lia)).
  fold d in Hlen.
  assert (Hpos : 20 <= cl_pos_at L) by (destruct HL as [-> | ->]; cbn; lia).
  assert (Hpn : 0 <= cl_posnum_at L /\ cl_posnum_at L + 2 <= cl_pos_at L)
    by (destruct HL as [-> | ->]; cbn; lia).
  destruct (encode_header_fields L fill ts total index (Z.of_nat (length raws))
    (concat (map encode_point raws) ++
     (if fixed then pad (28 * (50 - Z.of_nat (length raws))) fill else []) ++
     le_bytes 2 kTailMarker)) as (Hh & Hts & Htot & Hidx & Hnum); [done|lia..|].
  change (encode_header _ _ _ _ _ _ ++ _) with d in Hh, Hts, Htot, Hidx, Hnum.
  assert (Htail : field d (Z.of_nat (length d) - 2) 2 = 0xFF00).
  { unfold d, encode_cloud. rewrite !app_assoc. by apply field_last. }
  assert (Hf : cloud_format L d = true).
  { unfold cloud_format. rewrite Hnum, Htail, Htot, Hlen.
    rewrite !andb_true_iff, orb_true_iff, negb_true_iff. clear -Hk Hn Hpn Hpos.
    destruct fixed; split_and!; try done; lia. }
  destruct (ParsePointCloudPacket_formats d config Hv Hd) as [Hok _].
  { rewrite Hh. apply andb_true_iff. split; [destruct fixed; arith|done]. }
  destruct (Hok L HL Hf) as [reason ->]. exists reason. unfold parsed_cloud.
  rewrite Hts, Htot, Hidx, Hnum, Nat2Z.id. do 2 f_equal. unfold d, encode_cloud.
  rewrite <- (length_encode_header L fill ts total index (Z.of_nat (length raws))) by done.
  by apply cloud_points_encode.
Qed.

(** The odometry parser never reads outside the datagram and always returns.
    It succeeds exactly for the 68-byte packed or the 80-byte aligned datagram
    with both markers, a valid component order and a finite non-zero quaternion
    norm; the result then holds the scaled position and the quaternion in the
    configured order divided by its norm.  Every other datagram gets a readable
    reason and the zero odometry. *)
Theorem odometry_parser_correct data config :
  config_doubles config = true ->
  exists r, ParseOdometryPacket data config = Some r /\
    (op_ok r = true <-> exists d, data = Some d /\ odom_accepts config d = true) /\
    (op_ok r = false -> op_reason r <> ""%string /\ op_odometry r = default_odometry) /\
    (forall d L, data = Some d -> odom_layout L -> ValidateScales config = true ->
       odom_format L config d = true -> op_odometry r = odom_value d L config).
Proof.
  intros Hd. destruct (ParseOdometryPacket_total data config Hd) as (r & Hp & Hr).
  exists r. split; [done|]. split_and!.
  - destruct Hr as [(Hok & d & L & ? & _ & ? & _)|[(_ & Hok & _) Hno]]; rewrite Hok.
    + split; [|done]. intros _. by exists d.
    + split; [done|]. intros (d & -> & Ha). by rewrite Hno in Ha.
  - intros Hok. destruct Hr as [(? & _)|[(? & _ & ?) _]]; [congruence|done].
  - intros d L -> HL Hv Hf. destruct Hr as [(_ & d' & L' & [= <-] & HL' & _ & Hf' & ->)|[_ Hno]].
    + pose proof (odom_formats_disjoint config d).
      destruct HL as [-> | ->], HL' as [-> | ->]; try done; exfalso; intuition congruence.
    + specialize (Hno d eq_refl). unfold odom_accepts in Hno. rewrite Hv in Hno.
      destruct HL as [-> | ->]; rewrite Hf in Hno; [done|by rewrite orb_true_r in Hno].
Qed.

(** Round trip: an encoded odometry datagram of either layout parses to its
    time stamp, its position scaled once and its quaternion, taken in the
    configured component order, normalised. *)
Theorem odometry_round_trip L fill ts x y z q0 q1 q2 q3 config :
  odom_layout L -> odom_args_wf ts x y z q0 q1 q2 q3 ->
  ValidateScales config = true -> config_doubles config = true ->
  ValidQuaternionOrder (odom_quaternion_order config) = true ->
  let s := odom_position_scale config in
  let q c := scaled c (odom_quaternion_scale config) in
  let '(qx, qy, qz, qw) :=
    if bool_decide (odom_quaternion_order config = "wxyz"%string)
    then (q q1, q q2, q q3, q q0) else (q q0, q q1, q q2, q q3) in
  let norm := quaternion_norm qx qy qz qw in
  isfinite norm = true -> SFeqb norm fzero = false ->
  exists r,
    ParseOdometryPacket (Some (encode_odom L fill ts x y z q0 q1 q2 q3)) config = Some r /\
    op_ok r = true /\
    op_odometry r = mkOdometry ts (scaled x s) (scaled y s) (scaled z s)
      (f64_div qx norm) (f64_div qy norm) (f64_div qz norm) (f64_div qw norm).
Proof.
  intros HL Hwf Hv Hd Ho. cbv zeta.
  destruct (encode_odom_fields L fill _ _ _ _ _ _ _ _ HL Hwf) as (Hh & Ht & Hts & Hc).
  pose proof (length_encode_odom L fill ts x y z q0 q1 q2 q3 HL) as Hlen.
  set (d := encode_odom L fill ts x y z q0 q1 q2 q3) in *.
  assert (Hq : odom_quaternion d L config =
    (let q c := scaled c (odom_quaternion_scale config) in
     if bool_decide (odom_quaternion_order config = "wxyz"%string)
     then (q q1, q q2, q q3, q q0) else (q q0, q q1, q q2, q q3))).
  { unfold odom_quaternion. by rewrite (Hc _ 3%nat q0), (Hc _ 4%nat q1), (Hc _ 5%nat q2), (Hc _ 6%nat q3). }
  cbv zeta in Hq. rewrite <- Hq. destruct (odom_quaternion d L config) as [[[qx qy] qz] qw] eqn:Eq.
  intros Hfin Hz.
  assert (Hn : odom_norm d L config = quaternion_norm qx qy qz qw) by (unfold odom_norm; by rewrite Eq).
  assert (Hf : odom_format L config d = true).
  { unfold odom_format. rewrite Hlen, Hh, Ht, Ho, Hn, Hfin, Hz, Z.eqb_refl. done. }
  destruct (ParseOdometryPacket_total (Some d) config Hd) as (r & Hp & Hr).
  exists r. split; [done|].
  destruct Hr as [(Hok & d' & L' & [= <-] & HL' & _ & Hf' & ->)|[_ Hno]].
  - split; [done|]. assert (L' = L) as ->.
    { pose proof (odom_formats_disjoint config d).
      destruct HL as [-> | ->], HL' as [-> | ->]; try done; exfalso; intuition congruence. }
    unfold odom_value. rewrite Eq, Hn, Hts, (Hc _ 0%nat x), (Hc _ 1%nat y), (Hc _ 2%nat z) by done. done.
  - specialize (Hno d eq_refl). unfold odom_accepts in Hno. rewrite Hv in Hno.
    destruct HL as [-> | ->]; rewrite Hf in Hno; [done|by rewrite orb_true_r in Hno].
Qed.

(** ** Witnesses *)

Definition sample_raws : list raw_point :=
  [mkRaw 1000 (-2000) 3 16 32 48 255; mkRaw (-1) 0 (2 ^ 31 - 1) 0 0 0 (2 ^ 32 - 1)].

Lemma sample_raws_wf : cloud_args_wf 1234567890123 100 50 sample_raws.
Proof. unfold cloud_args_wf. split_and!; try (cbn; lia). repeat constructor; cbn; lia. Defined.

Lemma point_cloud_parser_correct_witness :
  exists r, ParsePointCloudPacket (Some [Byte.x55; Byte.xaa; Byte.x00]) default_parse_config
              = Some r /\ (pk_ok r = false -> pk_reason r <> ""%string /\ pk_points r = []).
Proof.
  destruct (point_cloud_parser_correct (Some [Byte.x55; Byte.xaa; Byte.x00])
    default_parse_config) as (r & Hr & _ & Hno & _).
  - vm_compute. reflexivity.
  - exists r. split; assumption.
Defined.

Lemma point_cloud_round_trip_witness :
  exists reason,
    ParsePointCloudPacket
      (Some (encode_cloud kAlignedCloud true Byte.x7f 1234567890123 100 50 sample_raws))
      default_parse_config =
    Some (mkPacket true reason 1234567890123 100 50 2
            (map (decode_raw (point_position_scale default_parse_config)) sample_raws)).
Proof.
  apply (point_cloud_round_trip kAlignedCloud true Byte.x7f 1234567890123 100 50 sample_raws
           default_parse_config).
  - right. reflexivity.
  - exact sample_raws_wf.
  - vm_compute. reflexivity.
  - vm_compute. reflexivity.
Defined.

Lemma odometry_parser_correct_witness :
  exists r, ParseOdometryPacket None default_parse_config = Some r /\
    (op_ok r = false -> op_reason r <> ""%string /\ op_odometry r = default_odometry).
Proof.
  destruct (odometry_parser_correct None default_parse_config) as (r & Hr & _ & Hno & _).
  - vm_compute. reflexivity.
  - exists r. split; assumption.
Defined.

Lemma odometry_round_trip_witness :
  exists r,
    ParseOdometryPacket
      (Some (encode_odom kAlignedOdom Byte.x00 77 (-1000000) 2500000 0 3 0 0 4))
      default_parse_config = Some r /\ op_ok r = true.
Proof.
  destruct (odometry_round_trip kAlignedOdom Byte.x00 77 (-1000000) 2500000 0 3 0 0 4
    default_parse_config) as (r & Hr & Hok & _).
  - right. reflexivity.
  - split; [lia|]. repeat constructor; lia.
  - vm_compute. reflexivity.
  - vm_compute. reflexivity.
  - vm_compute. reflexivity.
  - vm_compute. reflexivity.
  - vm_compute. reflexivity.
  - exists r. split; assumption.
Defined.
