(* ===== verification/FrameAssembler.v ===== *)
(** * FrameAssembler: [PointCloudFrameAssembler] of [lidar_stream.hpp/.cpp]

    Bounded reassembly of point cloud frames.  A slot pointer is an index into
    [slots_]; the [std::map] of a slot is its list of entries in key order.
    The steady clock read when a slot is activated is the argument [now].  An
    outcome [None] of [slot_for_timestamp] or [add_packet] is an access past
    the end of [slots_], which is proved not to happen.  Counters and sizes are
    unbounded integers: every sum the code forms is below [2^33], the
    statistics grow by at most one per call. *)

From stdpp Require Import sorting.
From S2P Require Import Prelude Cxx LidarParse.

(** ** State *)

Record AssemblerConfig := mkAssemblerConfig {
  max_parallel_frames : nat;
  frame_timeout : Z;                 (* nanoseconds *)
  max_points_per_frame : Z;
  max_packets_per_frame : Z }.

Definition default_assembler_config : AssemblerConfig :=
  mkAssemblerConfig 4 (milliseconds 300) 2000000 40000.

Record PointCloudFrame := mkFrame {
  fr_timestamp_ns : Z; fr_total_points : Z; fr_points : list LidarPoint }.

Abbreviation packet_map := (list (Z * list LidarPoint)).

Record FrameSlot := mkSlot {
  active : bool;
  fs_timestamp_ns : Z;
  fs_total : Z;
  packets : packet_map;
  unique_indices : Z;
  sum_points : Z;
  activated_at : Z }.

#[export] Instance eta_slot : Eta FrameSlot := fun s =>
  mkSlot (active s) (fs_timestamp_ns s) (fs_total s) (packets s) (unique_indices s)
    (sum_points s) (activated_at s).

Definition free_slot : FrameSlot := mkSlot false 0 0 [] 0 0 0.

Record Stats := mkStats {
  packets_accepted : Z; packets_duplicated : Z; packets_rejected : Z;
  frames_published : Z; frames_dropped_timeout : Z;
  frames_dropped_conflict : Z; frames_dropped_capacity : Z }.

#[export] Instance eta_stats : Eta Stats := fun s =>
  mkStats (packets_accepted s) (packets_duplicated s) (packets_rejected s)
    (frames_published s) (frames_dropped_timeout s) (frames_dropped_conflict s)
    (frames_dropped_capacity s).

Record assembler := mkAssembler {
  slots_ : list FrameSlot; config_ : AssemblerConfig; stats_ : Stats }.

#[export] Instance eta_assembler : Eta assembler := fun a =>
  mkAssembler (slots_ a) (config_ a) (stats_ a).

Inductive FinalizeReason := Published | Timeout | Conflict.

(** ** [std::map<uint32_t, vector<LidarPoint>>] *)

Fixpoint map_find (k : Z) (m : packet_map) : option (list LidarPoint) :=
  match m with
  | [] => None
  | (k', v) :: m' => if k' =? k then Some v else map_find k m'
  end.

(** The entries before [lower_bound(k)] and those from it on. *)
Fixpoint lower_bound (k : Z) (m : packet_map) : packet_map * packet_map :=
  match m with
  | [] => ([], [])
  | e :: m' =>
      if e.1 <? k then (e :: (lower_bound k m').1, (lower_bound k m').2) else ([], m)
  end.

Definition map_emplace (k : Z) (v : list LidarPoint) (m : packet_map) : packet_map :=
  match map_find k m with
  | Some _ => m
  | None => (lower_bound k m).1 ++ (k, v) :: (lower_bound k m).2
  end.

Definition psize {A} (l : list A) : Z := Z.of_nat (length l).

(** ** Operations *)

Definition make_assembler (config : AssemblerConfig) : assembler :=
  let config :=
    if (max_parallel_frames config =? 0)%nat
    then mkAssemblerConfig 1 (frame_timeout config) (max_points_per_frame config)
           (max_packets_per_frame config)
    else config in
  mkAssembler (replicate (max_parallel_frames config) free_slot) config
    (mkStats 0 0 0 0 0 0 0).

(** Assignment through a slot pointer. *)
Definition set_slot (i : nat) (s : FrameSlot) (a : assembler) : assembler :=
  a <| slots_ := <[i := s]> (slots_ a) |>.

Definition bump (proj : (Z -> Z) -> Stats -> Stats) (a : assembler) : assembler :=
  a <| stats_ := proj (Z.add 1) (stats_ a) |>.

Definition finalize_slot (slot : option nat) (reason : FinalizeReason) (a : assembler)
  : assembler :=
  match slot with
  | None => a
  | Some i =>
      match slots_ a !! i with
      | None => a
      | Some s =>
          if negb (active s) then a
          else
            let a := set_slot i (s <| active := false |> <| packets := [] |>
                                   <| unique_indices := 0 |> <| sum_points := 0 |>) a in
            match reason with
            | Timeout => bump (over frames_dropped_timeout) a
            | Conflict => bump (over frames_dropped_conflict) a
            | Published => a
            end
      end
  end.

(** The first loop of [slot_for_timestamp]. *)
Fixpoint find_active (timestamp_ns : Z) (l : list FrameSlot) (i : nat) : option nat :=
  match l with
  | [] => None
  | s :: l' =>
      if active s && (fs_timestamp_ns s =? timestamp_ns) then Some i
      else find_active timestamp_ns l' (S i)
  end.

(** Its second loop: the first free slot, or else the oldest one. *)
Fixpoint find_free_or_oldest (l : list FrameSlot) (i : nat) (oldest_time : Z)
  (oldest_slot : nat) : option nat * nat :=
  match l with
  | [] => (None, oldest_slot)
  | s :: l' =>
      if negb (active s) then (Some i, oldest_slot)
      else if activated_at s <? oldest_time
      then find_free_or_oldest l' (S i) (activated_at s) i
      else find_free_or_oldest l' (S i) oldest_time oldest_slot
  end.

Definition slot_for_timestamp (now : Z) (timestamp_ns : Z) (create : bool) (a : assembler)
  : option (option nat * assembler) :=
  match find_active timestamp_ns (slots_ a) 0 with
  | Some i => Some (Some i, a)
  | None =>
      if negb create then Some (None, a)
      else
        let n := length (slots_ a) in
        let '(free, oldest) := find_free_or_oldest (slots_ a) 0 INT64_MAX n in
        let '(chosen, a) :=
          match free with
          | Some i => (i, a)
          | None => (oldest, bump (over frames_dropped_capacity)
                               (finalize_slot (Some oldest) Published a))
          end in
        match slots_ a !! chosen with
        | None => None
        | Some _ => Some (Some chosen, set_slot chosen (mkSlot true timestamp_ns 0 [] 0 0 now) a)
        end
  end.

(** The completion scan: the offset reached when every entry starts where the
    previous one ended. *)
Fixpoint scan (expected : Z) (m : packet_map) : option Z :=
  match m with
  | [] => Some expected
  | (k, pts) :: m' => if k =? expected then scan (expected + psize pts) m' else None
  end.

Definition complete (s : FrameSlot) : bool :=
  if (sum_points s =? fs_total s) && (0 <? unique_indices s) then
    match scan 0 (packets s) with Some expected => expected =? fs_total s | None => false end
  else false.

Definition frame_points (m : packet_map) : list LidarPoint := concat (map snd m).

Definition overlaps (index : Z) (points : list LidarPoint) (m : packet_map) : bool :=
  let '(before, after) := lower_bound index m in
  match after with
  | (k, _) :: _ => k <? index + psize points
  | [] => false
  end ||
  match list.last before with
  | Some (k, pts) => index <? k + psize pts
  | None => false
  end.

(** The tail of [add_packet], from the completion check on. *)
Definition publish_if_complete (i : nat) (s : FrameSlot) (a : assembler)
  : option PointCloudFrame * assembler :=
  if negb (complete s) then (None, a)
  else
    let frame := mkFrame (fs_timestamp_ns s) (fs_total s) (frame_points (packets s)) in
    if negb (psize (fr_points frame) =? fs_total s) then
      (None, finalize_slot (Some i) Conflict a)
    else
      (Some frame, finalize_slot (Some i) Published (bump (over frames_published) a)).

Definition add_packet (now : Z) (packet : PointCloudPacketResult) (a : assembler)
  : option (option PointCloudFrame * assembler) :=
  if negb (pk_ok packet) then Some (None, bump (over packets_rejected) a)
  else if (pk_total packet =? 0) || (max_points_per_frame (config_ a) <? pk_total packet) then
    Some (None, bump (over packets_rejected) a)
  else
    let points_here := psize (pk_points packet) in
    if (pk_total packet <=? pk_index packet) ||
       (pk_total packet <? pk_index packet + points_here) then
      r ← slot_for_timestamp now (pk_timestamp_ns packet) false a;
      let '(existing, a) := (r : option nat * assembler) in
      match existing with
      | Some _ => Some (None, finalize_slot existing Conflict a)
      | None => Some (None, bump (over packets_rejected) a)
      end
    else
      r ← slot_for_timestamp now (pk_timestamp_ns packet) true a;
      let '(slot, a) := (r : option nat * assembler) in
      match slot with
      | None => Some (None, bump (over packets_rejected) a)
      | Some i =>
          s ← slots_ a !! i;
          if (0 <? unique_indices s) && negb (fs_total s =? pk_total packet) then
            Some (None, finalize_slot slot Conflict a)
          else
            let s := if unique_indices s =? 0 then s <| fs_total := pk_total packet |> else s in
            let a := set_slot i s a in
            match map_find (pk_index packet) (packets s) with
            | Some existing =>
                if points_eqb existing (pk_points packet)
                then Some (None, bump (over packets_duplicated) a)
                else Some (None, finalize_slot slot Conflict a)
            | None =>
                if max_packets_per_frame (config_ a) <=? psize (packets s) then
                  Some (None, bump (over packets_rejected) a)
                else if overlaps (pk_index packet) (pk_points packet) (packets s) then
                  Some (None, finalize_slot slot Conflict a)
                else if (fs_total s <? sum_points s + points_here) ||
                        (max_points_per_frame (config_ a) <? sum_points s + points_here) then
                  Some (None, finalize_slot slot Conflict a)
                else
                  let s := s <| packets := map_emplace (pk_index packet) (pk_points packet)
                                             (packets s) |>
                             <| unique_indices := unique_indices s + 1 |>
                             <| sum_points := sum_points s + points_here |> in
                  let a := bump (over packets_accepted) (set_slot i s a) in
                  Some (publish_if_complete i s a)
            end
      end.

(** One iteration of the loop of [expire]. *)
Definition expire_slot (now : Z) (a : assembler) (i : nat) : assembler :=
  match slots_ a !! i with
  | None => a
  | Some s =>
      if negb (active s) then a
      else if frame_timeout (config_ a) <=? now - activated_at s
      then finalize_slot (Some i) Timeout a
      else a
  end.

Definition expire (now : Z) (a : assembler) : assembler :=
  fold_left (expire_slot now) (seq 0 (length (slots_ a))) a.

Definition in_flight_count (a : assembler) : nat :=
  length (filter (fun s => active s = true) (slots_ a)).

Definition stats (a : assembler) : Stats := stats_ a.

(** ** The invariant

    [ranges lo hi m]: the entries are in strictly increasing key order, their
    point ranges are disjoint and lie in [lo, hi). *)

Fixpoint ranges (lo hi : Z) (m : packet_map) : Prop :=
  match m with
  | [] => True
  | (k, pts) :: m' =>
      lo <= k < hi /\ k + psize pts <= hi /\ ranges (Z.max (k + 1) (k + psize pts)) hi m'
  end.

Definition points_sum (m : packet_map) : Z := zsum (map (fun e => psize e.2) m).

Record slot_inv (config : AssemblerConfig) (s : FrameSlot) : Prop := {
  si_idle : active s = false -> packets s = [];
  si_unique : unique_indices s = psize (packets s);
  si_sum : sum_points s = points_sum (packets s);
  si_ranges : packets s <> [] -> ranges 0 (fs_total s) (packets s);
  si_total : packets s <> [] -> 0 < fs_total s <= max_points_per_frame config;
  si_count : psize (packets s) <= max_packets_per_frame config;
  si_incomplete : packets s <> [] -> sum_points s < fs_total s;
  si_time : activated_at s < INT64_MAX }.

(** At most one active slot per time stamp. *)
Definition distinct_frames (l : list FrameSlot) : Prop :=
  forall i j si sj, l !! i = Some si -> l !! j = Some sj ->
    active si = true -> active sj = true ->
    fs_timestamp_ns si = fs_timestamp_ns sj -> i = j.

Record asm_inv (a : assembler) : Prop := {
  ai_slots : length (slots_ a) = max_parallel_frames (config_ a);
  ai_some : (0 < max_parallel_frames (config_ a))%nat;
  ai_cap : 0 <= max_packets_per_frame (config_ a);
  ai_slot : Forall (slot_inv (config_ a)) (slots_ a);
  ai_distinct : distinct_frames (slots_ a) }.

(** The packet lies in the frame it declares. *)
Definition in_frame (config : AssemblerConfig) (p : PointCloudPacketResult) : bool :=
  pk_ok p && negb (pk_total p =? 0) && (pk_total p <=? max_points_per_frame config) &&
  (pk_index p <? pk_total p) && (pk_index p + psize (pk_points p) <=? pk_total p).

(** What a slot answers to a packet of its time stamp. *)
Inductive verdict := Accept | Duplicate | Reject | Contradict.

Definition judge (config : AssemblerConfig) (p : PointCloudPacketResult) (s : FrameSlot)
  : verdict :=
  if (0 <? unique_indices s) && negb (fs_total s =? pk_total p) then Contradict
  else
    match map_find (pk_index p) (packets s) with
    | Some pts => if points_eqb pts (pk_points p) then Duplicate else Contradict
    | None =>
        if max_packets_per_frame config <=? psize (packets s) then Reject
        else if overlaps (pk_index p) (pk_points p) (packets s) then Contradict
        else Accept
    end.

Definition with_total (p : PointCloudPacketResult) (s : FrameSlot) : FrameSlot :=
  if unique_indices s =? 0 then s <| fs_total := pk_total p |> else s.

Definition store (p : PointCloudPacketResult) (s : FrameSlot) : FrameSlot :=
  s <| packets := map_emplace (pk_index p) (pk_points p) (packets s) |>
    <| unique_indices := unique_indices s + 1 |>
    <| sum_points := sum_points s + psize (pk_points p) |>.

Definition cleared (s : FrameSlot) : FrameSlot :=
  s <| active := false |> <| packets := [] |> <| unique_indices := 0 |> <| sum_points := 0 |>.

(** ** Runs *)

Inductive asm_op := OpAdd (now : Z) (p : PointCloudPacketResult) | OpExpire (now : Z).

Definition asm_step (o : asm_op) (a : assembler) : option (option PointCloudFrame * assembler) :=
  match o with
  | OpAdd now p => add_packet now p a
  | OpExpire now => Some (None, expire now a)
  end.

(** The frames a sequence of calls publishes, and the final state. *)
Fixpoint asm_run (h : list asm_op) (a : assembler)
  : option (list PointCloudFrame * assembler) :=
  match h with
  | [] => Some ([], a)
  | o :: h' =>
      match asm_step o a with
      | None => None
      | Some (out, a') =>
          match asm_run h' a' with
          | None => None
          | Some (frames, a'') => Some (option_list out ++ frames, a'')
          end
      end
  end.

(** The ranges of the C++ types, and a clock below its maximum. *)
Definition op_wf (o : asm_op) : Prop :=
  match o with
  | OpAdd now p => now < INT64_MAX /\ 0 <= pk_index p
  | OpExpire now => True
  end.

Definition is_add (o : asm_op) : bool := match o with OpAdd _ _ => true | _ => false end.

(** Calls of [add_packet] accounted for. *)
Definition tally (a : assembler) : Z :=
  packets_accepted (stats_ a) + packets_duplicated (stats_ a) +
  packets_rejected (stats_ a) + frames_dropped_conflict (stats_ a).

(** Where the stored points of a slot come from: packets of the history [h]. *)
Definition slot_from (h : list PointCloudPacketResult) (s : FrameSlot) : Prop :=
  forall k pts, (k, pts) ∈ packets s -> exists p, p ∈ h /\ pk_ok p = true /\
    pk_timestamp_ns p = fs_timestamp_ns s /\ pk_total p = fs_total s /\
    pk_index p = k /\ pk_points p = pts.

Definition frame_from (h : list PointCloudPacketResult) (f : PointCloudFrame) : Prop :=
  psize (fr_points f) = fr_total_points f /\
  forall j x, fr_points f !! j = Some x -> exists p o, p ∈ h /\ pk_ok p = true /\
    pk_timestamp_ns p = fr_timestamp_ns f /\ pk_total p = fr_total_points f /\
    Z.of_nat j = pk_index p + Z.of_nat o /\ pk_points p !! o = Some x.

(** ** Entries in key order *)

Lemma psize_nonneg {A} (l : list A) : 0 <= psize l.
Proof. unfold psize. lia. Qed.

Lemma points_sum_cons k pts m : points_sum ((k, pts) :: m) = psize pts + points_sum m.
Proof. done. Qed.

Lemma points_sum_nonneg m : 0 <= points_sum m.
Proof.
  induction m as [|[k pts] m IH]; [done|]. rewrite points_sum_cons.
  pose proof (psize_nonneg pts). lia.
Qed.

Lemma ranges_weaken lo lo' hi m : lo' <= lo -> ranges lo hi m -> ranges lo' hi m.
Proof. destruct m as [|[k pts] m]; cbn; intuition lia. Qed.

Lemma ranges_sum lo hi m : lo <= hi -> ranges lo hi m -> points_sum m <= hi - lo.
Proof.
  revert lo. induction m as [|[k pts] m IH]; intros lo Hlo Hr; [cbn; lia|].
  destruct Hr as (Hk & Hp & Hr). rewrite points_sum_cons.
  pose proof (psize_nonneg pts). specialize (IH (Z.max (k + 1) (k + psize pts)) ltac:(lia) Hr). lia.
Qed.

(** Disjoint ranges that add up to the whole interval cover it in order. *)
Lemma ranges_full_scan lo hi m :
  lo <= hi -> ranges lo hi m -> points_sum m = hi - lo -> scan lo m = Some hi.
Proof.
  revert lo. induction m as [|[k pts] m IH]; intros lo Hlo Hr Hs; cbn [scan].
  { cbn in Hs. f_equal. lia. }
  destruct Hr as (Hk & Hp & Hr). rewrite points_sum_cons in Hs.
  pose proof (ranges_sum (Z.max (k + 1) (k + psize pts)) hi m ltac:(lia) Hr) as Hle. pose proof (psize_nonneg pts).
  replace (k =? lo) with true by lia. replace k with lo in * by lia.
  apply IH; [lia| |lia]. by replace (lo + psize pts) with (Z.max (lo + 1) (lo + psize pts)) by lia.
Qed.

Lemma frame_points_length m : psize (frame_points m) = points_sum m.
Proof.
  induction m as [|[k pts] m IH]; [done|]. rewrite points_sum_cons, <- IH.
  unfold frame_points, psize. cbn [map concat snd]. rewrite length_app. lia.
Qed.

Lemma lower_bound_app k m : m = (lower_bound k m).1 ++ (lower_bound k m).2.
Proof.
  induction m as [|e m IH]; cbn; [done|]. destruct (e.1 <? k); cbn; [by rewrite <- IH|done].
Qed.

Lemma points_sum_app m m' : points_sum (m ++ m') = points_sum m + points_sum m'.
Proof. unfold points_sum. by rewrite map_app, zsum_app. Qed.

Lemma map_emplace_new k v m :
  map_find k m = None ->
  map_emplace k v m = (lower_bound k m).1 ++ (k, v) :: (lower_bound k m).2.
Proof. unfold map_emplace. by intros ->. Qed.

Lemma map_emplace_perm k v m : map_find k m = None -> map_emplace k v m ≡ₚ (k, v) :: m.
Proof.
  intros Hf. rewrite map_emplace_new by done. rewrite (lower_bound_app k m) at 3.
  by rewrite Permutation_middle.
Qed.

Lemma map_emplace_sum k v m :
  map_find k m = None -> points_sum (map_emplace k v m) = psize v + points_sum m.
Proof.
  intros Hf. rewrite map_emplace_new by done. rewrite points_sum_app, points_sum_cons.
  rewrite (lower_bound_app k m) at 3. rewrite points_sum_app. lia.
Qed.

Lemma map_emplace_size k v m :
  map_find k m = None -> psize (map_emplace k v m) = psize m + 1.
Proof.
  intros Hf. unfold psize. rewrite (map_emplace_perm _ _ _ Hf). cbn [length]. lia.
Qed.

Lemma overlaps_tail k v e m :
  (e.1 <? k) = true -> overlaps k v (e :: m) = false -> overlaps k v m = false.
Proof.
  intros He. unfold overlaps. cbn [lower_bound]. rewrite He.
  destruct (lower_bound k m) as [[|x b] af]; cbn [fst snd]; [|done].
  intros [-> _]%orb_false_iff. done.
Qed.

(** The entry before the new one ends before it starts. *)
Lemma overlaps_below k v k' pts m hi :
  k' < k -> overlaps k v ((k', pts) :: m) = false ->
  ranges (Z.max (k' + 1) (k' + psize pts)) hi m -> k' + psize pts <= k.
Proof.
  intros Hk. unfold overlaps. cbn [lower_bound fst]. replace (k' <? k) with true by lia.
  destruct m as [|[k2 p2] m]; cbn [lower_bound fst snd ranges]; [cbn; intros; arith|].
  destruct (k2 <? k) eqn:E; cbn; intros Ho Hr; bool_prop; lia.
Qed.

Lemma ranges_emplace lo hi k v m :
  ranges lo hi m -> lo <= k < hi -> k + psize v <= hi -> map_find k m = None ->
  overlaps k v m = false -> ranges lo hi (map_emplace k v m).
Proof.
  intros Hr Hk Hv Hf Ho. rewrite map_emplace_new by done. revert lo Hr Hk.
  induction m as [|[k' pts] m IH]; intros lo Hr Hk; cbn [lower_bound fst].
  { cbn. lia. }
  cbn [map_find] in Hf. destruct (Z.eqb_spec k' k) as [|Hne]; [done|].
  destruct Hr as (Hk' & Hp & Hr). destruct (k' <? k) eqn:E; cbn [app fst snd ranges].
  - split_and!; [lia|lia|lia|].
    pose proof (overlaps_below k v k' pts m hi ltac:(arith) Ho Hr).
    apply IH; [done| |done|bool_prop; lia]. by apply (overlaps_tail k v (k', pts)).
  - unfold overlaps in Ho. cbn [lower_bound fst] in Ho. rewrite E in Ho. cbn in Ho.
    bool_prop. repeat split; (lia || done).
Qed.

(** ** Slots *)

Lemma cleared_inv config s : slot_inv config s -> 0 <= max_packets_per_frame config ->
  slot_inv config (cleared s).
Proof. intros [] H0. by split. Qed.

Lemma fresh_slot_inv config b ts now total :
  0 <= max_packets_per_frame config -> now < INT64_MAX ->
  slot_inv config (mkSlot b ts total [] 0 0 now).
Proof. intros H0 Hn. by split. Qed.

Lemma free_slot_inv config : 0 <= max_packets_per_frame config -> slot_inv config free_slot.
Proof. intros. by apply fresh_slot_inv. Qed.

Lemma with_total_inv config p s : slot_inv config s -> slot_inv config (with_total p s).
Proof.
  intros H. unfold with_total. destruct (Z.eqb_spec (unique_indices s) 0) as [E|]; [|done].
  assert (packets s = []) as Hp.
  { pose proof (si_unique _ _ H) as Hu. rewrite E in Hu. unfold psize in Hu. by destruct (packets s). }
  destruct H. split; cbn; try done; by rewrite Hp.
Qed.

Lemma with_total_consistent p s :
  0 <= unique_indices s ->
  (0 <? unique_indices s) && negb (fs_total s =? pk_total p) = false ->
  fs_total (with_total p s) = pk_total p.
Proof. unfold with_total. intros H0 H. destruct (Z.eqb_spec (unique_indices s) 0); cbn; [done|]. arith. Qed.

Lemma with_total_fields p s :
  packets (with_total p s) = packets s /\ unique_indices (with_total p s) = unique_indices s /\
  sum_points (with_total p s) = sum_points s /\ active (with_total p s) = active s /\
  fs_timestamp_ns (with_total p s) = fs_timestamp_ns s /\
  activated_at (with_total p s) = activated_at s.
Proof. unfold with_total. by destruct (_ =? 0). Qed.

Lemma unique_nonneg config s : slot_inv config s -> 0 <= unique_indices s.
Proof. intros H. rewrite (si_unique _ _ H). apply psize_nonneg. Qed.

(** ** Updating the slot array *)

Lemma set_slot_inv i s a s0 :
  asm_inv a -> slots_ a !! i = Some s0 -> slot_inv (config_ a) s ->
  (active s = true -> forall j sj, j <> i -> slots_ a !! j = Some sj -> active sj = true ->
     fs_timestamp_ns sj <> fs_timestamp_ns s) ->
  asm_inv (set_slot i s a).
Proof.
  intros [H1 H2 H3 H4 H5] Hi Hs Hd. split; cbn; try done.
  - by rewrite length_insert.
  - by apply Forall_insert.
  - intros j k sj sk Hj Hk Haj Hak Ht.
    apply lookup_insert_cases in Hj as [(<- & -> & _)|[? Hj]];
      apply lookup_insert_cases in Hk as [(<- & -> & _)|[? Hk]]; try done.
    + exfalso. by eapply (Hd Haj k sk).
    + exfalso. by eapply (Hd Hak j sj).
    + by eapply H5.
Qed.

(** Replacing a slot by one of the same frame, or by an inactive one. *)
Lemma set_slot_same_inv i s a s0 :
  asm_inv a -> slots_ a !! i = Some s0 -> slot_inv (config_ a) s ->
  (active s = true -> active s0 = true /\ fs_timestamp_ns s = fs_timestamp_ns s0) ->
  asm_inv (set_slot i s a).
Proof.
  intros Ha Hi Hs Hd. eapply set_slot_inv; eauto.
  intros Hact j sj Hne Hj Haj Heq. destruct (Hd Hact) as [H0 Ht].
  apply Hne. eapply (ai_distinct _ Ha); eauto. congruence.
Qed.

Lemma bump_inv f a : asm_inv a -> asm_inv (bump f a).
Proof. by intros []. Qed.
#[export] Hint Resolve bump_inv : bridge.

Lemma lookup_slot_inv a i s : asm_inv a -> slots_ a !! i = Some s -> slot_inv (config_ a) s.
Proof. intros Ha Hi. exact (Forall_lookup_1 _ _ _ _ (ai_slot _ Ha) Hi). Qed.

Definition drop_stat (reason : FinalizeReason) (a : assembler) : assembler :=
  match reason with
  | Timeout => bump (over frames_dropped_timeout) a
  | Conflict => bump (over frames_dropped_conflict) a
  | Published => a
  end.

Lemma finalize_active i s reason a :
  slots_ a !! i = Some s -> active s = true ->
  finalize_slot (Some i) reason a = drop_stat reason (set_slot i (cleared s) a).
Proof. intros Hi Ha. unfold finalize_slot. rewrite Hi, Ha. by destruct reason. Qed.

Lemma finalize_inv slot reason a : asm_inv a -> asm_inv (finalize_slot slot reason a).
Proof.
  intros Ha. unfold finalize_slot. destruct slot as [i|]; [|done].
  destruct (slots_ a !! i) as [s|] eqn:E; [|done].
  destruct (active s) eqn:Es; cbn [negb]; [|done].
  assert (asm_inv (set_slot i (cleared s) a)).
  { eapply set_slot_same_inv; eauto.
    apply cleared_inv; [by eapply lookup_slot_inv|]. by apply ai_cap. }
  destruct reason; auto with bridge.
Qed.
#[export] Hint Resolve finalize_inv : bridge.

(** ** Finding a slot *)

Lemma find_active_spec ts l i :
  match find_active ts l i with
  | Some j => exists k s, j = (i + k)%nat /\ l !! k = Some s /\ active s = true /\
      fs_timestamp_ns s = ts
  | None => forall k s, l !! k = Some s -> active s = true -> fs_timestamp_ns s <> ts
  end.
Proof.
  revert i. induction l as [|s l IH]; intros i; cbn [find_active]; [done|].
  destruct (active s && (fs_timestamp_ns s =? ts)) eqn:E.
  - exists 0%nat, s. bool_prop. split_and!; [lia|done..].
  - specialize (IH (S i)). destruct (find_active ts l (S i)) as [j|].
    + destruct IH as (k & s' & -> & Hk & ? & ?). exists (S k), s'. split_and!; [lia|done..].
    + intros [|k] s' Hk Ha; cbn in Hk; [|by eapply IH]. injection Hk as ->.
      rewrite Ha in E. cbn in E. arith.
Qed.

(** A free slot if there is one, otherwise the index of an oldest slot. *)
Lemma find_free_or_oldest_spec l i t o :
  Forall (fun s => activated_at s < INT64_MAX) l ->
  let '(free, oldest) := find_free_or_oldest l i t o in
  match free with
  | Some j => exists k s, j = (i + k)%nat /\ l !! k = Some s /\ active s = false
  | None => Forall (fun s => active s = true) l /\
      ((oldest = o /\ Forall (fun s => t <= activated_at s) l) \/
       (exists k s, oldest = (i + k)%nat /\ l !! k = Some s /\ activated_at s < t /\
          Forall (fun s' => activated_at s <= activated_at s') l))
  end.
Proof.
  intros Hl. revert i t o. induction Hl as [|s l Hs Hl IH]; intros i t o;
    cbn [find_free_or_oldest]; [by auto|].
  destruct (active s) eqn:Ea; cbn [negb].
  2: { exists 0%nat, s. split_and!; [lia|done..]. }
  destruct (activated_at s <? t) eqn:Et; bool_prop.
  - specialize (IH (S i) (activated_at s) i).
    destruct (find_free_or_oldest l (S i) (activated_at s) i) as [[j|] oldest].
    + destruct IH as (k & s' & -> & ? & ?). exists (S k), s'. split_and!; [lia|done..].
    + destruct IH as [Hact IH]. split; [by constructor|]. right.
      destruct IH as [[-> Hmin]|(k & s' & -> & Hk & Hlt & Hmin)].
      * exists 0%nat, s. split_and!; [lia|done|done|]. by constructor.
      * exists (S k), s'. split_and!; [lia|done|lia|]. constructor; [lia|done].
  - specialize (IH (S i) t o).
    destruct (find_free_or_oldest l (S i) t o) as [[j|] oldest].
    + destruct IH as (k & s' & -> & ? & ?). exists (S k), s'. split_and!; [lia|done..].
    + destruct IH as [Hact IH]. split; [by constructor|].
      destruct IH as [[-> Hmin]|(k & s' & -> & Hk & Hlt & Hmin)].
      * left. split; [done|]. by constructor.
      * right. exists (S k), s'. split_and!; [lia|done|lia|]. constructor; [lia|done].
Qed.

(** How an activation changes the assembler: it takes a free slot, or evicts
    the frame that was activated first. *)
Definition activates (now ts : Z) (a a' : assembler) (i : nat) : Prop :=
  (forall j sj, slots_ a !! j = Some sj -> active sj = true -> fs_timestamp_ns sj <> ts) /\
  slots_ a' = <[i := mkSlot true ts 0 [] 0 0 now]> (slots_ a) /\
  exists s0, slots_ a !! i = Some s0 /\
    ((active s0 = false /\ stats_ a' = stats_ a) \/
     (Forall (fun s => active s = true) (slots_ a) /\
      Forall (fun s => activated_at s0 <= activated_at s) (slots_ a) /\
      stats_ a' = over frames_dropped_capacity (Z.add 1) (stats_ a))).

Lemma slot_for_timestamp_existing now ts create a i s :
  asm_inv a -> slots_ a !! i = Some s -> active s = true -> fs_timestamp_ns s = ts ->
  slot_for_timestamp now ts create a = Some (Some i, a).
Proof.
  intros Ha Hi Hs Ht. unfold slot_for_timestamp.
  pose proof (find_active_spec ts (slots_ a) 0) as Hf.
  destruct (find_active _ _ _) as [j|].
  - destruct Hf as (k & s' & -> & Hk & Hs' & Ht'). do 3 f_equal. cbn.
    eapply (ai_distinct _ Ha); eauto. congruence.
  - by destruct (Hf i s Hi Hs).
Qed.

Lemma slot_for_timestamp_absent now ts a :
  (forall j sj, slots_ a !! j = Some sj -> active sj = true -> fs_timestamp_ns sj <> ts) ->
  slot_for_timestamp now ts false a = Some (None, a).
Proof.
  intros Hno. unfold slot_for_timestamp.
  pose proof (find_active_spec ts (slots_ a) 0) as Hf.
  destruct (find_active _ _ _) as [j|]; [|done].
  destruct Hf as (k & s & _ & Hk & Hs & Ht). by destruct (Hno k s Hk Hs).
Qed.

(** The slot the second loop settles on. *)
Lemma choose_slot a :
  asm_inv a ->
  let '(free, oldest) := find_free_or_oldest (slots_ a) 0 INT64_MAX (length (slots_ a)) in
  exists i s0, slots_ a !! i = Some s0 /\
    match free with
    | Some j => j = i /\ active s0 = false
    | None => oldest = i /\ Forall (fun s => active s = true) (slots_ a) /\
        Forall (fun s => activated_at s0 <= activated_at s) (slots_ a)
    end.
Proof.
  intros Ha.
  assert (Ht : Forall (fun s => activated_at s < INT64_MAX) (slots_ a)).
  { refine (Forall_impl _ _ (ai_slot _ Ha)). intros s Hs. exact (si_time _ _ Hs). }
  pose proof (find_free_or_oldest_spec (slots_ a) 0 INT64_MAX (length (slots_ a)) Ht) as Hf.
  destruct (find_free_or_oldest _ _ _ _) as [[j|] oldest].
  - destruct Hf as (k & s & -> & Hk & Hs). by exists k, s.
  - destruct Hf as [Hact [[_ Hmin]|(k & s & -> & Hk & _ & Hmin)]].
    + pose proof (ai_slots _ Ha). pose proof (ai_some _ Ha).
      destruct (slots_ a) as [|s l]; cbn in *; [lia|].
      inversion Ht; inversion Hmin; subst. lia.
    + by exists k, s.
Qed.

Lemma slot_for_timestamp_create now ts a :
  asm_inv a -> now < INT64_MAX ->
  (forall j sj, slots_ a !! j = Some sj -> active sj = true -> fs_timestamp_ns sj <> ts) ->
  exists i a', slot_for_timestamp now ts true a = Some (Some i, a') /\ asm_inv a' /\
    config_ a' = config_ a /\ activates now ts a a' i.
Proof.
  intros Ha Hnow Hno. unfold slot_for_timestamp.
  pose proof (find_active_spec ts (slots_ a) 0) as Hf.
  destruct (find_active _ _ _) as [j|].
  { destruct Hf as (k & s & _ & Hk & Hs & Ht). by destruct (Hno k s Hk Hs). }
  cbn [negb]. pose proof (choose_slot a Ha) as Hc.
  destruct (find_free_or_oldest _ _ _ _) as [free oldest].
  destruct Hc as (i & s0 & Hi & Hc). exists i.
  pose proof (lookup_slot_inv _ _ _ Ha Hi) as Hs0. pose proof (ai_cap _ Ha) as Hcap.
  assert (Hset : forall a1, asm_inv a1 -> config_ a1 = config_ a ->
    (forall j sj, j <> i -> slots_ a1 !! j = Some sj -> slots_ a !! j = Some sj) ->
    forall s1, slots_ a1 !! i = Some s1 -> asm_inv (set_slot i (mkSlot true ts 0 [] 0 0 now) a1)).
  { intros a1 Ha1 Hcfg Hsame s1 Hs1. eapply set_slot_inv; eauto.
    rewrite Hcfg. by apply fresh_slot_inv. }
  destruct free as [j|].
  - destruct Hc as [-> Hfree]. rewrite Hi. eexists. split; [done|]. split_and!; try done.
    { exact (Hset a Ha eq_refl (fun _ _ _ H => H) s0 Hi). }
    split; [done|]. split; [done|]. exists s0. auto.
  - destruct Hc as (-> & Hall & Hmin).
    assert (Hact : active s0 = true) by exact (Forall_lookup_1 _ _ _ _ Hall Hi).
    rewrite (finalize_active i s0) by done. cbn [drop_stat].
    set (a1 := bump _ (set_slot i (cleared s0) a)).
    assert (Hlk : slots_ a1 !! i = Some (cleared s0)).
    { cbn. apply list_lookup_insert_eq. by eapply lookup_lt_Some. }
    rewrite Hlk. eexists. split; [done|]. split_and!; [|done|].
    + apply (Hset a1) with (s1 := cleared s0); [|done| |done].
      * apply bump_inv. eapply set_slot_same_inv; eauto. by apply cleared_inv.
      * intros j sj Hj Hl. cbn in Hl. by rewrite list_lookup_insert_ne in Hl by done.
    + split; [done|]. split; [cbn; apply list_insert_insert_eq|]. exists s0. auto.
Qed.

(** ** [add_packet] in terms of the slot's verdict *)

Definition fetches (now : Z) (p : PointCloudPacketResult) (a a0 : assembler) (i : nat)
  (s : FrameSlot) : Prop :=
  asm_inv a0 /\ config_ a0 = config_ a /\ slots_ a0 !! i = Some s /\ active s = true /\
  fs_timestamp_ns s = pk_timestamp_ns p /\
  (a0 = a \/ (activates now (pk_timestamp_ns p) a a0 i /\
              s = mkSlot true (pk_timestamp_ns p) 0 [] 0 0 now)).

Definition answer (i : nat) (p : PointCloudPacketResult) (s : FrameSlot) (a0 : assembler)
  : option PointCloudFrame * assembler :=
  let s1 := with_total p s in
  let a1 := set_slot i s1 a0 in
  let s2 := store p s1 in
  let a2 := bump (over packets_accepted) (set_slot i s2 a0) in
  match judge (config_ a0) p s with
  | Contradict => (None, finalize_slot (Some i) Conflict a1)
  | Duplicate => (None, bump (over packets_duplicated) a1)
  | Reject => (None, bump (over packets_rejected) a1)
  | Accept =>
      if sum_points s2 =? fs_total s2 then
        (Some (mkFrame (pk_timestamp_ns p) (fs_total s2) (frame_points (packets s2))),
         finalize_slot (Some i) Published (bump (over frames_published) a2))
      else (None, a2)
  end.

Lemma activates_lookup now ts a a0 i :
  activates now ts a a0 i -> slots_ a0 !! i = Some (mkSlot true ts 0 [] 0 0 now).
Proof.
  intros (_ & -> & s0 & Hi & _). apply list_lookup_insert_eq. by eapply lookup_lt_Some.
Qed.

(** Either an active slot has the time stamp, or none has. *)
Lemma active_slot_or_none ts a :
  (exists i s, slots_ a !! i = Some s /\ active s = true /\ fs_timestamp_ns s = ts) \/
  (forall j sj, slots_ a !! j = Some sj -> active sj = true -> fs_timestamp_ns sj <> ts).
Proof.
  pose proof (find_active_spec ts (slots_ a) 0) as Hf.
  destruct (find_active ts (slots_ a) 0) as [j|]; [|by right].
  destruct Hf as (k & s & _ & ? & ? & ?). left. by exists k, s.
Qed.

Lemma fetch_slot now p a :
  asm_inv a -> now < INT64_MAX ->
  exists i s a0, slot_for_timestamp now (pk_timestamp_ns p) true a = Some (Some i, a0) /\
    fetches now p a a0 i s.
Proof.
  intros Ha Hnow.
  destruct (active_slot_or_none (pk_timestamp_ns p) a) as [(i & s & Hi & Hs & Ht)|Hno].
  - exists i, s, a. rewrite (slot_for_timestamp_existing now _ true a i s) by done.
    split; [done|]. unfold fetches. auto 10.
  - destruct (slot_for_timestamp_create now _ a Ha Hnow Hno) as (i & a' & -> & Ha' & Hc & Hact).
    exists i, (mkSlot true (pk_timestamp_ns p) 0 [] 0 0 now), a'. split; [done|].
    pose proof (activates_lookup _ _ _ _ _ Hact). unfold fetches. auto 10.
Qed.

(** A packet the slot has room for: its frame stays well formed, and the
    point budget test of the code cannot fail. *)
Lemma accept_ranges config p s :
  slot_inv config s -> in_frame config p = true -> 0 <= pk_index p ->
  judge config p s = Accept ->
  let s1 := with_total p s in
  fs_total s1 = pk_total p /\ map_find (pk_index p) (packets s1) = None /\
  ranges 0 (pk_total p) (packets (store p s1)) /\
  sum_points (store p s1) = points_sum (packets (store p s1)) /\
  sum_points (store p s1) <= pk_total p /\
  psize (packets (store p s1)) <= max_packets_per_frame config.
Proof.
  intros Hs Hin Hidx. unfold judge.
  destruct ((0 <? unique_indices s) && _) eqn:Ec; [done|].
  destruct (map_find _ _) as [pts|] eqn:Ef; [by destruct (points_eqb _ _)|].
  destruct (_ <=? psize (packets s)) eqn:Em; [done|].
  destruct (overlaps _ _ _) eqn:Eo; [done|]. intros _. cbv zeta.
  pose proof (with_total_consistent p s (unique_nonneg _ _ Hs) Ec) as Htot.
  pose proof (with_total_inv config p s Hs) as Hs1.
  destruct (with_total_fields p s) as (Hp & _). set (s1 := with_total p s) in *.
  rewrite <- Hp in Ef, Em, Eo. unfold in_frame in Hin. bool_prop.
  assert (Hr : ranges 0 (pk_total p) (packets (store p s1))).
  { cbn [store packets over]. apply ranges_emplace; try done; try lia.
    destruct (decide (packets s1 = [])) as [->|Hne]; [done|].
    rewrite <- Htot. by apply (si_ranges _ _ Hs1). }
  assert (Hsum : sum_points (store p s1) = points_sum (packets (store p s1))).
  { cbn [store packets sum_points over]. rewrite map_emplace_sum, (si_sum _ _ Hs1) by done. lia. }
  pose proof (ranges_sum 0 (pk_total p) _ ltac:(lia) Hr). split_and!; try done; [lia|].
  cbn [store packets over]. rewrite map_emplace_size by done. lia.
Qed.

Lemma publish_spec i s a :
  ranges 0 (fs_total s) (packets s) -> sum_points s = points_sum (packets s) ->
  0 < unique_indices s -> 0 <= fs_total s ->
  publish_if_complete i s a =
    if sum_points s =? fs_total s
    then (Some (mkFrame (fs_timestamp_ns s) (fs_total s) (frame_points (packets s))),
          finalize_slot (Some i) Published (bump (over frames_published) a))
    else (None, a).
Proof.
  intros Hr Hs Hu Ht. unfold publish_if_complete, complete.
  destruct (Z.eqb_spec (sum_points s) (fs_total s)) as [E|]; [|done].
  replace (0 <? unique_indices s) with true by lia. cbn [andb fr_points].
  rewrite (ranges_full_scan 0 (fs_total s)) by (done || lia). rewrite Z.eqb_refl. cbn [negb].
  rewrite frame_points_length, <- Hs, E, Z.eqb_refl. done.
Qed.

Lemma set_slot_id i s a : slots_ a !! i = Some s -> set_slot i s a = a.
Proof. intros Hi. destruct a. unfold set_slot. cbn in *. by rewrite list_insert_id. Qed.

Lemma set_slot_twice i s s' a : set_slot i s (set_slot i s' a) = set_slot i s a.
Proof. unfold set_slot. cbn. by rewrite list_insert_insert_eq. Qed.

Lemma in_frame_guards config p :
  in_frame config p = true ->
  pk_ok p = true /\ (pk_total p =? 0) || (max_points_per_frame config <? pk_total p) = false /\
  (pk_total p <=? pk_index p) || (pk_total p <? pk_index p + psize (pk_points p)) = false.
Proof.
  unfold in_frame. intros H. bool_prop. split_and!; [done| |]; apply orb_false_iff; lia.
Qed.

Lemma add_packet_answer now p a :
  asm_inv a -> in_frame (config_ a) p = true -> 0 <= pk_index p -> now < INT64_MAX ->
  exists i s a0, fetches now p a a0 i s /\ add_packet now p a = Some (answer i p s a0).
Proof.
  intros Ha Hin Hidx Hnow. destruct (in_frame_guards _ _ Hin) as (Hok & Ht & Hr).
  destruct (fetch_slot now p a Ha Hnow) as (i & s & a0 & Hf & Hfs).
  exists i, s, a0. split; [done|]. destruct Hfs as (Ha0 & Hc & Hi & Hs & Hts & _).
  pose proof (lookup_slot_inv _ _ _ Ha0 Hi) as Hsi.
  unfold add_packet. rewrite Hok, Ht, Hr, Hf. cbn [negb mbind option_bind]. rewrite Hi.
  cbn [mbind option_bind]. unfold answer. rewrite <- Hc in Hin.
  pose proof (accept_ranges (config_ a0) p s Hsi Hin Hidx) as Hacc. revert Hacc. unfold judge.
  change (if unique_indices s =? 0 then s <| fs_total := pk_total p |> else s) with (with_total p s).
  destruct (with_total_fields p s) as (Hp & Hu & Hsum & Hact & Htsw & _).
  rewrite Hp. change (config_ (set_slot i (with_total p s) a0)) with (config_ a0).
  destruct ((0 <? unique_indices s) && _) eqn:Ec.
  { intros _. do 3 f_equal. unfold with_total. bool_prop.
    replace (unique_indices s =? 0) with false by arith. by rewrite set_slot_id. }
  destruct (map_find _ _) as [pts|]; [by destruct (points_eqb _ _)|].
  destruct (max_packets_per_frame (config_ a0) <=? psize (packets s)); [done|].
  destruct (overlaps _ _ _); [done|]. intros Hacc. destruct (Hacc eq_refl) as (Htot & Hf0 & Hrg & Hsp & Hle & Hcnt).
  assert (Hb : (fs_total (with_total p s) <? sum_points (with_total p s) + psize (pk_points p)) ||
    (max_points_per_frame (config_ a0) <? sum_points (with_total p s) + psize (pk_points p)) = false).
  { cbn [store sum_points over] in Hle. unfold in_frame in Hin. bool_prop. apply orb_false_iff.
    split; cbn in Hle; lia. }
  rewrite Hb, <- Hp. fold (store p (with_total p s)).
  rewrite set_slot_twice, publish_spec; try done.
  - by rewrite <- Hts, <- Htsw.
  - change (fs_total (store p (with_total p s))) with (fs_total (with_total p s)). by rewrite Htot.
  - change (unique_indices (store p (with_total p s))) with (unique_indices (with_total p s) + 1).
    pose proof (unique_nonneg _ _ Hsi). lia.
  - change (fs_total (store p (with_total p s))) with (fs_total (with_total p s)).
    unfold in_frame in Hin. bool_prop. lia.
Qed.

(** ** Every call keeps the invariant *)

Lemma finalize_set_slot i s a reason :
  (i < length (slots_ a))%nat -> active s = true ->
  finalize_slot (Some i) reason (set_slot i s a) = drop_stat reason (set_slot i (cleared s) a).
Proof.
  intros Hi Hs. rewrite (finalize_active i s) by (done || by apply list_lookup_insert_eq).
  by rewrite set_slot_twice.
Qed.

Section Answer.
  Context (now : Z) (p : PointCloudPacketResult) (a a0 : assembler) (i : nat) (s : FrameSlot).
  Context (Hf : fetches now p a a0 i s).
  Context (Hin : in_frame (config_ a) p = true) (Hidx : 0 <= pk_index p).

Lemma fetched_lookup_lt : (i < length (slots_ a0))%nat.
Proof. destruct Hf as (_ & _ & Hi & _). by eapply lookup_lt_Some. Qed.

Lemma fetched_with_total_inv : asm_inv (set_slot i (with_total p s) a0).
Proof.
  destruct Hf as (Ha0 & Hc & Hi & Hs & Ht & _).
  pose proof (lookup_slot_inv _ _ _ Ha0 Hi) as Hsi.
  destruct (with_total_fields p s) as (_ & _ & _ & Hact & Hts & _).
  eapply set_slot_same_inv; eauto. by apply with_total_inv.
Qed.

Lemma answer_inv : asm_inv (answer i p s a0).2.
Proof.
  pose proof fetched_with_total_inv as H1. pose proof fetched_lookup_lt as Hlt.
  destruct Hf as (Ha0 & Hc & Hi & Hs & Ht & _).
  pose proof (lookup_slot_inv _ _ _ Ha0 Hi) as Hsi.
  destruct (with_total_fields p s) as (Hp & Hu & Hsum & Hact & Hts & Htime).
  unfold answer. destruct (judge _ _ _) eqn:Ej; cbn [snd]; auto with bridge.
  rewrite <- Hc in Hin.
  destruct (accept_ranges _ _ _ Hsi Hin Hidx Ej) as (Htot & Hn & Hr & Hsp & Hle & Hcnt).
  set (s2 := store p (with_total p s)) in *.
  pose proof (with_total_inv (config_ a0) p s Hsi) as Hs1.
  assert (Hs2t : fs_total s2 = pk_total p) by done.
  assert (Hin' := Hin). unfold in_frame in Hin'. bool_prop.
  destruct (Z.eqb_spec (sum_points s2) (fs_total s2)) as [Efull|Hnf]; cbn [snd].
  - change (bump (over frames_published) (bump (over packets_accepted) (set_slot i s2 a0)))
      with (set_slot i s2 (bump (over frames_published) (bump (over packets_accepted) a0))).
    rewrite finalize_set_slot; [|done|by rewrite <- Hs, <- Hact].
    eapply set_slot_same_inv; [by apply bump_inv, bump_inv|done| |done].
    apply fresh_slot_inv; [exact (ai_cap _ Ha0)|]. cbn. rewrite Htime. exact (si_time _ _ Hsi).
  - apply bump_inv. eapply set_slot_same_inv; [done|done| |].
    2: { intros _. split; [done|]. by rewrite <- Hts. }
    split; try done; try (intros _; rewrite ?Hs2t; (lia || done)).
    + intros Hna. exfalso. change (active s2) with (active (with_total p s)) in Hna. congruence.
    + change (unique_indices s2) with (unique_indices (with_total p s) + 1).
      rewrite (si_unique _ _ Hs1). unfold s2. cbn [store packets over].
      by rewrite map_emplace_size.
    + change (activated_at s2) with (activated_at (with_total p s)). exact (si_time _ _ Hs1).
Qed.

Lemma answer_tally : tally (answer i p s a0).2 = tally a + 1.
Proof.
  pose proof fetched_lookup_lt as Hlt. destruct Hf as (Ha0 & Hc & Hi & Hs & Ht & Hor).
  destruct (with_total_fields p s) as (_ & _ & _ & Hact & _).
  assert (Htl : tally a0 = tally a).
  { destruct Hor as [->|[(_ & _ & s0 & _ & [[_ Hst]|(_ & _ & Hst)]) _]]; unfold tally;
      rewrite ?Hst; done. }
  unfold answer. destruct (judge _ _ _); cbn [snd].
  - destruct (_ =? _); [|unfold tally in *; cbn; lia].
    change (bump (over frames_published) (bump (over packets_accepted) (set_slot i ?s2 a0)))
      with (set_slot i s2 (bump (over frames_published) (bump (over packets_accepted) a0))).
    rewrite finalize_set_slot; [unfold tally in *; cbn; lia|done|]. cbn. congruence.
  - unfold tally in *; cbn; lia.
  - unfold tally in *; cbn; lia.
  - rewrite finalize_set_slot; [|done|congruence]. unfold tally in *; cbn; lia.
Qed.

End Answer.

(** A packet that does not lie in its frame. *)
Lemma add_packet_outside now p a :
  asm_inv a -> in_frame (config_ a) p = false ->
  add_packet now p a = Some (None, bump (over packets_rejected) a) \/
  exists i s, slots_ a !! i = Some s /\ active s = true /\
    fs_timestamp_ns s = pk_timestamp_ns p /\
    add_packet now p a = Some (None, drop_stat Conflict (set_slot i (cleared s) a)).
Proof.
  intros Ha Hin. unfold add_packet. destruct (pk_ok p) eqn:Hok; [|by left]. cbn [negb].
  destruct (_ || (max_points_per_frame _ <? _)) eqn:Ht; [by left|].
  assert (Hr : (pk_total p <=? pk_index p) ||
    (pk_total p <? pk_index p + psize (pk_points p)) = true).
  { unfold in_frame in Hin. rewrite Hok in Hin. cbn [andb] in Hin.
    apply orb_false_iff in Ht as [Ht1 Ht2]. rewrite Ht1 in Hin.
    replace (pk_total p <=? max_points_per_frame (config_ a)) with true in Hin by arith.
    cbn [negb andb] in Hin. apply andb_false_iff in Hin as [H|H]; apply orb_true_iff; arith. }
  rewrite Hr.
  destruct (active_slot_or_none (pk_timestamp_ns p) a) as [(i & s & Hi & Hs & Hts)|Hno].
  - rewrite (slot_for_timestamp_existing now _ false a i s) by done. cbn [mbind option_bind].
    right. exists i, s. by rewrite (finalize_active i s).
  - rewrite slot_for_timestamp_absent by done. by left.
Qed.

Lemma add_packet_ok now p a :
  asm_inv a -> now < INT64_MAX -> 0 <= pk_index p ->
  exists out a', add_packet now p a = Some (out, a') /\ asm_inv a' /\
    tally a' = tally a + 1 /\ config_ a' = config_ a.
Proof.
  intros Ha Hnow Hidx. destruct (in_frame (config_ a) p) eqn:Hin.
  - destruct (add_packet_answer now p a Ha Hin Hidx Hnow) as (i & s & a0 & Hf & ->).
    pose proof (answer_inv now p a a0 i s Hf Hin Hidx) as H1.
    pose proof (answer_tally now p a a0 i s Hf) as H2.
    assert (H3 : config_ (answer i p s a0).2 = config_ a).
    { pose proof (fetched_lookup_lt _ _ _ _ _ _ Hf) as Hlt. destruct Hf as (_ & <- & Hi & Hs & _).
      destruct (with_total_fields p s) as (_ & _ & _ & Hact & _).
      unfold answer. destruct (judge _ _ _); cbn [snd]; try done.
      - destruct (_ =? _); [|done].
        change (bump (over frames_published) (bump (over packets_accepted) (set_slot i ?s2 a0)))
          with (set_slot i s2 (bump (over frames_published) (bump (over packets_accepted) a0))).
        rewrite finalize_set_slot; [done|done|]. cbn. congruence.
      - rewrite finalize_set_slot; [done|done|congruence]. }
    destruct (answer i p s a0) as [out a']. by exists out, a'.
  - destruct (add_packet_outside now p a Ha Hin) as [->|(i & s & Hi & Hs & Hts & ->)].
    + eexists _, _. split; [done|]. split_and!; [by apply bump_inv| |done].
      unfold tally. cbn. lia.
    + rewrite <- (finalize_active i s Conflict) by done.
      eexists _, _. split; [done|]. split_and!; [by apply finalize_inv| |].
      all: rewrite (finalize_active i s) by done; try done. unfold tally. cbn. lia.
Qed.

(** ** [expire] *)

Definition expired (now : Z) (config : AssemblerConfig) (s : FrameSlot) : bool :=
  active s && (frame_timeout config <=? now - activated_at s).

Lemma expire_slot_spec now a i s :
  slots_ a !! i = Some s ->
  expire_slot now a i =
    if expired now (config_ a) s
    then bump (over frames_dropped_timeout) (set_slot i (cleared s) a) else a.
Proof.
  intros Hi. unfold expire_slot, expired. rewrite Hi.
  destruct (active s) eqn:Es; cbn [negb andb]; [|done].
  destruct (_ <=? _); [|done]. by rewrite (finalize_active i s).
Qed.

Lemma expire_inv now a : asm_inv a -> asm_inv (expire now a).
Proof.
  intros Ha. unfold expire. generalize (seq 0 (length (slots_ a))) as l.
  intros l. revert a Ha. induction l as [|i l IH]; intros a Ha; cbn [fold_left]; [done|].
  apply IH. unfold expire_slot. repeat case_match; auto with bridge.
Qed.

Definition count_expired (now : Z) (config : AssemblerConfig) (l : list FrameSlot) : Z :=
  Z.of_nat (length (List.filter (expired now config) l)).

(** The loop from index [k] on, with the slots before it already done. *)
Lemma expire_from now done_ rest a :
  slots_ a = done_ ++ rest ->
  let a' := fold_left (expire_slot now) (seq (length done_) (length rest)) a in
  slots_ a' = done_ ++
    map (fun s => if expired now (config_ a) s then cleared s else s) rest /\
  config_ a' = config_ a /\
  stats_ a' = over frames_dropped_timeout (Z.add (count_expired now (config_ a) rest)) (stats_ a).
Proof.
  revert done_ a. induction rest as [|s rest IH]; intros done_ a Hs; cbn [length seq fold_left map].
  { split_and!; [done..|]. by destruct (stats_ a). }
  assert (Hi : slots_ a !! length done_ = Some s).
  { rewrite Hs, lookup_app_r by lia. by rewrite Nat.sub_diag. }
  rewrite (expire_slot_spec _ _ _ s Hi).
  set (s' := if expired now (config_ a) s then cleared s else s).
  set (a1 := if expired now (config_ a) s then _ else a).
  assert (H1 : slots_ a1 = (done_ ++ [s']) ++ rest).
  { unfold a1, s'. destruct (expired _ _ _); cbn; rewrite Hs.
    - by rewrite insert_app_r_alt, Nat.sub_diag, <- app_assoc by lia.
    - by rewrite <- app_assoc. }
  assert (H2 : config_ a1 = config_ a) by (unfold a1; by destruct (expired _ _ _)).
  destruct (IH _ _ H1) as (Hsl & Hc & Hst). rewrite length_app, Nat.add_1_r in Hsl, Hc, Hst.
  cbv zeta in *. rewrite H2 in *. split_and!; [by rewrite Hsl, <- app_assoc|done|].
  rewrite Hst. unfold a1, count_expired. cbn [List.filter].
  destruct (expired now (config_ a) s); [|done]. cbn [length].
  unfold bump, over. cbn -[Z.of_nat Z.add]. f_equal. lia.
Qed.

(** ** Where published points come from *)

Lemma slot_from_empty h s : packets s = [] -> slot_from h s.
Proof. intros Hp k pts. rewrite Hp. intros []%elem_of_nil. Qed.

Lemma slot_from_mono h h' s : h ⊆ h' -> slot_from h s -> slot_from h' s.
Proof.
  intros Hh Hs k pts Hk. destruct (Hs k pts Hk) as (p & Hp & ?). exists p. auto.
Qed.

Lemma slot_from_with_total h config p s :
  slot_inv config s -> slot_from h s -> slot_from h (with_total p s).
Proof.
  intros Hsi Hs. unfold with_total. destruct (Z.eqb_spec (unique_indices s) 0) as [E|]; [|done].
  apply slot_from_empty. cbn. rewrite (si_unique _ _ Hsi) in E. unfold psize in E.
  by destruct (packets s).
Qed.

Lemma slot_from_store h p s :
  slot_from h s -> p ∈ h -> pk_ok p = true -> pk_timestamp_ns p = fs_timestamp_ns s ->
  pk_total p = fs_total s -> map_find (pk_index p) (packets s) = None ->
  slot_from h (store p s).
Proof.
  intros Hs Hp Hok Hts Htot Hf k pts. cbn [store packets over].
  change (packets (store p s)) with (map_emplace (pk_index p) (pk_points p) (packets s)).
  rewrite (map_emplace_perm _ _ _ Hf). intros [Heq|Hk]%elem_of_cons.
  - injection Heq as -> ->. by exists p.
  - by apply Hs.
Qed.

Lemma scan_lookup lo hi m j x :
  scan lo m = Some hi -> frame_points m !! j = Some x ->
  exists k pts o, (k, pts) ∈ m /\ lo + Z.of_nat j = k + Z.of_nat o /\ pts !! o = Some x.
Proof.
  revert lo j. induction m as [|[k pts] m IH]; intros lo j Hs Hj; [done|].
  cbn [scan] in Hs. destruct (Z.eqb_spec k lo) as [->|]; [|done].
  unfold frame_points in Hj. cbn [map concat snd] in Hj.
  destruct (decide (j < length pts)%nat) as [Hlt|Hge].
  - rewrite lookup_app_l in Hj by done. exists lo, pts, j. split_and!; [set_solver|done|done].
  - rewrite lookup_app_r in Hj by lia. destruct (IH _ _ Hs Hj) as (k & pts' & o & Hk & Ho & Hx).
    exists k, pts', o. split_and!; [set_solver| |done]. unfold psize in Ho. lia.
Qed.

Lemma Forall_slots_insert (P : FrameSlot -> Prop) i s a :
  Forall P (slots_ a) -> P s -> Forall P (slots_ (set_slot i s a)).
Proof. intros. by apply Forall_insert. Qed.

Lemma fetches_from h now p a a0 i s :
  fetches now p a a0 i s -> Forall (slot_from h) (slots_ a) -> Forall (slot_from h) (slots_ a0).
Proof.
  intros (_ & _ & _ & _ & _ & [->|[(_ & -> & _) _]]) Hh; [done|].
  apply Forall_insert; [done|]. by apply slot_from_empty.
Qed.

Lemma answer_from h now p a a0 i s :
  fetches now p a a0 i s -> in_frame (config_ a) p = true -> 0 <= pk_index p ->
  Forall (slot_from h) (slots_ a) -> p ∈ h ->
  Forall (slot_from h) (slots_ (answer i p s a0).2) /\
  (forall f, (answer i p s a0).1 = Some f -> frame_from h f).
Proof.
  intros Hf Hin Hidx Hh Hp. pose proof (fetches_from h _ _ _ _ _ _ Hf Hh) as Hh0.
  pose proof (fetched_lookup_lt _ _ _ _ _ _ Hf) as Hlt.
  destruct Hf as (Ha0 & Hc & Hi & Hs & Ht & _). rewrite <- Hc in Hin.
  pose proof (lookup_slot_inv _ _ _ Ha0 Hi) as Hsi.
  pose proof (Forall_lookup_1 _ _ _ _ Hh0 Hi) as Hsf.
  pose proof (slot_from_with_total _ _ p _ Hsi Hsf) as Hs1.
  destruct (with_total_fields p s) as (_ & _ & _ & Hact & Hts & _).
  destruct (in_frame_guards _ _ Hin) as (Hok & _).
  unfold answer. destruct (judge _ _ _) eqn:Ej; cbn [fst snd].
  - destruct (accept_ranges _ _ _ Hsi Hin Hidx Ej) as (Htot & Hn & Hr & Hsp & Hle & Hcnt).
    assert (Hs2 : slot_from h (store p (with_total p s))) by (apply slot_from_store; congruence || done).
    assert (Hin' := Hin). unfold in_frame in Hin'. bool_prop.
    set (s2 := store p (with_total p s)) in *.
    assert (Hs2t : fs_total s2 = pk_total p) by done.
    assert (Hs2a : active s2 = true) by (rewrite <- Hs, <- Hact; done).
    assert (Hs2ts : fs_timestamp_ns s2 = pk_timestamp_ns p) by (rewrite <- Ht, <- Hts; done).
    clearbody s2.
    destruct (Z.eqb_spec (sum_points s2) (fs_total s2)) as [Efull|Hnf]; cbn [fst snd].
    + change (bump (over frames_published) (bump (over packets_accepted) (set_slot i s2 a0)))
        with (set_slot i s2 (bump (over frames_published) (bump (over packets_accepted) a0))).
      rewrite finalize_set_slot by done. split.
      * apply Forall_slots_insert; [done|]. by apply slot_from_empty.
      * intros f [= <-]. split; cbn [fr_points fr_total_points fr_timestamp_ns].
        { by rewrite frame_points_length, <- Hsp. }
        intros j x Hj. rewrite <- Hs2t in Hr.
        assert (Hsc : scan 0 (packets s2) = Some (fs_total s2)) by (apply ranges_full_scan; (done || lia)).
        destruct (scan_lookup _ _ _ _ _ Hsc Hj) as (k & pts & o & Hk & Ho & Hx).
        destruct (Hs2 k pts Hk) as (q & Hq & Hqok & Hqt & Hqn & <- & <-).
        exists q, o. split_and!; try done. congruence.
    + split; [|done]. by apply Forall_slots_insert.
  - split; [|done]. by apply Forall_slots_insert.
  - split; [|done]. by apply Forall_slots_insert.
  - rewrite finalize_set_slot; [|done|congruence]. split; [|done].
    apply Forall_slots_insert; [done|]. by apply slot_from_empty.
Qed.

Lemma add_packet_from h now p a out a' :
  asm_inv a -> now < INT64_MAX -> 0 <= pk_index p ->
  Forall (slot_from h) (slots_ a) -> p ∈ h -> add_packet now p a = Some (out, a') ->
  Forall (slot_from h) (slots_ a') /\ (forall f, out = Some f -> frame_from h f).
Proof.
  intros Ha Hnow Hidx Hh Hp. destruct (in_frame (config_ a) p) eqn:Hin.
  - destruct (add_packet_answer now p a Ha Hin Hidx Hnow) as (i & s & a0 & Hf & ->).
    pose proof (answer_from h now p a a0 i s Hf Hin Hidx Hh Hp) as H.
    intros [= Heq]. by rewrite Heq in H.
  - destruct (add_packet_outside now p a Ha Hin) as [->|(i & s & Hi & Hs & Hts & ->)];
      intros [= <- <-]; (split; [|done]); [done|].
    apply Forall_slots_insert; [done|]. by apply slot_from_empty.
Qed.

Lemma expire_from_slots h now a :
  Forall (slot_from h) (slots_ a) -> Forall (slot_from h) (slots_ (expire now a)).
Proof.
  intros Hh. destruct (expire_from now [] (slots_ a) a eq_refl) as (Hs & _ & _).
  cbn [length] in Hs. unfold expire. rewrite Hs. cbn [app].
  apply List.Forall_map. refine (List.Forall_impl _ _ Hh). intros s Hsf.
  destruct (expired _ _ _); [by apply slot_from_empty|done].
Qed.

(** ** Runs *)

Lemma make_assembler_inv config :
  0 <= max_packets_per_frame config -> asm_inv (make_assembler config).
Proof.
  intros Hc. unfold make_assembler.
  destruct (Nat.eqb_spec (max_parallel_frames config) 0); split; cbn; try done.
  all: try (rewrite ?length_replicate; lia).
  all: try (repeat constructor; try done; by apply free_slot_inv).
  - intros i j si sj Hi. apply list_lookup_singleton_Some in Hi as [_ <-]. done.
  - apply Forall_replicate. by apply free_slot_inv.
  - intros i j si sj Hi. apply lookup_replicate in Hi as [-> _]. done.
Qed.

Definition adds (h : list asm_op) : list PointCloudPacketResult :=
  omap (fun o => match o with OpAdd _ p => Some p | OpExpire _ => None end) h.

Lemma expire_tally now a : tally (expire now a) = tally a /\ config_ (expire now a) = config_ a.
Proof.
  destruct (expire_from now [] (slots_ a) a eq_refl) as (_ & Hc & Hst). cbn [length] in *.
  unfold expire, tally. by rewrite Hst, Hc.
Qed.

(** Everything a run preserves: [h0] are the packets already fed. *)
Lemma asm_run_spec h0 h a :
  asm_inv a -> Forall op_wf h -> Forall (slot_from h0) (slots_ a) ->
  exists frames a', asm_run h a = Some (frames, a') /\ asm_inv a' /\
    config_ a' = config_ a /\ tally a' = tally a + psize (adds h) /\
    Forall (frame_from (h0 ++ adds h)) frames.
Proof.
  intros Ha Hh. revert h0 a Ha. induction Hh as [|o h Ho Hh IH]; intros h0 a Ha Hfrom.
  { exists [], a. split_and!; try done. symmetry. apply Z.add_0_r. }
  assert (Hstep : exists out a1, asm_step o a = Some (out, a1) /\ asm_inv a1 /\
    config_ a1 = config_ a /\ tally a1 = tally a + psize (adds [o]) /\
    Forall (slot_from (h0 ++ adds [o])) (slots_ a1) /\
    (forall f, out = Some f -> frame_from (h0 ++ adds [o]) f)).
  { destruct o as [now p|now]; cbn [asm_step adds omap list_omap].
    - destruct Ho as [Hnow Hidx].
      destruct (add_packet_ok now p a Ha Hnow Hidx) as (out & a1 & Hadd & Ha1 & Ht & Hc).
      exists out, a1. split_and!; try done.
      all: eapply (add_packet_from (h0 ++ [p]) now p a); eauto; [|set_solver].
      all: eapply Forall_impl; [|exact Hfrom].
      all: intros s; apply slot_from_mono; set_solver.
    - exists None, (expire now a). destruct (expire_tally now a) as [-> ->].
      rewrite app_nil_r. split_and!; try done; [by apply expire_inv|symmetry; apply Z.add_0_r|by apply expire_from_slots]. }
  destruct Hstep as (out & a1 & Hs & Ha1 & Hc1 & Ht1 & Hf1 & Hout).
  destruct (IH _ a1 Ha1 Hf1) as (frames & a' & Hr & Ha' & Hc' & Ht' & Hfr).
  cbn [asm_run]. rewrite Hs, Hr. exists (option_list out ++ frames), a'.
  assert (Had : adds (o :: h) = adds [o] ++ adds h) by (destruct o; done).
  rewrite Had, app_assoc. split_and!; try done; [congruence| |].
  - rewrite Ht', Ht1. unfold psize. rewrite length_app. lia.
  - apply Forall_app. split; [|done]. destruct out as [f|]; cbn; [|done].
    constructor; [|done]. destruct (Hout f eq_refl) as [Hn Hx]. split; [done|].
    intros j x Hj. destruct (Hx j x Hj) as (q & o' & Hq & ?). exists q, o'. split; [set_solver|done].
Qed.

(** A published frame is not empty and no larger than the configuration allows. *)
Lemma add_packet_total now p a f a' :
  asm_inv a -> now < INT64_MAX -> 0 <= pk_index p -> add_packet now p a = Some (Some f, a') ->
  0 < fr_total_points f <= max_points_per_frame (config_ a).
Proof.
  intros Ha Hnow Hidx. destruct (in_frame (config_ a) p) eqn:Hin.
  - destruct (add_packet_answer now p a Ha Hin Hidx Hnow) as (i & s & a0 & Hf & ->).
    destruct Hf as (Ha0 & Hc & Hi & _). pose proof (lookup_slot_inv _ _ _ Ha0 Hi) as Hsi.
    unfold answer. destruct (judge _ _ _) eqn:Ej; try done.
    destruct (_ =? _); [|done]. intros [= <- _]. cbn [fr_total_points].
    rewrite <- Hc in Hin. destruct (accept_ranges _ _ _ Hsi Hin Hidx Ej) as (Htot & _).
    rewrite <- Hc. unfold in_frame in Hin. bool_prop. cbn.
    unfold psize in *. lia.
  - destruct (add_packet_outside now p a Ha Hin) as [->|(i & s & _ & _ & _ & ->)]; done.
Qed.

Lemma asm_run_total h a fs a' :
  asm_inv a -> Forall op_wf h -> asm_run h a = Some (fs, a') ->
  Forall (fun f => 0 < fr_total_points f <= max_points_per_frame (config_ a)) fs.
Proof.
  intros Ha Hh. revert a fs Ha. induction Hh as [|o h Ho Hh IH]; intros a fs Ha; cbn [asm_run].
  { by intros [= <- <-]. }
  destruct (asm_step o a) as [[out a1]|] eqn:Hs; [|done].
  destruct (asm_run h a1) as [[fs1 a2]|] eqn:Hr; [|done]. intros [= <- <-].
  assert (H1 : asm_inv a1 /\ config_ a1 = config_ a /\
    (forall f, out = Some f -> 0 < fr_total_points f <= max_points_per_frame (config_ a))).
  { destruct o as [now p|now]; cbn [asm_step] in Hs.
    - destruct Ho as [Hnow Hidx]. destruct (add_packet_ok now p a Ha Hnow Hidx) as (out' & a1' & Hadd & Hi & _ & Hc).
      rewrite Hadd in Hs. injection Hs as -> ->. split_and!; try done. intros f ->.
      by eapply (add_packet_total now p a f a1).
    - injection Hs as <- <-. split_and!; [by apply expire_inv|by destruct (expire_tally now a)|done]. }
  destruct H1 as (Ha1 & Hc & Hout). apply Forall_app. split.
  - destruct out as [f|]; cbn; [|done]. constructor; [by apply Hout|done].
  - rewrite <- Hc. by apply (IH a1).
Qed.

(** ** Arrival order *)

Definition entry (p : PointCloudPacketResult) : Z * list LidarPoint := (pk_index p, pk_points p).

(** Two entries whose ranges do not meet. *)
Definition apart (e1 e2 : Z * list LidarPoint) : Prop :=
  e1.1 + psize e1.2 <= e2.1 \/ e2.1 + psize e2.2 <= e1.1.

(** A partition of [0, total) into non-empty packets. *)
Definition partition_of (total : Z) (m : packet_map) : Prop :=
  scan 0 m = Some total /\ Forall (fun e => 0 < psize e.2) m.

Definition before (e1 e2 : Z * list LidarPoint) : Prop := e1.1 < e2.1.

#[export] Instance before_antisymm : AntiSymm (=) before.
Proof. intros e1 e2. unfold before. lia. Qed.

Lemma scan_ranges lo hi m :
  scan lo m = Some hi -> Forall (fun e => 0 < psize e.2) m -> lo <= hi /\ ranges lo hi m.
Proof.
  revert lo. induction m as [|[k pts] m IH]; intros lo Hs Hm; cbn [scan ranges] in *.
  { injection Hs as ->. split; [lia|done]. }
  apply Forall_cons_iff in Hm as [Hp Hm]. cbn in Hp.
  destruct (Z.eqb_spec k lo) as [->|]; [|done]. destruct (IH _ Hs Hm) as [Hle Hr].
  split_and!; try lia. by replace (Z.max (lo + 1) (lo + psize pts)) with (lo + psize pts) by lia.
Qed.

Lemma ranges_apart lo hi m :
  ranges lo hi m -> Forall (fun e => lo <= e.1) m /\ StronglySorted before m /\
  forall i j e1 e2, (i < j)%nat -> m !! i = Some e1 -> m !! j = Some e2 ->
    e1.1 + psize e1.2 <= e2.1.
Proof.
  revert lo. induction m as [|[k pts] m IH]; intros lo Hr; [split_and!; [constructor|constructor|done]|].
  destruct Hr as (Hk & Hp & Hr). destruct (IH _ Hr) as (Hlo & Hst & Hap). split_and!.
  - constructor; [cbn; lia|]. refine (List.Forall_impl _ _ Hlo). cbn. lia.
  - constructor; [done|]. refine (List.Forall_impl _ _ Hlo). unfold before. cbn. lia.
  - intros [|i] [|j] e1 e2 Hij H1 H2; [lia| |lia|].
    + injection H1 as <-. pose proof (Forall_lookup_1 _ _ _ _ Hlo H2). cbn in *. lia.
    + by apply (Hap i j); [lia|..].
Qed.

Lemma permuted_apart lo hi m l e1 e2 :
  ranges lo hi m -> l ++ [e1; e2] ≡ₚ m -> apart e1 e2.
Proof.
  intros (_ & _ & Hap)%ranges_apart Hperm.
  assert (Hp : e1 :: e2 :: l ≡ₚ m) by (rewrite <- Hperm, (Permutation_app_comm l); done).
  apply Permutation_inj in Hp as [_ (f & Hinj & Hf)].
  pose proof (Hf 0%nat) as H0. pose proof (Hf 1%nat) as H1. cbn in H0, H1.
  unfold apart. destruct (decide (f 0 < f 1)%nat).
  - left. by eapply Hap.
  - right. eapply Hap; [|by symmetry..]. assert (f 0 <> f 1)%nat by (intros ?%Hinj; done). lia.
Qed.

Lemma lower_bound_keys k m :
  Forall (fun e => e.1 < k) (lower_bound k m).1 /\
  (forall e l, (lower_bound k m).2 = e :: l -> k <= e.1).
Proof.
  induction m as [|e m [IH1 IH2]]; cbn [lower_bound]; [by split|].
  destruct (e.1 <? k) eqn:E; cbn [fst snd]; [split; [constructor; [arith|done]|done]|].
  split; [done|]. intros e' l [= -> ->]. arith.
Qed.

Lemma overlaps_apart k v m :
  Forall (fun e => apart (k, v) e /\ 0 < psize e.2) m -> 0 < psize v ->
  map_find k m = None /\ overlaps k v m = false.
Proof.
  intros Hm Hv. split.
  - induction Hm as [|[k' v'] m [Hap Hp] _ IH]; cbn [map_find]; [done|].
    destruct (Z.eqb_spec k' k) as [->|]; [|done]. unfold apart in Hap. cbn in *. lia.
  - pose proof (lower_bound_keys k m) as [Hb Ha]. pose proof (lower_bound_app k m) as Heq.
    unfold overlaps. destruct (lower_bound k m) as [b af]. cbn [fst snd] in *. subst m.
    apply Forall_app in Hm as [Hmb Hma]. apply orb_false_iff. split.
    + destruct af as [|[k' v'] af]; [done|]. pose proof (Ha _ _ eq_refl).
      apply Forall_cons_iff in Hma as [[Hap Hp] _]. unfold apart in Hap. cbn in *. lia.
    + destruct b as [|e b] using rev_ind; [done|]. rewrite last_snoc.
      apply Forall_app in Hmb as [_ Hmb]. apply Forall_app in Hb as [_ Hb].
      apply Forall_cons_iff in Hmb as [[Hap Hp] _]. apply Forall_cons_iff in Hb as [Hb _].
      destruct e as [k' v']. unfold apart in Hap. cbn in *. lia.
Qed.

Lemma points_sum_perm m m' : m ≡ₚ m' -> points_sum m = points_sum m'.
Proof.
  induction 1 as [|[k p] m m' _ IH|[k p] [k' p'] m|m m' m'' _ IH1 _ IH2];
    rewrite ?points_sum_cons; lia.
Qed.

Section ArrivalOrder.
  Context (ts total : Z) (m : packet_map) (config : AssemblerConfig).
  Context (Hm : partition_of total m) (Htot : 0 < total <= max_points_per_frame config).
  Context (Hcount : psize m <= max_packets_per_frame config).

(** A packet of the frame. *)
Definition of_frame (p : PointCloudPacketResult) : Prop :=
  pk_ok p = true /\ pk_timestamp_ns p = ts /\ pk_total p = total.

Definition absent (a : assembler) : Prop :=
  forall j sj, slots_ a !! j = Some sj -> active sj = true -> fs_timestamp_ns sj <> ts.

(** The assembler holds exactly the entries [l] of the frame. *)
Definition holds (a : assembler) (l : packet_map) : Prop :=
  asm_inv a /\ config_ a = config /\
  match l with
  | [] => absent a
  | _ => exists i s, slots_ a !! i = Some s /\ active s = true /\ fs_timestamp_ns s = ts /\
      fs_total s = total /\ packets s ≡ₚ l
  end.

Lemma partition_ranges : ranges 0 total m.
Proof. destruct Hm as [Hs Hp]. by apply scan_ranges. Qed.

Lemma holds_fetched now p a a0 i s l :
  holds a l -> pk_timestamp_ns p = ts -> fetches now p a a0 i s ->
  packets s ≡ₚ l /\ (l <> [] -> fs_total s = total) /\ config_ a0 = config.
Proof.
  intros (Ha & Hc & Hl) Hts (Ha0 & Hc0 & Hi & Hs & Hst & Hor).
  assert (Hcfg : config_ a0 = config) by congruence.
  destruct l as [|e l].
  - destruct Hor as [->|[_ ->]]; [|done]. exfalso. apply (Hl i s Hi Hs). congruence.
  - destruct Hl as (j & sj & Hj & Hsj & Htj & Htotj & Hperm).
    destruct Hor as [->|[(Hno & _) _]]; [|exfalso; apply (Hno j sj Hj Hsj); congruence].
    assert (j = i) as -> by (eapply (ai_distinct _ Ha); eauto; congruence).
    rewrite Hj in Hi. injection Hi as ->. done.
Qed.

(** What the partition says of a packet that is still to come. *)
Lemma next_in_frame l p rest :
  of_frame p -> l ++ entry p :: rest ≡ₚ m -> in_frame config p = true /\ 0 <= pk_index p.
Proof.
  intros (Hok & _ & Ht) Hperm.
  assert (Hin : entry p ∈ m) by (rewrite <- Hperm; set_solver).
  assert (Hr : forall lo m', ranges lo total m' -> entry p ∈ m' ->
    lo <= pk_index p < total /\ pk_index p + psize (pk_points p) <= total).
  { intros lo m'. revert lo. induction m' as [|[k pts] m' IH]; intros lo Hr; [by intros ?%elem_of_nil|].
    destruct Hr as (Hk & Hp & Hr). intros [Heq|Hin']%elem_of_cons.
    - unfold entry in Heq. injection Heq as -> ->. split; lia.
    - pose proof (psize_nonneg pts). destruct (IH _ Hr Hin'). split; lia. }
  destruct (Hr _ _ partition_ranges Hin). unfold in_frame. rewrite Hok, Ht. cbn [andb].
  rewrite !andb_true_iff, negb_true_iff. split_and!; lia.
Qed.

Lemma next_judged l p rest s :
  of_frame p -> l ++ entry p :: rest ≡ₚ m -> packets s ≡ₚ l ->
  (l <> [] -> fs_total s = total) -> slot_inv config s -> judge config p s = Accept.
Proof.
  intros (Hok & Hts & Ht) Hperm Hl Htl Hsi. unfold judge.
  destruct Hm as [_ Hpos].
  assert (Hpos' : Forall (fun e => 0 < psize e.2) (l ++ entry p :: rest)) by (by rewrite Hperm).
  apply Forall_app in Hpos' as [Hposl Hposr]. apply Forall_cons_iff in Hposr as [Hposp _].
  assert (Hap : Forall (fun e => apart (pk_index p, pk_points p) e /\ 0 < psize e.2) (packets s)).
  { rewrite Hl. apply List.Forall_forall. intros e He. split.
    - apply in_split in He as (l1 & l2 & ->).
      apply (permuted_apart 0 total m (l1 ++ l2 ++ rest)); [apply partition_ranges|].
      change (pk_index p, pk_points p) with (entry p). rewrite <- Hperm. solve_Permutation.
    - by apply (proj1 (List.Forall_forall _ _) Hposl). }
  destruct (overlaps_apart _ _ _ Hap Hposp) as [-> ->].
  replace (max_packets_per_frame config <=? psize (packets s)) with false.
  - destruct (Z.ltb_spec 0 (unique_indices s)) as [Hu|]; cbn [andb]; [|done].
    replace (fs_total s =? pk_total p) with true; [done|]. symmetry. apply Z.eqb_eq.
    rewrite Ht. apply Htl. intros ->. apply Permutation_nil_r in Hl.
    rewrite (si_unique _ _ Hsi), Hl in Hu. done.
  - symmetry. apply Z.leb_gt. unfold psize in *. rewrite Hl.
    apply Permutation_length in Hperm. rewrite length_app in Hperm. cbn in Hperm. lia.
Qed.

(** One more packet: the frame comes out exactly with the last one. *)
Lemma feed_one now p l rest a :
  of_frame p -> now < INT64_MAX -> holds a l -> l ++ entry p :: rest ≡ₚ m ->
  exists a', match rest with
    | [] => add_packet now p a = Some (Some (mkFrame ts total (frame_points m)), a') /\ holds a' []
    | _ => add_packet now p a = Some (None, a') /\ holds a' (l ++ [entry p])
    end.
Proof.
  intros Hof Hnow Hh Hperm. pose proof Hh as (Ha & Hc & _).
  destruct (next_in_frame l p rest Hof Hperm) as [Hin Hidx]. rewrite <- Hc in Hin.
  destruct (add_packet_answer now p a Ha Hin Hidx Hnow) as (i & s & a0 & Hf & Hadd).
  pose proof (answer_inv now p a a0 i s Hf Hin Hidx) as Hinv.
  pose proof (fetched_lookup_lt _ _ _ _ _ _ Hf) as Hlt.
  destruct (holds_fetched now p a a0 i s l Hh (proj1 (proj2 Hof)) Hf) as (Hpk & Htl & Hc0).
  destruct Hf as (Ha0 & _ & Hi & Hs & Hst & _).
  pose proof (lookup_slot_inv _ _ _ Ha0 Hi) as Hsi. rewrite Hc0 in Hsi.
  pose proof (next_judged l p rest s Hof Hperm Hpk Htl Hsi) as Hj.
  rewrite Hc in Hin. destruct Hof as (Hok & Hts & Ht).
  destruct (accept_ranges config p s Hsi Hin Hidx Hj) as (Htot2 & Hnf & Hr & Hsum & Hle & _).
  destruct (with_total_fields p s) as (Hp1 & _ & _ & Hact & Hts1 & _).
  unfold answer in Hadd, Hinv. rewrite Hc0, Hj in Hadd, Hinv.
  set (s2 := store p (with_total p s)) in *.
  assert (Hs2 : fs_total s2 = total /\ active s2 = true /\ fs_timestamp_ns s2 = ts).
  { split_and!; [by rewrite <- Ht|by rewrite <- Hs, <- Hact|by rewrite <- Hts, <- Hst, <- Hts1]. }
  destruct Hs2 as (Hs2t & Hs2a & Hs2ts).
  assert (Hpm : packets s2 ≡ₚ l ++ [entry p]).
  { change (packets s2) with (map_emplace (pk_index p) (pk_points p) (packets (with_total p s))).
    rewrite map_emplace_perm, Hp1, Hpk by done. by rewrite (Permutation_app_comm l). }
  clearbody s2. rewrite Hsum in Hadd, Hinv. rewrite Hs2t in Hadd, Hinv.
  assert (Hms : points_sum m = total).
  { destruct Hm as [Hsc _]. clear -Hsc. enough (forall lo, scan lo m = Some total ->
      lo + points_sum m = total) as H by (specialize (H 0 Hsc); lia).
    clear Hsc. induction m as [|[k pts] m' IH]; intros lo; cbn [scan]; [intros [= ->]; cbn; lia|].
    destruct (k =? lo) eqn:E; [|done]. intros Hs. rewrite points_sum_cons.
    specialize (IH _ Hs). lia. }
  assert (Hsm : points_sum (packets s2) + points_sum rest = total).
  { rewrite <- Hms, <- (points_sum_perm _ _ Hperm), (points_sum_perm _ _ Hpm), !points_sum_app.
    destruct (entry p). rewrite !points_sum_cons. cbn. lia. }
  destruct rest as [|e rest].
  - replace (points_sum (packets s2) =? total) with true in * by (cbn in Hsm; lia).
    assert (Hpe : packets s2 = m).
    { apply (StronglySorted_unique before); [|apply (ranges_apart _ _ _ partition_ranges)|by rewrite Hpm].
      by apply (ranges_apart _ _ _ Hr). }
    rewrite Hpe, Hts in Hadd. eexists. split; [exact Hadd|]. split; [exact Hinv|].
    change (bump (over frames_published) (bump (over packets_accepted) (set_slot i s2 a0)))
      with (set_slot i s2 (bump (over frames_published) (bump (over packets_accepted) a0))).
    rewrite finalize_set_slot by done. split; [done|]. intros j sj Hjl Haj Hjt.
    apply lookup_insert_cases in Hjl as [(_ & -> & _)|[Hne Hjl]]; [done|].
    apply Hne. eapply (ai_distinct _ Ha0); eauto. congruence.
  - assert (Hpos : 0 < points_sum (e :: rest)).
    { destruct Hm as [_ Hpos]. rewrite <- Hperm in Hpos. apply Forall_app in Hpos as [_ Hpos].
      apply Forall_cons_iff in Hpos as [_ Hpos]. apply Forall_cons_iff in Hpos as [He _].
      destruct e as [k pts]. rewrite points_sum_cons. pose proof (points_sum_nonneg rest).
      cbn in He. lia. }
    replace (points_sum (packets s2) =? total) with false in * by lia.
    eexists. split; [exact Hadd|]. split; [exact Hinv|]. split; [done|].
    destruct (l ++ [entry p]) eqn:El; [by destruct l|]. exists i, s2. split_and!; try done.
    by apply list_lookup_insert_eq.
Qed.

Definition adds_of (tps : list (Z * PointCloudPacketResult)) : list asm_op :=
  map (fun tp => OpAdd tp.1 tp.2) tps.

(** Any tail of the packets, in any order. *)
Lemma feed_all tps l a :
  Forall (fun tp => of_frame tp.2 /\ tp.1 < INT64_MAX) tps ->
  holds a l -> l ++ map (fun tp => entry tp.2) tps ≡ₚ m -> tps <> [] ->
  (exists a', asm_run (adds_of tps) a = Some ([mkFrame ts total (frame_points m)], a') /\
     holds a' []) /\
  (forall q, q `prefix_of` tps -> q <> tps -> exists a', asm_run (adds_of q) a = Some ([], a')).
Proof.
  intros Htps. revert l a. induction Htps as [|[now p] tps [Hof Hnow] Htps IH]; intros l a Hh Hperm Hne; [done|].
  cbn [map fst snd] in *.
  destruct (feed_one now p l _ a Hof Hnow Hh Hperm) as (a1 & H1).
  destruct tps as [|tp tps].
  - destruct H1 as [H1 Hh1]. split.
    + exists a1. cbn [adds_of map asm_run asm_step fst snd]. by rewrite H1.
    + intros q [k Hk] Hq. destruct q as [|x q]; [by exists a|].
      exfalso. apply Hq. injection Hk as <- Hk. by destruct q, k.
  - destruct H1 as [H1 Hh1].
    destruct (IH (l ++ [entry p]) a1) as [(a' & Hr & Hh') Hpre]; [done|by rewrite <- app_assoc|done|].
    split.
    + exists a'. change (adds_of _) with (OpAdd now p :: adds_of (tp :: tps)).
      cbn [asm_run asm_step]. by rewrite H1, Hr.
    + intros q Hq Hqne. destruct q as [|x q]; [by exists a|].
      assert (x = (now, p)) as -> by (destruct Hq as [k Hk]; by injection Hk).
      apply prefix_cons_inv_2 in Hq. destruct (Hpre q Hq) as (a2 & Ha2); [congruence|].
      exists a2. change (adds_of _) with (OpAdd now p :: adds_of q).
      cbn [asm_run asm_step]. by rewrite H1, Ha2.
Qed.

End ArrivalOrder.

(** ** Properties *)

(** Order independence: when no frame with the time stamp is in flight, the
    packets of a partition of [0, total) publish the frame exactly once, with
    the last packet, with all points in offset order, whatever order they
    arrive in; no strict prefix of the arrivals publishes anything, and the
    slot is free again afterwards.  Claim C32. *)
Theorem frame_published_in_any_order ts total m tps a :
  asm_inv a -> absent ts a -> partition_of total m ->
  0 < total <= max_points_per_frame (config_ a) ->
  psize m <= max_packets_per_frame (config_ a) ->
  Forall (fun tp => of_frame ts total tp.2 /\ tp.1 < INT64_MAX) tps ->
  map (fun tp => entry tp.2) tps ≡ₚ m ->
  (exists a', asm_run (adds_of tps) a = Some ([mkFrame ts total (frame_points m)], a') /\
     asm_inv a' /\ absent ts a') /\
  (forall q, q `prefix_of` tps -> q <> tps -> exists a', asm_run (adds_of q) a = Some ([], a')).
Proof.
  intros Ha Habs Hm Ht Hn Htps Hperm.
  destruct (feed_all ts total m (config_ a) Hm Ht Hn tps [] a) as [(a' & Hr & Hh & _ & Hl) Hpre].
  - done.
  - done.
  - exact Hperm.
  - intros ->. apply Permutation_nil_l in Hperm. subst m. destruct Hm as [[= <-] _]. lia.
  - split; [|done]. by exists a'.
Qed.

(** Every frame that any sequence of calls on a fresh assembler publishes has
    exactly its declared number of points, and each of them is a point of a
    parsed packet that was fed in, with the frame's time stamp and total, at
    the offset the packet declares: nothing is invented, moved or mixed between
    frames.  Claim C33. *)
Theorem published_frames_are_genuine config h :
  0 <= max_packets_per_frame config -> Forall op_wf h ->
  exists frames a', asm_run h (make_assembler config) = Some (frames, a') /\
    Forall (frame_from (adds h)) frames.
Proof.
  intros Hc Hh.
  destruct (asm_run_spec [] h (make_assembler config) (make_assembler_inv _ Hc) Hh)
    as (frames & a' & Hr & _ & _ & _ & Hf); [|by exists frames, a'].
  unfold make_assembler. cbn. apply Forall_replicate. by apply slot_from_empty.
Qed.

(** Memory safety, bounds and accounting of any sequence of calls: no access
    leaves the slot array, at most [max_parallel_frames] frames are in flight,
    no frame stores more than [max_packets_per_frame] packets or its budget of
    points, packets of one frame never overlap, and every [add_packet] call is
    counted exactly once as accepted, duplicate, rejected or conflicting.
    Claim C34. *)
Theorem assembler_bounded config h :
  0 <= max_packets_per_frame config -> 0 <= max_points_per_frame config -> Forall op_wf h ->
  exists frames a', asm_run h (make_assembler config) = Some (frames, a') /\
    (in_flight_count a' <= Nat.max 1 (max_parallel_frames config))%nat /\
    Forall (fun s => psize (packets s) <= max_packets_per_frame config /\
      psize (frame_points (packets s)) <= max_points_per_frame config /\
      ranges 0 (Z.max 0 (fs_total s)) (packets s)) (slots_ a') /\
    tally a' = psize (adds h).
Proof.
  intros Hc Hp Hh.
  destruct (asm_run_spec [] h (make_assembler config) (make_assembler_inv _ Hc) Hh)
    as (frames & a' & Hr & Ha & Hcfg & Ht & _).
  { unfold make_assembler. cbn. apply Forall_replicate. by apply slot_from_empty. }
  exists frames, a'. split; [done|].
  assert (Hc' : (max_parallel_frames (config_ a') = Nat.max 1 (max_parallel_frames config))%nat /\
    max_packets_per_frame (config_ a') = max_packets_per_frame config /\
    max_points_per_frame (config_ a') = max_points_per_frame config).
  { rewrite Hcfg. unfold make_assembler. destruct (Nat.eqb_spec (max_parallel_frames config) 0);
      cbn; lia. }
  destruct Hc' as (Hc1 & Hc2 & Hc3). split_and!.
  - rewrite <- Hc1, <- (ai_slots _ Ha). unfold in_flight_count. apply length_filter.
  - refine (List.Forall_impl _ _ (ai_slot _ Ha)). intros s Hs.
    rewrite <- Hc2, <- Hc3, frame_points_length, <- (si_sum _ _ Hs).
    split; [by apply (si_count _ _ Hs)|].
    destruct (decide (packets s = [])) as [E|Hne].
    + rewrite (si_sum _ _ Hs), E. cbn. split; [lia|done].
    + pose proof (si_total _ _ Hs Hne). pose proof (si_incomplete _ _ Hs Hne).
      split; [lia|]. replace (Z.max 0 (fs_total s)) with (fs_total s) by lia.
      by apply (si_ranges _ _ Hs).
  - rewrite Ht. unfold make_assembler, tally. by destruct (_ =? 0)%nat.
Qed.

(** What one packet does, on every branch.  A packet outside its declared frame
    is rejected, or drops the frame of its time stamp if one is in flight.  Any
    other goes to the slot of its time stamp, or to a free one, or to that of
    the frame activated first when all are taken, and gets the slot's verdict:
    a changed total, changed content or an overlap drops the frame, identical
    content is a duplicate, a full frame rejects, and an accepted packet
    publishes exactly when the points add up to the total: the completion
    scan, the point budget test and the final size test never fail. *)
Theorem add_packet_verdict now p a :
  asm_inv a -> now < INT64_MAX -> 0 <= pk_index p ->
  if in_frame (config_ a) p then
    exists i s a0, fetches now p a a0 i s /\ add_packet now p a = Some (answer i p s a0)
  else
    add_packet now p a = Some (None, bump (over packets_rejected) a) \/
    exists i s, slots_ a !! i = Some s /\ active s = true /\
      fs_timestamp_ns s = pk_timestamp_ns p /\
      add_packet now p a = Some (None, drop_stat Conflict (set_slot i (cleared s) a)).
Proof.
  intros Ha Hnow Hidx. destruct (in_frame (config_ a) p) eqn:Hin.
  - by apply add_packet_answer.
  - by apply add_packet_outside.
Qed.

(** [expire] drops exactly the frames whose age has reached the timeout, counts
    each once, and leaves every other frame as it is. *)
Theorem expire_drops_aged_frames now a :
  slots_ (expire now a) =
    map (fun s => if active s && (frame_timeout (config_ a) <=? now - activated_at s)
                  then cleared s else s) (slots_ a) /\
  frames_dropped_timeout (stats_ (expire now a)) =
    frames_dropped_timeout (stats_ a) + count_expired now (config_ a) (slots_ a) /\
  (asm_inv a -> asm_inv (expire now a)).
Proof.
  destruct (expire_from now [] (slots_ a) a eq_refl) as (Hs & _ & Hst). cbn [length] in *.
  split_and!; [exact Hs| |apply expire_inv].
  unfold expire. rewrite Hst. unfold over. cbn [frames_dropped_timeout]. lia.
Qed.

(** ** Witnesses *)

Definition sample_point (n : Z) : LidarPoint :=
  mkPoint (f32_of_Z n) fzero fzero n [n; 0; 0; 0].

Definition sample_packet (ts total index : Z) (pts : list LidarPoint) : PointCloudPacketResult :=
  mkPacket true "" ts total index (psize pts) pts.

Definition sample_chunks : packet_map :=
  [(0, [sample_point 0; sample_point 1]); (2, [sample_point 2]); (3, [sample_point 3])].

(** Last chunk first. *)
Definition sample_arrivals : list (Z * PointCloudPacketResult) :=
  [(10, sample_packet 7 4 3 [sample_point 3]);
   (11, sample_packet 7 4 0 [sample_point 0; sample_point 1]);
   (12, sample_packet 7 4 2 [sample_point 2])].

Definition fresh_assembler : assembler := make_assembler default_assembler_config.

Lemma fresh_assembler_inv : asm_inv fresh_assembler.
Proof. by apply make_assembler_inv. Defined.

Lemma frame_published_in_any_order_witness :
  exists a', asm_run (adds_of sample_arrivals) fresh_assembler =
    Some ([mkFrame 7 4 (map sample_point [0; 1; 2; 3])], a').
Proof.
  destruct (frame_published_in_any_order 7 4 sample_chunks sample_arrivals fresh_assembler)
    as [(a' & Hr & _) _].
  - exact fresh_assembler_inv.
  - intros j sj Hj. cbn in Hj. apply (lookup_replicate 4 free_slot) in Hj as [-> _]. discriminate.
  - split; [reflexivity|]. repeat constructor.
  - split; [reflexivity|]. vm_compute. discriminate.
  - vm_compute. discriminate.
  - repeat constructor; cbn; unfold INT64_MAX; lia.
  - cbn. solve_Permutation.
  - exists a'. exact Hr.
Defined.

Lemma published_frames_are_genuine_witness :
  exists frames a', asm_run (OpExpire 5 :: adds_of sample_arrivals)
      (make_assembler default_assembler_config) = Some (frames, a') /\
    Forall (frame_from (adds (OpExpire 5 :: adds_of sample_arrivals))) frames.
Proof.
  apply (published_frames_are_genuine default_assembler_config
           (OpExpire 5 :: adds_of sample_arrivals)).
  - vm_compute. discriminate.
  - repeat constructor; cbn; unfold INT64_MAX; lia.
Defined.

Lemma assembler_bounded_witness :
  exists frames a', asm_run (adds_of sample_arrivals)
      (make_assembler default_assembler_config) = Some (frames, a') /\ tally a' = 3.
Proof.
  destruct (assembler_bounded default_assembler_config (adds_of sample_arrivals))
    as (frames & a' & Hr & _ & _ & Ht).
  - vm_compute. discriminate.
  - vm_compute. discriminate.
  - repeat constructor; cbn; unfold INT64_MAX; lia.
  - exists frames, a'. split; [exact Hr|exact Ht].
Defined.

Lemma add_packet_verdict_witness :
  exists i s a0, fetches 10 (sample_packet 7 4 3 [sample_point 3]) fresh_assembler a0 i s.
Proof.
  destruct (add_packet_verdict 10 (sample_packet 7 4 3 [sample_point 3]) fresh_assembler)
    as (i & s & a0 & Hf & _).
  - exact fresh_assembler_inv.
  - unfold INT64_MAX. lia.
  - vm_compute. discriminate.
  - exists i, s, a0. exact Hf.
Defined.

Lemma expire_drops_aged_frames_witness : asm_inv (expire 400000000 fresh_assembler).
Proof.
  apply (expire_drops_aged_frames 400000000 fresh_assembler). exact fresh_assembler_inv.
Defined.
