(* ===== verification/LidarReceiver.v ===== *)
(** * LidarReceiver: the datagram source and the receive thread of [lidar_stream]

    [Udp] is [UdpLidarDatagramSource] with the answers of the socket calls as
    arguments.  [LidarStreamReceiver] is a transition system: the receive thread,
    any number of threads that start and stop it, and callbacks that stop it from
    the receive thread itself.  A critical section of [mutex] is one step. *)

From S2P Require Import Prelude Cxx LidarParse FrameAssembler.

(** ** The transport interface, [ILidarDatagramSource]

    [receive] appends a datagram to the buffer or refuses; the environment's
    answers [I] say which datagrams it may come from. *)

Class DatagramSource (Src I : Type) := {
  receive : I -> bytes -> Z -> Src -> bool * bytes * Src;
  source_ok : Src -> Prop;
  offered : I -> bytes -> Prop;
  receive_keeps_ok : forall i out timeout s,
    source_ok s -> source_ok (receive i out timeout s).2;
  receive_offered : forall i out timeout s,
    source_ok s -> (receive i out timeout s).1.1 = true ->
    exists d, (receive i out timeout s).1.2 = out ++ d /\ offered i d;
  receive_refused : forall i out timeout s,
    (receive i out timeout s).1.1 = false -> (receive i out timeout s).1.2 = out }.

(** ** The UDP source *)

Module Udp.

Record Stats := mkStats { received : Z; dropped_source : Z; timeouts : Z; errors : Z }.

#[export] Instance eta_stats : Eta Stats := fun s =>
  mkStats (received s) (dropped_source s) (timeouts s) (errors s).

Record UdpLidarDatagramSource := mkSource {
  fd_ : Z; expected_source_ip_ : string; stats_ : Stats }.

#[export] Instance eta_source : Eta UdpLidarDatagramSource := fun s =>
  mkSource (fd_ s) (expected_source_ip_ s) (stats_ s).

Inductive SysCall :=
  | Socket
  | SetReuseAddr (fd : Z)
  | Bind (fd port addr : Z)
  | Close (fd : Z).

(** What [socket] and [bind] answer. *)
Record opening := mkOpening { socket_result : Z; bind_result : Z }.

(** What [poll] answers to a timeout, and the datagram and source address of
    [recvfrom]; [None] is its error. *)
Record reception := mkReception { poll_result : Z -> Z; recvfrom : option (bytes * Z) }.

Definition buf_size : nat := Z.to_nat 65536.

Definition count (f : (Z -> Z) -> Stats -> Stats) (s : UdpLidarDatagramSource)
  : UdpLidarDatagramSource := s <| stats_ := f (Z.add 1) (stats_ s) |>.

Definition valid (s : UdpLidarDatagramSource) : bool := 0 <=? fd_ s.

Section Sockets.

(** The C library's address conversions. *)
Context (inet_pton : string -> option Z) (inet_ntop : Z -> string).

(** The constructor. *)
Definition open_source (o : opening) (port : Z) (bind_ip expected_source_ip : string)
  : UdpLidarDatagramSource * list SysCall :=
  let s := mkSource (socket_result o) expected_source_ip (mkStats 0 0 0 0) in
  if fd_ s <? 0 then (s, [Socket])
  else
    let calls := [Socket; SetReuseAddr (fd_ s)] in
    match inet_pton (c_str bind_ip) with
    | None => (s <| fd_ := -1 |>, calls ++ [Close (fd_ s)])
    | Some addr =>
        if negb (bind_result o =? 0) then
          (s <| fd_ := -1 |>, calls ++ [Bind (fd_ s) port addr; Close (fd_ s)])
        else (s, calls ++ [Bind (fd_ s) port addr])
    end.

(** The destructor. *)
Definition close_source (s : UdpLidarDatagramSource) : UdpLidarDatagramSource * list SysCall :=
  if 0 <=? fd_ s then (s <| fd_ := -1 |>, [Close (fd_ s)]) else (s, []).

Definition poll_timeout (timeout : Z) : Z :=
  let timeout_ms := swrap 32 timeout in
  if timeout_ms <? 0 then 0 else timeout_ms.

Definition receive_udp (e : reception) (out : bytes) (timeout : Z) (s : UdpLidarDatagramSource)
  : bool * bytes * UdpLidarDatagramSource :=
  if fd_ s <? 0 then (false, out, count (over errors) s)
  else
    let pr := poll_result e (poll_timeout timeout) in
    if pr =? 0 then (false, out, count (over timeouts) s)
    else if pr <? 0 then (false, out, count (over errors) s)
    else
      match recvfrom e with
      | None => (false, out, count (over errors) s)
      | Some (datagram, from) =>
          let buf := take buf_size datagram in
          if negb (str_empty (expected_source_ip_ s)) &&
             negb (bool_decide (expected_source_ip_ s = c_str (inet_ntop from))) then
            (false, out, count (over dropped_source) s)
          else (true, out ++ buf, count (over received) s)
      end.

(** The datagrams the source may hand out: a readable socket's, from the
    expected address. *)
Definition from_expected (expected : string) (e : reception) (d : bytes) : Prop :=
  exists datagram from, recvfrom e = Some (datagram, from) /\ d = take buf_size datagram /\
    (expected = ""%string \/ c_str (inet_ntop from) = expected).

Lemma receive_udp_fixed e out timeout s :
  expected_source_ip_ (receive_udp e out timeout s).2 = expected_source_ip_ s /\
  fd_ (receive_udp e out timeout s).2 = fd_ s.
Proof. unfold receive_udp. by branches. Qed.

Lemma receive_udp_true e out timeout s :
  (receive_udp e out timeout s).1.1 = true ->
  exists d, (receive_udp e out timeout s).1.2 = out ++ d /\
    from_expected (expected_source_ip_ s) e d.
Proof.
  unfold receive_udp, from_expected.
  destruct (_ <? 0); [done|]. destruct (_ =? 0); [done|]. destruct (_ <? 0); [done|].
  destruct (recvfrom e) as [[datagram from]|]; [|done].
  destruct (negb _ && negb _) eqn:E; [done|]. intros _. eexists. split; [done|].
  exists datagram, from. split_and!; [done|done|].
  apply andb_false_iff in E as [E|E]; apply negb_false_iff in E.
  - left. by destruct (expected_source_ip_ s).
  - right. by apply bool_decide_eq_true in E.
Qed.

Lemma receive_udp_false e out timeout s :
  (receive_udp e out timeout s).1.1 = false -> (receive_udp e out timeout s).1.2 = out.
Proof. unfold receive_udp. by branches. Qed.

(** The UDP source is a transport: what it hands out comes from the peer. *)
Definition udp_transport (expected : string)
  : DatagramSource UdpLidarDatagramSource reception.
Proof.
  refine {| receive := receive_udp;
            source_ok := fun s => expected_source_ip_ s = expected;
            offered := from_expected expected |}.
  - intros i out timeout s Hs. by destruct (receive_udp_fixed i out timeout s) as [-> _].
  - intros i out timeout s <-. apply receive_udp_true.
  - apply receive_udp_false.
Defined.

End Sockets.

End Udp.

(** ** The receiver *)

Inductive LidarStreamKind := PointCloud | Odometry.

(** What is fixed at construction: the stream, the parser's configuration, which
    callbacks are set. *)
Record setup := mkSetup {
  kind : LidarStreamKind;
  config : LidarParseConfig;
  on_frame_set : bool;
  on_odometry_set : bool;
  on_parse_warning_set : bool }.

(** [std::thread]: default-constructed, running or finished, joined. *)
Inductive thread_handle := NoThread | Joinable | Joined.

#[export] Instance thread_handle_eq_dec : EqDecision thread_handle.
Proof. solve_decision. Defined.

Record impl (Src : Type) := mkImpl {
  source : Src;
  assembler_ : assembler;
  stop_requested : bool;
  running_ : bool;
  start_called : bool;
  thread : thread_handle;
  thread_id : option nat;
  last_warning : Z }.
Arguments mkImpl {Src}.
Arguments source {Src}.
Arguments assembler_ {Src}.
Arguments stop_requested {Src}.
Arguments running_ {Src}.
Arguments start_called {Src}.
Arguments thread {Src}.
Arguments thread_id {Src}.
Arguments last_warning {Src}.

#[export] Instance eta_impl Src : Eta (impl Src) := fun i =>
  mkImpl (source i) (assembler_ i) (stop_requested i) (running_ i) (start_called i)
    (thread i) (thread_id i) (last_warning i).

(** A callback and its argument; [now] is the clock reading of the throttle. *)
Inductive delivery :=
  | DFrame (f : PointCloudFrame)
  | DOdometry (o : LidarOdometry)
  | DWarning (now : Z) (reason : string).

(** Where the receive thread is.  [Terminated] is [std::terminate] or undefined
    behaviour. *)
Inductive rx_pc :=
  | NotCreated
  | AtWait                             (* head of the loop *)
  | AtReceive
  | InCallback (d : delivery)
  | Exited
  | Terminated.

(** Where a thread outside the receiver is, inside of [stop]. *)
Inductive stop_pc := Idle | AtStopMutex | Joining.

#[export] Instance stop_pc_eq_dec : EqDecision stop_pc.
Proof. solve_decision. Defined.

(** Newest first. *)
Inductive event (I : Type) :=
  | EvReceived (i : I) (d : bytes)
  | EvAssemble (o : asm_op)
  | EvDeliver (d : delivery)
  | EvStopped (k : nat).               (* a [stop] from outside returned *)
Arguments EvReceived {I}.
Arguments EvAssemble {I}.
Arguments EvDeliver {I}.
Arguments EvStopped {I}.

Record system (Src I : Type) := mkSystem {
  im : impl Src; rx : rx_pc; rx_id : nat; callers : list stop_pc; events : list (event I) }.
Arguments mkSystem {Src I}.
Arguments im {Src I}.
Arguments rx {Src I}.
Arguments rx_id {Src I}.
Arguments callers {Src I}.
Arguments events {Src I}.

#[export] Instance eta_system Src I : Eta (system Src I) := fun s =>
  mkSystem (im s) (rx s) (rx_id s) (callers s) (events s).

(** The clock readings of one iteration: in [add_packet], in the throttle, before
    [expire]. *)
Record clocks := mkClocks { now_add : Z; now_warn : Z; now_expire : Z }.

Inductive label (I : Type) :=
  | LStart (created : option nat)      (* the new thread's id; [None]: its creation throws *)
  | LStop (k : nat) (me : nat)         (* the first section of [stop] on caller [k], of id [me] *)
  | LStopMutex (k : nat)
  | LJoin (k : nat)
  | LWait
  | LReceive (i : I) (c : clocks)
  | LSelfStop                          (* a callback calls [stop] *)
  | LCallbackEnd (c : clocks).         (* it returns or throws *)
Arguments LStart {I}.
Arguments LStop {I}.
Arguments LStopMutex {I}.
Arguments LJoin {I}.
Arguments LWait {I}.
Arguments LReceive {I}.
Arguments LSelfStop {I}.
Arguments LCallbackEnd {I}.

(** [vector::data] and [size]: no storage, no pointer. *)
Definition buffer_data (buffer : bytes) : option bytes :=
  match buffer with [] => None | _ => Some buffer end.

Section Receiver.

Context {Src I : Type} `{!DatagramSource Src I} (cfg : setup).

Notation impl := (impl Src).
Notation system := (system Src I).
Notation event := (event I).
Notation label := (label I).

Definition make_receiver (s : Src) (ac : AssemblerConfig) (n : nat) : system :=
  mkSystem (mkImpl s (make_assembler ac) false false false NoThread None 0)
    NotCreated 0 (replicate n Idle) [].

Definition should_emit_warning (now : Z) (i : impl) : bool * impl :=
  if now - last_warning i <? seconds 1 then (false, i)
  else (true, i <| last_warning := now |>).

(** The rejection branch of both loops: [on_parse_warning] is tested before the
    throttle is consulted. *)
Definition warn (reason : string) (now : Z) (i : impl) : option delivery * impl :=
  if negb (on_parse_warning_set cfg) then (None, i)
  else
    let '(emit, i) := should_emit_warning now i in
    (if emit then Some (DWarning now reason) else None, i).

(** What the receive thread does between two calls of other code: its events,
    the callback it enters, and its state; [None] is undefined behaviour. *)
Definition outcome : Type := option (list event * option delivery * impl).

Definition handle_odometry (buffer : bytes) (c : clocks) (i : impl) : outcome :=
  parsed ← ParseOdometryPacket (buffer_data buffer) (config cfg);
  if negb (op_ok parsed) then
    let '(d, i) := warn (op_reason parsed) (now_warn c) i in Some ([], d, i)
  else
    Some ([], if on_odometry_set cfg then Some (DOdometry (op_odometry parsed)) else None, i).

Definition handle_point_cloud (buffer : bytes) (c : clocks) (i : impl) : outcome :=
  parsed ← ParsePointCloudPacket (buffer_data buffer) (config cfg);
  if pk_ok parsed then
    r ← add_packet (now_add c) parsed (assembler_ i);
    let '(frame, a) := (r : option PointCloudFrame * assembler) in
    Some ([EvAssemble (OpAdd (now_add c) parsed)],
          match frame with
          | Some f => if on_frame_set cfg then Some (DFrame f) else None
          | None => None
          end,
          i <| assembler_ := a |>)
  else
    let '(d, i) := warn (pk_reason parsed) (now_warn c) i in Some ([], d, i).

(** The end of an iteration. *)
Definition end_iteration (c : clocks) (i : impl) : list event * impl :=
  match kind cfg with
  | Odometry => ([], i)
  | PointCloud =>
      ([EvAssemble (OpExpire (now_expire c))],
       i <| assembler_ := expire (now_expire c) (assembler_ i) |>)
  end.

(** What follows [receive], by the kind of the stream. *)
Definition handle (got : bool) (buffer : bytes) (c : clocks) (i : impl) : outcome :=
  if negb got then Some ([], None, i)
  else
    match kind cfg with
    | Odometry => handle_odometry buffer c i
    | PointCloud => handle_point_cloud buffer c i
    end.

(** From [receive] to the callback or to the end of the iteration. *)
Definition receive_step (inp : I) (c : clocks) (s : system) : system :=
  let '(got, buffer, src) := receive inp [] 50 (source (im s)) in
  let i := (im s) <| source := src |> in
  let arrived := if got then [EvReceived inp buffer] else [] in
  match handle got buffer c i with
  | None => s <| rx := Terminated |>
  | Some (evs, Some d, i) =>
      s <| im := i |> <| rx := InCallback d |>
        <| events := EvDeliver d :: evs ++ arrived ++ events s |>
  | Some (evs, None, i) =>
      let '(evs', i) := end_iteration c i in
      s <| im := i |> <| rx := AtWait |> <| events := evs' ++ evs ++ arrived ++ events s |>
  end.

Definition request_stop (i : impl) : impl :=
  i <| stop_requested := true |> <| running_ := false |>.

Definition set_caller (k : nat) (p : stop_pc) (s : system) : system :=
  s <| callers := <[k := p]> (callers s) |>.

Definition stopped (k : nat) (s : system) : system :=
  s <| events := EvStopped k :: events s |>.

(** Thread ids differ while both threads exist; the id of a joined thread may be
    used again. *)
Definition distinct_id (me : nat) (i : impl) : bool :=
  match thread i with
  | Joinable => negb (bool_decide (thread_id i = Some me))
  | _ => true
  end.

Definition step (l : label) (s : system) : option system :=
  match l with
  | LStart created =>
      if stop_requested (im s) || start_called (im s) then Some s
      else
        let i := (im s) <| start_called := true |> <| running_ := true |> in
        match created with
        | None => Some (s <| im := i |>)
        | Some id =>
            Some (s <| im := i <| thread := Joinable |> <| thread_id := Some id |> |>
                    <| rx := AtWait |> <| rx_id := id |>)
        end
  | LStop k me =>
      if bool_decide (callers s !! k = Some Idle) && distinct_id me (im s) then
        let s := s <| im := request_stop (im s) |> in
        if bool_decide (thread_id (im s) = Some me) then Some (stopped k s)
        else Some (set_caller k AtStopMutex s)
      else None
  | LStopMutex k =>
      if bool_decide (callers s !! k = Some AtStopMutex) &&
         negb (bool_decide (Joining ∈ callers s)) then
        if bool_decide (thread (im s) = Joinable) then Some (set_caller k Joining s)
        else Some (stopped k (set_caller k Idle s))
      else None
  | LJoin k =>
      if bool_decide (callers s !! k = Some Joining) then
        match rx s with
        | Exited =>
            Some (stopped k (set_caller k Idle (s <| im := (im s) <| thread := Joined |> |>)))
        | _ => None
        end
      else None
  | LWait =>
      match rx s with
      | AtWait =>
          if stop_requested (im s) then Some (s <| rx := Exited |>)
          else if running_ (im s) then Some (s <| rx := AtReceive |>)
          else None
      | _ => None
      end
  | LReceive inp c =>
      match rx s with AtReceive => Some (receive_step inp c s) | _ => None end
  | LSelfStop =>
      match rx s with
      | InCallback d =>
          let s := s <| im := request_stop (im s) |> in
          if bool_decide (thread_id (im s) = Some (rx_id s)) then Some s
          else Some (s <| rx := Terminated |>)
      | _ => None
      end
  | LCallbackEnd c =>
      match rx s with
      | InCallback d =>
          let '(evs, i) := end_iteration c (im s) in
          Some (s <| im := i |> <| rx := AtWait |> <| events := evs ++ events s |>)
      | _ => None
      end
  end.

Definition running (s : system) : bool := running_ (im s) && negb (stop_requested (im s)).

Fixpoint run (ls : list label) (s : system) : option system :=
  match ls with
  | [] => Some s
  | l :: ls' => match step l s with Some s' => run ls' s' | None => None end
  end.

(** A clock below its maximum. *)
Definition label_wf (l : label) : Prop :=
  match l with LReceive _ c => now_add c < INT64_MAX | _ => True end.

Inductive reachable (s0 : system) : system -> Prop :=
  | reach_init : reachable s0 s0
  | reach_step l s s' :
      reachable s0 s -> label_wf l -> step l s = Some s' -> reachable s0 s'.

End Receiver.
