(* ===== verification/LidarDelivery.v ===== *)
(** * LidarDelivery: what the receive thread of [LidarReceiver] delivers, and when

    The events of a run are read back as the datagrams received, the calls of the
    assembler and the callbacks made.  The receiver implements a pipeline: parse
    every datagram, feed the assembler, deliver its frames; it is silent once a
    [stop] has returned, and [stop] returns. *)

From S2P Require Import Prelude Cxx LidarParse FrameAssembler LidarReceiver.

(** ** The history of a run, oldest first *)

Section History.

Context {I : Type}.

Implicit Types evs : list (event I).

Definition received_datagram (e : event I) : option bytes :=
  match e with EvReceived _ d => Some d | _ => None end.
Definition operation (e : event I) : option asm_op :=
  match e with EvAssemble o => Some o | _ => None end.
Definition delivered_frame (e : event I) : option PointCloudFrame :=
  match e with EvDeliver (DFrame f) => Some f | _ => None end.
Definition delivered_odometry (e : event I) : option LidarOdometry :=
  match e with EvDeliver (DOdometry o) => Some o | _ => None end.
Definition delivered_warning (e : event I) : option (Z * string) :=
  match e with EvDeliver (DWarning now reason) => Some (now, reason) | _ => None end.
Definition delivery_of (e : event I) : option delivery :=
  match e with EvDeliver d => Some d | _ => None end.

Definition datagrams evs : list bytes := omap received_datagram (rev evs).
Definition operations evs : list asm_op := omap operation (rev evs).
Definition frames evs : list PointCloudFrame := omap delivered_frame (rev evs).
Definition odometries evs : list LidarOdometry := omap delivered_odometry (rev evs).
Definition deliveries evs : list delivery := omap delivery_of (rev evs).

(** Newest first. *)
Definition warnings evs : list (Z * string) := omap delivered_warning evs.

End History.

(** ** The pipeline the receiver implements *)

Definition parsed_packet (config : LidarParseConfig) (d : bytes)
  : option PointCloudPacketResult :=
  match ParsePointCloudPacket (buffer_data d) config with
  | Some p => if pk_ok p then Some p else None
  | None => None
  end.

Definition parsed_odometry (config : LidarParseConfig) (d : bytes) : option LidarOdometry :=
  match ParseOdometryPacket (buffer_data d) config with
  | Some p => if op_ok p then Some (op_odometry p) else None
  | None => None
  end.

(** The reason the parser of the stream gives for rejecting a datagram. *)
Definition rejection (cfg : setup) (d : bytes) : option string :=
  match kind cfg with
  | PointCloud =>
      match ParsePointCloudPacket (buffer_data d) (config cfg) with
      | Some p => if pk_ok p then None else Some (pk_reason p)
      | None => None
      end
  | Odometry =>
      match ParseOdometryPacket (buffer_data d) (config cfg) with
      | Some p => if op_ok p then None else Some (op_reason p)
      | None => None
      end
  end.

(** Warnings, newest first, a second apart; [last] is the time of the newest, the
    epoch of the clock when there is none. *)
Fixpoint throttled (last : Z) (ws : list (Z * string)) : Prop :=
  match ws with
  | [] => last = 0
  | (t, _) :: ws' => t = last /\ exists prev, throttled prev ws' /\ seconds 1 <= t - prev
  end.

Record pipeline {Src I} `{!DatagramSource Src I} (cfg : setup) (ac : AssemblerConfig)
    (i : impl Src) (evs : list (event I)) : Prop := {
  pl_source : source_ok (source i);
  pl_offered : forall inp d, EvReceived inp d ∈ evs -> offered inp d;
  pl_cloud : kind cfg = PointCloud ->
    (exists fs, asm_run (operations evs) (make_assembler ac) = Some (fs, assembler_ i) /\
       frames evs = if on_frame_set cfg then fs else []) /\
    adds (operations evs) = omap (parsed_packet (config cfg)) (datagrams evs) /\
    odometries evs = [];
  pl_odometry : kind cfg = Odometry ->
    odometries evs = (if on_odometry_set cfg
                      then omap (parsed_odometry (config cfg)) (datagrams evs) else []) /\
    operations evs = [] /\ frames evs = [];
  pl_ops : Forall op_wf (operations evs);
  pl_warnings : throttled (last_warning i) (warnings evs);
  pl_reasons : forall t r, (t, r) ∈ warnings evs ->
    on_parse_warning_set cfg = true /\ exists d, d ∈ datagrams evs /\ rejection cfg d = Some r }.

(** ** Runs of the assembler *)

Lemma asm_run_snoc h o a :
  asm_run (h ++ [o]) a =
    match asm_run h a with
    | Some (fs, a1) =>
        match asm_step o a1 with
        | Some (out, a2) => Some (fs ++ option_list out, a2)
        | None => None
        end
    | None => None
    end.
Proof.
  revert a. induction h as [|o' h IH]; intros a; cbn [app asm_run].
  - destruct (asm_step o a) as [[out a2]|]; [|done]. by rewrite app_nil_r.
  - destruct (asm_step o' a) as [[out a1]|]; [|done]. rewrite IH.
    destruct (asm_run h a1) as [[fs a2]|]; [|done].
    destruct (asm_step o a2) as [[out' a3]|]; [|done]. by rewrite app_assoc.
Qed.

Lemma asm_run_inv h ac fs a :
  0 <= max_packets_per_frame ac -> Forall op_wf h ->
  asm_run h (make_assembler ac) = Some (fs, a) -> asm_inv a.
Proof.
  intros Hac Hh Hr.
  destruct (asm_run_spec [] h (make_assembler ac) (make_assembler_inv _ Hac) Hh)
    as (fs' & a' & Hr' & Ha & _).
  { unfold make_assembler. cbn. apply Forall_replicate, slot_from_empty. done. }
  rewrite Hr' in Hr. by simplify_eq.
Qed.

Lemma parsed_index data config p :
  config_doubles config = true -> ParsePointCloudPacket data config = Some p ->
  pk_ok p = true -> 0 <= pk_index p.
Proof.
  intros Hd Hp Hok.
  destruct (ParsePointCloudPacket_total data config Hd) as (r & Hr & Hcase).
  rewrite Hr in Hp. injection Hp as ->.
  destruct Hcase as [[_ (d & -> & Ha)]|[(_ & Hf & _) _]]; [|cbn in Hf; congruence].
  unfold cloud_accepts in Ha. apply andb_true_iff in Ha as [[Hv Hh]%andb_true_iff Hf].
  destruct (ParsePointCloudPacket_formats d config Hv Hd Hh) as [Hfmt _].
  apply orb_true_iff in Hf as [Hf|Hf].
  1: destruct (Hfmt kPackedCloud (or_introl eq_refl) Hf) as [reason Hp].
  2: destruct (Hfmt kAlignedCloud (or_intror eq_refl) Hf) as [reason Hp].
  all: rewrite Hr in Hp; injection Hp as ->; cbn -[field]; apply field_range.
Qed.

(** ** Appending events *)

Lemma omap_rev_cons {A B} (f : A -> option B) x l :
  omap f (rev (x :: l)) = omap f (rev l) ++ option_list (f x).
Proof. cbn [rev]. rewrite omap_app. f_equal. Qed.

Section Snoc.

Context {I : Type}.
Implicit Types (e : event I) (evs : list (event I)).

Lemma datagrams_cons e evs :
  datagrams (e :: evs) = datagrams evs ++ option_list (received_datagram e).
Proof. apply omap_rev_cons. Qed.
Lemma operations_cons e evs :
  operations (e :: evs) = operations evs ++ option_list (operation e).
Proof. apply omap_rev_cons. Qed.
Lemma frames_cons e evs :
  frames (e :: evs) = frames evs ++ option_list (delivered_frame e).
Proof. apply omap_rev_cons. Qed.
Lemma odometries_cons e evs :
  odometries (e :: evs) = odometries evs ++ option_list (delivered_odometry e).
Proof. apply omap_rev_cons. Qed.
Lemma deliveries_cons e evs :
  deliveries (e :: evs) = deliveries evs ++ option_list (delivery_of e).
Proof. apply omap_rev_cons. Qed.
Lemma warnings_cons e evs :
  warnings (e :: evs) = option_list (delivered_warning e) ++ warnings evs.
Proof. unfold warnings. cbn. by destruct (delivered_warning e). Qed.

End Snoc.

#[export] Hint Rewrite @datagrams_cons @operations_cons @frames_cons @odometries_cons
  @deliveries_cons @warnings_cons : history.

(** Reads the histories of the goal off the last events. *)
Ltac history :=
  cbn [option_list option_rect fmap option_fmap option_map app];
  autorewrite with history;
  cbn [option_list option_rect received_datagram operation delivered_frame delivered_odometry
       delivered_warning delivery_of app];
  rewrite ?app_nil_r.

Lemma adds_snoc h o : adds (h ++ [o]) = adds h ++ adds [o].
Proof. apply omap_app. Qed.

Section Pipeline.

Context {Src I : Type} `{!DatagramSource Src I} (cfg : setup) (ac : AssemblerConfig).
Hypothesis (Hdoubles : config_doubles (config cfg) = true).
Hypothesis (Hac : 0 <= max_packets_per_frame ac).

Notation pipeline := (pipeline (Src:=Src) (I:=I) cfg ac).

(** Steps that leave the receive thread's own state alone. *)
Lemma pipeline_frame i i' evs :
  source i' = source i -> assembler_ i' = assembler_ i -> last_warning i' = last_warning i ->
  pipeline i evs -> pipeline i' evs.
Proof. intros H1 H2 H3 []. by split; rewrite ?H1, ?H2, ?H3. Qed.

Lemma pipeline_stopped i evs k : pipeline i evs -> pipeline i (EvStopped k :: evs).
Proof.
  intros [].
  split; try (history; done).
  intros inp d Hin. apply pl_offered0. set_solver.
Qed.

(** The end of an iteration expires frames of the assembler. *)
Lemma pipeline_end_iteration c i evs es i' :
  pipeline i evs -> end_iteration cfg c i = (es, i') -> pipeline i' (es ++ evs).
Proof.
  intros Hp. unfold end_iteration.
  destruct (kind cfg) eqn:Hk; intros [= <- <-]; cbn [app]; [|done].
  destruct Hp as [Hsrc Hoff Hcl Hod Hops Hw Hr].
  split; try done.
  - intros inp d Hin. apply Hoff. set_solver.
  - intros _. destruct (Hcl Hk) as ((fs & Hrun & Hfs) & Hadds & Hodom). history.
    rewrite adds_snoc. split_and!; [|by rewrite app_nil_r|done].
    exists fs. split; [|done]. rewrite asm_run_snoc, Hrun. cbn. by rewrite app_nil_r.
  - congruence.
  - history. apply Forall_app. split; [done|by constructor].
  - intros t r. history. apply Hr.
Qed.

Lemma pipeline_warning d i evs reason now :
  pipeline i evs -> on_parse_warning_set cfg = true ->
  d ∈ datagrams evs -> rejection cfg d = Some reason -> seconds 1 <= now - last_warning i ->
  pipeline (i <| last_warning := now |>) (EvDeliver (DWarning now reason) :: evs).
Proof.
  intros [Hsrc Hoff Hcl Hod Hops Hw Hr] Hset Hd Hrej Hgap.
  split; try (history; done).
  - intros inp d' Hin. apply Hoff. set_solver.
  - history. split; [reflexivity|]. by exists (last_warning i).
  - intros t r. history. rewrite elem_of_cons. intros [[= -> ->]|Hin]; [eauto|by apply (Hr t)].
Qed.

(** A rejected datagram: the throttle lets its reason through or not. *)
Lemma pipeline_warn d inp i evs reason now :
  source_ok (source i) -> offered inp d ->
  pipeline i evs -> rejection cfg d = Some reason ->
  pipeline (warn cfg reason now i).2
    (option_list (EvDeliver <$> (warn cfg reason now i).1) ++ EvReceived inp d :: evs).
Proof.
  intros Hsrc Hoffd [_ Hoff Hcl Hod Hops Hw Hr] Hrej.
  assert (Hnone : kind cfg = PointCloud -> parsed_packet (config cfg) d = None).
  { unfold rejection in Hrej. unfold parsed_packet. intros Hk. rewrite Hk in Hrej.
    destruct (ParsePointCloudPacket _ _) as [p|]; [|done]. by destruct (pk_ok p). }
  assert (Hnone' : kind cfg = Odometry -> parsed_odometry (config cfg) d = None).
  { unfold rejection in Hrej. unfold parsed_odometry. intros Hk. rewrite Hk in Hrej.
    destruct (ParseOdometryPacket _ _) as [p|]; [|done]. by destruct (op_ok p). }
  assert (Hbase : forall i', source i' = source i -> assembler_ i' = assembler_ i ->
    last_warning i' = last_warning i -> pipeline i' (EvReceived inp d :: evs)).
  { intros i' E1 E2 E3. split; rewrite ?E1, ?E2, ?E3; try done.
    - intros inp' d' Hin. apply elem_of_cons in Hin as [[= -> ->]|Hin]; [done|by apply Hoff].
    - intros Hk. destruct (Hcl Hk) as ((fs & Hrun & Hfs) & Hadds & Hodom). history.
      rewrite omap_app. cbn. rewrite Hnone by done. cbn. rewrite app_nil_r. eauto.
    - intros Hk. destruct (Hod Hk) as (H1 & H2 & H3). history. rewrite omap_app. cbn.
      rewrite Hnone' by done. cbn. by rewrite app_nil_r.
    - by history.
    - intros t r. history. intros Hin. destruct (Hr t r Hin) as (Hs & d' & Hd' & ?).
      split; [done|]. exists d'. split; [set_solver|done]. }
  unfold warn, should_emit_warning. destruct (on_parse_warning_set cfg) eqn:Hset; cbn [negb];
    [|by apply Hbase].
  destruct (_ <? _) eqn:Hlt; [by apply Hbase|]. bool_prop.
  apply (pipeline_warning d); [by apply Hbase|done|history; set_solver|done|lia].
Qed.

(** An accepted datagram. *)
Lemma pipeline_odometry d inp i evs o :
  kind cfg = Odometry -> offered inp d -> pipeline i evs ->
  parsed_odometry (config cfg) d = Some o ->
  pipeline i (option_list (EvDeliver <$> (if on_odometry_set cfg then Some (DOdometry o) else None))
              ++ EvReceived inp d :: evs).
Proof.
  intros Hk Hoffd [Hsrc Hoff Hcl Hod Hops Hw Hr] Ho.
  destruct (Hod Hk) as (H1 & H2 & H3).
  split; try done; try (destruct (on_odometry_set cfg); history; done).
  - intros inp' d' Hin. destruct (on_odometry_set cfg); cbn in Hin; set_solver.
  - congruence.
  - intros _. revert H1. destruct (on_odometry_set cfg); intros H1; history; [|done].
    rewrite omap_app, H1. cbn. by rewrite Ho.
  - intros t r Hin. assert (Hin' : (t, r) ∈ warnings evs).
    { revert Hin. by destruct (on_odometry_set cfg); history. }
    destruct (Hr t r Hin') as (Hs & d' & Hd' & ?). split; [done|]. exists d'. split; [|done].
    destruct (on_odometry_set cfg); history; set_solver.
Qed.

Lemma pipeline_packet d inp i evs p out a now :
  kind cfg = PointCloud -> offered inp d -> pipeline i evs -> now < INT64_MAX -> 0 <= pk_index p ->
  parsed_packet (config cfg) d = Some p -> add_packet now p (assembler_ i) = Some (out, a) ->
  pipeline (i <| assembler_ := a |>)
    (option_list (EvDeliver <$> match out with
       | Some f => if on_frame_set cfg then Some (DFrame f) else None
       | None => None end) ++ EvAssemble (OpAdd now p) :: EvReceived inp d :: evs).
Proof.
  intros Hk Hoffd [Hsrc Hoff Hcl Hod Hops Hw Hr] Hnow Hidx Hp Hadd.
  destruct (Hcl Hk) as ((fs & Hrun & Hfs) & Hadds & Hodom).
  set (dl := match out with Some f => _ | None => None end).
  assert (Hdl : dl = None \/ exists f, dl = Some (DFrame f)).
  { subst dl. destruct out; [|by left]. destruct (on_frame_set cfg); eauto. }
  split; try done; try (destruct Hdl as [-> | [f ->]]; history; done).
  - intros inp' d' Hin. destruct Hdl as [Hdl | [f Hdl]]; rewrite Hdl in Hin; cbn in Hin; set_solver.
  - intros _. split_and!.
    + exists (fs ++ option_list out). split.
      * destruct Hdl as [-> | [f ->]]; history; rewrite asm_run_snoc, Hrun; cbn [asm_step];
          by rewrite Hadd.
      * subst dl. destruct out as [f|]; destruct (on_frame_set cfg); history; by rewrite Hfs.
    + destruct Hdl as [-> | [f ->]]; history; rewrite adds_snoc, omap_app, Hadds; cbn;
        by rewrite Hp.
    + destruct Hdl as [-> | [f ->]]; by history.
  - congruence.
  - destruct Hdl as [-> | [f ->]]; history; (apply Forall_app; split; [done|by constructor]).
  - intros t r Hin. assert (Hin' : (t, r) ∈ warnings evs).
    { revert Hin. by destruct Hdl as [-> | [f ->]]; history. }
    destruct (Hr t r Hin') as (Hs & d' & Hd' & ?). split; [done|]. exists d'. split; [|done].
    destruct Hdl as [-> | [f ->]]; history; set_solver.
Qed.

(** The members that [start] and [stop] write. *)
Definition same_control (i i' : impl Src) : Prop :=
  stop_requested i' = stop_requested i /\ running_ i' = running_ i /\
  start_called i' = start_called i /\ thread i' = thread i /\ thread_id i' = thread_id i.

Lemma warn_control reason now (i : impl Src) : same_control i (warn cfg reason now i).2.
Proof. unfold warn, should_emit_warning. destruct (on_parse_warning_set cfg); cbn; [|done]. by destruct (_ <? _). Qed.

Definition handled (inp : I) (d : bytes) (i : impl Src) (evs : list (event I))
    (o : option (list (event I) * option delivery * impl Src)) : Prop :=
  exists es dl i', o = Some (es, dl, i') /\ same_control i i' /\
    (forall k, EvStopped k ∉ es) /\
    pipeline i' (option_list (EvDeliver <$> dl) ++ es ++ EvReceived inp d :: evs).

Lemma handle_odometry_pipeline d inp c i evs :
  kind cfg = Odometry -> offered inp d -> pipeline i evs ->
  handled inp d i evs (handle_odometry cfg d c i).
Proof.
  intros Hk Hoffd Hp. unfold handle_odometry, handled.
  destruct (ParseOdometryPacket_total (buffer_data d) (config cfg) Hdoubles) as (p & Hparse & _).
  rewrite Hparse. cbn [mbind option_bind]. destruct (op_ok p) eqn:Hok; cbn [negb].
  - eexists _, _, _. split; [done|]. split_and!; [done|set_solver|].
    apply (pipeline_odometry d); try done. unfold parsed_odometry. by rewrite Hparse, Hok.
  - pose proof (warn_control (op_reason p) (now_warn c) i).
    pose proof (pipeline_warn d inp i evs (op_reason p) (now_warn c) (pl_source _ _ _ _ Hp)
      Hoffd Hp) as Hw.
    destruct (warn cfg (op_reason p) (now_warn c) i) as [dl i']. eexists _, _, _.
    split; [done|]. split_and!; [done|set_solver|]. apply Hw.
    unfold rejection. by rewrite Hk, Hparse, Hok.
Qed.

Lemma handle_point_cloud_pipeline d inp c i evs :
  kind cfg = PointCloud -> offered inp d -> now_add c < INT64_MAX -> pipeline i evs ->
  handled inp d i evs (handle_point_cloud cfg d c i).
Proof.
  intros Hk Hoffd Hnow Hp. unfold handle_point_cloud, handled.
  destruct (ParsePointCloudPacket_total (buffer_data d) (config cfg) Hdoubles) as (p & Hparse & _).
  rewrite Hparse. cbn [mbind option_bind]. destruct (pk_ok p) eqn:Hok.
  - pose proof (parsed_index _ _ _ Hdoubles Hparse Hok) as Hidx.
    destruct (pl_cloud _ _ _ _ Hp Hk) as ((fs & Hrun & _) & _).
    pose proof (asm_run_inv _ _ _ _ Hac (pl_ops _ _ _ _ Hp) Hrun) as Ha.
    destruct (add_packet_ok (now_add c) p (assembler_ i) Ha Hnow Hidx) as (out & a & Hadd & _).
    rewrite Hadd. cbn [mbind option_bind]. eexists _, _, _. split; [done|].
    split_and!; [done|set_solver|]. apply pipeline_packet; try done.
    unfold parsed_packet. by rewrite Hparse, Hok.
  - pose proof (warn_control (pk_reason p) (now_warn c) i).
    pose proof (pipeline_warn d inp i evs (pk_reason p) (now_warn c) (pl_source _ _ _ _ Hp)
      Hoffd Hp) as Hw.
    destruct (warn cfg (pk_reason p) (now_warn c) i) as [dl i']. eexists _, _, _.
    split; [done|]. split_and!; [done|set_solver|]. apply Hw.
    unfold rejection. by rewrite Hk, Hparse, Hok.
Qed.

Lemma receive_step_spec inp c (s : system Src I) :
  now_add c < INT64_MAX -> pipeline (im s) (events s) ->
  let s' := receive_step cfg inp c s in
  pipeline (im s') (events s') /\ same_control (im s) (im s') /\
  callers s' = callers s /\ rx_id s' = rx_id s /\
  (rx s' = AtWait \/ exists d, rx s' = InCallback d) /\
  (forall k, EvStopped k ∈ events s' -> EvStopped k ∈ events s).
Proof.
  intros Hnow Hp. cbn zeta. unfold receive_step.
  pose proof (receive_keeps_ok inp [] 50 (source (im s)) (pl_source _ _ _ _ Hp)) as Hok.
  pose proof (receive_offered inp [] 50 (source (im s)) (pl_source _ _ _ _ Hp)) as Hoff.
  destruct (receive inp [] 50 (source (im s))) as [[got buffer] src]. cbn [fst snd app] in Hok, Hoff.
  set (i := (im s) <| source := src |>). cbv zeta.
  assert (Hi : pipeline i (events s)).
  { destruct Hp as [? ? ? ? ? ? ?]. by split. }
  assert (Hh : exists es dl i',
    handle cfg got buffer c i = Some (es, dl, i') /\ same_control i i' /\ (forall k, EvStopped k ∉ es) /\
    pipeline i' (option_list (EvDeliver <$> dl) ++ es ++
      (if got then [EvReceived inp buffer] else []) ++ events s)).
  { unfold handle. destruct got; cbn [negb].
    - destruct (Hoff eq_refl) as (d & -> & Hd).
      assert (Hhd : handled inp d i (events s) match kind cfg with
          | PointCloud => handle_point_cloud cfg d c i
          | Odometry => handle_odometry cfg d c i
          end).
      { destruct (kind cfg) eqn:Hk; [by apply handle_point_cloud_pipeline|].
        by apply handle_odometry_pipeline. }
      exact Hhd.
    - exists [], None, i. split_and!; try done; [set_solver]. }
  destruct Hh as (es & dl & i' & -> & Hc & Hno & Hp').
  assert (Hc' : same_control (im s) i') by exact Hc.
  assert (Hev : forall k, EvStopped k ∈ es ++ (if got then [EvReceived inp buffer] else [])
                ++ events s -> EvStopped k ∈ events s).
  { intros k. rewrite !elem_of_app. specialize (Hno k). destruct got; set_solver. }
  destruct dl as [dl|].
  - split_and!; try done; [by right; exists dl|]. intros k Hin. apply Hev. cbn in Hin. set_solver.
  - destruct (end_iteration cfg c i') as [es' i''] eqn:He. cbn [im events rx callers rx_id].
    cbn [option_list option_rect fmap option_fmap option_map app] in Hp'.
    assert (H : same_control (im s) i'' /\ forall k, EvStopped k ∉ es').
    { revert He. unfold end_iteration. destruct (kind cfg); intros [= <- <-]; split; try done; set_solver. }
    destruct H as [H1 H2]. split_and!; try done; [|by left|].
    + by apply (pipeline_end_iteration c i').
    + intros k Hin. apply Hev. cbn in Hin. specialize (H2 k). set_solver.
Qed.

(** ** Who runs, and who waits in [stop] *)

Definition alive (r : rx_pc) : Prop :=
  match r with AtWait | AtReceive | InCallback _ => True | _ => False end.

Record control (s : system Src I) : Prop := {
  ct_rx : match rx s with
          | NotCreated => thread (im s) = NoThread /\ thread_id (im s) = None
          | Exited => thread (im s) <> NoThread /\ stop_requested (im s) = true
          | Terminated => False
          | _ => thread (im s) = Joinable /\
                 (stop_requested (im s) = true \/ running_ (im s) = true)
          end;
  ct_started : start_called (im s) = false -> rx s = NotCreated;
  ct_id : rx s <> NotCreated -> thread_id (im s) = Some (rx_id s);
  ct_stopping : forall k p, callers s !! k = Some p -> p <> Idle -> stop_requested (im s) = true;
  ct_joining : forall k, callers s !! k = Some Joining -> thread (im s) = Joinable;
  ct_one : forall k k', callers s !! k = Some Joining -> callers s !! k' = Some Joining -> k = k';
  ct_stopped : forall k, EvStopped k ∈ events s ->
    stop_requested (im s) = true /\ thread (im s) <> Joinable }.

Lemma make_receiver_control src n : control (make_receiver src ac n).
Proof.
  split; cbn; try done.
  - intros k p Hp. apply lookup_replicate in Hp as [-> _]. done.
  - intros k Hk. by apply lookup_replicate in Hk as [? _].
  - intros k k' Hk. by apply lookup_replicate in Hk as [? _].
  - intros k Hk. set_solver.
Qed.

Lemma make_receiver_pipeline src n :
  source_ok src -> pipeline (im (make_receiver (I:=I) src ac n)) (events (make_receiver (I:=I) src ac n)).
Proof.
  intros Hs. split; cbn; try done.
  - set_solver.
  - intros _. split_and!; try done. exists []. split; [done|]. by destruct (on_frame_set cfg).
  - intros _. split_and!; try done. by destruct (on_odometry_set cfg).
  - intros t r Hin. by apply elem_of_nil in Hin.
Qed.

(** A state in which only the receive thread has moved. *)
Lemma control_rx (s s' : system Src I) :
  control s -> same_control (im s) (im s') -> callers s' = callers s -> rx_id s' = rx_id s ->
  alive (rx s) -> alive (rx s') ->
  (forall k, EvStopped k ∈ events s' -> EvStopped k ∈ events s) -> control s'.
Proof.
  intros [H1 H2 H3 H4 H5 H6 H7] (E1 & E2 & E3 & E4 & E5) Ec Ei Ha Ha' He.
  split; rewrite ?E1, ?E2, ?E3, ?E4, ?E5, ?Ec, ?Ei; try done.
  - destruct (rx s); try done; destruct (rx s'); done.
  - intros Hs. rewrite H2 in Ha by done. done.
  - intros _. apply H3. by intros Hr; rewrite Hr in Ha.
  - intros k Hk. apply (H7 k), He, Hk.
Qed.

(** Asking for a stop. *)
Lemma control_request (s : system Src I) :
  control s -> control (s <| im := request_stop (im s) |>).
Proof.
  intros [H1 H2 H3 H4 H5 H6 H7]. split; cbn; try done.
  - destruct (rx s); naive_solver.
  - intros k Hk. split; [done|]. by apply (H7 k).
Qed.

Lemma control_caller k p (s : system Src I) :
  control s -> p <> Joining -> (p <> Idle -> stop_requested (im s) = true) ->
  control (set_caller k p s).
Proof.
  intros [H1 H2 H3 H4 H5 H6 H7] Hp Hq. split; cbn; try done.
  - intros j q Hj. apply lookup_insert_cases in Hj as [(-> & -> & _)|[_ Hj]]; eauto.
  - intros j Hj. apply lookup_insert_cases in Hj as [(-> & <- & _)|[_ Hj]]; [done|eauto].
  - intros j j' Hj Hj'. apply lookup_insert_cases in Hj as [(-> & <- & _)|[_ Hj]]; [done|].
    apply lookup_insert_cases in Hj' as [(-> & <- & _)|[_ Hj']]; [done|]. eauto.
Qed.

Lemma control_stopped k (s : system Src I) :
  control s -> stop_requested (im s) = true -> thread (im s) <> Joinable ->
  control (stopped k s).
Proof.
  intros [H1 H2 H3 H4 H5 H6 H7] Hr Ht. split; cbn; done.
Qed.

Lemma control_step l s s' :
  control s -> pipeline (im s) (events s) -> label_wf l -> step cfg l s = Some s' -> control s'.
Proof.
  intros Hc Hp Hl. destruct l as [created|k me|k|k| |inp c| |c]; cbn [step].
  - destruct (stop_requested (im s)) eqn:Hr; [by intros [= <-]|].
    destruct (start_called (im s)) eqn:Hs; [by intros [= <-]|]. cbn [orb].
    destruct Hc as [H1 H2 H3 H4 H5 H6 H7]. specialize (H2 Hs). rewrite H2 in H1.
    assert (Hno : forall k, EvStopped k ∉ events s).
    { intros k Hk. destruct (H7 k Hk). congruence. }
    assert (Hidle : forall k, callers s !! k <> Some Joining).
    { intros k Hk. specialize (H4 k _ Hk). rewrite H4 in Hr; done. }
    destruct created as [id|]; intros [= <-]; split; cbn; rewrite ?H2; try done; try naive_solver.
  - destruct (bool_decide (callers s !! k = Some Idle)) eqn:Hk; [|done].
    destruct (distinct_id me (im s)) eqn:Hd; [|done]. cbn [andb].
    apply control_request in Hc as Hc'.
    destruct (bool_decide (thread_id _ = Some me)) eqn:Hid; intros [= <-].
    + apply control_stopped; [done|done|]. unfold distinct_id in Hd. intros Ht. cbn in *.
      rewrite Ht in Hd. bool_prop. congruence.
    + apply control_caller; done.
  - destruct (bool_decide (callers s !! k = Some AtStopMutex)) eqn:Hk; [|done].
    destruct (bool_decide (Joining ∈ callers s)) eqn:Hj; [done|]. cbn [andb negb]. bool_prop.
    pose proof (ct_stopping _ Hc k _ Hk) as Hr.
    destruct (bool_decide (thread _ = Joinable)) eqn:Ht; intros [= <-]; bool_prop.
    + assert (Hnone : forall j, callers s !! j <> Some Joining).
      { intros j Hj'. by apply Hj, (list_elem_of_lookup_2 _ j). }
      destruct Hc as [H1 H2 H3 H4 H5 H6 H7]. split; cbn; try done.
      * intros j q Hq. apply lookup_insert_cases in Hq as [(-> & -> & _)|[_ Hq]]; eauto.
      * intros j j' Hq Hq'. apply lookup_insert_cases in Hq as [(-> & _ & _)|[_ Hq]]; [|naive_solver].
        apply lookup_insert_cases in Hq' as [(-> & _ & _)|[_ Hq']]; naive_solver.
    + apply control_stopped; [|by apply Hr|done]. by apply control_caller.
  - destruct (bool_decide (callers s !! k = Some Joining)) eqn:Hk; [|done]. bool_prop.
    destruct (rx s) eqn:Hrx; try done. intros [= <-].
    pose proof (ct_stopping _ Hc k _ Hk ltac:(done)) as Hr.
    assert (Hother : forall j, <[k:=Idle]> (callers s) !! j <> Some Joining).
    { intros j Hj. apply lookup_insert_cases in Hj as [(_ & Hj & _)|[Hne Hj]]; [done|].
      by rewrite (ct_one _ Hc k j Hk Hj) in Hne. }
    destruct Hc as [H1 H2 H3 H4 H5 H6 H7]. rewrite Hrx in *.
    split; cbn; rewrite ?Hrx; try done; try naive_solver.
  - destruct (rx s) eqn:Hrx; try done.
    destruct (stop_requested (im s)) eqn:Hr; [|destruct (running_ (im s)) eqn:Hrun; [|done]];
      intros [= <-].
    + destruct Hc as [H1 H2 H3 H4 H5 H6 H7]. rewrite Hrx in *.
      split; cbn; rewrite ?Hr; try naive_solver congruence.
    + apply (control_rx s); try done; rewrite Hrx; done.
  - destruct (rx s) eqn:Hrx; try done. intros [= <-].
    destruct (receive_step_spec inp c s Hl Hp) as (_ & Hsame & Hcal & Hid & Hr & He).
    apply (control_rx s); try done; [by rewrite Hrx|]. by destruct Hr as [-> | [d ->]].
  - destruct (rx s) eqn:Hrx; try done.
    rewrite bool_decide_eq_true_2; [|apply (ct_id _ Hc); by rewrite Hrx].
    intros [= <-]. by apply control_request.
  - destruct (rx s) eqn:Hrx; try done.
    destruct (end_iteration cfg c (im s)) as [es i] eqn:He. intros [= <-].
    assert (H : same_control (im s) i /\ forall k, EvStopped k ∉ es).
    { revert He. unfold end_iteration. destruct (kind cfg); intros [= <- <-]; split; try done; set_solver. }
    destruct H as [Hs Hno]. apply (control_rx s); try done; [by rewrite Hrx|].
    cbn. intros k. rewrite elem_of_app. specialize (Hno k). naive_solver.
Qed.

Lemma pipeline_step l s s' :
  control s -> pipeline (im s) (events s) -> label_wf l -> step cfg l s = Some s' ->
  pipeline (im s') (events s').
Proof.
  intros Hc Hp Hl. destruct l as [created|k me|k|k| |inp c| |c]; cbn [step].
  - destruct (_ || _); [by intros [= <-]|].
    destruct created; intros [= <-]; by apply (pipeline_frame (im s)).
  - destruct (_ && _); [|done].
    destruct (bool_decide _); intros [= <-]; [apply pipeline_stopped|];
      by apply (pipeline_frame (im s)).
  - destruct (_ && _); [|done]. destruct (bool_decide _); intros [= <-]; [done|].
    by apply pipeline_stopped.
  - destruct (bool_decide _); [|done]. destruct (rx s); try done. intros [= <-].
    apply pipeline_stopped. by apply (pipeline_frame (im s)).
  - destruct (rx s); try done. destruct (stop_requested _); [by intros [= <-]|].
    destruct (running_ _); [by intros [= <-]|done].
  - destruct (rx s); try done. intros [= <-]. by apply receive_step_spec.
  - destruct (rx s); try done. destruct (bool_decide _); intros [= <-];
      by apply (pipeline_frame (im s)).
  - destruct (rx s); try done. destruct (end_iteration cfg c (im s)) as [es i] eqn:He.
    intros [= <-]. by apply (pipeline_end_iteration c (im s)).
Qed.

Lemma receiver_inv src n s :
  source_ok src -> reachable cfg (make_receiver src ac n) s ->
  control s /\ pipeline (im s) (events s).
Proof.
  intros Hs. induction 1 as [|l s s' _ [Hc Hp] Hl Hstep].
  - split; [apply make_receiver_control|by apply make_receiver_pipeline].
  - split; [by eapply control_step|by eapply pipeline_step].
Qed.

(** ** After a [stop] has returned *)

(** The receive thread will not run again. *)
Definition silent (s : system Src I) : Prop :=
  stop_requested (im s) = true /\ thread (im s) <> Joinable /\
  (rx s = NotCreated \/ rx s = Exited).

Lemma stopped_silent k s : control s -> EvStopped k ∈ events s -> silent s.
Proof.
  intros Hc Hk. destruct (ct_stopped _ Hc k Hk) as [Hr Ht]. split_and!; try done.
  pose proof (ct_rx _ Hc) as H. destruct (rx s); naive_solver.
Qed.

Lemma silent_stopped k (s : system Src I) :
  deliveries (events (stopped k s)) = deliveries (events s) /\
  operations (events (stopped k s)) = operations (events s).
Proof. change (events (stopped k s)) with (EvStopped k :: events s). by history. Qed.

Lemma silent_step l s s' :
  control s -> silent s -> step cfg l s = Some s' ->
  silent s' /\ deliveries (events s') = deliveries (events s) /\
  operations (events s') = operations (events s).
Proof.
  intros Hc (Hr & Ht & Hrx). destruct l as [created|k me|k|k| |inp c| |c]; cbn [step].
  - rewrite Hr. by intros [= <-].
  - destruct (_ && _); [|done].
    destruct (bool_decide _); intros [= <-]; (split; [by split_and!|]);
      [exact (silent_stopped k (s <| im := request_stop (im s) |>))|done].
  - destruct (_ && _); [|done]. rewrite bool_decide_eq_false_2 by done. intros [= <-].
    split; [by split_and!|]. exact (silent_stopped k (set_caller k Idle s)).
  - destruct (bool_decide _) eqn:Hk; [|done]. bool_prop. by apply (ct_joining _ Hc) in Hk.
  - destruct Hrx as [-> | ->]; done.
  - destruct Hrx as [-> | ->]; done.
  - destruct Hrx as [-> | ->]; done.
  - destruct Hrx as [-> | ->]; done.
Qed.

(** ** [stop] returns *)

(** The labels that start something; the others finish what was started. *)
Definition is_call (l : label I) : bool :=
  match l with LStart _ | LStop _ _ | LSelfStop => true | _ => false end.

Definition rx_work (r : rx_pc) : nat :=
  match r with AtReceive => 3 | InCallback _ => 2 | AtWait => 1 | _ => 0 end.

Definition caller_work (p : stop_pc) : nat :=
  match p with Idle => 0 | Joining => 1 | AtStopMutex => 2 end.

(** Steps left until every [stop] has returned. *)
Definition work (s : system Src I) : nat :=
  (rx_work (rx s) + sum_list_with caller_work (callers s))%nat.

Lemma work_caller k p q s :
  callers s !! k = Some q ->
  (work (set_caller k p s) + caller_work q = work s + caller_work p)%nat.
Proof.
  intros Hk. unfold work, set_caller. cbn.
  enough (sum_list_with caller_work (<[k:=p]> (callers s)) + caller_work q =
          sum_list_with caller_work (callers s) + caller_work p)%nat by lia.
  revert k Hk. induction (callers s) as [|x l IH]; intros [|k] Hk; try done.
  - injection Hk as ->. cbn. lia.
  - specialize (IH k Hk). change (<[S k:=p]> (x :: l)) with (x :: <[k:=p]> l). cbn [sum_list_with]. lia.
Qed.

Lemma work_decreases l s s' :
  control s -> pipeline (im s) (events s) -> label_wf l -> stop_requested (im s) = true ->
  is_call l = false -> step cfg l s = Some s' ->
  stop_requested (im s') = true /\ (work s' < work s)%nat.
Proof.
  intros Hc Hp Hl Hr. destruct l as [created|k me|k|k| |inp c| |c]; cbn [step is_call]; try done; intros _.
  - destruct (bool_decide (callers s !! k = _)) eqn:Hk; [|done]. destruct (bool_decide (Joining ∈ _)); [done|].
    bool_prop. cbn [andb negb]. destruct (bool_decide _); intros [= <-]; (split; [done|]).
    + pose proof (work_caller k Joining _ s Hk). cbn [caller_work] in *. lia.
    + pose proof (work_caller k Idle _ s Hk). cbn [caller_work] in *.
      change (work (stopped k ?x)) with (work x). lia.
  - destruct (bool_decide _) eqn:Hk; [|done]. bool_prop. destruct (rx s) eqn:Hrx; try done.
    intros [= <-]. split; [done|]. pose proof (work_caller k Idle _ s Hk). cbn [caller_work] in *.
    change (work _) with (work (set_caller k Idle s)) at 1. lia.
  - destruct (rx s) eqn:Hrx; try done. rewrite Hr. intros [= <-]. split; [done|].
    unfold work. rewrite Hrx. cbn. lia.
  - destruct (rx s) eqn:Hrx; try done. intros [= <-].
    destruct (receive_step_spec inp c s Hl Hp) as (_ & (Hsame & _) & Hcal & _ & Hrx' & _).
    rewrite Hsame. split; [done|]. unfold work. rewrite Hcal, Hrx.
    destruct Hrx' as [-> | [d ->]]; cbn; lia.
  - destruct (rx s) eqn:Hrx; try done. destruct (end_iteration cfg c (im s)) as [es i] eqn:He.
    intros [= <-]. revert He. unfold end_iteration.
    destruct (kind cfg); intros [= <- <-]; (split; [done|]); unfold work; rewrite Hrx; cbn; lia.
Qed.

Lemma some_step (inp : I) s :
  control s -> stop_requested (im s) = true -> (0 < work s)%nat ->
  exists l s', is_call l = false /\ label_wf l /\ step cfg l s = Some s'.
Proof.
  intros Hc Hr Hw. set (c := mkClocks 0 0 0).
  destruct (rx s) eqn:Hrx.
  2: exists LWait; cbn; rewrite Hrx, Hr; by eauto.
  2: exists (LReceive inp c); eexists; split_and!; [done|done|cbn; by rewrite Hrx].
  2: exists (LCallbackEnd c); cbn; rewrite Hrx; destruct (end_iteration cfg c (im s)); by eauto.
  3: by pose proof (ct_rx _ Hc) as H; rewrite Hrx in H.
  all: destruct (decide (Joining ∈ callers s)) as [Hj|Hj].
  1,3: apply list_elem_of_lookup in Hj as [k Hk]; pose proof (ct_joining _ Hc k Hk) as Ht;
    pose proof (ct_rx _ Hc) as H; rewrite Hrx in H; try (destruct H; congruence);
    exists (LJoin k); cbn; rewrite bool_decide_eq_true_2, Hrx by done; by eauto.
  all: assert (Hk : exists k, callers s !! k = Some AtStopMutex);
    [|destruct Hk as [k Hk]; exists (LStopMutex k); cbn;
      rewrite bool_decide_eq_true_2, bool_decide_eq_false_2 by done; cbn;
      destruct (bool_decide _); by eauto].
  all: unfold work in Hw; rewrite Hrx in Hw; cbn [rx_work] in Hw; clear -Hw Hj;
    induction (callers s) as [|x l IH]; [cbn in Hw; lia|]; destruct x;
    [destruct IH as [k Hk]; [exact Hw|set_solver|by exists (S k)]|by exists 0%nat|set_solver].
Qed.

End Pipeline.

(** ** Runs from construction *)

Section Runs.

Context {Src I : Type} `{!DatagramSource Src I} (cfg : setup).

Lemma run_reachable ls s0 s s' :
  reachable cfg s0 s -> Forall label_wf ls -> run cfg ls s = Some s' -> reachable cfg s0 s'.
Proof.
  intros Hs Hls. revert s Hs. induction Hls as [|l ls Hl Hls IH]; intros s Hs; cbn [run].
  - by intros [= <-].
  - destruct (step cfg l s) as [s1|] eqn:Hstep; [|done]. apply IH. by eapply reach_step.
Qed.

End Runs.

(** The conditions on a receiver's construction. *)
Definition receiver_ok {Src I : Type} `{!DatagramSource Src I} (cfg : setup) (ac : AssemblerConfig) (src : Src)
  : Prop :=
  config_doubles (config cfg) = true /\ 0 <= max_packets_per_frame ac /\ source_ok src.

(** *** Samples: a UDP source with a peer, and two point cloud packets *)

Definition sample_ntop (addr : Z) : string :=
  if addr =? 1 then "192.168.1.7" else "10.0.0.9".

#[export] Instance sample_transport : DatagramSource Udp.UdpLidarDatagramSource Udp.reception :=
  Udp.udp_transport sample_ntop "192.168.1.7".

Definition sample_source : Udp.UdpLidarDatagramSource :=
  Udp.mkSource 5 "192.168.1.7" (Udp.mkStats 0 0 0 0).

Definition sample_setup (k : LidarStreamKind) : setup :=
  mkSetup k default_parse_config true true true.

Definition from (addr : Z) (d : bytes) : Udp.reception :=
  Udp.mkReception (fun _ => 1) (Some (d, addr)).
Definition silence : Udp.reception := Udp.mkReception (fun _ => 0) None.

Definition sample_cloud (index : Z) : bytes :=
  encode_cloud kPackedCloud false Byte.x00 777 (2 * psize sample_raws) index sample_raws.

Definition sample_clocks (now : Z) : clocks := mkClocks now now now.

(** Starts; receives both halves of a frame, one packet of a stranger in between,
    and a datagram that does not parse; stops from a second thread. *)
Definition sample_session : list (label Udp.reception) :=
  [LStart (Some 42%nat); LWait; LReceive (from 1 (sample_cloud (psize sample_raws))) (sample_clocks 10);
   LWait; LReceive (from 2 (sample_cloud 0)) (sample_clocks 20);
   LWait; LReceive (from 1 (sample_cloud 0)) (sample_clocks 30); LCallbackEnd (sample_clocks 40);
   LWait; LReceive (from 1 []) (sample_clocks (seconds 5)); LStop 1 7; LStopMutex 1;
   LCallbackEnd (sample_clocks (seconds 6)); LWait; LJoin 1; LStop 0 8; LStopMutex 0].

Definition sample_run (ls : list (label Udp.reception)) : system Udp.UdpLidarDatagramSource Udp.reception :=
  match run (sample_setup PointCloud) ls
    (make_receiver sample_source default_assembler_config 2) with
  | Some s => s
  | None => make_receiver sample_source default_assembler_config 2
  end.

Lemma sample_receiver_ok k : receiver_ok (sample_setup k) default_assembler_config sample_source.
Proof. by split_and!. Qed.

Lemma sample_run_reachable ls :
  Forall label_wf ls ->
  reachable (sample_setup PointCloud)
    (make_receiver sample_source default_assembler_config 2) (sample_run ls).
Proof.
  intros Hls. unfold sample_run.
  destruct (run (sample_setup PointCloud) ls _) as [s|] eqn:Hr; [|apply reach_init].
  eapply run_reachable; [apply reach_init|exact Hls|exact Hr].
Qed.

Example sample_session_frames :
  map fr_timestamp_ns (frames (events (sample_run sample_session))) = [777] /\
  warnings (events (sample_run sample_session)) =
    [(5000000000, MakeReason "datagram too short")] /\
  Udp.stats_ (source (im (sample_run sample_session))) = Udp.mkStats 3 1 0 0 /\
  length (datagrams (events (sample_run sample_session))) = 3%nat.
Proof. vm_compute. done. Qed.

(** *** The life of a UDP source *)

Fixpoint receive_all (inet_ntop : Z -> string) (calls : list (Udp.reception * Z)) (out : bytes)
    (s : Udp.UdpLidarDatagramSource) : bytes * Udp.UdpLidarDatagramSource :=
  match calls with
  | [] => (out, s)
  | (e, timeout) :: calls' =>
      let '(_, out, s) := Udp.receive_udp inet_ntop e out timeout s in
      receive_all inet_ntop calls' out s
  end.

Definition closes (l : list Udp.SysCall) : list Z :=
  omap (fun c => match c with Udp.Close fd => Some fd | _ => None end) l.

Definition udp_tally (s : Udp.UdpLidarDatagramSource) : Z :=
  Udp.received (Udp.stats_ s) + Udp.dropped_source (Udp.stats_ s) +
  Udp.timeouts (Udp.stats_ s) + Udp.errors (Udp.stats_ s).

Lemma closes_app l k : closes (l ++ k) = closes l ++ closes k.
Proof. apply omap_app. Qed.

Lemma poll_timeout_range t : 0 <= Udp.poll_timeout t < 2 ^ 31.
Proof.
  unfold Udp.poll_timeout, swrap, wrap. set (u := t mod 2 ^ 32).
  assert (0 <= u < 2 ^ 32) by (apply Z.mod_pos_bound; lia). clearbody u.
  repeat case_match; bool_prop; lia.
Qed.

Lemma open_source_spec inet_pton o port bind_ip expected s opened :
  Udp.open_source inet_pton o port bind_ip expected = (s, opened) ->
  closes opened = (if (0 <=? Udp.fd_ s) || (Udp.socket_result o <? 0)
                   then [] else [Udp.socket_result o]) /\
  (0 <= Udp.fd_ s -> Udp.fd_ s = Udp.socket_result o) /\
  Udp.stats_ s = Udp.mkStats 0 0 0 0 /\ Udp.expected_source_ip_ s = expected.
Proof.
  unfold Udp.open_source. cbn [Udp.fd_]. destruct (_ <? 0) eqn:Hneg.
  { intros [= <- <-]. cbn. by rewrite orb_true_r. }
  destruct (inet_pton _) as [addr|]; [|intros [= <- <-]; cbn; by split_and!].
  destruct (_ =? 0); intros [= <- <-]; cbn; [|by split_and!].
  replace (0 <=? _) with true by arith. done.
Qed.

Lemma receive_udp_tally inet_ntop e out timeout s got out' s' :
  Udp.receive_udp inet_ntop e out timeout s = (got, out', s') ->
  udp_tally s' = udp_tally s + 1 /\
  Udp.received (Udp.stats_ s') = Udp.received (Udp.stats_ s) + (if got then 1 else 0) /\
  (Udp.valid s = false -> Udp.errors (Udp.stats_ s') = Udp.errors (Udp.stats_ s) + 1).
Proof.
  unfold Udp.receive_udp, Udp.valid, udp_tally. destruct (Udp.fd_ s <? 0) eqn:Hfd.
  { intros [= <- <- <-]. cbn. lia. }
  replace (0 <=? Udp.fd_ s) with true by arith.
  destruct (Udp.poll_result e _ =? 0); [intros [= <- <- <-]; cbn; lia|].
  destruct (Udp.poll_result e _ <? 0); [intros [= <- <- <-]; cbn; lia|].
  destruct (Udp.recvfrom e) as [[d f]|]; [|intros [= <- <- <-]; cbn; lia].
  destruct (_ && _); intros [= <- <- <-]; cbn; lia.
Qed.

Lemma receive_all_spec inet_ntop calls out s out' s' :
  receive_all inet_ntop calls out s = (out', s') ->
  Udp.fd_ s' = Udp.fd_ s /\ Udp.expected_source_ip_ s' = Udp.expected_source_ip_ s /\
  udp_tally s' = udp_tally s + psize calls /\
  (exists ds, out' = out ++ concat ds /\
     Udp.received (Udp.stats_ s) + psize ds = Udp.received (Udp.stats_ s') /\
     Forall (fun d => exists c, c ∈ calls /\
       Udp.from_expected inet_ntop (Udp.expected_source_ip_ s) c.1 d) ds) /\
  (Udp.valid s = false ->
     Udp.errors (Udp.stats_ s') = Udp.errors (Udp.stats_ s) + psize calls).
Proof.
  revert out s. induction calls as [|[e t] calls IH]; intros out s; cbn [receive_all].
  { intros [= <- <-]. unfold psize. cbn [length]. split_and!; try done; [lia| |intros; lia].
    exists []. rewrite app_nil_r. split_and!; [done|cbn; lia|done]. }
  destruct (Udp.receive_udp inet_ntop e out t s) as [[got out1] s1] eqn:Hr.
  destruct (receive_udp_tally _ _ _ _ _ _ _ _ Hr) as (Ht & Hrec & Herr).
  destruct (Udp.receive_udp_fixed inet_ntop e out t s) as [Hex Hfd].
  pose proof (Udp.receive_udp_true inet_ntop e out t s) as Htrue.
  pose proof (Udp.receive_udp_false inet_ntop e out t s) as Hfalse.
  rewrite Hr in Hex, Hfd, Htrue, Hfalse. cbn [fst snd] in *.
  intros Hall. destruct (IH out1 s1 Hall) as (H1 & H2 & H3 & (ds & H4 & H5 & H6) & H7).
  assert (Hn : psize ((e, t) :: calls) = psize calls + 1) by (unfold psize; cbn; lia).
  assert (H6' : Forall (fun d => exists c, c ∈ (e, t) :: calls /\
       Udp.from_expected inet_ntop (Udp.expected_source_ip_ s) c.1 d) ds).
  { rewrite <- Hex. refine (List.Forall_impl _ _ H6). intros d (c & Hc & Hd). exists c.
    split; [set_solver|done]. }
  rewrite Hn. split_and!; [congruence|congruence|lia| |].
  - destruct got.
    + destruct (Htrue eq_refl) as (d & -> & Hd). exists (d :: ds). cbn [concat].
      split_and!; [by rewrite H4, app_assoc|unfold psize in *; cbn; lia|].
      constructor; [|done]. exists (e, t). split; [set_solver|done].
    + exists ds. rewrite H4, (Hfalse eq_refl). split_and!; [done|lia|done].
  - intros Hv. rewrite H7, Herr by (unfold Udp.valid in *; congruence). lia.
Qed.

(** ** Properties *)

(** The receive thread implements the pipeline of its stream, in every
    interleaving with [start], [stop] and callbacks.  It never terminates the
    process and never leaves an array.  An odometry receiver delivers, in order
    and exactly once, the value of every datagram that parses.  A point cloud
    receiver feeds the assembler exactly the packets that parse, in order, and
    delivers exactly the frames the assembler publishes.  A warning carries the
    parser's reason for a received datagram, and warnings are a second apart.
    Claim C22. *)
Theorem receiver_refines_its_pipeline {Src I : Type} `{!DatagramSource Src I} cfg ac src n
    (s : system Src I) :
  receiver_ok cfg ac src -> reachable cfg (make_receiver src ac n) s ->
  let evs := events s in
  rx s <> Terminated /\
  match kind cfg with
  | Odometry =>
      odometries evs = (if on_odometry_set cfg
                        then omap (parsed_odometry (config cfg)) (datagrams evs) else []) /\
      frames evs = []
  | PointCloud =>
      (exists fs, asm_run (operations evs) (make_assembler ac) = Some (fs, assembler_ (im s)) /\
         frames evs = if on_frame_set cfg then fs else []) /\
      adds (operations evs) = omap (parsed_packet (config cfg)) (datagrams evs) /\
      odometries evs = []
  end /\
  throttled (last_warning (im s)) (warnings evs) /\
  (forall t r, (t, r) ∈ warnings evs ->
     on_parse_warning_set cfg = true /\ exists d, d ∈ datagrams evs /\ rejection cfg d = Some r).
Proof.
  intros (Hd & Ha & Hs) Hr. destruct (receiver_inv cfg ac Hd Ha src n s Hs Hr) as [Hc Hp].
  cbn zeta. split_and!.
  - intros Hrx. pose proof (ct_rx _ Hc) as H. by rewrite Hrx in H.
  - destruct (kind cfg) eqn:Hk.
    + exact (pl_cloud _ _ _ _ Hp Hk).
    + destruct (pl_odometry _ _ _ _ Hp Hk) as (H1 & _ & H3). done.
  - exact (pl_warnings _ _ _ _ Hp).
  - exact (pl_reasons _ _ _ _ Hp).
Qed.

(** Once any [stop] called from outside has returned, the receive thread has
    ended for good: whatever is called afterwards, it makes no callback, touches
    the assembler no more, and its handle is not joinable, so that the receiver
    can be destroyed.  Claim C21. *)
Theorem nothing_is_delivered_after_stop {Src I : Type} `{!DatagramSource Src I} cfg ac src n
    (s : system Src I) k ls s' :
  receiver_ok cfg ac src -> reachable cfg (make_receiver src ac n) s ->
  EvStopped k ∈ events s -> Forall label_wf ls -> run cfg ls s = Some s' ->
  (rx s' = NotCreated \/ rx s' = Exited) /\ thread (im s') <> Joinable /\ running s' = false /\
  deliveries (events s') = deliveries (events s) /\
  operations (events s') = operations (events s).
Proof.
  intros (Hd & Ha & Hs) Hr Hk Hls.
  destruct (receiver_inv cfg ac Hd Ha src n s Hs Hr) as [Hc _].
  pose proof (stopped_silent _ _ Hc Hk) as Hsil. clear Hk Hc.
  revert s Hr Hsil. induction Hls as [|l ls Hl Hls IH]; intros s Hr Hsil; cbn [run].
  - intros [= <-]. destruct Hsil as (Hst & Ht & Hrx). unfold running. rewrite Hst, andb_false_r.
    done.
  - destruct (step cfg l s) as [s1|] eqn:Hstep; [|done]. intros Hrun.
    destruct (receiver_inv cfg ac Hd Ha src n s Hs Hr) as [Hc _].
    destruct (silent_step cfg l s s1 Hc Hsil Hstep) as (Hsil' & Hdl & Hops).
    destruct (IH s1 (reach_step _ _ _ _ _ Hr Hl Hstep) Hsil' Hrun) as (H1 & H2 & H3 & H4 & H5).
    split_and!; try done; congruence.
Qed.

(** [stop] returns, from any number of threads at once and from callbacks: when
    a stop has been requested, each further step of the receive thread and of the
    callers brings their return closer, and one of them can always be taken, until
    the receive thread has ended and every caller is back.  Claim C23. *)
Theorem stop_always_returns {Src I : Type} `{!DatagramSource Src I} cfg ac src n
    (s : system Src I) (inp : I) :
  receiver_ok cfg ac src -> reachable cfg (make_receiver src ac n) s ->
  stop_requested (im s) = true ->
  (forall l s', label_wf l -> is_call l = false -> step cfg l s = Some s' ->
     stop_requested (im s') = true /\ (work s' < work s)%nat) /\
  ((0 < work s)%nat -> exists l s', is_call l = false /\ label_wf l /\ step cfg l s = Some s') /\
  (work s = 0%nat -> (rx s = NotCreated \/ rx s = Exited) /\ Forall (eq Idle) (callers s)) /\
  (work s <= 3 + 2 * length (callers s))%nat.
Proof.
  intros (Hd & Ha & Hs) Hr Hst. destruct (receiver_inv cfg ac Hd Ha src n s Hs Hr) as [Hc Hp].
  split_and!.
  - intros l s' Hl Hcall Hstep. by apply (work_decreases cfg ac Hd Ha l).
  - by apply some_step.
  - unfold work. intros Hw. split.
    + pose proof (ct_rx _ Hc) as Hrx. destruct (rx s); cbn in Hw; try lia; by auto.
    + assert (H : sum_list_with caller_work (callers s) = 0%nat) by lia. clear -H.
      induction (callers s) as [|[] l IH]; cbn in H; try lia; constructor; auto.
  - unfold work. assert (H : (sum_list_with caller_work (callers s) <= 2 * length (callers s))%nat).
    { clear. induction (callers s) as [|[] l IH]; cbn in *; lia. }
    destruct (rx s); cbn; lia.
Qed.

(** End to end, from the socket to the callbacks: with a UDP source that expects
    a peer, everything delivered comes from datagrams of that peer.  A delivered
    odometry is the value of one; every point of a delivered frame is a point of
    one that parsed, with the frame's time stamp and total, at the offset the
    datagram declares. *)
Theorem deliveries_come_from_the_peer (inet_ntop : Z -> string) (expected : string)
    cfg ac src n (s : system Udp.UdpLidarDatagramSource Udp.reception) :
  let tr := Udp.udp_transport inet_ntop expected in
  receiver_ok (DatagramSource0 := tr) cfg ac src ->
  reachable (DatagramSource0 := tr) cfg (make_receiver src ac n) s ->
  let peer d := exists e, EvReceived e d ∈ events s /\
                  Udp.from_expected inet_ntop expected e d in
  (forall o, o ∈ odometries (events s) ->
     exists d, peer d /\ parsed_odometry (config cfg) d = Some o) /\
  (forall f, f ∈ frames (events s) -> psize (fr_points f) = fr_total_points f /\
     forall j x, fr_points f !! j = Some x ->
       exists d p o, peer d /\ parsed_packet (config cfg) d = Some p /\
         pk_timestamp_ns p = fr_timestamp_ns f /\ pk_total p = fr_total_points f /\
         Z.of_nat j = pk_index p + Z.of_nat o /\ pk_points p !! o = Some x).
Proof.
  intros tr (Hd & Ha & Hs) Hr peer.
  destruct (receiver_inv (DatagramSource0 := tr) cfg ac Hd Ha src n s Hs Hr) as [_ Hp].
  assert (Hpeer : forall d, d ∈ datagrams (events s) -> peer d).
  { intros d Hin. apply list_elem_of_omap in Hin as (e & He & Hev).
    apply list_elem_of_In, in_rev, list_elem_of_In in He. destruct e; try done.
    injection Hev as ->. eexists. split; [exact He|]. by apply (pl_offered _ _ _ _ Hp). }
  split.
  - intros o Ho. destruct (kind cfg) eqn:Hk.
    + destruct (pl_cloud _ _ _ _ Hp Hk) as (_ & _ & H). rewrite H in Ho. set_solver.
    + destruct (pl_odometry _ _ _ _ Hp Hk) as (H & _). rewrite H in Ho.
      destruct (on_odometry_set cfg); [|set_solver].
      apply list_elem_of_omap in Ho as (d & Hdin & Hpd). eauto.
  - intros f Hf. destruct (kind cfg) eqn:Hk.
    2: { destruct (pl_odometry _ _ _ _ Hp Hk) as (_ & _ & H). rewrite H in Hf. set_solver. }
    destruct (pl_cloud _ _ _ _ Hp Hk) as ((fs & Hrun & Hfr) & Hadds & _). rewrite Hfr in Hf.
    destruct (on_frame_set cfg); [|set_solver].
    destruct (asm_run_spec [] _ (make_assembler ac) (make_assembler_inv _ Ha)
      (pl_ops _ _ _ _ Hp)) as (fs' & a' & Hrun' & _ & _ & _ & Hfrom).
    { unfold make_assembler. cbn. apply Forall_replicate, slot_from_empty. done. }
    rewrite Hrun in Hrun'. injection Hrun' as -> _. rewrite Hadds in Hfrom.
    pose proof (proj1 (List.Forall_forall _ _) Hfrom f (proj1 (list_elem_of_In _ _) Hf)) as [Hn Hx].
    split; [done|]. intros j x Hj. destruct (Hx j x Hj) as (p & o & Hpin & _ & Hrest).
    cbn [app] in Hpin. apply list_elem_of_omap in Hpin as (d & Hdin & Hpd).
    exists d, p, o. split_and!; try done; [by apply Hpeer|apply Hrest..].
Qed.

(** A delivered frame is not empty and no larger than the configuration allows. *)
Lemma delivered_frames_fit {Src I} `{!DatagramSource Src I} cfg ac src n (s : system Src I) f :
  receiver_ok cfg ac src -> reachable cfg (make_receiver src ac n) s ->
  f ∈ frames (events s) -> 0 < fr_total_points f <= max_points_per_frame ac.
Proof.
  intros (Hd & Ha & Hs) Hr Hf. destruct (receiver_inv cfg ac Hd Ha src n s Hs Hr) as [_ Hp].
  destruct (kind cfg) eqn:Hk.
  2: { destruct (pl_odometry _ _ _ _ Hp Hk) as (_ & _ & H). rewrite H in Hf. set_solver. }
  destruct (pl_cloud _ _ _ _ Hp Hk) as ((fs & Hrun & Hfr) & _ & _). rewrite Hfr in Hf.
  destruct (on_frame_set cfg); [|set_solver].
  apply asm_run_total in Hrun; [|by apply make_assembler_inv|exact (pl_ops _ _ _ _ Hp)].
  pose proof (proj1 (List.Forall_forall _ _) Hrun f (proj1 (list_elem_of_In _ _) Hf)) as H. cbn in H.
  revert H. unfold make_assembler. by destruct (_ =? 0)%nat.
Qed.

(** The life of a UDP source: whatever the socket calls answer, every descriptor
    that was opened is closed exactly once, also when the construction fails half
    way; [poll] never blocks for ever; every [receive] is counted exactly once,
    and as received exactly when it hands out a datagram, so that the bytes handed
    out are the counted datagrams of the peer, in order; a source that could not
    bind only counts errors. *)
Theorem udp_source_session inet_pton inet_ntop o port bind_ip expected calls :
  let '(s0, opened) := Udp.open_source inet_pton o port bind_ip expected in
  let '(out, s) := receive_all inet_ntop calls [] s0 in
  let '(s1, closed) := Udp.close_source s in
  closes (opened ++ closed) = (if Udp.socket_result o <? 0 then [] else [Udp.socket_result o]) /\
  Udp.valid s1 = false /\
  Forall (fun c => 0 <= Udp.poll_timeout c.2 < 2 ^ 31) calls /\
  udp_tally s = psize calls /\
  (exists ds, out = concat ds /\ psize ds = Udp.received (Udp.stats_ s) /\
     Forall (fun d => exists c, c ∈ calls /\ Udp.from_expected inet_ntop expected c.1 d) ds) /\
  (Udp.valid s0 = false -> Udp.errors (Udp.stats_ s) = psize calls).
Proof.
  destruct (Udp.open_source _ _ _ _ _) as [s0 opened] eqn:Ho.
  destruct (open_source_spec _ _ _ _ _ _ _ Ho) as (Hc & Hv & Hs0 & He).
  destruct (receive_all inet_ntop calls [] s0) as [out s] eqn:Hr.
  destruct (receive_all_spec inet_ntop calls [] s0 out s Hr) as (Hfd & Hex & Ht & Hds & Herr).
  destruct (Udp.close_source s) as [s1 closed] eqn:Hcl.
  rewrite He in Hds. unfold udp_tally in Ht at 2. rewrite Hs0 in Ht, Hds, Herr. cbn in Ht.
  unfold Udp.valid.
  split_and!; try done.
  - rewrite closes_app, Hc. revert Hcl. unfold Udp.close_source. rewrite Hfd.
    destruct (0 <=? Udp.fd_ s0) eqn:Hpos; intros [= <- <-]; bool_prop.
    + cbn. rewrite Hv by done. rewrite Hv in Hpos by done.
      destruct (Z.ltb_spec (Udp.socket_result o) 0); [lia|done].
    + by rewrite app_nil_r.
  - revert Hcl. unfold Udp.close_source. rewrite Hfd.
    destruct (0 <=? Udp.fd_ s0) eqn:Hpos; intros [= <- <-]; [done|]. by rewrite Hfd.
  - apply List.Forall_forall. intros [e t] _. apply poll_timeout_range.
Qed.

(** ** Witnesses *)

Lemma sample_session_wf : Forall label_wf sample_session.
Proof. repeat constructor. Qed.

Lemma sample_session_prefix_wf k : Forall label_wf (take k sample_session).
Proof. apply Forall_take, sample_session_wf. Qed.

Lemma receiver_refines_its_pipeline_witness :
  length (frames (events (sample_run sample_session))) = 1%nat /\
  rx (sample_run sample_session) <> Terminated.
Proof.
  split; [vm_compute; reflexivity|].
  apply (receiver_refines_its_pipeline (sample_setup PointCloud) default_assembler_config
    sample_source 2); [apply sample_receiver_ok|apply sample_run_reachable, sample_session_wf].
Defined.

(** The second [stop] of the session returns at once. *)
Lemma nothing_is_delivered_after_stop_witness :
  deliveries (events (sample_run sample_session)) =
  deliveries (events (sample_run (take 15 sample_session))).
Proof.
  refine (proj1 (proj2 (proj2 (proj2 (nothing_is_delivered_after_stop (sample_setup PointCloud)
    default_assembler_config sample_source 2 (sample_run (take 15 sample_session)) 1
    (drop 15 sample_session) (sample_run sample_session) _ _ _ _ _))))).
  - apply sample_receiver_ok.
  - apply sample_run_reachable, sample_session_prefix_wf.
  - apply (list_elem_of_lookup_2 _ 0). vm_compute. reflexivity.
  - apply Forall_drop, sample_session_wf.
  - vm_compute. reflexivity.
Defined.

(** The receive thread is in a callback and a caller waits. *)
Lemma stop_always_returns_witness :
  work (sample_run (take 12 sample_session)) = 3%nat /\
  exists l s', is_call l = false /\ label_wf l /\
    step (sample_setup PointCloud) l (sample_run (take 12 sample_session)) = Some s'.
Proof.
  split; [vm_compute; reflexivity|].
  apply (stop_always_returns (sample_setup PointCloud) default_assembler_config sample_source 2
    (sample_run (take 12 sample_session)) silence).
  - apply sample_receiver_ok.
  - apply sample_run_reachable, sample_session_prefix_wf.
  - vm_compute. reflexivity.
  - apply Nat.ltb_lt. vm_compute. reflexivity.
Defined.

Lemma deliveries_come_from_the_peer_witness :
  length (frames (events (sample_run sample_session))) = 1%nat /\
  List.Forall (fun f => psize (fr_points f) = fr_total_points f)
    (frames (events (sample_run sample_session))).
Proof.
  split; [vm_compute; reflexivity|]. apply List.Forall_forall. intros f Hf%list_elem_of_In.
  refine (proj1 (proj2 (deliveries_come_from_the_peer sample_ntop "192.168.1.7"
    (sample_setup PointCloud) default_assembler_config sample_source 2
    (sample_run sample_session) _ _) f Hf)).
  - apply sample_receiver_ok.
  - apply sample_run_reachable, sample_session_wf.
Defined.

(** ** What the code leaves open

    A [start] whose thread cannot be created leaves [running()] true for good,
    with no receive thread: [start_called] makes every later [start] a no-op. *)

Example failed_start_reports_running :
  let s := sample_run [LStart None; LStart (Some 42%nat)] in
  running s = true /\ rx s = NotCreated /\ thread (im s) = NoThread.
Proof. vm_compute. done. Qed.
