(* ===== verification/NetworkPreflight.v ===== *)
(** * NetworkPreflight: [network_preflight.hpp/.cpp]

    The fact evaluation, the two parsers of the read-only [ip] commands and
    [LinuxNetworkPreflight::check].  [inet_pton] is a parameter (the C library);
    the command runner is a parameter in any monad, as it is injectable in the
    code.  Its default is in [CommandRunner]. *)

From S2P Require Import Prelude Cxx.
From Stdlib Require Import Ascii.

(** ** Data *)

Record ParsedAddress := mkParsed {
  address : string; has_prefix : bool; prefix : Z }.

Record NetworkFacts := mkFacts {
  addresses : list string;
  route_interface : string;
  route_source : string;
  addresses_error : string;
  route_error : string }.

#[export] Instance eta_facts : Eta NetworkFacts := fun f =>
  mkFacts (addresses f) (route_interface f) (route_source f) (addresses_error f)
    (route_error f).

Definition empty_facts : NetworkFacts := mkFacts [] "" "" "" "".

Record NetworkExpectation := mkExpectation {
  interface : string; host_address : string; robot_address : string }.

Record NetworkDecision := mkDecision { ready : bool; message : string }.

(** ** [std::stoi] *)

Fixpoint span (f : ascii -> bool) (l : list ascii) : list ascii * list ascii :=
  match l with
  | [] => ([], [])
  | c :: l' => if f c then (c :: (span f l').1, (span f l').2) else ([], l)
  end.

Definition digit_value (c : ascii) : Z := Z.of_N (N_of_ascii c) - 48.

Definition decimal (l : list ascii) : Z :=
  fold_left (fun acc c => 10 * acc + digit_value c) l 0.

(** The value and the number of characters consumed; [None] is an exception
    ([std::invalid_argument] or [std::out_of_range]). *)
Definition stoi (l : list ascii) : option (Z * nat) :=
  let '(blanks, l1) := span isspace l in
  let '(sign, l2) :=
    match l1 with
    | c :: l' => if ascii_dec c "-" then (1%nat, l')
                 else if ascii_dec c "+" then (1%nat, l') else (0%nat, l1)
    | [] => (0%nat, [])
    end in
  let negative := match l1 with c :: _ => if ascii_dec c "-" then true else false | [] => false end in
  let '(digits, _) := span isdigit l2 in
  match digits with
  | [] => None
  | _ =>
      let v := if negative then - decimal digits else decimal digits in
      if (v <? - 2 ^ 31) || (2 ^ 31 - 1 <? v) then None
      else Some (v, (length blanks + sign + length digits)%nat)
  end.

(** ** Lines and tokens *)

(** [std::getline] until it fails. *)
Fixpoint getlines (l cur : list ascii) : list (list ascii) :=
  match l with
  | [] => match cur with [] => [] | _ => [rev cur] end
  | c :: l' =>
      if ascii_dec c (ascii_of_N 10) then rev cur :: getlines l' []
      else getlines l' (c :: cur)
  end.

(** [stream >> token] until it fails. *)
Fixpoint tokens (l cur : list ascii) : list string :=
  match l with
  | [] => match cur with [] => [] | _ => [of_chars (rev cur)] end
  | c :: l' =>
      if isspace c then
        match cur with [] => tokens l' [] | _ => of_chars (rev cur) :: tokens l' [] end
      else tokens l' (c :: cur)
  end.

Definition token_lines (output : string) : list (list string) :=
  map (fun l => tokens l []) (getlines (chars output) []).

(** The inner loop of [parse_ip_addr_output] on one line. *)
Fixpoint inet_entries (l : list string) : list string :=
  match l with
  | [] => []
  | token :: l' =>
      if decide (token = "inet"%string) then
        match l' with
        | cidr :: l'' => cidr :: inet_entries l''
        | [] => []
        end
      else inet_entries l'
  end.

Definition parse_ip_addr_output (output : string) (addresses : list string)
  : bool * list string :=
  fold_left (fun '(found, acc) line =>
    let es := inet_entries line in
    (found || bool_decide (es <> []), acc ++ es)) (token_lines output) (false, addresses).

(** The inner loop of [parse_ip_route_get_output] on one line. *)
Fixpoint route_entries (l : list string) (dev src : string) : string * string :=
  match l with
  | [] => (dev, src)
  | token :: l' =>
      if decide (token = "dev"%string) then
        match l' with d :: l'' => route_entries l'' d src | [] => (dev, src) end
      else if decide (token = "src"%string) then
        match l' with s :: l'' => route_entries l'' dev s | [] => (dev, src) end
      else route_entries l' dev src
  end.

Fixpoint route_lines (lines : list (list string)) : option (string * string) :=
  match lines with
  | [] => None
  | line :: lines' =>
      let '(dev, src) := route_entries line "" "" in
      if negb (str_empty dev) && negb (str_empty src) then Some (dev, src)
      else route_lines lines'
  end.

Definition parse_ip_route_get_output (output : string) : option (string * string) :=
  route_lines (token_lines output).

(** ** Fact evaluation *)

Definition join_failures (first second : string) : string :=
  if str_empty first then second
  else if str_empty second then first
  else first +:+ "; " +:+ second.

Section Evaluate.
  Context (inet_pton : string -> bool).

Definition parse_address (cidr : string) : option ParsedAddress :=
  let '(rest, slash) := span (fun c => if ascii_dec c "/" then false else true) (chars cidr) in
  let finish (p : ParsedAddress) :=
    match rest with
    | [] => None
    | _ => if inet_pton (c_str (of_chars rest))
           then Some (mkParsed (of_chars rest) (has_prefix p) (prefix p)) else None
    end in
  match slash with
  | [] => finish (mkParsed "" false 0)
  | _ :: prefix_text =>
      match prefix_text with
      | [] => None
      | _ =>
          match stoi prefix_text with
          | None => None
          | Some (v, consumed) =>
              if negb (Nat.eqb consumed (length prefix_text)) || (v <? 0) || (32 <? v) then None
              else finish (mkParsed "" true v)
          end
      end
  end.

(** The body of the loop over the host addresses. *)
Definition same_address (expected_host : ParsedAddress) (entry : string) : bool :=
  match parse_address entry with
  | None => false
  | Some parsed =>
      if negb (bool_decide (address parsed = address expected_host)) then false
      else if negb (Bool.eqb (has_prefix parsed) (has_prefix expected_host)) then false
      else if has_prefix expected_host && negb (prefix parsed =? prefix expected_host) then false
      else true
  end.

Definition address_problem (facts : NetworkFacts) (expected : NetworkExpectation)
  (expected_host : ParsedAddress) : string :=
  if negb (str_empty (addresses_error facts)) then
    "could not read host addresses: " +:+ addresses_error facts
  else if existsb (same_address expected_host) (addresses facts) then ""
  else "host address '" +:+ host_address expected +:+ "' not found on any interface".

Definition route_problem (facts : NetworkFacts) (expected : NetworkExpectation)
  (expected_host : ParsedAddress) : string :=
  if negb (str_empty (route_error facts)) then
    "could not determine route to '" +:+ robot_address expected +:+ "': " +:+ route_error facts
  else if str_empty (route_interface facts) then
    "no route to robot address '" +:+ robot_address expected +:+ "'"
  else if negb (bool_decide (route_interface facts = interface expected)) then
    "route to '" +:+ robot_address expected +:+ "' uses interface '" +:+
    route_interface facts +:+ "', expected '" +:+ interface expected +:+ "'"
  else if negb (bool_decide (route_source facts = address expected_host)) then
    "route to '" +:+ robot_address expected +:+ "' uses source address '" +:+
    route_source facts +:+ "', expected '" +:+ address expected_host +:+ "'"
  else "".

Definition evaluate_network (facts : NetworkFacts) (expected : NetworkExpectation)
  : NetworkDecision :=
  match parse_address (host_address expected) with
  | None =>
      mkDecision false ("expected host address '" +:+ host_address expected +:+
        "' is not a valid IPv4 address or CIDR")
  | Some expected_host =>
      let problem := join_failures (address_problem facts expected expected_host)
                       (route_problem facts expected expected_host) in
      if str_empty problem then
        mkDecision true ("network preflight ok: " +:+ host_address expected +:+ " on " +:+
          interface expected +:+ ", route to " +:+ robot_address expected +:+ " via " +:+
          interface expected)
      else mkDecision false problem
  end.

(** ** [LinuxNetworkPreflight::check]

    The runner is a program of a monad [M]: it answers with the exit status, the
    captured output and the error text of a command.  What the two answers add to
    the facts is pure. *)

Definition addr_command : list string := ["ip"; "-4"; "-o"; "addr"; "show"]%string.
Definition route_command (robot : string) : list string :=
  ["ip"; "-4"; "-o"; "route"; "get"; robot]%string.

Definition status_suffix (rc : Z) (error : string) : string :=
  pretty rc +:+ (if str_empty error then "" else ": " +:+ error).

Definition address_facts (facts : NetworkFacts) (answer : Z * string * string) : NetworkFacts :=
  let '(rc, output, error) := answer in
  if negb (rc =? 0) then
    facts <| addresses_error := "'ip -4 -o addr show' exited with status " +:+
               status_suffix rc error |>
  else
    let '(found, addrs) := parse_ip_addr_output output (addresses facts) in
    let facts := facts <| addresses := addrs |> in
    if negb found then
      facts <| addresses_error := "'ip -4 -o addr show' returned no IPv4 addresses" |>
    else facts.

Definition route_facts (robot : string) (facts : NetworkFacts) (answer : Z * string * string)
    : NetworkFacts :=
  let '(rc, output, error) := answer in
  if negb (rc =? 0) then
    facts <| route_error := "'ip route get " +:+ robot +:+ "' exited with status " +:+
               status_suffix rc error |>
  else
    match parse_ip_route_get_output output with
    | Some (device, source) => facts <| route_interface := device |> <| route_source := source |>
    | None => facts <| route_error := "'ip route get " +:+ robot +:+
                         "' produced unparseable output" |>
    end.

(** The verdict on the answers to the two commands. *)
Definition decision (expected : NetworkExpectation) (addr route : Z * string * string)
    : NetworkDecision :=
  evaluate_network
    (route_facts (robot_address expected) (address_facts empty_facts addr) route) expected.

Section Check.
  Context {M : Type -> Type} `{!MRet M, !MBind M}
    (runner : list string -> M (Z * string * string)%type).

Definition gather_addresses (facts : NetworkFacts) : M NetworkFacts :=
  answer ← runner addr_command; mret (address_facts facts answer).

Definition gather_route (robot : string) (facts : NetworkFacts) : M NetworkFacts :=
  answer ← runner (route_command robot); mret (route_facts robot facts answer).

Definition check (expected : NetworkExpectation) : M NetworkDecision :=
  facts ← gather_addresses empty_facts;
  facts ← gather_route (robot_address expected) facts;
  mret (evaluate_network facts expected).

End Check.
End Evaluate.

(** ** Rendered command output *)

(** A field of a line: not empty, no blank in it. *)
Definition token_wf (t : string) : bool :=
  negb (str_empty t) && forallb (fun c => negb (isspace c)) (chars t).

Fixpoint render_tokens (l : list string) : list ascii :=
  match l with
  | [] => []
  | t :: l' => chars t ++ ascii_of_N 32 :: render_tokens l'
  end.

Definition render_lines (ls : list (list string)) : string :=
  of_chars (concat (map (fun l => render_tokens l ++ [ascii_of_N 10]) ls)).

(** ** Facts *)

Lemma chars_of_chars l : chars (of_chars l) = l.
Proof. apply String.list_ascii_of_string_of_list_ascii. Qed.

Lemma of_chars_chars s : of_chars (chars s) = s.
Proof. apply String.string_of_list_ascii_of_string. Qed.

Lemma span_app f l : l = (span f l).1 ++ (span f l).2.
Proof. induction l as [|c l IH]; cbn; [done|]. destruct (f c); cbn; [by rewrite <- IH|done]. Qed.

Lemma span_all f l k :
  forallb f l = true -> (match k with c :: _ => f c = false | [] => True end) ->
  span f (l ++ k) = (l, k).
Proof.
  induction l as [|c l IH]; cbn.
  - intros _ Hk. destruct k as [|c k]; [done|]. cbn. by rewrite Hk.
  - intros [-> Hl]%andb_true_iff Hk. by rewrite IH.
Qed.

(** *** Lines and tokens *)

Lemma getlines_line l cur rest :
  forallb (fun c => negb (bool_decide (c = ascii_of_N 10))) l = true ->
  getlines (l ++ ascii_of_N 10 :: rest) cur = (rev cur ++ l) :: getlines rest [].
Proof.
  revert cur. induction l as [|c l IH]; intros cur Hl; cbn [app getlines].
  - destruct (ascii_dec _ _) as [_|Hn]; [by rewrite app_nil_r|done].
  - apply andb_true_iff in Hl as [Hc Hl]. bool_prop.
    destruct (ascii_dec c (ascii_of_N 10)) as [|_]; [done|].
    rewrite IH by done. cbn. by rewrite <- app_assoc.
Qed.

Lemma isspace_newline c : isspace c = false -> c <> ascii_of_N 10.
Proof. by intros H ->. Qed.

Lemma token_no_newline t :
  token_wf t = true -> forallb (fun c => negb (bool_decide (c = ascii_of_N 10))) (chars t) = true.
Proof.
  unfold token_wf. intros [_ H]%andb_true_iff. rewrite forallb_forall in *.
  intros c Hc. specialize (H c Hc). bool_prop. apply negb_true_iff, bool_decide_eq_false.
  by apply isspace_newline.
Qed.

Lemma render_tokens_no_newline l :
  forallb token_wf l = true ->
  forallb (fun c => negb (bool_decide (c = ascii_of_N 10))) (render_tokens l) = true.
Proof.
  induction l as [|t l IH]; cbn [render_tokens forallb]; [done|]. intros [Ht Hl]%andb_true_iff.
  rewrite forallb_app, token_no_newline by done. cbn [forallb]. by rewrite IH.
Qed.

Lemma tokens_token t cur rest :
  forallb (fun c => negb (isspace c)) t = true -> rev cur ++ t <> [] ->
  tokens (t ++ ascii_of_N 32 :: rest) cur = of_chars (rev cur ++ t) :: tokens rest [].
Proof.
  revert cur. induction t as [|c t IH]; intros cur Ht Hne; cbn [app tokens].
  - rewrite app_nil_r in *. change (isspace (ascii_of_N 32)) with true. cbv iota.
    destruct cur as [|c cur]; [done|]. done.
  - apply andb_true_iff in Ht as [Hc Ht]. bool_prop. rewrite Hc, IH; [|done|].
    + cbn. by rewrite <- app_assoc.
    + cbn. by destruct (rev cur).
Qed.

Lemma tokens_render l : forallb token_wf l = true -> tokens (render_tokens l) [] = l.
Proof.
  induction l as [|t l IH]; cbn [render_tokens forallb]; [done|].
  intros [Ht Hl]%andb_true_iff. unfold token_wf in Ht. apply andb_true_iff in Ht as [Hne Hc].
  rewrite tokens_token, IH by (done || by destruct t). cbn. by rewrite of_chars_chars.
Qed.

Lemma token_lines_render ls :
  forallb (forallb token_wf) ls = true -> token_lines (render_lines ls) = ls.
Proof.
  unfold token_lines, render_lines. rewrite chars_of_chars.
  induction ls as [|l ls IH]; cbn [map concat forallb]; [done|].
  intros [Hl Hls]%andb_true_iff. rewrite <- app_assoc. cbn [app].
  rewrite getlines_line by by apply render_tokens_no_newline. cbn [rev app map].
  by rewrite tokens_render, IH.
Qed.

(** *** The [ip] parsers *)

Lemma parse_ip_addr_fold lines found acc :
  fold_left (fun '(found, acc) line =>
    let es := inet_entries line in
    (found || bool_decide (es <> []), acc ++ es)) lines (found, acc) =
  (found || bool_decide (concat (map inet_entries lines) <> []),
   acc ++ concat (map inet_entries lines)).
Proof.
  revert found acc. induction lines as [|line lines IH]; intros found acc; cbn [fold_left map concat].
  { by rewrite app_nil_r, orb_false_r. }
  rewrite IH, app_assoc, <- orb_assoc. f_equal. f_equal.
  destruct (inet_entries line) as [|e l]; [done|]. by case_bool_decide; case_bool_decide.
Qed.

Lemma parse_ip_addr_output_spec output acc :
  let es := concat (map inet_entries (token_lines output)) in
  parse_ip_addr_output output acc = (bool_decide (es <> []), acc ++ es).
Proof. unfold parse_ip_addr_output. by rewrite parse_ip_addr_fold. Qed.

Lemma inet_entries_none l : forallb (fun t => negb (bool_decide (t = "inet"%string))) l = true ->
  inet_entries l = [].
Proof.
  induction l as [|t l IH]; cbn [forallb inet_entries]; [done|]. intros [Ht Hl]%andb_true_iff.
  bool_prop. rewrite decide_False by done. auto.
Qed.

Lemma inet_entries_one pre cidr post :
  forallb (fun t => negb (bool_decide (t = "inet"%string))) pre = true ->
  inet_entries (pre ++ "inet"%string :: cidr :: post) = cidr :: inet_entries post.
Proof.
  induction pre as [|t pre IH]; cbn [forallb app inet_entries]; [done|].
  intros [Ht Hl]%andb_true_iff. bool_prop. rewrite decide_False by done. auto.
Qed.

Definition route_keyword (t : string) : bool :=
  bool_decide (t = "dev"%string) || bool_decide (t = "src"%string).

Lemma route_entries_skip l k dev src :
  forallb (fun t => negb (route_keyword t)) l = true ->
  route_entries (l ++ k) dev src = route_entries k dev src.
Proof.
  unfold route_keyword. induction l as [|t l IH]; cbn [forallb app]; [done|].
  intros [Ht Hl]%andb_true_iff. cbn [route_entries]. bool_prop.
  rewrite !decide_False by done. auto.
Qed.

(** *** Messages *)

Lemma app_not_empty s t : s <> ""%string -> s +:+ t <> ""%string.
Proof. by destruct s. Qed.

Lemma str_empty_true s : str_empty s = true <-> s = ""%string.
Proof. by destruct s. Qed.

Lemma str_empty_false s : str_empty s = false <-> s <> ""%string.
Proof. by destruct s. Qed.

Lemma join_failures_empty a b :
  join_failures a b = ""%string <-> a = ""%string /\ b = ""%string.
Proof.
  unfold join_failures. destruct a as [|c a], b as [|d b]; cbn; split;
    try done; try by intros [? ?].
Qed.

(** *** Addresses *)

Definition no_slash (l : list ascii) : bool :=
  forallb (fun c => if ascii_dec c "/" then false else true) l.

Definition host_matches (inet_pton : string -> bool) (h : ParsedAddress) (entry : string) : Prop :=
  exists p, parse_address inet_pton entry = Some p /\ address p = address h /\
    has_prefix p = has_prefix h /\ (has_prefix h = true -> prefix p = prefix h).

Lemma same_address_iff inet_pton h entry :
  same_address inet_pton h entry = true <-> host_matches inet_pton h entry.
Proof.
  unfold same_address, host_matches. destruct (parse_address inet_pton entry) as [p|].
  2: { split; [done|]. by intros (p & ? & _). }
  split.
  - intros H. exists p. repeat (case_match; [done|]). bool_prop.
    apply Bool.eqb_prop in H1. split_and!; try done. intros Hp. rewrite Hp in *. bool_prop.
    destruct_or!; bool_prop; congruence.
  - intros (p' & [= <-] & Ha & Hp & Hv). rewrite Ha, Hp, bool_decide_eq_true_2, eqb_reflx by done.
    cbn. destruct (has_prefix h); [|done]. by rewrite Hv, Z.eqb_refl.
Qed.

Lemma existsb_same_address inet_pton h l :
  existsb (same_address inet_pton h) l = true <->
  exists e, e ∈ l /\ host_matches inet_pton h e.
Proof.
  rewrite existsb_exists. split; intros (e & He & Hm); exists e;
    (split; [by apply list_elem_of_In|by apply same_address_iff]).
Qed.

Lemma address_problem_empty inet_pton facts expected h :
  address_problem inet_pton facts expected h = ""%string <->
  addresses_error facts = ""%string /\
  exists e, e ∈ addresses facts /\ host_matches inet_pton h e.
Proof.
  unfold address_problem. rewrite <- existsb_same_address.
  destruct (addresses_error facts) as [|c s]; cbn [str_empty negb].
  2: { split; [|by intros [? _]]. by intros ?%app_not_empty. }
  destruct (existsb _ _); [done|].
  split; [by intros ?%app_not_empty|by intros [_ ?]].
Qed.

Lemma route_problem_empty facts expected h :
  route_problem facts expected h = ""%string <->
  route_error facts = ""%string /\ route_interface facts <> ""%string /\
  route_interface facts = interface expected /\ route_source facts = address h.
Proof.
  unfold route_problem.
  destruct (route_error facts) as [|c s]; cbn [str_empty negb].
  2: { split; [|by intros [? _]]. by intros ?%app_not_empty. }
  destruct (str_empty (route_interface facts)) eqn:E1.
  { apply str_empty_true in E1. split; [|by intros (_ & ? & _)]. by intros ?%app_not_empty. }
  apply str_empty_false in E1.
  destruct (bool_decide (route_interface facts = interface expected)) eqn:E2; cbn [negb]; bool_prop.
  2: { split; [|by intros (_ & _ & ? & _)]. by intros ?%app_not_empty. }
  destruct (bool_decide (route_source facts = _)) eqn:E3; cbn [negb]; bool_prop.
  2: { split; [|by intros (_ & _ & _ & ?)]. by intros ?%app_not_empty. }
  by split.
Qed.

(** The text after the slash is read whole, as a number from 0 to 32. *)
Definition prefix_text (text : string) (n : Z) : Prop :=
  text <> ""%string /\ stoi (chars text) = Some (n, length (chars text)) /\ 0 <= n <= 32.

Lemma of_chars_app l k : of_chars (l ++ k) = of_chars l +:+ of_chars k.
Proof.
  induction l as [|c l IH]; [done|].
  change (String c (of_chars (l ++ k)) = String c (of_chars l +:+ of_chars k)). by rewrite IH.
Qed.

Lemma chars_length_inv s t : chars s = chars t -> s = t.
Proof. intros H. by rewrite <- (of_chars_chars s), H, of_chars_chars. Qed.

Lemma parse_address_plain inet_pton l :
  no_slash l = true ->
  parse_address inet_pton (of_chars l) =
    if negb (bool_decide (l = [])) && inet_pton (c_str (of_chars l))
    then Some (mkParsed (of_chars l) false 0) else None.
Proof.
  intros Hl. unfold parse_address. rewrite chars_of_chars.
  replace (span _ l) with (l, @nil ascii).
  - destruct l; [done|]. rewrite bool_decide_eq_false_2 by done. cbn [negb andb]. by case_match.
  - symmetry. rewrite <- (app_nil_r l) at 1. by apply span_all.
Qed.

Lemma parse_address_slash inet_pton l text :
  no_slash l = true ->
  parse_address inet_pton (of_chars (l ++ "/"%char :: text)) =
    match text with
    | [] => None
    | _ =>
        match stoi text with
        | None => None
        | Some (v, consumed) =>
            if negb (Nat.eqb consumed (length text)) || (v <? 0) || (32 <? v) then None
            else if negb (bool_decide (l = [])) && inet_pton (c_str (of_chars l))
            then Some (mkParsed (of_chars l) true v) else None
        end
    end.
Proof.
  intros Hl. unfold parse_address. rewrite chars_of_chars.
  rewrite span_all by done. destruct text; [done|].
  destruct (stoi _) as [[v consumed]|]; [|done]. destruct (_ || _); [done|].
  destruct l; [done|]. rewrite bool_decide_eq_false_2 by done. by case_match.
Qed.

Definition network_ready (inet_pton : string -> bool) (facts : NetworkFacts)
  (expected : NetworkExpectation) : Prop :=
  exists h, parse_address inet_pton (host_address expected) = Some h /\
    (addresses_error facts = ""%string /\
     exists e, e ∈ addresses facts /\ host_matches inet_pton h e) /\
    (route_error facts = ""%string /\ route_interface facts <> ""%string /\
     route_interface facts = interface expected /\ route_source facts = address h).

Lemma evaluate_network_spec inet_pton facts expected :
  (ready (evaluate_network inet_pton facts expected) = true <->
   network_ready inet_pton facts expected) /\
  message (evaluate_network inet_pton facts expected) <> ""%string.
Proof.
  unfold evaluate_network, network_ready.
  destruct (parse_address _ _) as [h|].
  2: { split; [split; [done|by intros (h & ? & _)]|]. by apply app_not_empty. }
  destruct (str_empty (join_failures _ _)) eqn:E; cbn [ready message].
  - split; [|by apply app_not_empty]. split; [|done]. intros _. exists h. split; [done|].
    apply str_empty_true, join_failures_empty in E as [?%address_problem_empty ?%route_problem_empty].
    done.
  - split; [|by apply str_empty_false]. split; [done|]. intros (h' & [= <-] & Ha & Hr).
    apply address_problem_empty with (expected := expected) in Ha. apply route_problem_empty in Hr.
    by rewrite Ha, Hr in E.
Qed.

(** ** Properties *)

(** The preflight is ready exactly when the expected host address parses, the
    probes succeeded, some interface carries that address with the same prefix,
    and the route to the robot leaves through the expected interface with that
    address as its source; the message is never empty. *)
Theorem evaluate_network_correct inet_pton facts expected :
  (ready (evaluate_network inet_pton facts expected) = true <->
   network_ready inet_pton facts expected) /\
  message (evaluate_network inet_pton facts expected) <> ""%string.
Proof. apply evaluate_network_spec. Qed.

(** The facts are ready exactly when both commands exit with status zero, the
    first prints an [inet] entry that matches the expected address and prefix, and
    the second prints a line whose last device is the expected interface and whose
    last source is that address. *)
Definition facts_ready inet_pton expected (addr route : Z * string * string) : Prop :=
  addr.1.1 = 0 /\ route.1.1 = 0 /\
  exists h entry, parse_address inet_pton (host_address expected) = Some h /\
    entry ∈ concat (map inet_entries (token_lines addr.1.2)) /\ host_matches inet_pton h entry /\
    interface expected <> ""%string /\
    parse_ip_route_get_output route.1.2 = Some (interface expected, address h).

Lemma address_facts_spec rc out error :
  exists a ae, address_facts empty_facts (rc, out, error) = mkFacts a "" "" ae "" /\
    let es := concat (map inet_entries (token_lines out)) in
    (ae = ""%string <-> rc = 0 /\ es <> []) /\ (rc = 0 -> a = es).
Proof.
  unfold address_facts. rewrite parse_ip_addr_output_spec. cbn [addresses empty_facts app].
  set (es := concat _). destruct (Z.eqb_spec rc 0) as [->|]; cbn [negb].
  - destruct (bool_decide (es <> [])) eqn:E; cbn [negb]; bool_prop; eexists _, _;
      (split; [reflexivity|]); split; try done. split; [done|]. by intros [_ ?].
  - eexists _, _. split; [reflexivity|]. split; [|done].
    split; [by intros ?%app_not_empty|]. by intros [? _].
Qed.

Lemma route_facts_spec robot a ae rc out error :
  exists i s re, route_facts robot (mkFacts a "" "" ae "") (rc, out, error) = mkFacts a i s ae re /\
    (re = ""%string <-> rc = 0 /\ parse_ip_route_get_output out <> None) /\
    (rc = 0 -> forall dv sr, parse_ip_route_get_output out = Some (dv, sr) -> i = dv /\ s = sr).
Proof.
  unfold route_facts. destruct (Z.eqb_spec rc 0) as [->|]; cbn [negb].
  - destruct (parse_ip_route_get_output out) as [[dv sr]|]; eexists _, _, _;
      (split; [reflexivity|]); split; try done.
    + by intros _ ? ? [= <- <-].
    + split; [by intros ?%app_not_empty|]. by intros [_ ?].
  - eexists _, _, _. split; [reflexivity|]. split; [|done].
    split; [by intros ?%app_not_empty|]. by intros [? _].
Qed.

Lemma decision_spec inet_pton expected addr route :
  message (decision inet_pton expected addr route) <> ""%string /\
  (ready (decision inet_pton expected addr route) = true <->
   facts_ready inet_pton expected addr route).
Proof.
  destruct addr as [[rc1 out1] error1], route as [[rc2 out2] error2].
  unfold decision, facts_ready. cbn [fst snd].
  destruct (address_facts_spec rc1 out1 error1) as (a & ae & -> & Hae & Ha).
  destruct (route_facts_spec (robot_address expected) a ae rc2 out2 error2)
    as (i & s & re & -> & Hre & Hi).
  destruct (evaluate_network_spec inet_pton (mkFacts a i s ae re) expected) as [Hr Hm].
  split; [done|]. rewrite Hr. unfold network_ready. cbn. cbn zeta in Hae, Ha.
  setoid_rewrite Hae. setoid_rewrite Hre. split.
  - intros (h & Hh & ((Hrc1 & _) & e & He & Hem) & ((Hrc2 & Hrt) & Hne & Hif & Hsrc)).
    split_and!; try done. exists h, e. rewrite <- (Ha Hrc1).
    destruct (parse_ip_route_get_output out2) as [[dv sr]|]; [|done].
    destruct (Hi Hrc2 _ _ eq_refl) as [<- <-]. subst. by split_and!.
  - intros (Hrc1 & Hrc2 & h & e & Hh & He & Hem & Hne & Hrt). exists h.
    destruct (Hi Hrc2 _ _ Hrt) as [-> ->]. rewrite (Ha Hrc1). split_and!; try done.
    + by intros E; rewrite E in He; apply elem_of_nil in He.
    + by exists e.
    + by rewrite Hrt.
Qed.

(** State-passing programs, for a runner that always answers. *)
Definition stateful (W A : Type) : Type := W -> A * W.
#[export] Instance stateful_ret W : MRet (stateful W) := fun _ a w => (a, w).
#[export] Instance stateful_bind W : MBind (stateful W) := fun _ _ k m w => let '(a, w) := m w in k a w.

(** With an injected runner that always answers, [check] runs the two read-only
    commands, the address query and then the route query, and nothing else; it is
    ready only when the answers say so. *)
Theorem check_ready_only_on_facts {W} inet_pton
    (runner : list string -> stateful W (Z * string * string)) expected w addr w1 route w2 :
  runner addr_command w = (addr, w1) ->
  runner (route_command (robot_address expected)) w1 = (route, w2) ->
  let '(d, w') := check inet_pton runner expected w in
  w' = w2 /\ message d <> ""%string /\
  (ready d = true <-> facts_ready inet_pton expected addr route).
Proof.
  intros H1 H2. unfold check, gather_addresses, gather_route, mbind, stateful_bind.
  rewrite H1. cbn. rewrite H2. split; [done|]. apply decision_spec.
Qed.

(** Round trip of the address query: from lines that each carry one [inet]
    field, preceded and followed by any other fields, the parser recovers
    exactly the addresses, in order, and reports whether there was one. *)
Theorem ip_addr_round_trip (rows : list (list string * string * list string)) acc :
  forallb (fun '(pre, cidr, post) =>
    forallb token_wf pre && token_wf cidr && forallb token_wf post &&
    forallb (fun t => negb (bool_decide (t = "inet"%string))) pre &&
    forallb (fun t => negb (bool_decide (t = "inet"%string))) post) rows = true ->
  parse_ip_addr_output
    (render_lines (map (fun '(pre, cidr, post) => pre ++ "inet"%string :: cidr :: post) rows)) acc =
  (bool_decide (rows <> []), acc ++ map (fun '(_, cidr, _) => cidr) rows).
Proof.
  intros Hwf. rewrite parse_ip_addr_output_spec.
  assert (Hls : forallb (forallb token_wf)
    (map (fun '(pre, cidr, post) => pre ++ "inet"%string :: cidr :: post) rows) = true /\
    concat (map inet_entries (map (fun '(pre, cidr, post) => pre ++ "inet"%string :: cidr :: post) rows))
      = map (fun '(_, cidr, _) => cidr) rows).
  { induction rows as [|[[pre cidr] post] rows IH]; [done|]. cbn [map forallb concat] in *.
    apply andb_true_iff in Hwf as [Hrow Hrows]. destruct (IH Hrows) as [-> ->].
    apply andb_true_iff in Hrow as [[[[Hpre Hc]%andb_true_iff Hpost]%andb_true_iff Hnpre]%andb_true_iff Hnpost].
    rewrite forallb_app, inet_entries_one, inet_entries_none by done. cbn [forallb].
    by rewrite Hpre, Hc, Hpost. }
  destruct Hls as [Hls Hes]. rewrite token_lines_render by done. rewrite Hes.
  cbv zeta. f_equal. by destruct rows as [|[[? ?] ?] ?].
Qed.

(** Round trip of the route query: the device and the source of the first line
    that has both are recovered, whatever other fields surround them.
    *)
Theorem ip_route_round_trip pre dev mid src post rest :
  forallb token_wf (pre ++ dev :: mid ++ src :: post) = true ->
  forallb (fun t => negb (route_keyword t)) (pre ++ mid ++ post) = true ->
  forallb (forallb token_wf) rest = true ->
  parse_ip_route_get_output
    (render_lines ((pre ++ "dev"%string :: dev :: mid ++ "src"%string :: src :: post) :: rest)) =
  Some (dev, src).
Proof.
  intros Hwf Hk Hrest.
  rewrite !forallb_app in *. cbn [forallb] in *. rewrite !forallb_app in Hwf. cbn [forallb] in Hwf.
  bool_prop. unfold parse_ip_route_get_output. rewrite token_lines_render.
  - cbn [route_lines]. rewrite route_entries_skip by done. cbn [route_entries].
    rewrite decide_True by done. rewrite route_entries_skip by done. cbn [route_entries].
    rewrite decide_False, decide_True by done.
    rewrite <- (app_nil_r post), route_entries_skip by done. cbn [route_entries].
    unfold token_wf in *. bool_prop. by destruct dev, src.
  - cbn [forallb]. rewrite !forallb_app. cbn [forallb]. rewrite !forallb_app. cbn [forallb].
    rewrite Hrest. repeat match goal with H : _ = true |- _ => rewrite H; clear H end. done.
Qed.

(** [parse_address] accepts exactly an address the C library accepts, alone or
    followed by a slash and a text that [std::stoi] reads whole as a number from
    0 to 32; the result holds the part before the slash and that number.
    *)
Theorem parse_address_correct inet_pton cidr p :
  parse_address inet_pton cidr = Some p <->
  address p <> ""%string /\ no_slash (chars (address p)) = true /\
  inet_pton (c_str (address p)) = true /\
  (if has_prefix p
   then exists text, cidr = address p +:+ "/" +:+ text /\ prefix_text text (prefix p)
   else cidr = address p /\ prefix p = 0).
Proof.
  split.
  - intros H. pose proof (span_app (fun c => if ascii_dec c "/" then false else true) (chars cidr)) as Hs.
    assert (Hno : no_slash (span (fun c => if ascii_dec c "/" then false else true) (chars cidr)).1 = true).
    { unfold no_slash. generalize (chars cidr) as l. induction l as [|c l IH]; [done|]. cbn [span].
      destruct (ascii_dec c "/") eqn:E; cbn; [done|]. by rewrite E. }
    assert (Hhd : match (span (fun c => if ascii_dec c "/" then false else true) (chars cidr)).2 with
      | c :: _ => c = "/"%char | [] => True end).
    { generalize (chars cidr) as l. induction l as [|c l IH]; [done|]. cbn [span].
      by destruct (ascii_dec c "/"). }
    destruct (span _ (chars cidr)) as [l slash]. cbn [fst snd] in *.
    assert (Hc : cidr = of_chars (l ++ slash)) by by rewrite <- Hs, of_chars_chars.
    destruct slash as [|c text].
    + rewrite app_nil_r in Hc. subst cidr. rewrite parse_address_plain in H by done.
      destruct (_ && _) eqn:E; [|done]. injection H as <-. cbn. bool_prop.
      rewrite chars_of_chars. split_and!; try done. by destruct l.
    + subst c cidr. rewrite parse_address_slash in H by done.
      destruct text as [|c text]; [done|].
      destruct (stoi _) as [[v consumed]|] eqn:Est; [|done].
      destruct (_ || _) eqn:Er; [done|]. destruct (_ && _) eqn:E; [|done]. injection H as <-.
      cbn [address has_prefix prefix]. bool_prop.
      match goal with E : Nat.eqb _ _ = true |- _ => apply Nat.eqb_eq in E as -> end.
      rewrite chars_of_chars. split_and!; try done; [by destruct l|].
      exists (of_chars (c :: text)). split; [by rewrite of_chars_app|].
      unfold prefix_text. rewrite chars_of_chars. split_and!; (done || lia).
  - destruct p as [a hp v]. cbn [address has_prefix prefix]. intros (Hne & Hno & Hin & Hp).
    rewrite <- (of_chars_chars a) in *. rewrite chars_of_chars in Hno.
    assert (Hnil : chars a <> []) by (intros E; rewrite E in Hne; done).
    destruct hp.
    + destruct Hp as (text & -> & Htne & Hst & Hv).
      assert (Htn : chars text <> []) by (intros E; apply Htne; by apply chars_length_inv).
      change ("/" +:+ text) with (String "/" text).
      rewrite <- (of_chars_chars (String "/" text)), <- of_chars_app.
      change (chars (String "/" text)) with ("/"%char :: chars text).
      rewrite parse_address_slash by done. destruct (chars text) as [|c l] eqn:Et; [done|].
      rewrite Hst, Nat.eqb_refl, bool_decide_eq_false_2, Hin by done. cbn [negb orb andb].
      replace (v <? 0) with false by lia. by replace (32 <? v) with false by lia.
    + destruct Hp as [-> ->]. rewrite parse_address_plain by done.
      rewrite bool_decide_eq_false_2, Hin by done. done.
Qed.

(** ** Witnesses *)

Definition sample_expectation : NetworkExpectation :=
  mkExpectation "eno1" "10.18.0.200/24" "10.18.0.100".

Definition sample_rows : list (list string * string * list string) :=
  [(["1:"; "lo"], "127.0.0.1/8", ["scope"; "host"]);
   (["2:"; "eno1"], "10.18.0.200/24", ["brd"; "10.18.0.255"])]%string.

Definition sample_addr_output : string :=
  render_lines (map (fun '(pre, cidr, post) => pre ++ "inet"%string :: cidr :: post) sample_rows).

Definition sample_route_output : string :=
  render_lines [["10.18.0.100"; "dev"; "eno1"; "src"; "10.18.0.200"; "uid"; "1000"]]%string.

(** A runner that counts the commands and answers with the texts above. *)
Definition sample_runner (args : list string) : stateful nat (Z * string * string) := fun n =>
  ((0, if bool_decide (args = addr_command) then sample_addr_output else sample_route_output,
    ""%string), S n).

Definition sample_inet_pton (s : string) : bool :=
  bool_decide (s = "10.18.0.200"%string) || bool_decide (s = "127.0.0.1"%string).

Lemma check_ready_only_on_facts_witness :
  ready (check sample_inet_pton sample_runner sample_expectation 0%nat).1 = true /\
  (check sample_inet_pton sample_runner sample_expectation 0%nat).2 = 2%nat /\
  message (check sample_inet_pton sample_runner sample_expectation 0%nat).1 <> ""%string.
Proof.
  pose proof (check_ready_only_on_facts sample_inet_pton sample_runner sample_expectation 0%nat
    (0, sample_addr_output, ""%string) 1%nat (0, sample_route_output, ""%string) 2%nat
    eq_refl eq_refl) as H.
  split; [vm_compute; reflexivity|].
  destruct (check sample_inet_pton sample_runner sample_expectation 0%nat) as [d w].
  destruct H as (Hw & Hm & _). split; assumption.
Defined.

Lemma ip_addr_round_trip_witness :
  parse_ip_addr_output sample_addr_output [] =
    (true, ["127.0.0.1/8"; "10.18.0.200/24"]%string).
Proof. apply (ip_addr_round_trip sample_rows []). vm_compute. reflexivity. Defined.

Lemma ip_route_round_trip_witness :
  parse_ip_route_get_output
    (render_lines [["10.18.0.100"; "dev"; "eno1"; "src"; "10.18.0.200"; "uid"; "1000"]]%string) =
  Some ("eno1", "10.18.0.200")%string.
Proof.
  apply (ip_route_round_trip ["10.18.0.100"]%string "eno1" [] "10.18.0.200"
           ["uid"; "1000"]%string []); vm_compute; reflexivity.
Defined.

(** The prefix is read by [std::stoi], so a blank or a sign in front of it is
    let through although the comment asks for [a.b.c.d[/nn]]. *)
Lemma parse_address_lenient :
  parse_address sample_inet_pton "10.18.0.200/ +24" =
    Some (mkParsed "10.18.0.200" true 24).
Proof. vm_compute. reflexivity. Qed.
