(* ===== verification/CommandRunner.v ===== *)
(** * CommandRunner: [execute_readonly_command] of [network_preflight.cpp]

    The default command runner of the preflight, as a program of system calls.
    The operating system is a parameter, the [kernel]: a strategy that answers
    each call as it likes, knowing everything that happened before.  A run extends
    the history of events; it returns, ends in the child's [execvp] or [_exit]
    ([Gone]), or is still inside a loop when the fuel of a loop is used up
    ([Blocked]). *)

From S2P Require Import Prelude Cxx NetworkPreflight.

(** ** System calls *)

Inductive errno := EINTR | EAGAIN | ENOSYS | EINVAL | OtherErrno.

#[export] Instance errno_eq_dec : EqDecision errno.
Proof. solve_decision. Defined.

(** What [waitpid] stores, read through [WIFEXITED] and [WIFSIGNALED]; signals have
    positive numbers. *)
Inductive wait_status := Exited (code : Z) | Signaled (signal : positive) | OtherStatus.

(** [waitpid] answers zero, the child, or an error. *)
Inductive wait_answer := NoChange | Reaped (status : wait_status) | WaitError (e : errno).

#[export] Instance wait_status_eq_dec : EqDecision wait_status.
Proof. solve_decision. Defined.
#[export] Instance wait_answer_eq_dec : EqDecision wait_answer.
Proof. solve_decision. Defined.

Definition O_NONBLOCK : Z := 2048.
Definition STDOUT_FILENO : Z := 1.
Definition STDERR_FILENO : Z := 2.

Inductive call : Type -> Type :=
  | Pipe2 : call (errno + Z * Z)
  | Pipe : call (errno + Z * Z)
  | SetCloexec (fd : Z) : call bool
  | Fork : call Z
  | Dup2 (oldfd newfd : Z) : call bool
  | Execvp (argv : list string) : call bool
  | GetFl (fd : Z) : call (option Z)
  | SetFl (fd flags : Z) : call bool
  | Now : call Z
  | Poll (fd0 fd1 timeout_ms : Z) : call (errno + bool * bool)
  | Read (fd : Z) : call (errno + string)
  | Close (fd : Z) : call unit
  | KillChild (pid : Z) : call unit
  | WaitNoHang (pid : Z) : call wait_answer
  | Wait (pid : Z) : call wait_answer
  | Exit (code : Z) : call unit.

(** A call and its answer; the newest event of a history comes first. *)
Inductive event := Ev (X : Type) (c : call X) (x : X).
Arguments Ev {X} c x.

Definition history : Type := list event.
Definition kernel : Type := forall X : Type, call X -> history -> X.

(** ** Programs of system calls *)

Inductive outcome (A : Type) := Ret (a : A) | Gone | Blocked.
Arguments Ret {A} a.
Arguments Gone {A}.
Arguments Blocked {A}.

Definition sys (A : Type) : Type := history -> outcome A * history.

#[export] Instance sys_ret : MRet sys := fun _ a h => (Ret a, h).
#[export] Instance sys_bind : MBind sys := fun _ _ k m h =>
  match m h with
  | (Ret a, h') => k a h'
  | (Gone, h') => (Gone, h')
  | (Blocked, h') => (Blocked, h')
  end.

Definition blocked {A} : sys A := fun h => (Blocked, h).
Definition gone {A} : sys A := fun h => (Gone, h).

Section Runner.
  Context (os : kernel).

Definition syscall {X} (c : call X) : sys X := fun h => let x := os X c h in (Ret x, Ev c x :: h).

(** ** [make_cloexec_pipe]: the return value and [fds] *)

Definition no_fds : Z * Z := (-1, -1).

Definition make_cloexec_pipe : sys (Z * (Z * Z)) :=
  r ← syscall Pipe2;
  match r with
  | inr fds => mret (0, fds)
  | inl e =>
      if negb (bool_decide (e = ENOSYS)) && negb (bool_decide (e = EINVAL)) then mret (-1, no_fds)
      else
        r ← syscall Pipe;
        match r with
        | inl _ => mret (-1, no_fds)
        | inr (fd0, fd1) =>
            ok0 ← syscall (SetCloexec fd0);
            ok ← (if ok0 : bool then syscall (SetCloexec fd1) else mret false);
            if ok : bool then mret (0, (fd0, fd1))
            else _ ← syscall (Close fd0); _ ← syscall (Close fd1); mret (-1, no_fds)
        end
  end.

(** ** The guards of the pipe ends, closed in reverse order of construction *)

Definition close_open (fd : Z) : sys unit :=
  if 0 <=? fd then syscall (Close fd) else mret tt.

Record guards := mkGuards { out_r : Z; out_w : Z; err_r : Z; err_w : Z }.

#[export] Instance eta_guards : Eta guards := fun g =>
  mkGuards (out_r g) (out_w g) (err_r g) (err_w g).

Definition drop_guards (g : guards) : sys unit :=
  _ ← close_open (err_w g); _ ← close_open (err_r g);
  _ ← close_open (out_w g); close_open (out_r g).

(** ** The child *)

Definition child (g : guards) (args : list string) : sys (Z * string * string) :=
  let exit code := (_ ← syscall (Exit code); gone) in
  ok ← syscall (Dup2 (out_w g) STDOUT_FILENO);
  if negb ok then exit 126 else
  ok ← syscall (Dup2 (err_w g) STDERR_FILENO);
  if negb ok then exit 126 else
  _ ← syscall (Close (out_r g)); _ ← syscall (Close (out_w g));
  _ ← syscall (Close (err_r g)); _ ← syscall (Close (err_w g));
  replaced ← syscall (Execvp args);
  if replaced : bool then gone else exit 127.

(** ** Draining the pipes: an entry of [fds], [sinks] and [open_fds] *)

Record stream := mkStream { s_fd : Z; s_text : string; s_open : bool }.

#[export] Instance eta_stream : Eta stream := fun s => mkStream (s_fd s) (s_text s) (s_open s).

Definition close_stream (s : stream) : sys stream :=
  _ ← syscall (Close (s_fd s)); mret (s <| s_fd := -1 |> <| s_open := false |>).

Fixpoint drain (fuel : nat) (s : stream) : sys stream :=
  match fuel with
  | O => blocked
  | S fuel =>
      count ← syscall (Read (s_fd s));
      match count with
      | inr data =>
          if 0 <? Z.of_nat (String.length data) then drain fuel (s <| s_text := s_text s +:+ data |>)
          else close_stream s
      | inl EINTR => drain fuel s
      | inl EAGAIN => mret s
      | inl _ => close_stream s
      end
  end.

Definition visit (fuel : nat) (ready : bool) (s : stream) : sys stream :=
  if negb (s_open s) then mret s else if negb ready then mret s else drain fuel s.

(** ** The lifetime loop *)

Inductive ending := TimedOut | FatalError | ChildDone (status : wait_status).

Definition ns_per_ms : Z := 1000000.

Definition poll_timeout (s0 s1 : stream) (remaining : Z) : Z :=
  if negb (s_open s0) && negb (s_open s1) then Z.min 30 remaining else remaining.

Fixpoint lifetime (fuel_drain fuel : nat) (deadline pid : Z) (s0 s1 : stream)
    : sys (ending * stream * stream) :=
  match fuel with
  | O => blocked
  | S fuel =>
      now ← syscall Now;
      let remaining := Z.quot (deadline - now) ns_per_ms in
      if remaining <=? 0 then mret (TimedOut, s0, s1) else
      ready ← syscall (Poll (s_fd s0) (s_fd s1) (poll_timeout s0 s1 remaining));
      match ready with
      | inl EINTR => lifetime fuel_drain fuel deadline pid s0 s1
      | inl _ => mret (FatalError, s0, s1)
      | inr (ready0, ready1) =>
          s0 ← visit fuel_drain ready0 s0;
          s1 ← visit fuel_drain ready1 s1;
          waited ← syscall (WaitNoHang pid);
          match waited with
          | Reaped status => mret (ChildDone status, s0, s1)
          | NoChange | WaitError EINTR => lifetime fuel_drain fuel deadline pid s0 s1
          | WaitError _ => mret (FatalError, s0, s1)
          end
      end
  end.

(** ** The end of the child *)

(** [do waited = waitpid(pid, &status, 0); while (waited < 0 && errno == EINTR)]. *)
Fixpoint reap (fuel : nat) (pid : Z) : sys wait_answer :=
  match fuel with
  | O => blocked
  | S fuel =>
      waited ← syscall (Wait pid);
      match waited with WaitError EINTR => reap fuel pid | _ => mret waited end
  end.

Definition wait_failed (waited : wait_answer) : bool :=
  match waited with WaitError _ => true | _ => false end.

Definition exit_status (status : wait_status) : Z :=
  match status with Exited code => code | Signaled signal => 128 + Z.pos signal | OtherStatus => -1 end.

Definition newline : string := String (Ascii.ascii_of_nat 10) EmptyString.

Definition timeout_note (timeout_ms : Z) : string :=
  newline +:+ "[command timed out after " +:+ pretty timeout_ms +:+ " ms; killed]".
Definition failure_note : string := newline +:+ "[command execution failed; child killed]".
Definition nonblock_note : string :=
  newline +:+ "[command execution failed: could not set non-blocking mode on the output pipes; child killed]".

Definition set_nonblocking (fd0 fd1 : Z) : sys bool :=
  flags0 ← syscall (GetFl fd0);
  flags1 ← syscall (GetFl fd1);
  match flags0, flags1 with
  | Some f0, Some f1 =>
      ok ← syscall (SetFl fd0 (Z.lor f0 O_NONBLOCK));
      if ok : bool then syscall (SetFl fd1 (Z.lor f1 O_NONBLOCK)) else mret false
  | _, _ => mret false
  end.

(** What is reported when the loop is left. *)
Definition conclude (fuel : nat) (timeout_ms pid : Z) (e : ending) (err : string)
    : sys (Z * string) :=
  match e with
  | ChildDone status => mret (exit_status status, err)
  | TimedOut =>
      _ ← syscall (KillChild pid);
      waited ← reap fuel pid;
      mret (if wait_failed waited then -1 else 124, err +:+ timeout_note timeout_ms)
  | FatalError =>
      _ ← syscall (KillChild pid);
      waited ← reap fuel pid;
      mret (-1, err +:+ failure_note)
  end.

(** The parent, from the closing of the write ends to the return. *)
Definition parent (fuel : nat) (timeout_ms pid : Z) (g : guards) (out err : string)
    : sys (Z * string * string) :=
  _ ← syscall (Close (out_w g));
  _ ← syscall (Close (err_w g));
  let g := g <| out_w := -1 |> <| err_w := -1 |> in
  nonblock_ok ← set_nonblocking (out_r g) (err_r g);
  if negb nonblock_ok then
    _ ← syscall (KillChild pid);
    _ ← reap fuel pid;
    _ ← drop_guards g;
    mret (-1, out, err +:+ nonblock_note)
  else
    now ← syscall Now;
    let deadline := now + timeout_ms * ns_per_ms in
    '(e, s0, s1) ← lifetime fuel fuel deadline pid
       (mkStream (out_r g) out true) (mkStream (err_r g) err true);
    '(rc, err) ← conclude fuel timeout_ms pid e (s_text s1);
    _ ← drop_guards g;
    mret (rc, s_text s0, err).

(** From [fork] on, with the guards in place. *)
Definition launch (fuel : nat) (timeout_ms : Z) (g : guards) (args : list string) (out err : string)
    : sys (Z * string * string) :=
  pid ← syscall Fork;
  if pid <? 0 then _ ← drop_guards g; mret (-1, out, err)
  else if pid =? 0 then child g args
  else parent fuel timeout_ms pid g out err.

(** The status, [stdout_text] and [stderr_text]. *)
Definition execute_readonly_command (fuel : nat) (args : list string) (out err : string)
    (timeout_ms : Z) : sys (Z * string * string) :=
  let timeout_ms := if timeout_ms <=? 0 then 5000 else timeout_ms in
  match args with
  | [] => mret (127, out, err)
  | _ =>
      '(r0, stdout_pipe) ← make_cloexec_pipe;
      '(r1, stderr_pipe) ← (if negb (r0 =? 0) then mret (-1, no_fds) else make_cloexec_pipe);
      if negb (r0 =? 0) || negb (r1 =? 0) then
        _ ← close_open stdout_pipe.1; _ ← close_open stdout_pipe.2;
        _ ← close_open stderr_pipe.1; _ ← close_open stderr_pipe.2;
        mret (-1, out, err)
      else
        let g := mkGuards stdout_pipe.1 stdout_pipe.2 stderr_pipe.1 stderr_pipe.2 in
        launch fuel timeout_ms g args out err
  end.

(** The runner a [LinuxNetworkPreflight] without an injected one uses. *)
Definition default_runner (fuel : nat) (args : list string) : sys (Z * string * string) :=
  execute_readonly_command fuel args "" "" 5000.

End Runner.
