(* ===== verification/CommandOutcome.v ===== *)
(** * CommandOutcome: what a run of [execute_readonly_command] did

    The events of a run are read back as the descriptors obtained and closed, the
    bytes received, the clock readings and the fate of the child. *)

From S2P Require Import Prelude Cxx NetworkPreflight CommandRunner.

(** ** Reading a history *)

Definition opened_by (e : event) : list Z :=
  let '@Ev X c x := e in
  match c in call Y return Y -> list Z with
  | Pipe2 | Pipe => fun r => match r with inr (fd0, fd1) => [fd0; fd1] | inl _ => [] end
  | _ => fun _ => []
  end x.

Definition closed_by (e : event) : list Z :=
  let '@Ev X c x := e in match c with Close fd => [fd] | _ => [] end.

(** The reads that report the end of a stream, or that it is broken. *)
Definition ended_by (e : event) : list Z :=
  let '@Ev X c x := e in
  match c in call Y return Y -> list Z with
  | Read fd => fun r =>
      match r with
      | inr data => if 0 <? Z.of_nat (String.length data) then [] else [fd]
      | inl EINTR | inl EAGAIN => []
      | inl _ => [fd]
      end
  | _ => fun _ => []
  end x.

Definition read_by (fd : Z) (e : event) : string :=
  let '@Ev X c x := e in
  match c in call Y return Y -> string with
  | Read fd' => fun r => match r with inr data => if fd' =? fd then data else ""%string | inl _ => ""%string end
  | _ => fun _ => ""%string
  end x.

(** What is done to the child. *)
Inductive child_event :=
  | Looked (pid : Z) (a : wait_answer)
  | Killed (pid : Z)
  | Awaited (pid : Z) (a : wait_answer).

Definition child_by (e : event) : list child_event :=
  let '@Ev X c x := e in
  match c in call Y return Y -> list child_event with
  | WaitNoHang pid => fun a => [Looked pid a]
  | KillChild pid => fun _ => [Killed pid]
  | Wait pid => fun a => [Awaited pid a]
  | _ => fun _ => []
  end x.

Definition forked_by (e : event) : list Z :=
  let '@Ev X c x := e in
  match c in call Y return Y -> list Z with Fork => fun pid => [pid] | _ => fun _ => [] end x.

Definition clock_by (e : event) : list Z :=
  let '@Ev X c x := e in
  match c in call Y return Y -> list Z with Now => fun now => [now] | _ => fun _ => [] end x.

(** Oldest first. *)
Definition gather {A} (f : event -> list A) (t : history) : list A := concat (map f (reverse t)).

Notation opened := (gather opened_by).
Notation closed := (gather closed_by).
Notation ended := (gather ended_by).
Notation forks := (gather forked_by).
Notation readings := (gather clock_by).
Notation child_log := (gather child_by).

Fixpoint received (fd : Z) (t : history) : string :=
  match t with [] => ""%string | e :: t => received fd t +:+ read_by fd e end.

(** The descriptors obtained and not closed. *)
Fixpoint live (h : history) : list Z :=
  match h with
  | [] => []
  | e :: h => opened_by e ++ filter (fun fd => fd ∉ closed_by e) (live h)
  end.

(** Every wait for output ends by the deadline: at the last reading of the clock,
    there was time left, and the timeout of [poll] is within it. *)
Definition poll_in_time (deadline : Z) (e : event) (older : history) : Prop :=
  match e with
  | Ev (Poll _ _ ms) _ =>
      exists now, list.last (readings older) = Some now /\ 0 < ms /\ ms * ns_per_ms <= deadline - now
  | _ => True
  end.

Fixpoint timely (deadline : Z) (t : history) : Prop :=
  match t with
  | [] => True
  | e :: t => poll_in_time deadline e t /\ timely deadline t
  end.

Lemma gather_app {A} (f : event -> list A) t2 t1 : gather f (t2 ++ t1) = gather f t1 ++ gather f t2.
Proof. unfold gather. by rewrite reverse_app, map_app, concat_app. Qed.

Lemma gather_cons {A} (f : event -> list A) e t : gather f (e :: t) = gather f t ++ f e.
Proof. change (e :: t) with ([e] ++ t). rewrite gather_app. unfold gather at 2. cbn. by rewrite app_nil_r. Qed.

Lemma received_app fd t2 t1 : received fd (t2 ++ t1) = received fd t1 +:+ received fd t2.
Proof.
  induction t2 as [|e t2 IH]; cbn; [by rewrite string_app_nil_r|].
  by rewrite IH, string_app_assoc.
Qed.

Lemma last_app_some {A} (l1 l2 : list A) x : list.last l2 = Some x -> list.last (l1 ++ l2) = Some x.
Proof. intros H. by rewrite last_app, H. Qed.

Lemma timely_app deadline t2 t1 : timely deadline t2 -> timely deadline t1 -> timely deadline (t2 ++ t1).
Proof.
  induction t2 as [|[X c x] t2 IH]; [done|]. cbn. intros [He H2] H1. split; [|by apply IH].
  destruct c; try done. destruct He as (now & Hl & Hm). exists now.
  rewrite gather_app. by split; [apply last_app_some|].
Qed.

(** ** Triples

    [triple m Q I]: a run of [m] stays in the process; the events it adds satisfy [Q]
    when it returns, and [I] when a loop is still running.  [after t m Q I] is the same for a program that goes on
    after the events [t]. *)

Definition triple {A} (m : sys A) (Q : A -> history -> Prop) (I : history -> Prop) : Prop :=
  forall h o h', m h = (o, h') ->
  exists t, h' = t ++ h /\ match o with Ret a => Q a t | Gone => False | Blocked => I t end.

Definition after {A} (t : history) (m : sys A) (Q : A -> history -> Prop) (I : history -> Prop) : Prop :=
  triple m (fun a t2 => Q a (t2 ++ t)) (fun t2 => I (t2 ++ t)).

Lemma triple_after {A} (m : sys A) Q I : after [] m Q I -> triple m Q I.
Proof.
  intros Hm h o h' H. destruct (Hm _ _ _ H) as (t & -> & Ht). exists t. split; [done|].
  by destruct o; rewrite ?app_nil_r in Ht.
Qed.

Lemma after_ret {A} t (a : A) Q I : Q a t -> after t (mret a) Q I.
Proof. intros HQ h o h' [= <- <-]. by exists []. Qed.

Lemma after_blocked {A} t Q I : I t -> after (A:=A) t blocked Q I.
Proof. intros HI h o h' [= <- <-]. by exists []. Qed.

Lemma after_tail {A} t (m : sys A) Q Q' I I' :
  triple m Q' I' -> (forall a t', Q' a t' -> Q a (t' ++ t)) -> (forall t', I' t' -> I (t' ++ t)) ->
  after t m Q I.
Proof.
  intros Hm HQ HI h o h' H. destruct (Hm _ _ _ H) as (t' & -> & Ht). exists t'. split; [done|].
  destruct o; auto.
Qed.

Lemma after_bind {A B} t (m : sys A) (k : A -> sys B) Q R I I' :
  triple m Q I' -> (forall t', I' t' -> I (t' ++ t)) ->
  (forall a t', Q a t' -> after (t' ++ t) (k a) R I) ->
  after t (a ← m; k a) R I.
Proof.
  intros Hm HI Hk h o h' H. unfold mbind, sys_bind in H. destruct (m h) as [[a| |] h1] eqn:E.
  2-3: injection H as <- <-; destruct (Hm _ _ _ E) as (t' & -> & Ht); exists t'; auto.
  destruct (Hm _ _ _ E) as (t1 & -> & HQ). destruct (Hk a t1 HQ _ _ _ H) as (t2 & -> & HR).
  exists (t2 ++ t1). rewrite <- !app_assoc. by destruct o.
Qed.

(** A call, whatever it answers, and the rest. *)
Lemma after_call {X} os t (c : call X) Q I : (forall x, Q x (Ev c x :: t)) -> after t (syscall os c) Q I.
Proof. intros HQ h o h' [= <- <-]. exists [Ev c (os X c h)]. by split; [|apply HQ]. Qed.

Lemma after_step {X B} os t (c : call X) (k : X -> sys B) R I :
  (forall x, after (Ev c x :: t) (k x) R I) -> after t (x ← syscall os c; k x) R I.
Proof.
  intros Hk. apply after_bind with (Q := fun x t' => t' = [Ev c x]) (I' := fun _ => False); [|done|].
  - by apply triple_after, after_call.
  - intros x t' ->. apply Hk.
Qed.

(** ** Draining *)

Definition untimed (t : history) : Prop := forall deadline, timely deadline t.

Lemma untimed_app t2 t1 : untimed t2 -> untimed t1 -> untimed (t2 ++ t1).
Proof. intros H2 H1 deadline. by apply timely_app. Qed.

(** The events of a drain: what it closes is what has ended, and the child is
    left alone. *)
Definition drain_events (t : history) : Prop :=
  opened t = [] /\ closed t = ended t /\ child_log t = [] /\ forks t = [] /\ readings t = [] /\
  untimed t.

Lemma drain_events_nil : drain_events [].
Proof. done. Qed.

Lemma drain_events_app t2 t1 : drain_events t2 -> drain_events t1 -> drain_events (t2 ++ t1).
Proof.
  intros (H1&H2&H3&H4&H5&H6) (K1&K2&K3&K4&K5&K6). unfold drain_events. rewrite !gather_app.
  split_and!; try congruence; [by rewrite H1, K1|by rewrite H3, K3|by rewrite H4, K4|
    by rewrite H5, K5|by apply untimed_app].
Qed.

(** A stream reads from the descriptor [f] as long as it is open. *)
Definition reads_from (f : Z) (s : stream) : Prop := s_open s = true -> s_fd s = f.

Definition drained (f : Z) (s s' : stream) (t : history) : Prop :=
  drain_events t /\ reads_from f s' /\ s_text s' = s_text s +:+ received f t /\
  forall fd, fd <> f -> received fd t = ""%string.

Lemma drained_refl f s : reads_from f s -> drained f s s [].
Proof. intros Hs. split_and!; try done. by rewrite string_app_nil_r. Qed.

Lemma read_ends os f s r :
  s_fd s = f ->
  match r with
  | inr data => (0 <? Z.of_nat (String.length data)) = false
  | inl e => e <> EINTR /\ e <> EAGAIN
  end ->
  after [Ev (Read f) r] (close_stream os s) (drained f s) untimed.
Proof.
  intros Hs Hr. apply after_step. intros []. apply after_ret. rewrite Hs.
  assert (ended_by (Ev (Read f) r) = [f] /\ forall fd, read_by fd (Ev (Read f) r) = ""%string)
    as [He Hb].
  { cbn. destruct r as [[]|data]; try (by destruct Hr); [done..|]. rewrite Hr. split; [done|].
    intros fd. destruct data as [|c data]; [|done]. by destruct (_ =? _). }
  unfold drained, drain_events, gather. cbn in He, Hb |- *. rewrite He, Hb.
  split_and!; try done; [by rewrite !string_app_nil_r|]. intros fd _. by rewrite Hb.
Qed.

Lemma read_again f s e : s_fd s = f -> e = EINTR \/ e = EAGAIN -> drained f s s [Ev (Read f) (inl e)].
Proof.
  intros Hs He. unfold drained, drain_events, reads_from, gather. cbn. rewrite string_app_nil_r.
  split_and!; try done; by destruct He as [-> | ->].
Qed.

Lemma drained_trans f s s' s'' t1 t2 :
  drained f s s' t1 -> drained f s' s'' t2 -> drained f s s'' (t2 ++ t1).
Proof.
  intros (A1&A2&A3&A4) (B1&B2&B3&B4). split_and!; [by apply drain_events_app|done|..].
  - by rewrite received_app, B3, A3, string_app_assoc.
  - intros fd Hfd. by rewrite received_app, A4, B4.
Qed.

Lemma drain_spec os fuel s f :
  s_fd s = f -> triple (drain os fuel s) (drained f s) untimed.
Proof.
  revert s. induction fuel as [|fuel IH]; intros s Hf; apply triple_after; [by apply after_blocked|].
  cbn [drain]. rewrite Hf. apply after_step. intros r.
  assert (Hmore : forall s', s_fd s' = f -> drained f s s' [Ev (Read f) r] ->
    after [Ev (Read f) r] (drain os fuel s') (drained f s) untimed).
  { intros s' Hs' Ht. eapply after_tail; [by apply IH| |].
    - intros s'' t. by apply drained_trans.
    - intros t Ht'. apply untimed_app; [done|apply Ht]. }
  destruct r as [e|data].
  - destruct e; try (by apply read_ends); [apply Hmore; [done|]|apply after_ret];
      apply read_again; auto.
  - destruct (0 <? _) eqn:E; [|by apply read_ends]. apply Hmore; [done|].
    unfold drained, drain_events, gather. cbn. rewrite E, Z.eqb_refl. split_and!; try done; [by intros _|].
    intros fd Hfd. by destruct (Z.eqb_spec f fd).
Qed.

Lemma visit_spec os fuel ready s f :
  reads_from f s -> triple (visit os fuel ready s) (drained f s) untimed.
Proof.
  intros Hs. unfold visit. destruct (s_open s) eqn:E; cbn [negb].
  2: { by apply triple_after, after_ret, drained_refl. }
  destruct ready; cbn [negb]; [by apply drain_spec, Hs|]. by apply triple_after, after_ret, drained_refl.
Qed.

(** ** The lifetime loop *)

(** What the loop did to the streams [s0] and [s1], reading from [f0] and [f1]. *)
Definition served (f0 f1 deadline : Z) (s0 s1 s0' s1' : stream) (t : history) : Prop :=
  opened t = [] /\ closed t = ended t /\ forks t = [] /\ timely deadline t /\
  reads_from f0 s0' /\ reads_from f1 s1' /\
  s_text s0' = s_text s0 +:+ received f0 t /\ s_text s1' = s_text s1 +:+ received f1 t.

Lemma served_trans f0 f1 d s0 s1 s0' s1' s0'' s1'' t1 t2 :
  served f0 f1 d s0 s1 s0' s1' t1 -> served f0 f1 d s0' s1' s0'' s1'' t2 ->
  served f0 f1 d s0 s1 s0'' s1'' (t2 ++ t1).
Proof.
  intros (A1&A2&A3&A4&_&_&A5&A6) (B1&B2&B3&B4&B5&B6&B7&B8). unfold served.
  rewrite !gather_app, !received_app. split_and!; try done.
  - by rewrite A1, B1.
  - by rewrite A2, B2.
  - by rewrite A3, B3.
  - by apply timely_app.
  - by rewrite B7, A5, string_app_assoc.
  - by rewrite B8, A6, string_app_assoc.
Qed.

Lemma served_visits f0 f1 d s0 s1 s0' s1' t1 t2 :
  f0 <> f1 -> drained f0 s0 s0' t1 -> drained f1 s1 s1' t2 ->
  served f0 f1 d s0 s1 s0' s1' (t2 ++ t1) /\ child_log (t2 ++ t1) = [].
Proof.
  intros Hne (A1&A2&A3&A4) (B1&B2&B3&B4).
  destruct (drain_events_app _ _ B1 A1) as (C1&C2&C3&C4&C5&C6).
  split; [|done]. unfold served. split_and!; try done.
  - rewrite received_app, A3, B4 by done. by rewrite string_app_nil_r.
  - by rewrite received_app, A4 by done.
Qed.

(** Looking at a child that has not ended. *)
Definition pending (pid : Z) (e : child_event) : Prop :=
  e = Looked pid NoChange \/ e = Looked pid (WaitError EINTR).

Definition last_look (pid : Z) (e : ending) (log : list child_event) : Prop :=
  match e with
  | ChildDone status => log = [Looked pid (Reaped status)]
  | TimedOut => log = []
  | FatalError => log = [] \/ exists err, err <> EINTR /\ log = [Looked pid (WaitError err)]
  end.

Definition watched (pid : Z) (e : ending) (log : list child_event) : Prop :=
  exists looks rest, log = looks ++ rest /\ Forall (pending pid) looks /\ last_look pid e rest.

Lemma watched_last pid e log : last_look pid e log -> watched pid e log.
Proof. intros H. by exists [], log. Qed.

Lemma watched_more pid e x log : pending pid x -> watched pid e log -> watched pid e (x :: log).
Proof.
  intros Hx (looks & rest & -> & Hl & Hr). exists (x :: looks), rest. split_and!; try done. by constructor.
Qed.

Lemma poll_timeout_in_time s0 s1 deadline now r fd0 fd1 :
  0 < Z.quot (deadline - now) ns_per_ms ->
  timely deadline [Ev (Poll fd0 fd1 (poll_timeout s0 s1 (Z.quot (deadline - now) ns_per_ms))) r; Ev Now now].
Proof.
  intros H. assert (Hd : 0 <= deadline - now).
  { destruct (Z.le_gt_cases 0 (deadline - now)) as [?|Hn]; [done|].
    pose proof (Z.quot_opp_l (deadline - now) ns_per_ms) as Hq.
    pose proof (Z.quot_pos (- (deadline - now)) ns_per_ms) as Hp. unfold ns_per_ms in *. lia. }
  pose proof (Z.mul_quot_le (deadline - now) ns_per_ms Hd) as Hm.
  cbn. split_and!; try done. exists now. split; [done|].
  unfold poll_timeout, ns_per_ms in *. destruct (_ && _); lia.
Qed.

Lemma watched_app pid e t t2 :
  Forall (pending pid) (child_log t) -> watched pid e (child_log t2) -> watched pid e (child_log (t2 ++ t)).
Proof.
  intros Ht (looks & rest & Hw & Hp & Hr). exists (child_log t ++ looks), rest.
  rewrite gather_app, Hw, app_assoc. split_and!; try done. by apply Forall_app.
Qed.

Lemma served_poll f0 f1 deadline s0 s1 now r :
  reads_from f0 s0 -> reads_from f1 s1 -> 0 < Z.quot (deadline - now) ns_per_ms ->
  served f0 f1 deadline s0 s1 s0 s1
    [Ev (Poll (s_fd s0) (s_fd s1) (poll_timeout s0 s1 (Z.quot (deadline - now) ns_per_ms))) r; Ev Now now].
Proof.
  intros H0 H1 Hn. unfold served.
  split_and!; try done; [by apply poll_timeout_in_time|by cbn; rewrite !string_app_nil_r..].
Qed.

Lemma served_look f0 f1 deadline s0 s1 s0' s1' t pid a :
  served f0 f1 deadline s0 s1 s0' s1' t -> child_log t = [] ->
  served f0 f1 deadline s0 s1 s0' s1' (Ev (WaitNoHang pid) a :: t) /\
  child_log (Ev (WaitNoHang pid) a :: t) = [Looked pid a].
Proof.
  intros Ht Hc. change (?x :: t) with ([x] ++ t). split; [|by rewrite gather_app, Hc].
  eapply served_trans; [exact Ht|]. unfold served. cbn. rewrite !string_app_nil_r.
  split_and!; try done; apply Ht.
Qed.

Lemma lifetime_spec os fuel_drain fuel deadline pid f0 f1 s0 s1 :
  f0 <> f1 -> reads_from f0 s0 -> reads_from f1 s1 ->
  triple (lifetime os fuel_drain fuel deadline pid s0 s1)
    (fun '(e, s0', s1') t => served f0 f1 deadline s0 s1 s0' s1' t /\ watched pid e (child_log t))
    (timely deadline).
Proof.
  intros Hne. revert s0 s1.
  induction fuel as [|fuel IH]; intros s0 s1 H0 H1; apply triple_after; [by apply after_blocked|].
  cbn [lifetime]. apply after_step. intros now.
  destruct (_ <=? 0) eqn:E.
  { apply after_ret. unfold served. cbn. rewrite !string_app_nil_r. split; [done|]. by apply watched_last. }
  apply Z.leb_gt in E. apply after_step. intros r.
  pose proof (served_poll _ _ _ _ _ _ r H0 H1 E) as Hpoll.
  set (round := [Ev (Poll _ _ _) r; Ev Now now]) in *.
  (* one more round *)
  assert (Hmore : forall s0' s1' t, served f0 f1 deadline s0 s1 s0' s1' t -> Forall (pending pid) (child_log t) ->
    after t (lifetime os fuel_drain fuel deadline pid s0' s1')
      (fun '(e, s0'', s1'') t => served f0 f1 deadline s0 s1 s0'' s1'' t /\ watched pid e (child_log t))
      (timely deadline)).
  { intros s0' s1' t Ht Hl. eapply after_tail; [apply IH; apply Ht| |].
    - intros [[e s0''] s1''] t2 [Ht2 Hw]. split; [by eapply served_trans|by apply watched_app].
    - intros t2 Ht2. apply timely_app; [done|apply Ht]. }
  destruct r as [[]|[ready0 ready1]].
  2-5: apply after_ret; split; [exact Hpoll|]; apply watched_last; by left.
  { apply Hmore; [exact Hpoll|constructor]. }
  eapply after_bind; [by apply visit_spec|intros t Ht; apply timely_app; [apply Ht|apply Hpoll]|].
  intros s0' t0 D0. eapply after_bind; [by apply visit_spec| |].
  { intros t Ht. apply timely_app; [apply Ht|]. apply timely_app; [apply D0|apply Hpoll]. }
  intros s1' t1 D1. destruct (served_visits f0 f1 deadline _ _ _ _ _ _ Hne D0 D1) as [Hv Hc].
  pose proof (served_trans _ _ _ _ _ _ _ _ _ _ _ Hpoll Hv) as Hr. rewrite <- app_assoc in Hr.
  apply after_step. intros a.
  destruct (served_look _ _ _ _ _ _ _ _ pid a Hr) as [Ha Hca].
  { rewrite app_assoc, gather_app, Hc. done. }
  destruct a as [|status|err]; [apply Hmore; [done|]; rewrite Hca; apply Forall_singleton; by left|..].
  - apply after_ret. split; [done|]. rewrite Hca. by apply watched_last.
  - destruct (decide (err = EINTR)) as [->|He].
    + apply Hmore; [done|]. rewrite Hca. apply Forall_singleton. by right.
    + assert (Hf : watched pid FatalError [Looked pid (WaitError err)]).
      { apply watched_last. right. by exists err. }
      rewrite <- Hca in Hf. destruct err; try done; by apply after_ret.
Qed.

(** ** The end of the child *)

(** Events that touch no stream and no descriptor. *)
Definition quiet (t : history) : Prop :=
  opened t = [] /\ closed t = [] /\ ended t = [] /\ forks t = [] /\
  (forall fd, received fd t = ""%string) /\ untimed t.

Lemma quiet_app t2 t1 : quiet t2 -> quiet t1 -> quiet (t2 ++ t1).
Proof.
  intros (A1&A2&A3&A4&A5&A6) (B1&B2&B3&B4&B5&B6). unfold quiet.
  rewrite !gather_app, A1, A2, A3, A4, B1, B2, B3, B4. split_and!; try done.
  - intros fd. by rewrite received_app, A5, B5.
  - by apply untimed_app.
Qed.

(** [waitpid], retried while it is interrupted. *)
Inductive collected (pid : Z) : wait_answer -> list child_event -> Prop :=
  | collected_end a : a <> WaitError EINTR -> collected pid a [Awaited pid a]
  | collected_again a log :
      collected pid a log -> collected pid a (Awaited pid (WaitError EINTR) :: log).

Lemma reap_spec os fuel pid :
  triple (reap os fuel pid) (fun a t => quiet t /\ collected pid a (child_log t)) untimed.
Proof.
  induction fuel as [|fuel IH]; apply triple_after; [by apply after_blocked|].
  cbn [reap]. apply after_step. intros a.
  assert (Hq : quiet [Ev (Wait pid) a]) by done.
  destruct (decide (a = WaitError EINTR)) as [->|Ha].
  - eapply after_tail; [exact IH|intros b t [Ht Hc]|intros t Ht; by apply untimed_app].
    split; [by apply quiet_app|]. rewrite gather_app. by apply collected_again.
  - replace (match a with WaitError EINTR => _ | _ => _ end) with (mret a : sys wait_answer)
      by by destruct a as [| |[]].
    apply after_ret. split; [done|]. by apply collected_end.
Qed.

(** How the child fared, with the status that is reported and the note that is
    added to the error text. *)
Inductive fate (timeout_ms pid : Z) : Z -> string -> list child_event -> Prop :=
  | FateEnded looks status :
      Forall (pending pid) looks ->
      fate timeout_ms pid (exit_status status) "" (looks ++ [Looked pid (Reaped status)])
  | FateTimedOut looks a log :
      Forall (pending pid) looks -> collected pid a log ->
      fate timeout_ms pid (if wait_failed a then -1 else 124) (timeout_note timeout_ms)
        (looks ++ Killed pid :: log)
  | FateFailed looks failure note a log :
      Forall (pending pid) looks -> collected pid a log ->
      failure = [] \/ (exists e, e <> EINTR /\ failure = [Looked pid (WaitError e)]) ->
      note = failure_note \/ note = nonblock_note ->
      fate timeout_ms pid (-1) note (looks ++ failure ++ Killed pid :: log).

Lemma conclude_spec os fuel timeout_ms pid e err :
  triple (conclude os fuel timeout_ms pid e err)
    (fun '(rc, err') t => quiet t /\ exists note, err' = err +:+ note /\
       forall looks, watched pid e looks -> fate timeout_ms pid rc note (looks ++ child_log t))
    untimed.
Proof.
  apply triple_after. destruct e as [| |status]; cbn [conclude].
  3: { apply after_ret. split; [done|]. exists ""%string. split; [by rewrite string_app_nil_r|].
    intros l (looks & rest & -> & Hl & ->). rewrite app_nil_r. by constructor. }
  all: apply after_step; intros []; (eapply after_bind; [apply reap_spec|intros t Ht; by apply untimed_app|]);
    intros a t [Hq Hc]; apply after_ret; (split; [by apply quiet_app|]); eexists; (split; [done|]);
    intros l (looks & rest & -> & Hl & Hr); rewrite gather_app.
  - cbn in Hr. subst rest. rewrite app_nil_r. by apply FateTimedOut.
  - rewrite <- app_assoc. apply (FateFailed _ _ _ _ _ a); auto.
Qed.

(** ** The parent *)

(** The deadline counts from the first reading of the clock. *)
Definition on_time (timeout_ms : Z) (t : history) : Prop :=
  match readings t with
  | [] => untimed t
  | start :: _ => timely (start + timeout_ms * ns_per_ms) t
  end.

Lemma on_time_untimed timeout_ms t : untimed t -> on_time timeout_ms t.
Proof. intros Ht. unfold on_time. destruct (readings t); [done|apply Ht]. Qed.

Lemma on_time_before timeout_ms t2 t1 :
  readings t1 = [] -> untimed t1 -> on_time timeout_ms t2 -> on_time timeout_ms (t2 ++ t1).
Proof.
  intros Hr Ht1 Ht2. unfold on_time in *. rewrite gather_app, Hr. cbn.
  destruct (readings t2); [by apply untimed_app|by apply timely_app].
Qed.

(** Closing descriptors, the last one first. *)
Definition closes (fds : list Z) : history := map (fun fd => Ev (Close fd) tt) fds.

Lemma close_open_run os fd h :
  0 <= fd -> close_open os fd h = (Ret tt, Ev (Close fd) tt :: h).
Proof.
  intros Hd. unfold close_open. rewrite (proj2 (Z.leb_le _ _) Hd). unfold syscall.
  by destruct (os unit (Close fd) h).
Qed.

Lemma drop_guards_run os g h :
  0 <= out_r g -> 0 <= out_w g -> 0 <= err_r g -> 0 <= err_w g ->
  drop_guards os g h = (Ret tt, closes [out_r g; out_w g; err_r g; err_w g] ++ h).
Proof.
  intros. unfold drop_guards, mbind, sys_bind. by rewrite !close_open_run.
Qed.

Lemma drop_read_ends os out_r err_r h :
  0 <= out_r -> 0 <= err_r ->
  drop_guards os (mkGuards out_r (-1) err_r (-1)) h = (Ret tt, closes [out_r; err_r] ++ h).
Proof.
  intros. unfold drop_guards, mbind, sys_bind. cbn. by rewrite !close_open_run.
Qed.

(** A run of the parent: what it reports, and what it did. *)
Definition reported (timeout_ms pid : Z) (g : guards) (out err : string)
    (r : Z * string * string) (t : history) : Prop :=
  let '(rc, out', err') := r in
  opened t = [] /\ forks t = [] /\
  closed t ≡ₚ [out_r g; out_w g; err_r g; err_w g] ++ ended t /\
  out' = out +:+ received (out_r g) t /\
  (exists note, err' = err +:+ received (err_r g) t +:+ note /\ fate timeout_ms pid rc note (child_log t)) /\
  on_time timeout_ms t.

(** The events before the loop, after the write ends are closed. *)
Lemma set_nonblocking_spec os fd0 fd1 :
  triple (set_nonblocking os fd0 fd1)
    (fun _ t => quiet t /\ child_log t = [] /\ readings t = []) untimed.
Proof.
  apply triple_after. unfold set_nonblocking. apply after_step. intros f0. apply after_step. intros f1.
  destruct f0 as [f0|], f1 as [f1|]; try by apply after_ret.
  apply after_step. intros []; [by apply after_call|by apply after_ret].
Qed.

(** The closing of the write ends and the switch to non-blocking mode. *)
Definition preamble (g : guards) (t : history) : Prop :=
  opened t = [] /\ closed t = [out_w g; err_w g] /\ ended t = [] /\ forks t = [] /\
  (forall fd, received fd t = ""%string) /\ untimed t /\ child_log t = [] /\ readings t = [].

Lemma preamble_intro g t :
  quiet t -> child_log t = [] -> readings t = [] ->
  preamble g (t ++ [Ev (Close (err_w g)) tt; Ev (Close (out_w g)) tt]).
Proof.
  intros (A1&A2&A3&A4&A5&A6) Hc Hr. unfold preamble. rewrite !gather_app, A1, A2, A3, A4, Hc, Hr.
  split_and!; try done.
  - intros fd. by rewrite received_app, A5.
  - by apply untimed_app.
Qed.

Lemma reported_parts timeout_ms pid g out err rc note tm tp :
  preamble g tp ->
  opened tm = [] -> forks tm = [] -> closed tm = ended tm -> on_time timeout_ms tm ->
  fate timeout_ms pid rc note (child_log tm) ->
  reported timeout_ms pid g out err
    (rc, out +:+ received (out_r g) tm, err +:+ received (err_r g) tm +:+ note)
    (closes [out_r g; err_r g] ++ tm ++ tp).
Proof.
  intros (A1&A2&A3&A4&A5&A6&A7&A8) B1 B2 B3 B4 B5. unfold reported.
  rewrite !gather_app, !received_app, !A5, A1, A2, A3, A4, A7, B1, B2, B3.
  replace (received (out_r g) (closes _)) with ""%string by done.
  replace (received (err_r g) (closes _)) with ""%string by done. rewrite !string_app_nil_r.
  split_and!; try done.
  - change (closed (closes _)) with [err_r g; out_r g]. change (ended (closes _)) with (@nil Z).
    rewrite app_nil_r. cbn. solve_Permutation.
  - exists note. split; [done|]. change (child_log (closes _)) with (@nil child_event).
    by rewrite app_nil_r.
  - assert (Ht : on_time timeout_ms (tm ++ tp)) by by apply on_time_before.
    unfold on_time in *. rewrite gather_app. change (readings (closes _)) with (@nil Z).
    rewrite app_nil_r. destruct (readings (tm ++ tp)); [by apply untimed_app|by apply timely_app].
Qed.

Lemma on_time_app_untimed timeout_ms t2 t1 :
  untimed t2 -> readings t1 <> [] -> on_time timeout_ms t1 -> on_time timeout_ms (t2 ++ t1).
Proof.
  intros Ht2 Hr Ht1. unfold on_time in *. rewrite gather_app.
  destruct (readings t1) as [|start l]; [done|]. cbn. by apply timely_app.
Qed.

Lemma parent_spec os fuel timeout_ms pid g out err :
  out_r g <> err_r g -> 0 <= out_r g -> 0 <= err_r g ->
  triple (parent os fuel timeout_ms pid g out err) (reported timeout_ms pid g out err) (on_time timeout_ms).
Proof.
  intros Hne Ho He. apply triple_after. unfold parent.
  apply after_step. intros []. apply after_step. intros [].
  eapply after_bind; [apply set_nonblocking_spec|intros t Ht; by apply on_time_untimed, untimed_app|].
  intros ok t1 (Hq & Hc1 & Hr1). pose proof (preamble_intro g _ Hq Hc1 Hr1) as Hp.
  set (tp := t1 ++ _) in *.
  assert (Hut : untimed tp) by apply Hp. assert (Hrp : readings tp = []) by apply Hp.
  assert (Hdrop : triple (drop_guards os (g <| out_w := -1 |> <| err_w := -1 |>))
    (fun _ t => t = closes [out_r g; err_r g]) (fun _ => False)).
  { intros h o h'. change (g <| out_w := _ |> <| err_w := _ |>) with (mkGuards (out_r g) (-1) (err_r g) (-1)).
    rewrite drop_read_ends by done. intros [= <- <-]. by exists (closes [out_r g; err_r g]). }
  destruct ok; cbn [negb].
  - apply after_step. intros now. set (deadline := now + _).
    assert (Hot : forall t, timely deadline t -> on_time timeout_ms (t ++ Ev Now now :: tp)).
    { intros t Ht. change (?x :: tp) with ([x] ++ tp). rewrite app_assoc. apply on_time_before; [done..|].
      unfold on_time. rewrite gather_app. by apply timely_app. }
    eapply after_bind; [by apply (lifetime_spec os fuel fuel deadline pid (out_r g) (err_r g))|exact Hot|].
    intros [[e s0] s1] t2 [(B1&B2&B3&B4&_&_&B5&B6) Hw]. cbn [s_text] in B5, B6.
    eapply after_bind; [apply conclude_spec| |].
    { intros t Ht. rewrite app_assoc. apply Hot. by apply timely_app. }
    intros [rc err'] t3 ((C1&C2&C3&C4&C5&C6) & note & -> & Hfate).
    eapply after_bind; [exact Hdrop|done|]. intros _ t ->. apply after_ret.
    assert (Hrec : forall fd, received fd (t3 ++ t2 ++ [Ev Now now]) = received fd t2).
    { intros fd. rewrite !received_app, C5. cbn. by rewrite string_app_nil_r. }
    pose proof (reported_parts timeout_ms pid g out err rc note (t3 ++ t2 ++ [Ev Now now]) tp Hp) as Hrp'.
    rewrite !Hrec in Hrp'. rewrite <- !app_assoc in Hrp'. cbn [app] in Hrp'.
    rewrite B5, B6, string_app_assoc. apply Hrp'; rewrite ?gather_app.
    + by rewrite C1, B1.
    + by rewrite C4, B3.
    + by rewrite C2, C3, B2.
    + specialize (Hot (t3 ++ t2)). unfold on_time in *. rewrite !gather_app in *. cbn.
      rewrite app_assoc. apply timely_app; [|done]. by apply timely_app.
    + cbn. by apply Hfate.
  - apply after_step. intros [].
    eapply after_bind; [apply reap_spec| |].
    { intros t Ht. apply on_time_untimed. by apply untimed_app. }
    intros a t2 [Hq2 Hcol]. eapply after_bind; [exact Hdrop|done|]. intros _ t ->. apply after_ret.
    pose proof (quiet_app t2 [Ev (KillChild pid) tt] Hq2 ltac:(done)) as (C1&C2&C3&C4&C5&C6).
    pose proof (reported_parts timeout_ms pid g out err (-1) nonblock_note
      (t2 ++ [Ev (KillChild pid) tt]) tp Hp) as Hrp'.
    rewrite !C5, C2, C3, string_app_nil_r, <- app_assoc in Hrp'. apply Hrp'; try done.
    + by apply on_time_untimed.
    + rewrite gather_app. apply (FateFailed _ _ [] [] _ a); auto.
Qed.
