(* ===== verification/CommandReturns.v ===== *)
(** * CommandReturns: what [execute_readonly_command] promises its caller

    On an operating system that keeps to its documentation, a command reports the
    fate of its child and the bytes read from it, closes what it opened (the
    descriptors of ended streams twice), waits for output only until the
    deadline, and returns if the child does not keep it reading.  With it as the
    runner, the preflight of [LinuxNetworkPreflight] is ready only on the output of
    two children that succeeded. *)

From S2P Require Import Prelude Cxx NetworkPreflight CommandRunner CommandOutcome.

(** ** What the operating system promises

    [pipe] hands out descriptors that are not in use. *)

Definition fresh_pipe (h : history) (fds : Z * Z) : Prop :=
  0 <= fds.1 /\ 0 <= fds.2 /\ fds.1 <> fds.2 /\ fds.1 ∉ live h /\ fds.2 ∉ live h.

Class Posix (os : kernel) : Prop := {
  pipe2_fresh h fds : os _ Pipe2 h = inr fds -> fresh_pipe h fds;
  pipe_fresh h fds : os _ Pipe h = inr fds -> fresh_pipe h fds }.

(** ** The pipes *)

(** [close] answers nothing. *)
Ltac close_answers :=
  cbn; repeat match goal with
  | os : kernel |- context [?f unit (Close ?fd) ?h] => constr_eq f os; destruct (os unit (Close fd) h)
  end.

Lemma live_filter_nil (l : list Z) : filter (fun fd => fd ∉ @nil Z) l = l.
Proof.
  induction l as [|fd l IH]; [done|]. by rewrite filter_cons, decide_True, IH by apply not_elem_of_nil.
Qed.

Lemma live_same e h : closed_by e = [] -> opened_by e = [] -> live (e :: h) = live h.
Proof.
  intros Hc Ho. cbn [live]. by rewrite Hc, Ho, live_filter_nil.
Qed.

(** Events before the child exists. *)
Definition plumbing (t : history) : Prop :=
  child_log t = [] /\ forks t = [] /\ readings t = [] /\ ended t = [] /\
  (forall fd, received fd t = ""%string) /\ untimed t.

Lemma plumbing_app t2 t1 : plumbing t2 -> plumbing t1 -> plumbing (t2 ++ t1).
Proof.
  intros (A1&A2&A3&A4&A5&A6) (B1&B2&B3&B4&B5&B6). unfold plumbing.
  rewrite !gather_app, A1, A2, A3, A4, B1, B2, B3, B4. split_and!; try done.
  - intros fd. by rewrite received_app, A5, B5.
  - by apply untimed_app.
Qed.

Section Posix.
  Context (os : kernel) `{!Posix os}.

Lemma make_cloexec_pipe_run h :
  exists rc fds t, make_cloexec_pipe os h = (Ret (rc, fds), t ++ h) /\ plumbing t /\
    ((rc = 0 /\ fresh_pipe h fds /\ opened t = [fds.1; fds.2] /\ closed t = [] /\
      fds.1 ∈ live (t ++ h)) \/
     (rc = -1 /\ fds = no_fds /\ closed t = opened t)).
Proof.
  unfold make_cloexec_pipe, mbind, sys_bind, syscall. cbn.
  destruct (os _ Pipe2 h) as [e|fds] eqn:E2.
  2: { exists 0, fds, [Ev Pipe2 (inr fds)]. split; [done|]. split; [done|]. left.
    pose proof (pipe2_fresh _ _ E2). destruct fds as [r w]. split_and!; try done.
    cbn. set_solver. }
  destruct (_ && _) eqn:Ee.
  { exists (-1), no_fds, [Ev Pipe2 (inl e)]. split_and!; try done. by right. }
  set (h1 := Ev Pipe2 (inl e) :: h). assert (Hl : live h1 = live h) by by apply live_same.
  destruct (os _ Pipe h1) as [e'|[r w]] eqn:E1.
  { exists (-1), no_fds, [Ev Pipe (inl e'); Ev Pipe2 (inl e)]. split_and!; try done. by right. }
  pose proof (pipe_fresh _ _ E1) as Hf. unfold fresh_pipe in Hf. rewrite Hl in Hf.
  set (h2 := Ev Pipe (inr (r, w)) :: h1).
  destruct (os _ (SetCloexec r) h2) eqn:E3; [set (h3 := Ev (SetCloexec r) true :: h2); destruct (os _ (SetCloexec w) h3) eqn:E4|].
  - exists 0, (r, w), [Ev (SetCloexec w) true; Ev (SetCloexec r) true; Ev Pipe (inr (r, w)); Ev Pipe2 (inl e)].
    split; [done|]. split; [done|]. left. split_and!; try done; [apply Hf..|].
    cbn. rewrite !live_filter_nil. set_solver.
  - exists (-1), no_fds, [Ev (Close w) tt; Ev (Close r) tt; Ev (SetCloexec w) false;
      Ev (SetCloexec r) true; Ev Pipe (inr (r, w)); Ev Pipe2 (inl e)].
    split; [by close_answers|]. split; [done|]. by right.
  - exists (-1), no_fds, [Ev (Close w) tt; Ev (Close r) tt; Ev (SetCloexec r) false;
      Ev Pipe (inr (r, w)); Ev Pipe2 (inl e)].
    split; [by close_answers|]. split; [done|]. by right.
Qed.

End Posix.

(** ** A whole run *)

Lemma bind_run {A B} (m : sys A) (k : A -> sys B) h a h1 :
  m h = (Ret a, h1) -> (a ← m; k a) h = k a h1.
Proof. unfold mbind, sys_bind. by intros ->. Qed.

(** The command failed before there was a child, or [fork] gave one: its fate is
    reported, with the bytes received from its two streams. *)
Inductive command_report (timeout_ms : Z) (args : list string) (out err : string)
    : Z * string * string -> history -> Prop :=
  | NotStarted rc t :
      (args = [] /\ rc = 127) \/ (args <> [] /\ rc = -1) ->
      child_log t = [] -> Forall (fun pid => pid < 0) (forks t) ->
      command_report timeout_ms args out err (rc, out, err) t
  | Started pid out_r out_w err_r err_w rc note t :
      args <> [] -> 0 < pid -> forks t = [pid] -> opened t = [out_r; out_w; err_r; err_w] ->
      out_r <> err_r -> fate timeout_ms pid rc note (child_log t) ->
      command_report timeout_ms args out err
        (rc, out +:+ received out_r t, err +:+ received err_r t +:+ note) t.

(** A run that returned has closed every descriptor it obtained once, and the
    descriptor of each stream that ended a second time. *)
Definition descriptors_closed (t : history) : Prop := closed t ≡ₚ opened t ++ ended t.

(** What the child does: its standard output and error become the write ends of
    the pipes, and it becomes the command, with the arguments as they are. *)
Inductive child_events (g : guards) (args : list string) : history -> Prop :=
  | NoStdout : child_events g args [Ev (Exit 126) tt; Ev (Dup2 (out_w g) STDOUT_FILENO) false]
  | NoStderr : child_events g args
      [Ev (Exit 126) tt; Ev (Dup2 (err_w g) STDERR_FILENO) false; Ev (Dup2 (out_w g) STDOUT_FILENO) true]
  | Executed ok t : t = (if ok : bool then [] else [Ev (Exit 127) tt]) ->
      child_events g args
        (t ++ Ev (Execvp args) ok :: closes [err_w g; err_r g; out_w g; out_r g] ++
         [Ev (Dup2 (err_w g) STDERR_FILENO) true; Ev (Dup2 (out_w g) STDOUT_FILENO) true]).

Lemma child_run os g args h : exists t, child os g args h = (Gone, t ++ h) /\ child_events g args t.
Proof.
  unfold child, mbind, sys_bind, syscall, gone. cbn.
  destruct (os bool (Dup2 (out_w g) _) h) eqn:E1; cbn.
  2: { destruct (os unit (Exit 126) _). eexists [_; _]. split; [done|apply NoStdout]. }
  destruct (os bool (Dup2 (err_w g) _) _) eqn:E2; cbn.
  2: { destruct (os unit (Exit 126) _). eexists [_; _; _]. split; [done|apply NoStderr]. }
  close_answers. destruct (os bool (Execvp args) _) eqn:E3; cbn.
  - eexists [_; _; _; _; _; _; _]. split; [done|]. by apply (Executed g args true []).
  - destruct (os unit (Exit 127) _). eexists [_; _; _; _; _; _; _; _]. split; [done|].
    by apply (Executed g args false [_]).
Qed.

Lemma child_events_untimed g args t : child_events g args t -> untimed t.
Proof. by intros [| |[] ? ->]. Qed.

(** A run that does not return is the child's, or is still in a loop. *)
Definition ran_in_child (args : list string) (t : history) : Prop :=
  exists g t1 t0, t = t1 ++ Ev Fork 0 :: t0 /\
    opened t0 = [out_r g; out_w g; err_r g; err_w g] /\ child_events g args t1.

Definition command_outcome (timeout_ms : Z) (args : list string) (out err : string)
    (o : outcome (Z * string * string)) (t : history) : Prop :=
  match o with
  | Ret r => command_report timeout_ms args out err r t /\ descriptors_closed t
  | Gone => ran_in_child args t
  | Blocked => True
  end.

Definition effective_timeout (timeout_ms : Z) : Z := if timeout_ms <=? 0 then 5000 else timeout_ms.

Lemma launch_run os fuel timeout_ms g args out err t h :
  args <> [] -> plumbing t -> opened t = [out_r g; out_w g; err_r g; err_w g] -> closed t = [] ->
  0 <= out_r g -> 0 <= out_w g -> 0 <= err_r g -> 0 <= err_w g -> out_r g <> err_r g ->
  forall o h', launch os fuel timeout_ms g args out err (t ++ h) = (o, h') ->
  exists t', h' = t' ++ h /\ on_time timeout_ms t' /\
    command_outcome timeout_ms args out err o t'.
Proof.
  intros Hargs (A1&A2&A3&A4&A5&A6) Hopen Hclosed H1 H2 H3 H4 Hne o h' H.
  unfold launch, mbind at 1, sys_bind at 1, syscall at 1 in H. cbn in H.
  set (pid := os Z Fork (t ++ h)) in H.
  destruct (Z.ltb_spec pid 0) as [Hneg|Hpos]; [|destruct (Z.eqb_spec pid 0) as [Hz|Hnz]].
  - rewrite (bind_run _ _ _ _ _ (drop_guards_run _ _ _ H1 H2 H3 H4)) in H. injection H as <- <-.
    exists (closes [out_r g; out_w g; err_r g; err_w g] ++ Ev Fork pid :: t). split; [by rewrite <- app_assoc|]. split; [|split].
    + apply on_time_untimed. by apply untimed_app.
    + apply NotStarted; [by right|..]; rewrite ?gather_app, ?gather_cons, ?A1, ?A2; [done|].
      by apply Forall_singleton.
    + unfold descriptors_closed. rewrite !gather_app, !gather_cons, Hopen, Hclosed, A4.
      change (opened (closes _)) with (@nil Z). change (ended (closes _)) with (@nil Z). cbn.
      change (closed (closes _)) with [err_w g; err_r g; out_w g; out_r g]. solve_Permutation.
  - destruct (child_run os g args (Ev Fork pid :: t ++ h)) as (t' & E & Ht'). rewrite E in H.
    injection H as <- <-. exists (t' ++ Ev Fork pid :: t). split; [by rewrite <- app_assoc|]. split.
    + apply on_time_untimed, untimed_app; [by eapply child_events_untimed|done].
    + rewrite Hz. by exists g, t', t.
  - destruct (parent_spec os fuel timeout_ms pid g out err Hne H1 H3 _ _ _ H) as (t' & -> & Ht').
    exists (t' ++ Ev Fork pid :: t). split; [by rewrite <- app_assoc|].
    split; [apply on_time_before; [by rewrite gather_cons, A3|done|]; by destruct o as [[[rc out'] err']| |]; [apply Ht'|..]|].
    destruct o as [[[rc out'] err']| |]; [|done..].
    destruct Ht' as (B1 & B2 & B3 & B4 & (note & B5 & B6) & _).
    assert (Hrec : forall fd, received fd (t' ++ Ev Fork pid :: t) = received fd t').
    { intros fd. rewrite received_app. cbn. by rewrite A5. }
    split.
    + rewrite B4, B5, <- !Hrec. apply (Started _ _ _ _ pid _ (out_w g) _ (err_w g)); try done; [lia|..];
        rewrite ?gather_app, ?gather_cons, ?A1, ?A2, ?B1, ?B2, ?Hopen; done.
    + unfold descriptors_closed. rewrite !gather_app, !gather_cons, Hopen, Hclosed, A4, B1, B3.
      done.
Qed.

Lemma execute_run os `{!Posix os} fuel args out err timeout_ms h o h' :
  execute_readonly_command os fuel args out err timeout_ms h = (o, h') ->
  exists t, h' = t ++ h /\ on_time (effective_timeout timeout_ms) t /\
    command_outcome (effective_timeout timeout_ms) args out err o t.
Proof.
  unfold execute_readonly_command. fold (effective_timeout timeout_ms). set (T := effective_timeout timeout_ms).
  destruct args as [|arg args].
  { intros [= <- <-]. exists []. split; [done|]. split; [done|]. split; [|by unfold descriptors_closed].
    apply NotStarted; [by left|done|by apply Forall_nil]. }
  assert (Hargs : arg :: args <> []) by done. revert Hargs. generalize (arg :: args) as argv. intros argv Hargs.
  destruct (make_cloexec_pipe_run os h) as (r0 & p0 & t0 & E0 & Hp0 & H0).
  rewrite (bind_run _ _ _ _ _ E0).
  assert (Hfail : forall t, plumbing t -> closed t ≡ₚ opened t ->
    on_time T t /\ command_report T argv out err (-1, out, err) t /\ descriptors_closed t).
  { intros t (A1&A2&A3&A4&A5&A6) Hc. split_and!; [by apply on_time_untimed| |].
    - apply NotStarted; [by right|done|]. by rewrite A2.
    - unfold descriptors_closed. by rewrite Hc, A4, app_nil_r. }
  destruct H0 as [(-> & Hf0 & Ho0 & Hc0 & Hl0)|(-> & -> & Hc0)]; cbn [Z.eqb negb orb].
  2: { intros [= <- <-]. exists t0. split; [done|]. apply Hfail; [done|by rewrite Hc0]. }
  destruct (make_cloexec_pipe_run os (t0 ++ h)) as (r1 & p1 & t1 & E1 & Hp1 & H1).
  rewrite (bind_run _ _ _ _ _ E1). pose proof (plumbing_app _ _ Hp1 Hp0) as Hp.
  destruct Hf0 as (Hn0 & Hn0' & _).
  destruct H1 as [(-> & Hf1 & Ho1 & Hc1 & _)|(-> & -> & Hc1)]; cbn [Z.eqb negb orb]; intros H.
  - destruct Hf1 as (Hn1 & Hn1' & _ & Hf1 & _). rewrite app_assoc in H.
    eapply launch_run in H; try done; cbn [CommandRunner.out_r CommandRunner.out_w CommandRunner.err_r CommandRunner.err_w].
    + by rewrite gather_app, Ho0, Ho1.
    + by rewrite gather_app, Hc0, Hc1.
    + by intros E; rewrite <- E in Hf1.
  - rewrite (bind_run _ _ _ _ _ (close_open_run _ _ _ Hn0)) in H.
    rewrite (bind_run _ _ _ _ _ (close_open_run _ _ _ Hn0')) in H. injection H as <- <-.
    exists (closes [p0.2; p0.1] ++ t1 ++ t0). split; [by rewrite <- !app_assoc|]. apply Hfail.
    + by apply plumbing_app.
    + rewrite !gather_app, Ho0, Hc0, Hc1. change (closed (closes _)) with [p0.1; p0.2].
      change (opened (closes _)) with (@nil Z). rewrite app_nil_r. cbn [app]. solve_Permutation.
Qed.

(** ** A system for examples

    [outputs n] is what the [n]-th child prints before it ends with status zero. *)

Definition top_fd (h : history) : Z := foldr Z.max 2 (live h).

Definition after_poll (h : history) : bool :=
  match h with Ev (Poll _ _ _) _ :: _ => true | _ => false end.

Definition sample_os (outputs : nat -> string) : kernel := fun X c h =>
  match c in call Y return Y with
  | Pipe2 | Pipe => inr (top_fd h + 1, top_fd h + 2)
  | SetCloexec _ | Dup2 _ _ | SetFl _ _ | Execvp _ => true
  | Fork => 4242
  | GetFl _ => Some 0
  | Now => Z.of_nat (length h) * ns_per_ms
  | Poll _ _ _ => inr (true, true)
  | Read _ => inr (if after_poll h then outputs (length (forks h)) else ""%string)
  | Close _ | KillChild _ | Exit _ => tt
  | WaitNoHang _ | Wait _ => Reaped (Exited 0)
  end.

Lemma top_fd_above h fd : fd ∈ live h -> fd <= top_fd h.
Proof.
  unfold top_fd. induction (live h) as [|x l IH]; [by intros ?%elem_of_nil|].
  intros [->|Hin]%elem_of_cons; cbn; [lia|]. specialize (IH Hin). lia.
Qed.

Lemma top_fd_positive h : 2 <= top_fd h.
Proof. unfold top_fd. induction (live h); cbn; lia. Qed.

Lemma top_fd_fresh h : fresh_pipe h (top_fd h + 1, top_fd h + 2).
Proof.
  pose proof (top_fd_positive h). split_and!; cbn; [lia..| |]; intros Hin%top_fd_above; lia.
Qed.

#[export] Instance sample_os_posix outputs : Posix (sample_os outputs).
Proof. split; intros h fds [= <-]; apply top_fd_fresh. Qed.

Definition sample_outputs (n : nat) : string :=
  match n with 1%nat => sample_addr_output | _ => sample_route_output end.

(** ** Theorems *)

(** A command that returns tells its caller what happened to the child: the status it
    ended with, 124 when it was killed because the time was up, -1 when it could not be
    started or followed, 127 without arguments; and the bytes that were read from its
    two streams, in order, no more and no fewer.  What the child wrote after the last
    read is not among them ([CommandEnds.output_may_be_lost]).  The child is never
    signalled after it was reaped, it is reaped or [waitpid] failed, and every
    descriptor is closed: once, and a second time if it is that of a stream that ended.
    Claim C39. *)
Theorem command_reports_its_child os `{!Posix os} fuel args out err timeout_ms h r h' :
  execute_readonly_command os fuel args out err timeout_ms h = (Ret r, h') ->
  exists t, h' = t ++ h /\ command_report (effective_timeout timeout_ms) args out err r t /\
    descriptors_closed t.
Proof. intros H. destruct (execute_run _ _ _ _ _ _ _ _ _ H) as (t & -> & _ & Ho). by exists t. Qed.

Lemma command_reports_its_child_witness :
  exists t, command_report 5000 addr_command "" "" (0, sample_addr_output, ""%string) t /\
    descriptors_closed t.
Proof.
  destruct (command_reports_its_child (sample_os sample_outputs) 10 addr_command "" "" 0 []
    (0, sample_addr_output, ""%string)
    (execute_readonly_command (sample_os sample_outputs) 10 addr_command "" "" 0 []).2) as (t & _ & Ht).
  - vm_compute. reflexivity.
  - exists t. exact Ht.
Defined.

(** The process that ends instead of returning is the child's: its output streams
    are the pipes, and it becomes the command with the arguments as given, or ends
    with status 126 or 127. *)
Theorem only_the_child_ends os `{!Posix os} fuel args out err timeout_ms h h' :
  execute_readonly_command os fuel args out err timeout_ms h = (Gone, h') ->
  exists t, h' = t ++ h /\ ran_in_child args t.
Proof. intros H. destruct (execute_run _ _ _ _ _ _ _ _ _ H) as (t & -> & _ & Ho). by exists t. Qed.

(** The sample system, in the child. *)
Definition child_os : kernel := fun X c =>
  match c in call Y return history -> Y with
  | Fork => fun _ => 0
  | c => sample_os sample_outputs _ c
  end.

#[export] Instance child_os_posix : Posix child_os.
Proof. split; intros h fds [= <-]; apply top_fd_fresh. Qed.

Lemma only_the_child_ends_witness : exists t, ran_in_child addr_command t.
Proof.
  destruct (only_the_child_ends child_os 10 addr_command "" "" 0 []
    (execute_readonly_command child_os 10 addr_command "" "" 0 []).2) as (t & _ & Ht).
  - vm_compute. reflexivity.
  - exists t. exact Ht.
Defined.

(** Waiting for output ends by the deadline: every timeout given to [poll] is
    positive and no longer than what was left at the last look at the clock,
    whatever the system answers and however the run ends. *)
Theorem polls_end_by_the_deadline os `{!Posix os} fuel args out err timeout_ms h o h' :
  execute_readonly_command os fuel args out err timeout_ms h = (o, h') ->
  exists t, h' = t ++ h /\ on_time (effective_timeout timeout_ms) t.
Proof. intros H. destruct (execute_run _ _ _ _ _ _ _ _ _ H) as (t & -> & Ht & _). by exists t. Qed.

Lemma polls_end_by_the_deadline_witness :
  exists t, readings t <> [] /\ on_time 5000 t.
Proof.
  destruct (polls_end_by_the_deadline (sample_os sample_outputs) 10 addr_command "" "" 0 [] _ _
    (surjective_pairing _)) as (t & Ht & Hot).
  exists t. split; [|exact Hot]. rewrite app_nil_r in Ht. rewrite <- Ht. vm_compute. discriminate.
Defined.

(** ** The preflight with its default runner *)

(** The child ended with status zero, and [out] is what it wrote. *)
Definition succeeded (out : string) (t : history) : Prop :=
  exists pid fd looks, 0 < pid /\ forks t = [pid] /\ Forall (pending pid) looks /\
    child_log t = looks ++ [Looked pid (Reaped (Exited 0))] /\
    head (opened t) = Some fd /\ out = received fd t.

Lemma exit_status_zero status : exit_status status = 0 -> status = Exited 0.
Proof. by destruct status; cbn; intros H; subst || lia. Qed.

Lemma report_success timeout_ms args out err t :
  command_report timeout_ms args "" "" (0, out, err) t -> succeeded out t.
Proof.
  intros H. inversion H as [rc t' Hrc Hc Hf|pid out_r out_w err_r err_w rc note t' Ha Hp Hf Ho Hne Hfate]; subst.
  - lia.
  - exists pid, out_r. inversion Hfate as [looks status Hl Hst|looks a log Hl Hcol Hst|]; subst; try done.
    2: by destruct (wait_failed a).
    apply exit_status_zero in Hst as ->. exists looks. by rewrite Ho.
Qed.

Lemma sys_bind_returns {A B} (m : sys A) (k : A -> sys B) h b h' :
  (a ← m; k a) h = (Ret b, h') -> exists a h1, m h = (Ret a, h1) /\ k a h1 = (Ret b, h').
Proof. unfold mbind, sys_bind. destruct (m h) as [[a| |] h1]; [|done..]. intros H. by exists a, h1. Qed.

(** [LinuxNetworkPreflight] without an injected runner: its verdict is the one of
    the two commands' answers, each of them the report on its own child, and it is
    ready only if both children ended with status zero and what they wrote shows
    the expected address and route. *)
Theorem preflight_needs_two_successes os `{!Posix os} inet_pton fuel expected h d h' :
  check inet_pton (default_runner os fuel) expected h = (Ret d, h') ->
  message d <> ""%string /\
  exists addr route t1 t2, h' = t2 ++ t1 ++ h /\
    command_report 5000 addr_command "" "" addr t1 /\
    command_report 5000 (route_command (robot_address expected)) "" "" route t2 /\
    (ready d = true <-> facts_ready inet_pton expected addr route) /\
    (ready d = true -> succeeded addr.1.2 t1 /\ succeeded route.1.2 t2).
Proof.
  unfold check, gather_addresses, gather_route. intros H.
  apply sys_bind_returns in H as (facts & h2 & (addr & h1 & E1 & [= <- <-])%sys_bind_returns & H).
  apply sys_bind_returns in H as (facts' & h3 & (route & h2 & E2 & [= <- <-])%sys_bind_returns & H).
  injection H as <- <-. fold (decision inet_pton expected addr route).
  destruct (decision_spec inet_pton expected addr route) as [Hm Hr]. split; [done|].
  destruct (execute_run _ _ _ _ _ _ _ _ _ E1) as (t1 & -> & _ & H1 & _).
  destruct (execute_run _ _ _ _ _ _ _ _ _ E2) as (t2 & -> & _ & H2 & _).
  exists addr, route, t1, t2. split_and!; try done.
  intros Hready. destruct (proj1 Hr Hready) as (Hz1 & Hz2 & _).
  destruct addr as [[rc1 out1] err1], route as [[rc2 out2] err2]. cbn in Hz1, Hz2. subst.
  split; by eapply report_success.
Qed.

Definition sample_preflight : outcome NetworkDecision * history :=
  check sample_inet_pton (default_runner (sample_os sample_outputs) 10) sample_expectation [].

Definition sample_decision : NetworkDecision :=
  match sample_preflight.1 with Ret d => d | _ => mkDecision false "" end.

Lemma preflight_needs_two_successes_witness :
  ready sample_decision = true /\ exists out1 out2 t1 t2, succeeded out1 t1 /\ succeeded out2 t2.
Proof.
  assert (Hready : ready sample_decision = true) by (vm_compute; reflexivity).
  split; [exact Hready|].
  destruct (preflight_needs_two_successes (sample_os sample_outputs) sample_inet_pton 10 sample_expectation []
    sample_decision sample_preflight.2) as (_ & addr & route & t1 & t2 & _ & _ & _ & _ & Hs).
  - vm_compute. reflexivity.
  - exists addr.1.2, route.1.2, t1, t2. exact (Hs Hready).
Defined.
