(* ===== verification/CommandEnds.v ===== *)
(** * CommandEnds: when [execute_readonly_command] returns, and when it does not

    On a system where time passes and no child writes for ever, every command comes
    to an end with one result, whatever the fuel.  The examples are runs that the
    comments of the code exclude: a child that never stops writing, descriptors
    closed twice, and output that is lost. *)

From S2P Require Import Prelude Cxx NetworkPreflight CommandRunner CommandOutcome CommandReturns.

(** ** Termination

    The answers that make a loop go on without a look at the clock: output to read,
    and an interruption of [read] or [waitpid]. *)

Definition stalling (e : event) : bool :=
  let '@Ev X c x := e in
  match c in call Y return Y -> bool with
  | Read fd => fun r =>
      match r with
      | inr data => 0 <? Z.of_nat (String.length data)
      | inl e => bool_decide (e = EINTR)
      end
  | Wait pid => fun a => bool_decide (a = WaitError EINTR)
  | _ => fun _ => false
  end x.

(** How many of the latest events are such answers. *)
Fixpoint stalls (h : history) : nat :=
  match h with
  | [] => 0
  | e :: h => if stalling e then S (stalls h) else 0
  end.

(** A system on which time passes, a child does not write for ever, and signals do
    not interrupt for ever. *)
Class Responsive (os : kernel) (limit : nat) : Prop := {
  stall_limit X (c : call X) h : (limit <= stalls h)%nat -> stalling (Ev c (os X c h)) = false;
  time_passes t : exists n, forall h, (n <= length h)%nat -> t <= os Z Now h }.

(** [settles P m h]: every fuel that satisfies [P] is enough for [m], and they all
    give the same result. *)
Definition settles {I A} (P : I -> Prop) (m : I -> sys A) (h : history) : Prop :=
  exists o h', o <> Blocked /\ forall i, P i -> m i h = (o, h').

Lemma settles_const {I A} (P : I -> Prop) (m : sys A) h : (m h).1 <> Blocked -> settles P (fun _ => m) h.
Proof. intros H. exists (m h).1, (m h).2. split; [done|]. intros _ _. by destruct (m h). Qed.

Lemma settles_bind {I A B} (P : I -> Prop) (m : I -> sys A) (k : I -> A -> sys B) h :
  settles P m h ->
  (forall a h', (forall i, P i -> m i h = (Ret a, h')) -> settles P (fun i => k i a) h') ->
  settles P (fun i => a ← m i; k i a) h.
Proof.
  intros (o & h1 & Ho & Hm) Hk. destruct o as [a| |]; [|..|done].
  - destruct (Hk a h1 Hm) as (o & h2 & Ho2 & Hk2). exists o, h2. split; [done|].
    intros i Hi. unfold mbind, sys_bind. rewrite Hm by done. by apply Hk2.
  - exists Gone, h1. split; [done|]. intros i Hi. unfold mbind, sys_bind. by rewrite Hm.
Qed.

Lemma settles_step {I X B} os (P : I -> Prop) (c : call X) (k : I -> X -> sys B) h :
  settles P (fun i => k i (os X c h)) (Ev c (os X c h) :: h) ->
  settles P (fun i => x ← syscall os c; k i x) h.
Proof. intros (o & h' & Ho & Hk). exists o, h'. by split. Qed.

(** A program that runs as another does on less fuel. *)
Lemma settles_via {I J A} (P : I -> Prop) (Q : J -> Prop) (m : I -> sys A) (m' : J -> sys A) h :
  (forall i, P i -> exists j, Q j /\ m i = m' j) -> settles Q m' h -> settles P m h.
Proof.
  intros Hr (o & h' & Ho & Hm). exists o, h'. split; [done|].
  intros i Hi. destruct (Hr i Hi) as (j & Hj & ->). by apply Hm.
Qed.

Lemma settles_weaken {I A} (P Q : I -> Prop) (m : I -> sys A) h :
  (forall i, P i -> Q i) -> settles Q m h -> settles P m h.
Proof. intros HPQ. apply settles_via. intros i Hi. exists i. auto. Qed.

(** One round of a loop on fuel. *)
Lemma settles_round {A} n (m m' : nat -> sys A) h :
  (forall fuel, m (S fuel) = m' fuel) -> settles (le n) m' h -> settles (le (S n)) m h.
Proof. intros Hr. apply settles_via. intros [|fuel] Hf; [lia|]. exists fuel. split; [lia|done]. Qed.

Section Responsive.
  Context (os : kernel) (limit : nat) `{!Responsive os limit}.

Lemma stalls_more {X} (c : call X) h :
  stalling (Ev c (os X c h)) = true ->
  (stalls h < limit)%nat /\ stalls (Ev c (os X c h) :: h) = S (stalls h).
Proof.
  intros H. split; [|by cbn [stalls]; rewrite H].
  destruct (Nat.lt_ge_cases (stalls h) limit) as [|Hl]; [done|]. by rewrite stall_limit in H.
Qed.

Lemma drain_settles s h : settles (le (S (limit - stalls h))) (fun fuel => drain os fuel s) h.
Proof.
  remember (limit - stalls h)%nat as n eqn:Hn. revert s h Hn.
  induction n as [n IH] using lt_wf_ind. intros s h Hn.
  eapply settles_round; [intros fuel; reflexivity|]. apply settles_step.
  set (r := os _ (Read (s_fd s)) h).
  assert (Hmore : forall s', stalling (Ev (Read (s_fd s)) r) = true ->
    settles (le n) (fun fuel => drain os fuel s') (Ev (Read (s_fd s)) r :: h)).
  { intros s' Hs. destruct (stalls_more _ _ Hs) as [Hlt Hst].
    eapply settles_weaken; [|apply (IH (limit - stalls (Ev (Read (s_fd s)) r :: h))%nat); [|done]];
      unfold r; rewrite Hst; [intros fuel|]; lia. }
  destruct r as [[]|data] eqn:Er; try (by apply settles_const).
  - by apply Hmore.
  - destruct (0 <? _) eqn:E; [|by apply settles_const]. apply Hmore. by cbn.
Qed.

Lemma reap_settles pid h : settles (le (S (limit - stalls h))) (fun fuel => reap os fuel pid) h.
Proof.
  remember (limit - stalls h)%nat as n eqn:Hn. revert h Hn.
  induction n as [n IH] using lt_wf_ind. intros h Hn.
  eapply settles_round; [intros fuel; reflexivity|]. apply settles_step.
  destruct (os _ (Wait pid) h) as [| |[]] eqn:Ea; try (by apply settles_const).
  rewrite <- Ea. destruct (stalls_more (Wait pid) h) as [Hlt Hst]; [by rewrite Ea|].
  eapply settles_weaken; [|apply (IH (limit - stalls (Ev (Wait pid) (os _ (Wait pid) h) :: h))%nat); [|done]];
    rewrite Hst; [intros fuel|]; lia.
Qed.

(** Enough fuel for the drains, and for [n] rounds. *)
Definition enough (n : nat) (fuel : nat * nat) : Prop := (S limit <= fuel.1 /\ n <= fuel.2)%nat.

Lemma visit_settles n ready s h : settles (enough n) (fun fuel => visit os fuel.1 ready s) h.
Proof.
  unfold visit. destruct (negb (s_open s)); [by apply settles_const|].
  destruct (negb ready); [by apply settles_const|].
  eapply settles_via; [|apply (drain_settles s h)]. intros fuel [Hd _]. exists fuel.1. split; [lia|done].
Qed.

Lemma visit_extends n ready s h s' h' f :
  reads_from f s -> (forall fuel, enough n fuel -> visit os fuel.1 ready s h = (Ret s', h')) ->
  (length h <= length h')%nat /\ reads_from f s'.
Proof.
  intros Hs Hv. specialize (Hv (S limit, n) ltac:(done)).
  destruct (visit_spec _ _ _ _ _ Hs _ _ _ Hv) as (t & -> & Ht). rewrite length_app.
  split; [lia|apply Ht].
Qed.

(** The lifetime loop ends by the deadline: every round reads the clock. *)
Lemma lifetime_settles deadline pid n f0 f1 s0 s1 h :
  (forall h, (n <= length h)%nat -> deadline <= os Z Now h) -> reads_from f0 s0 -> reads_from f1 s1 ->
  settles (enough (S (n - length h))) (fun fuel => lifetime os fuel.1 fuel.2 deadline pid s0 s1) h.
Proof.
  intros Hn. remember (n - length h)%nat as k eqn:Hk. revert s0 s1 h Hk.
  induction k as [k IH] using lt_wf_ind. intros s0 s1 h Hk H0 H1.
  eapply (settles_via _ (enough k) _ (fun fuel => lifetime os fuel.1 (S fuel.2) deadline pid s0 s1)).
  { intros [fd [|fuel]] [Hd Hf]; cbn in *; [lia|]. by exists (fd, fuel); split; [split; cbn; lia|]. }
  cbn [lifetime]. apply settles_step. destruct (_ <=? 0) eqn:E; [by apply settles_const|].
  assert (Hlt : (length h < n)%nat).
  { destruct (Nat.lt_ge_cases (length h) n) as [|Hge]; [done|]. specialize (Hn h Hge).
    apply Z.leb_gt in E. unfold ns_per_ms in E. pose proof (Z.quot_opp_l (deadline - os Z Now h) 1000000).
    pose proof (Z.quot_pos (- (deadline - os Z Now h)) 1000000). lia. }
  assert (Hmore : forall s0 s1 h', (length h < length h')%nat -> reads_from f0 s0 -> reads_from f1 s1 ->
    settles (enough k) (fun fuel => lifetime os fuel.1 fuel.2 deadline pid s0 s1) h').
  { intros s0' s1' h' Hh H0' H1'.
    eapply settles_weaken; [|apply (IH (n - length h')%nat); [lia|done..]].
    intros fuel [Hd Hf]. split; lia. }
  apply settles_step. destruct (os _ (Poll _ _ _) _) as [[]|[ready0 ready1]]; try (by apply settles_const).
  { apply Hmore; [cbn; lia|done..]. }
  apply settles_bind; [apply visit_settles|]. intros s0' h0 Hv0.
  apply (visit_extends _ _ _ _ _ _ _ H0) in Hv0 as [Hl0 H0'].
  apply settles_bind; [apply visit_settles|]. intros s1' h1 Hv1.
  apply (visit_extends _ _ _ _ _ _ _ H1) in Hv1 as [Hl1 H1'].
  apply settles_step. cbn in Hl0.
  destruct (os _ (WaitNoHang pid) h1) as [| |[]]; try (by apply settles_const);
    apply Hmore; (done || cbn; lia).
Qed.

Lemma conclude_settles timeout_ms pid e err h :
  settles (le (S limit)) (fun fuel => conclude os fuel timeout_ms pid e err) h.
Proof.
  destruct e; cbn [conclude]; [..|by apply settles_const]; apply settles_step;
    (apply settles_bind; [|intros; by apply settles_const]);
    (eapply settles_weaken; [|apply reap_settles]; intros fuel; lia).
Qed.

Lemma close_open_returns fd h : exists h', close_open os fd h = (Ret tt, h').
Proof.
  unfold close_open. destruct (0 <=? fd); [|by exists h].
  exists (Ev (Close fd) tt :: h). unfold syscall. by destruct (os unit (Close fd) h).
Qed.

Lemma drop_guards_returns g h : exists h', drop_guards os g h = (Ret tt, h').
Proof.
  unfold drop_guards. destruct (close_open_returns (err_w g) h) as [h1 E1].
  destruct (close_open_returns (err_r g) h1) as [h2 E2].
  destruct (close_open_returns (out_w g) h2) as [h3 E3].
  rewrite (bind_run _ _ _ _ _ E1), (bind_run _ _ _ _ _ E2), (bind_run _ _ _ _ _ E3).
  apply close_open_returns.
Qed.

Lemma set_nonblocking_returns fd0 fd1 h : exists ok h', set_nonblocking os fd0 fd1 h = (Ret ok, h').
Proof.
  unfold set_nonblocking, mbind, sys_bind, syscall. cbn.
  destruct (os _ (GetFl fd0) h), (os _ (GetFl fd1) _); [|by eexists _, _..].
  destruct (os bool (SetFl fd0 _) _); by eexists _, _.
Qed.

(** A guarded scope ends with the guards. *)
Lemma settles_guards {A} (P : nat -> Prop) g (a : nat -> A) h a0 :
  (forall fuel, a fuel = a0) -> settles P (fun fuel => _ ← drop_guards os g; mret (a fuel)) h.
Proof.
  intros Ha. destruct (drop_guards_returns g h) as [h' E]. exists (Ret a0), h'. split; [done|].
  intros fuel _. rewrite (bind_run _ _ _ _ _ E). by rewrite Ha.
Qed.

Lemma parent_settles timeout_ms pid g out err h :
  exists fuel0, settles (le fuel0) (fun fuel => parent os fuel timeout_ms pid g out err) h.
Proof.
  unfold parent. set (h1 := Ev (Close (err_w g)) (os _ (Close (err_w g)) (Ev (Close (out_w g)) (os _ (Close (out_w g)) h) :: h)) ::
    Ev (Close (out_w g)) (os _ (Close (out_w g)) h) :: h).
  destruct (set_nonblocking_returns (out_r g) (err_r g) h1) as (ok & h2 & E2).
  destruct (time_passes (os Z Now h2 + timeout_ms * ns_per_ms)) as [n Hn].
  exists (S (S limit + n)). do 2 apply settles_step.
  apply settles_bind; [exists (Ret ok), h2; by split|]. intros ok' h' Hok.
  specialize (Hok (S (S limit + n)) ltac:(done)).
  change (set_nonblocking os (out_r g) (err_r g) h1 = (Ret ok', h')) in Hok.
  rewrite E2 in Hok. injection Hok as <- <-.
  destruct ok; cbn [negb].
  - apply settles_step. apply settles_bind.
    + eapply settles_via; [|apply (lifetime_settles _ pid n (out_r g) (err_r g)
        (mkStream (out_r g) out true) (mkStream (err_r g) err true) _ Hn); by intros _].
      intros fuel Hf. exists (fuel, fuel). split; [split; cbn; lia|done].
    + intros [[e s0] s1] h3 _. apply settles_bind.
      * eapply settles_weaken; [|apply conclude_settles]. intros fuel; lia.
      * intros [rc err'] h4 _. by eapply settles_guards.
  - apply settles_step. apply settles_bind.
    + eapply settles_weaken; [|apply reap_settles]. intros fuel; lia.
    + intros a h3 _. by eapply settles_guards.
Qed.

Lemma launch_settles timeout_ms g args out err h :
  exists fuel0, settles (le fuel0) (fun fuel => launch os fuel timeout_ms g args out err) h.
Proof.
  unfold launch. set (pid := os Z Fork h). set (h1 := Ev Fork pid :: h).
  destruct (parent_settles timeout_ms pid g out err h1) as [fuel0 Hp].
  exists fuel0. apply settles_step. fold pid. destruct (pid <? 0); [by eapply settles_guards|].
  destruct (pid =? 0); [|done]. apply settles_const.
  destruct (child_run os g args h1) as (t & E & _). fold h1. by rewrite E.
Qed.

Lemma execute_settles `{!Posix os} args out err timeout_ms h :
  exists fuel0, settles (le fuel0) (fun fuel => execute_readonly_command os fuel args out err timeout_ms) h.
Proof.
  unfold execute_readonly_command. fold (effective_timeout timeout_ms).
  destruct args as [|arg args]; [exists 0%nat; by apply settles_const|].
  destruct (make_cloexec_pipe_run os h) as (r0 & p0 & t0 & E0 & _).
  assert (E1 : exists r1 p1 h1,
    (if negb (r0 =? 0) then mret (-1, no_fds) else make_cloexec_pipe os) (t0 ++ h) = (Ret (r1, p1), h1)).
  { destruct (negb _); [by eexists _, _, _|].
    destruct (make_cloexec_pipe_run os (t0 ++ h)) as (r1 & p1 & t1 & E1 & _). by eexists _, _, _. }
  destruct E1 as (r1 & p1 & h1 & E1).
  destruct (launch_settles (effective_timeout timeout_ms) (mkGuards p0.1 p0.2 p1.1 p1.2) (arg :: args) out err h1)
    as (fuel0 & o & h2 & Ho & Hl).
  assert (Hclose : exists h3, (_ ← close_open os p0.1; _ ← close_open os p0.2; _ ← close_open os p1.1;
    _ ← close_open os p1.2; mret (-1, out, err)) h1 = (Ret (-1, out, err), h3)).
  { destruct (close_open_returns p0.1 h1) as [k1 F1], (close_open_returns p0.2 k1) as [k2 F2],
      (close_open_returns p1.1 k2) as [k3 F3], (close_open_returns p1.2 k3) as [k4 F4].
    exists k4. by rewrite (bind_run _ _ _ _ _ F1), (bind_run _ _ _ _ _ F2), (bind_run _ _ _ _ _ F3),
      (bind_run _ _ _ _ _ F4). }
  destruct Hclose as [h3 Hclose]. exists fuel0.
  destruct (negb (r0 =? 0) || negb (r1 =? 0)) eqn:E.
  - exists (Ret (-1, out, err)), h3. split; [done|]. intros fuel _.
    rewrite (bind_run _ _ _ _ _ E0). cbn beta iota. rewrite (bind_run _ _ _ _ _ E1). cbn beta iota. by rewrite E.
  - exists o, h2. split; [done|]. intros fuel Hf.
    rewrite (bind_run _ _ _ _ _ E0). cbn beta iota. rewrite (bind_run _ _ _ _ _ E1). cbn beta iota. rewrite E. by apply Hl.
Qed.
End Responsive.

(** ** Theorems *)

#[export] Instance sample_os_responsive outputs : Responsive (sample_os outputs) 1.
Proof.
  split.
  - intros X c h Hs. destruct c as [| | | | | | | | | |fd| | | |pid|]; try done. cbn.
    destruct h as [|[Y d y] h]; [cbn in Hs; lia|].
    destruct (after_poll (Ev d y :: h)) eqn:E; [|done]. by destruct d; cbn in *; try done; lia.
  - intros t. exists (Z.to_nat t). intros h Hh. unfold sample_os, ns_per_ms. lia.
Qed.

(** A command comes to an end: on a system that hands out fresh descriptors, where
    time passes and where neither a child nor a signal keeps the reads going for
    ever, there is one result, and every fuel from some bound on gives it.  Claim C40. *)
Theorem command_returns os limit `{!Posix os, !Responsive os limit} args out err timeout_ms h :
  exists fuel0 o h', o <> Blocked /\
    forall fuel, (fuel0 <= fuel)%nat ->
      execute_readonly_command os fuel args out err timeout_ms h = (o, h').
Proof. apply (execute_settles os limit). Qed.

Lemma command_returns_witness :
  exists fuel0 o h', o <> Blocked /\
    forall fuel, (fuel0 <= fuel)%nat ->
      execute_readonly_command (sample_os sample_outputs) fuel addr_command "" "" 5000 [] = (o, h').
Proof. exact (command_returns (sample_os sample_outputs) 1 addr_command "" "" 5000 []). Defined.

(** ** Runs the comments exclude *)

(** A child that always has a byte to read, while a millisecond passes with every
    call. *)
Definition chatty_os : kernel := fun X c =>
  match c in call Y return history -> Y with
  | Read _ => fun _ => inr "y"%string
  | c => sample_os sample_outputs _ c
  end.

Lemma chatty_drain fuel s h : (drain chatty_os fuel s h).1 = Blocked.
Proof. revert s h. induction fuel as [|fuel IH]; intros s h; [done|]. apply IH. Qed.

(** The header promises that the caller is never blocked for longer than the
    timeout.  The inner loop reads as long as there is output, without looking at
    the clock: a command that keeps writing blocks its caller for ever. *)
Example chatty_child_defeats_the_deadline fuel :
  (execute_readonly_command chatty_os fuel ["yes"]%string "" "" 100 []).1 = Blocked.
Proof.
  destruct fuel as [|fuel]; [vm_compute; reflexivity|].
  lazy -[drain].
  match goal with |- context [drain ?os ?fuel ?s ?h] =>
    pose proof (chatty_drain fuel s h : (drain os fuel s h).1 = Blocked) as H;
    destruct (drain os fuel s h) as [o h']
  end.
  cbn in H. by rewrite H.
Qed.

(** The guards are documented to close every descriptor exactly once.  The loop
    closes the read end of a stream that has ended, and its guard closes the same
    number again, when another thread may own it. *)
Example descriptors_are_closed_twice :
  let '(o, h) := execute_readonly_command (sample_os sample_outputs) 10 addr_command "" "" 5000 [] in
  o = Ret (0, sample_addr_output, ""%string) /\ opened h = [3; 4; 5; 6] /\
  closed h = [4; 6; 3; 5; 5; 3].
Proof. vm_compute. done. Qed.

(** The child writes, ends, and is reaped before the second part of its output is
    read: [EAGAIN] once, then the end of the child. *)
Definition hasty_os : kernel := fun X c =>
  match c in call Y return history -> Y with
  | Read _ => fun h => if after_poll h then inr "first half"%string else inl EAGAIN
  | c => sample_os sample_outputs _ c
  end.

(** The loop is left without a last read, before the end of either stream: a
    success is reported with what happened to be read. *)
Example output_may_be_lost :
  let '(o, h) := execute_readonly_command hasty_os 10 addr_command "" "" 5000 [] in
  o = Ret (0, "first half", "")%string /\ ended h = [].
Proof. vm_compute. done. Qed.
