(* ===== verification/DeviceClock.v ===== *)
(** * DeviceClock: [LidarDeviceClockMapper] of [driver_node.cpp]

    Maps the LiDAR's monotonic nanoseconds into the ROS clock.  Every member
    function is one critical section.  Signed 64-bit arithmetic is checked: [None]
    is an overflow, undefined in C++. *)

From S2P Require Import Prelude Cxx.

(** The value of a signed 64-bit expression. *)
Definition int64 (z : Z) : option Z := if in_int64 z then Some z else None.

(** [std::llabs]. *)
Definition llabs (z : Z) : option Z := int64 (Z.abs z).

Record mapper := mkMapper { initialized_ : bool; offset_ns_ : Z; last_device_ns_ : Z }.

#[export] Instance eta_mapper : Eta mapper := fun m =>
  mkMapper (initialized_ m) (offset_ns_ m) (last_device_ns_ m).

Definition fresh_mapper : mapper := mkMapper false 0 0.

Definition kRestartToleranceNs : Z := 1000000000.
Definition kOffsetJumpNs : Z := 2000000000.

Definition mapped_time (device_ns receive_ns : Z) (m : mapper) : option Z :=
  mapped_ns ← int64 (device_ns + offset_ns_ m);
  Some (Z.min mapped_ns receive_ns).

Definition device_restarted (device : Z) (m : mapper) : option bool :=
  if initialized_ m then
    d ← int64 (device + kRestartToleranceNs);
    Some (d <? last_device_ns_ m)
  else Some false.

Definition offset_jumped (observed_offset : Z) (m : mapper) : option bool :=
  if initialized_ m then
    d ← int64 (observed_offset - offset_ns_ m);
    d ← llabs d;
    Some (kOffsetJumpNs <? d)
  else Some false.

(** [receive_ns] is the receive time; the result is the stamp. *)
Definition observe_odometry (device_ns receive_ns : Z) (m : mapper) : option (Z * mapper) :=
  if INT64_MAX <? device_ns then Some (receive_ns, m)
  else
    let device := device_ns in
    observed_offset ← int64 (receive_ns - device);
    restarted ← device_restarted device m;
    jumped ← offset_jumped observed_offset m;
    offset ←
      (if negb (initialized_ m) || restarted || jumped then Some observed_offset
       else if observed_offset <? offset_ns_ m then Some observed_offset
       else
         d ← int64 (observed_offset - offset_ns_ m);
         int64 (offset_ns_ m + Z.quot d 64));
    let m := mkMapper true offset device in
    stamp ← mapped_time device receive_ns m;
    Some (stamp, m).

Definition map_cloud (device_ns receive_ns : Z) (m : mapper) : option Z :=
  if negb (initialized_ m) || (INT64_MAX <? device_ns) then Some receive_ns
  else mapped_time device_ns receive_ns m.

(** ** Runs: odometry and cloud samples in the order of the mutex *)

Inductive sample := Odometry (device_ns receive_ns : Z) | Cloud (device_ns receive_ns : Z).

Definition device_of (s : sample) : Z := match s with Odometry d _ | Cloud d _ => d end.
Definition receive_of (s : sample) : Z := match s with Odometry _ r | Cloud _ r => r end.

Definition map_sample (s : sample) (m : mapper) : option (Z * mapper) :=
  match s with
  | Odometry d r => observe_odometry d r m
  | Cloud d r => stamp ← map_cloud d r m; Some (stamp, m)
  end.

(** The stamps of a history, in order. *)
Fixpoint map_samples (h : list sample) (m : mapper) : option (list Z * mapper) :=
  match h with
  | [] => Some ([], m)
  | s :: h' =>
      match map_sample s m with
      | None => None
      | Some (stamp, m') =>
          match map_samples h' m' with
          | None => None
          | Some (stamps, m'') => Some (stamp :: stamps, m'')
          end
      end
  end.

(** Clocks that have run for less than 146 years, or the out of range time stamps
    that [observe_odometry] and [map_cloud] pass by. *)
Definition sample_wf (s : sample) : Prop :=
  0 <= receive_of s < 2 ^ 62 /\ (0 <= device_of s < 2 ^ 62 \/ INT64_MAX < device_of s).

(** The lag a stamp may have behind the receive time. *)
Definition max_lag : Z := kOffsetJumpNs - kOffsetJumpNs / 64 + 1.

Definition mapper_ok (m : mapper) : Prop :=
  - 2 ^ 62 <= offset_ns_ m < 2 ^ 62 /\ 0 <= last_device_ns_ m < 2 ^ 62.

(** The offset after an observation. *)
Definition next_offset (device observed : Z) (m : mapper) : Z :=
  if negb (initialized_ m) || (device + kRestartToleranceNs <? last_device_ns_ m) ||
     (kOffsetJumpNs <? Z.abs (observed - offset_ns_ m)) then observed
  else if observed <? offset_ns_ m then observed
  else offset_ns_ m + (observed - offset_ns_ m) / 64.

(** ** Facts *)

Lemma int64_in z : - 2 ^ 63 <= z < 2 ^ 63 -> int64 z = Some z.
Proof.
  intros Hz. unfold int64, in_int64, INT64_MIN, INT64_MAX.
  replace (_ <=? z) with true by arith. by replace (z <=? _) with true by arith.
Qed.

Lemma next_offset_bounds device receive m :
  0 <= device < 2 ^ 62 -> 0 <= receive < 2 ^ 62 -> mapper_ok m ->
  let o := next_offset device (receive - device) m in
  receive - device - max_lag <= o <= receive - device /\ - 2 ^ 62 <= o < 2 ^ 62.
Proof.
  intros Hd Hr [Ho Hl]. unfold next_offset, max_lag, kOffsetJumpNs.
  assert (Hq : 2000000000 / 64 = 31250000) by reflexivity. cbn zeta.
  destruct (negb _ || _ || _) eqn:E; [lia|]. bool_prop.
  destruct (_ <? _) eqn:E2; [lia|]. bool_prop.
  pose proof (Z.mul_div_le (receive - device - offset_ns_ m) 64 ltac:(lia)).
  pose proof (Z.mul_succ_div_gt (receive - device - offset_ns_ m) 64 ltac:(lia)). lia.
Qed.

Lemma observe_odometry_spec device receive m :
  0 <= device < 2 ^ 62 -> 0 <= receive < 2 ^ 62 -> mapper_ok m ->
  let o := next_offset device (receive - device) m in
  observe_odometry device receive m = Some (device + o, mkMapper true o device) /\
  mapper_ok (mkMapper true o device) /\ receive - max_lag <= device + o <= receive.
Proof.
  intros Hd Hr Hm. pose proof (next_offset_bounds device receive m Hd Hr Hm) as [Hb Hb'].
  destruct Hm as [Ho Hl]. cbn zeta in *. unfold observe_odometry.
  replace (INT64_MAX <? device) with false by (symmetry; apply Z.ltb_ge; unfold INT64_MAX; lia).
  rewrite int64_in by lia. cbn [mbind option_bind].
  unfold device_restarted, offset_jumped, llabs.
  assert (Hmt : forall o, o = next_offset device (receive - device) m ->
    mapped_time device receive (mkMapper true o device) = Some (device + o)).
  { intros o ->. unfold mapped_time. cbn [offset_ns_]. rewrite int64_in by lia.
    cbn [mbind option_bind]. f_equal. lia. }
  destruct (initialized_ m) eqn:Hi.
  - rewrite (int64_in (device + _)) by (unfold kRestartToleranceNs; lia).
    rewrite (int64_in (receive - device - _)) by lia. cbn [mbind option_bind].
    rewrite (int64_in (Z.abs _)) by lia. cbn [mbind option_bind negb orb].
    assert (Hno : next_offset device (receive - device) m =
      if (device + kRestartToleranceNs <? last_device_ns_ m) ||
         (kOffsetJumpNs <? Z.abs (receive - device - offset_ns_ m)) then receive - device
      else if receive - device <? offset_ns_ m then receive - device
      else offset_ns_ m + (receive - device - offset_ns_ m) / 64).
    { unfold next_offset. by rewrite Hi. }
    assert (Hoff : (if (device + kRestartToleranceNs <? last_device_ns_ m) ||
         (kOffsetJumpNs <? Z.abs (receive - device - offset_ns_ m)) then Some (receive - device)
      else if receive - device <? offset_ns_ m then Some (receive - device)
      else int64 (offset_ns_ m + Z.quot (receive - device - offset_ns_ m) 64)) =
      Some (next_offset device (receive - device) m)).
    { rewrite Hno. destruct (_ || _); [done|]. destruct (_ <? offset_ns_ m) eqn:E; [done|].
      bool_prop. rewrite Z.quot_div_nonneg by lia. apply int64_in. rewrite Hno in Hb'.
      pose proof (Z.div_pos (receive - device - offset_ns_ m) 64 ltac:(lia) ltac:(lia)).
      pose proof (Z.mul_div_le (receive - device - offset_ns_ m) 64 ltac:(lia)). lia. }
    rewrite Hoff. cbn [mbind option_bind]. rewrite Hmt by done. cbn [mbind option_bind].
    split_and!; try done; try lia; cbn; lia.
  - cbn [mbind option_bind negb orb].
    assert (Hno : next_offset device (receive - device) m = receive - device).
    { unfold next_offset. by rewrite Hi. }
    rewrite Hno in Hmt, Hb, Hb' |- *. rewrite Hmt by done. cbn [mbind option_bind].
    split_and!; try done; try lia; cbn; lia.
Qed.

Lemma map_cloud_spec device receive m :
  0 <= device < 2 ^ 62 -> mapper_ok m ->
  map_cloud device receive m =
    Some (if initialized_ m then Z.min (device + offset_ns_ m) receive else receive).
Proof.
  intros Hd [Ho _]. unfold map_cloud, mapped_time.
  replace (INT64_MAX <? device) with false by (symmetry; apply Z.ltb_ge; unfold INT64_MAX; lia).
  rewrite orb_false_r. destruct (initialized_ m); cbn [negb]; [|done].
  by rewrite int64_in by lia.
Qed.

(** What a sample's stamp may be, given the mapper before it. *)
Definition stamp_ok (s : sample) (stamp : Z) (m : mapper) : Prop :=
  stamp <= receive_of s /\
  match s with
  | Odometry d r => r - max_lag <= stamp
  | Cloud d r =>
      stamp = if initialized_ m && (d <=? INT64_MAX) then Z.min (d + offset_ns_ m) r else r
  end.

Lemma map_sample_spec s m :
  sample_wf s -> mapper_ok m ->
  exists stamp m', map_sample s m = Some (stamp, m') /\ mapper_ok m' /\ stamp_ok s stamp m.
Proof.
  intros [Hr Hd] Hm. unfold stamp_ok. destruct s as [d r|d r]; cbn [receive_of device_of map_sample] in *.
  - destruct Hd as [Hd|Hd].
    + destruct (observe_odometry_spec d r m Hd Hr Hm) as (-> & Hm' & Hs).
      eexists _, _. split; [done|]. split; [done|]. lia.
    + unfold observe_odometry. replace (INT64_MAX <? d) with true by arith.
      exists r, m. assert (0 <= max_lag) by done. split_and!; try done; lia.
  - destruct Hd as [Hd|Hd].
    + rewrite map_cloud_spec by done. cbn [mbind option_bind]. eexists _, m. split; [done|].
      replace (d <=? INT64_MAX) with true by (symmetry; apply Z.leb_le; unfold INT64_MAX; lia).
      rewrite andb_true_r. split_and!; try done. destruct (initialized_ m); lia.
    + unfold map_cloud. replace (INT64_MAX <? d) with true by arith. rewrite orb_true_r.
      cbn [mbind option_bind]. replace (d <=? INT64_MAX) with false by arith. rewrite andb_false_r.
      exists r, m. done.
Qed.

Lemma mapper_ok_fresh : mapper_ok fresh_mapper.
Proof. unfold mapper_ok. cbn. lia. Qed.

(** The mapper before each sample of a history. *)
Fixpoint mappers (h : list sample) (m : mapper) : list mapper :=
  match h with
  | [] => []
  | s :: h' => m :: match map_sample s m with Some (_, m') => mappers h' m' | None => [] end
  end.

(** ** Properties *)

(** Time stamps over any history of odometry and cloud samples, in any order of
    the two receive threads, restarts and jumps of the device clock included, as long
    as receive times lie in [0, 2^62) ns and device times below 2^62 ns or beyond
    [INT64_MAX], where the code passes them by (a device time in between, which a
    datagram may carry, can overflow: [hostile_stamp_overflows]): no arithmetic
    overflows; no stamp lies after the receive time; an odometry stamp
    is at most two seconds behind it, whatever the clocks did before; a cloud is
    stamped with its device time and the offset in force, clamped to the receive
    time, and with the receive time while there is no offset.
    Claim C35. *)
Theorem stamps_follow_the_device_clock h :
  Forall sample_wf h ->
  exists stamps m, map_samples h fresh_mapper = Some (stamps, m) /\
    Forall2 (fun s sm => stamp_ok s sm.1 sm.2) h (zip stamps (mappers h fresh_mapper)) /\
    length stamps = length h.
Proof.
  intros Hh. assert (Hm := mapper_ok_fresh). revert Hm. generalize fresh_mapper.
  induction Hh as [|s h Hs Hh IH]; intros m Hm.
  - exists [], m. by split_and!.
  - destruct (map_sample_spec s m Hs Hm) as (stamp & m' & He & Hm' & Hok).
    destruct (IH m' Hm') as (stamps & m2 & Hr & Hall & Hlen).
    exists (stamp :: stamps), m2. cbn [map_samples mappers]. rewrite He, Hr. split_and!; [done| |].
    + constructor; done.
    + cbn. by rewrite Hlen.
Qed.

(** An observation moves the offset by little: one that arrives late by [delay]
    delays the stamps of the samples after it by at most a sixty-fourth of it, and
    one that arrives early takes effect at once. *)
Theorem jitter_is_damped device receive m stamp m' delay :
  0 <= device < 2 ^ 62 -> 0 <= receive < 2 ^ 62 -> mapper_ok m -> initialized_ m = true ->
  last_device_ns_ m <= device + kRestartToleranceNs ->
  receive = device + offset_ns_ m + delay -> Z.abs delay <= kOffsetJumpNs ->
  observe_odometry device receive m = Some (stamp, m') ->
  offset_ns_ m' = offset_ns_ m + (if 0 <=? delay then delay / 64 else delay) /\
  stamp = receive - (if 0 <=? delay then delay - delay / 64 else 0).
Proof.
  intros Hd Hr Hm Hi Hl Hdelay Habs. pose proof (observe_odometry_spec device receive m Hd Hr Hm) as (-> & _ & _).
  intros [= <- <-]. cbn [offset_ns_]. unfold next_offset. rewrite Hi.
  replace (receive - device - offset_ns_ m) with delay by lia.
  replace (device + kRestartToleranceNs <? last_device_ns_ m) with false by arith.
  replace (kOffsetJumpNs <? Z.abs delay) with false by arith. cbn [negb orb].
  destruct (0 <=? delay) eqn:E; bool_prop.
  - replace (_ <? offset_ns_ m) with false by (symmetry; apply Z.ltb_ge; lia). lia.
  - replace (_ <? offset_ns_ m) with true by (symmetry; apply Z.ltb_lt; lia). lia.
Qed.

(** ** Witnesses *)

Definition sample_day : list sample :=
  [Cloud 5 1000; Odometry 1000 50000000; Cloud 2000 50002000; Odometry 100001000 151000000;
   Odometry (2 ^ 64 - 1) 160000000; Odometry 7 3000000000; Cloud 8 3000000001].

Lemma stamps_follow_the_device_clock_witness :
  Forall sample_wf sample_day /\
  exists stamps m, map_samples sample_day fresh_mapper = Some (stamps, m) /\
    Forall2 (fun s sm => stamp_ok s sm.1 sm.2) sample_day
      (zip stamps (mappers sample_day fresh_mapper)) /\
    length stamps = length sample_day.
Proof.
  assert (H : Forall sample_wf sample_day).
  { unfold sample_day, sample_wf, INT64_MAX. repeat constructor; cbn; lia. }
  split; [exact H|]. exact (stamps_follow_the_device_clock sample_day H).
Defined.

Lemma jitter_is_damped_witness :
  observe_odometry 1000000 7400000 (mkMapper true 1000000 900000) =
    Some (2084375, mkMapper true 1084375 1000000) /\
  1084375 = 1000000 + 5400000 / 64 /\ 2084375 = 7400000 - (5400000 - 5400000 / 64).
Proof.
  split; [vm_compute; reflexivity|].
  apply (jitter_is_damped 1000000 7400000 (mkMapper true 1000000 900000) 2084375
    (mkMapper true 1084375 1000000) 5400000);
    try (vm_compute; reflexivity); unfold mapper_ok, kRestartToleranceNs, kOffsetJumpNs; cbn; lia.
Defined.

(** ** What the code leaves open

    The device time is taken from the datagram unchecked: after one good sample, a
    time stamp in the last second below [INT64_MAX] overflows the restart test. *)

Example hostile_stamp_overflows :
  map_samples [Odometry 1000 50000000; Odometry (2 ^ 63 - 1) 60000000] fresh_mapper = None.
Proof. vm_compute. done. Qed.
