(* ===== verification/SdkTypes.v ===== *)
(** * SdkTypes: the value types of [astrall_sdk.hpp]

    Result codes and their descriptions, telemetry payloads, and the calls of
    the SDK boundary [IAstrallSdk]. *)

From S2P Require Import Prelude Cxx.

Definition kSdkResFailed : Z := 0x8004.
Definition kSdkResTimeout : Z := 0x8005.
Definition kSdkResRunning : Z := 0x8006.
Definition kSdkResSuccess : Z := 0x8008.
Definition kSdkResInvalidParam : Z := 0x8010.
Definition kSdkResNotInit : Z := 0x8011.
Definition kSdkResRcNoRelease : Z := 0x8020.
Definition kSdkResBeenObtained : Z := 0x8021.
Definition kSdkResWithoutAuth : Z := 0x8022.

Record Result := mkResult { code : Z; res_message : string }.

#[export] Instance Result_eq_dec : EqDecision Result.
Proof. solve_decision. Defined.

Definition success (r : Result) : bool := code r =? kSdkResSuccess.
Definition ok (message : string) : Result := mkResult kSdkResSuccess message.
Definition failure (code : Z) (message : string) : Result := mkResult code message.

Definition describe_sdk_result_code (code : Z) : string :=
  if code =? kSdkResFailed then "execution or request failed"
  else if code =? kSdkResTimeout then "timeout"
  else if code =? kSdkResRunning then "operation still running"
  else if code =? kSdkResSuccess then "success"
  else if code =? kSdkResInvalidParam then "invalid parameter"
  else if code =? kSdkResNotInit then "SDK not initialized"
  else if code =? kSdkResRcNoRelease then "remote controller has not released authority"
  else if code =? kSdkResBeenObtained then
    "control authority already held by another device"
  else if code =? kSdkResWithoutAuth then "no control authority"
  else "unknown SDK result code 0x" +:+ hex16 code.

Inductive SubscriptionFrequency := Disabled | Hz1 | Hz25 | Hz50 | Hz125 | Hz250.

#[export] Instance SubscriptionFrequency_eq_dec : EqDecision SubscriptionFrequency.
Proof. solve_decision. Defined.

Definition frequency_value (f : SubscriptionFrequency) : Z :=
  match f with
  | Disabled => 0 | Hz1 => 1 | Hz25 => 2 | Hz50 => 3 | Hz125 => 4 | Hz250 => 5
  end.

Record Velocity := mkVel { v_vx : spec_float; v_vy : spec_float; v_vyaw : spec_float }.

#[export] Instance Velocity_eq_dec : EqDecision Velocity.
Proof. solve_decision. Defined.

Definition Velocity0 : Velocity := mkVel fzero fzero fzero.

Record ImuSample := mkImu {
  imu_timestamp : Z; accelerometer : list spec_float; gyroscope : list spec_float;
  quaternion : list spec_float; pitch : spec_float; roll : spec_float; yaw : spec_float;
  odom_x : spec_float; odom_y : spec_float }.

Definition ImuSample0 : ImuSample :=
  mkImu 0 (replicate 3 fzero) (replicate 3 fzero) (replicate 4 fzero) fzero fzero fzero
    fzero fzero.

Record SportSample := mkSport { sport_timestamp : Z; sport_wheel_speed : list spec_float }.

Definition SportSample0 : SportSample := mkSport 0 (replicate 4 fzero).

Record SdkSnapshot := mkSnapshot {
  sn_sdk_linked : bool; sn_control_authority : bool; system_status : Z;
  error_code : Z; warning_code : Z; sport_status : Z;
  battery_percentage : spec_float; battery_temperature : spec_float;
  battery_voltage : spec_float; battery_cycle_count : Z; charge_status : Z;
  wheel_speed : list spec_float }.

Definition SdkSnapshot0 : SdkSnapshot :=
  mkSnapshot false false 0 0 0 0 fzero fzero fzero 0 0 (replicate 4 fzero).

(** The virtual functions of [IAstrallSdk], with their arguments; callbacks are
    events of the environment. *)
Inductive SdkCall :=
  | CallInit (timeout_ms : Z)
  | CallDeinit
  | CallHeartbeat (timeout_ms : Z)
  | CallRequestAuthority (sdk : bool) (timeout_ms : Z)
  | CallSubscribeImu (f : SubscriptionFrequency) (timeout_ms : Z)
  | CallSubscribeSport (f : SubscriptionFrequency) (timeout_ms : Z)
  | CallSubscribeLidar (f : SubscriptionFrequency) (timeout_ms : Z)
  | CallMove (v : Velocity) (timeout_ms : Z)
  | CallSetMode (mode : Z) (timeout_ms : Z)
  | CallSnapshot.

(** ** Facts *)

Lemma success_ok m : success (ok m) = true.
Proof. done. Qed.

(** Every 16-bit code has a description. *)
Lemma describe_not_empty c : describe_sdk_result_code c <> ""%string.
Proof. unfold describe_sdk_result_code. by repeat case_match. Qed.
