(* ===== verification/SdkAdapter.v ===== *)
(** * SdkAdapter: the vendor SDK adapter of [direct_astrall_sdk.cpp]

    One adapter ([AstrallSdkImpl]) and any number of threads, as a transition
    system.  A thread is the stack of what it is inside of: a public call of the
    adapter (with its program counter), a delivery running a project callback, or
    code of another adapter on the same thread.  A critical section of the gate
    mutex is one step; the lifecycle and teardown mutexes are held across steps.
    The vendor library is the environment: it answers, delivers and throws as it
    likes.  [step] is a function of a label, so that a schedule can be run. *)

From S2P Require Import Prelude Cxx SdkTypes.

(** ** Boundary types of [astrall_vendor_api.hpp] *)

Record RawSystemStatus := mkRawSystem { sys_status : Z; raw_error_code : Z; warn_code : Z }.
Record RawPowerStatus := mkRawPower {
  soc : spec_float; temp : spec_float; voltage : spec_float; cycle_count : Z; charged : Z }.

Inductive AuthorityTarget := Sdk | Joystick.
Definition authority_value (t : AuthorityTarget) : Z := match t with Sdk => 1 | Joystick => 2 end.

Inductive SubscriptionTopic := Imu | Sport | Lidar.
Definition topic_value (t : SubscriptionTopic) : Z :=
  match t with Imu => 0x0001 | Sport => 0x0002 | Lidar => 0x0005 end.

#[export] Instance topic_eq_dec : EqDecision SubscriptionTopic.
Proof. solve_decision. Defined.

(** The entries of the vendor's function table. *)
Inductive VendorFn :=
  | FnInit | FnDeinit | FnHeartbeat | FnRequestAuthority | FnSubscribe | FnSetMode | FnMove
  | FnGetSystemStatus | FnGetPowerStatus | FnGetSportStatus.

(** A call of an entry, with its arguments; the getters of a snapshot are one. *)
Inductive VendorCall :=
  | VInit (timeout_ms : Z)
  | VDeinit
  | VHeartbeat (timeout_ms : Z)
  | VRequestAuthority (target : AuthorityTarget) (timeout_ms : Z)
  | VSubscribe (topic : SubscriptionTopic) (frequency : Z) (timeout_ms : Z)
  | VSetMode (mode : Z) (timeout_ms : Z)
  | VMove (vx vy vyaw : spec_float) (timeout_ms : Z)
  | VGetters.

(** ** Results *)

Definition ASTRALL_RES_SUCCESSED : Z := kSdkResSuccess.

Definition map_vendor_result (code : Z) : Result :=
  if code =? ASTRALL_RES_SUCCESSED then ok "success"
  else failure code (describe_sdk_result_code code).

Definition not_initialized : Result :=
  failure kSdkResNotInit (describe_sdk_result_code kSdkResNotInit).
Definition backend_unbound : Result := failure kSdkResFailed "vendor backend not bound".
Definition reentrant_failure : Result :=
  failure kSdkResRunning "reentrant call from SDK callback not allowed".
Definition deinit_requested : Result :=
  failure kSdkResRunning "deinit requested from SDK callback".

Inductive AstrallSubscribeFreq :=
  | ASTRALL_SUB_FREQ_CLOSE | ASTRALL_SUB_FREQ_1HZ | ASTRALL_SUB_FREQ_25HZ
  | ASTRALL_SUB_FREQ_50HZ | ASTRALL_SUB_FREQ_125HZ | ASTRALL_SUB_FREQ_250HZ.

Definition vendor_frequency (frequency : Z) : AstrallSubscribeFreq :=
  if frequency =? 0 then ASTRALL_SUB_FREQ_CLOSE
  else if frequency =? 1 then ASTRALL_SUB_FREQ_1HZ
  else if frequency =? 2 then ASTRALL_SUB_FREQ_25HZ
  else if frequency =? 3 then ASTRALL_SUB_FREQ_50HZ
  else if frequency =? 4 then ASTRALL_SUB_FREQ_125HZ
  else if frequency =? 5 then ASTRALL_SUB_FREQ_250HZ
  else ASTRALL_SUB_FREQ_CLOSE.

(** ** The adapter's state *)

Inductive AdapterState := Uninitialized | Initializing | Initialized | ShuttingDown.

#[export] Instance AdapterState_eq_dec : EqDecision AdapterState.
Proof. solve_decision. Defined.

(** A [std::function]: which registration it is; [None] is the empty one. *)
Definition callback := option nat.

Record impl := mkImpl {
  lifecycle_mutex : bool;            (* taken *)
  teardown_mutex : bool;
  state : AdapterState;
  callbacks : callback;              (* [SdkCallbacks::on_status] *)
  imu_callback : callback;
  sport_callback : callback;
  lidar_callback : callback;
  status_linked : bool;
  status_authority : bool;
  latest_sport : SportSample;
  in_flight : nat;
  deferred_teardown : bool }.

#[export] Instance eta_impl : Eta impl := fun i =>
  mkImpl (lifecycle_mutex i) (teardown_mutex i) (state i) (callbacks i) (imu_callback i)
    (sport_callback i) (lidar_callback i) (status_linked i) (status_authority i)
    (latest_sport i) (in_flight i) (deferred_teardown i).

Definition impl0 : impl :=
  mkImpl false false Uninitialized None None None None false false SportSample0 0 false.

(** ** Threads *)

(** Where [ensure_uninitialized] and the [teardown_impl] it runs stand. *)
Inductive teardown :=
  | TdQueue                                    (* waits for [teardown_mutex] *)
  | TdLoop                                     (* head of the loop *)
  | TdLifecycle                                (* waits for [lifecycle_mutex] *)
  | TdClose                                    (* about to close the gate *)
  | TdVendor (run_vendor_deinit need_wait : bool)
  | TdWait                                     (* waits for [in_flight == 0] *)
  | TdPublish.

#[export] Instance teardown_eq_dec : EqDecision teardown.
Proof. solve_decision. Defined.

(** What the vendor returned. *)
Inductive answer :=
  | Code (code : Z)
  | Getters (system : Z * RawSystemStatus) (power : Z * RawPowerStatus) (sport : Z).

(** A call's local variables: the callback to roll back to, the snapshot. *)
Record locals := mkLocals { previous : callback; out : SdkSnapshot }.

Inductive pc :=
  | AtLock                                     (* waits for [lifecycle_mutex] *)
  | AtGate
  | AtTable (l : locals)                       (* accepted, before the vendor *)
  | InVendor (l : locals)
  | AtCheckpoint (l : locals) (a : answer)     (* the vendor has returned *)
  | AtEnd (l : locals) (a : answer)
  | InTail (l : locals) (a : answer) (t : teardown).   (* completes a deferred teardown *)

Inductive delivery :=
  | DStatus (linked authority : bool)
  | DImu (sample : ImuSample)
  | DSport (sample : SportSample)
  | DLidar.

Inductive frame :=
  | FCall (c : SdkCall) (cb : callback) (p : pc)
  | FDeinit (t : teardown)
  | FDeliver (d : delivery) (cb : callback)    (* the project callback runs *)
  | FOtherVendor                               (* in another adapter's vendor call *)
  | FOtherCallback.                            (* in another adapter's callback *)

Inductive ret := RResult (r : Result) | RSnapshot (s : SdkSnapshot) | RUnit | RThrow.

(** Newest first. *)
Inductive event :=
  | EvOpen (t : nat)                           (* the gate opens, *)
  | EvShut (t : nat)                           (* closes *)
  | EvVendor (t : nat) (v : VendorCall)
  | EvVendorDone (t : nat) (c : SdkCall) (a : answer)
  | EvStart (t : nat) (d : delivery) (cb : callback)
  | EvStop (t : nat)
  | EvClosed (t : nat)                         (* [ensure_uninitialized] returns *)
  | EvReturn (t : nat) (c : SdkCall) (r : ret).

Record system := mkSystem { im : impl; threads : list (list frame); events : list event }.

Definition initial (n : nat) : system := mkSystem impl0 (replicate n []) [].

(** The thread-local [t_vendor_frames] and [t_active_impl] are set and restored
    by scope guards: their values are read off the guards that are alive. *)
Definition in_vendor_frames (s : list frame) : bool :=
  existsb (fun f => match f with FCall _ _ (InVendor _) => true | _ => false end) s.

Inductive adapter := This | Other.

Fixpoint t_active_impl (s : list frame) : option adapter :=
  match s with
  | [] => None
  | FDeliver _ (Some _) :: _ => Some This
  | FOtherCallback :: _ => Some Other
  | _ :: s' => t_active_impl s'
  end.

Definition in_callback_context (s : list frame) : bool :=
  match t_active_impl s with Some This => true | _ => in_vendor_frames s end.

(** ** Deliveries *)

Definition gate_open (st : AdapterState) : bool :=
  match st with Initializing | Initialized => true | _ => false end.

(** The gate section of a delivery: what it caches ([note]) and which project
    callback it copies ([member]). *)
Definition through_gate (t : nat) (d : delivery) (note : impl -> impl) (member : impl -> callback)
  (s : list frame) (i : impl) : impl * list frame * list event :=
  if negb (gate_open (state i)) then (i, s, [])
  else
    let i := note i in
    let cb := member i in
    (over in_flight S i, FDeliver d cb :: s, [EvStart t d cb]).

Definition deliver_status (t : nat) (linked authority : bool) (s : list frame) (i : impl)
  : impl * list frame * list event :=
  through_gate t (DStatus linked authority)
    (fun i => i <| status_linked := linked |> <| status_authority := authority |>) callbacks s i.

Definition deliver_imu (t : nat) (sample : ImuSample) (s : list frame) (i : impl)
  : impl * list frame * list event :=
  through_gate t (DImu sample) (fun i => i) imu_callback s i.

Definition deliver_sport (t : nat) (sample : SportSample) (s : list frame) (i : impl)
  : impl * list frame * list event :=
  through_gate t (DSport sample) (fun i => i <| latest_sport := sample |>) sport_callback s i.

Definition deliver_lidar_discard (t : nat) (s : list frame) (i : impl)
  : impl * list frame * list event :=
  through_gate t DLidar (fun i => i) lidar_callback s i.

Definition deliver (t : nat) (d : delivery) (s : list frame) (i : impl)
  : impl * list frame * list event :=
  match d with
  | DStatus linked authority => deliver_status t linked authority s i
  | DImu sample => deliver_imu t sample s i
  | DSport sample => deliver_sport t sample s i
  | DLidar => deliver_lidar_discard t s i
  end.

(** [InFlightGuard]'s destructor. *)
Definition end_delivery (i : impl) : impl := over in_flight Nat.pred i.

(** The vendor's buffers: short ones are dropped, the rest is copied.  The
    layouts are the vendor's. *)
Section Buffers.
  Context (sizeof_status sizeof_imu sizeof_sport : Z).
  Context (read_status : list Byte.byte -> bool * bool).
  Context (read_imu : list Byte.byte -> ImuSample) (read_sport : list Byte.byte -> SportSample).

Definition status_data (data : option (list Byte.byte)) (len : Z) : option delivery :=
  match data with
  | None => None
  | Some data =>
      if len <? sizeof_status then None
      else let '(link, authority) := read_status data in Some (DStatus link authority)
  end.

Definition subscription_data (topic : SubscriptionTopic) (data : option (list Byte.byte)) (len : Z)
  : option delivery :=
  match topic, data with
  | Lidar, _ => Some DLidar
  | Imu, Some data => if len <? sizeof_imu then None else Some (DImu (read_imu data))
  | Sport, Some data => if len <? sizeof_sport then None else Some (DSport (read_sport data))
  | _, None => None
  end.
End Buffers.

(** ** Public calls

    All calls have one shape: reject a re-entry, take the lifecycle mutex, pass the
    gate (and install what the vendor call needs), call the table entry, do the
    checkpoint, and a last gate section.  [call_step] below is that shape; a
    [method] says what is particular to a call. *)

Record method := mkMethod {
  reentrant : impl -> ret * impl;                  (* in a callback context *)
  refuse_in : AdapterState -> option ret;          (* [None] lets the call in, *)
  installs : callback -> impl -> locals * impl;    (* in the same gate section *)
  entry : option VendorFn;
  vendor_args : VendorCall;
  undo : locals -> impl -> impl;                   (* the entry is empty *)
  ends : locals -> answer -> impl -> ret * impl;   (* the last gate section *)
  tail : locals -> answer -> ret }.                (* after a deferred teardown *)

Definition rejects_reentry (i : impl) : ret * impl := (RResult reentrant_failure, i).
Definition needs_session (st : AdapterState) : option ret :=
  if decide (st = Initialized) then None else Some (RResult not_initialized).
Definition no_locals : locals := mkLocals None SdkSnapshot0.
Definition code_of (a : answer) : Z := match a with Code code => code | Getters _ _ _ => 0 end.
Definition deinit_was_requested (l : locals) (a : answer) : ret := RResult deinit_requested.

(** A call that only forwards. *)
Definition forward (fn : VendorFn) (v : VendorCall) : method :=
  mkMethod rejects_reentry needs_session (fun _ i => (no_locals, i)) (Some fn) v
    (fun _ i => i) (fun _ a i => (RResult (map_vendor_result (code_of a)), i)) deinit_was_requested.

Definition heartbeat (timeout_ms : Z) : method := forward FnHeartbeat (VHeartbeat timeout_ms).

Definition request_authority (sdk : bool) (timeout_ms : Z) : method :=
  forward FnRequestAuthority (VRequestAuthority (if sdk then Sdk else Joystick) timeout_ms).

Definition move (v : Velocity) (timeout_ms : Z) : method :=
  forward FnMove (VMove (v_vx v) (v_vy v) (v_vyaw v) timeout_ms).

Definition set_mode (mode : Z) (timeout_ms : Z) : method := forward FnSetMode (VSetMode mode timeout_ms).

(** A subscription swaps its callback in and, on failure, back. *)
Definition subscription (topic : SubscriptionTopic) (f : SubscriptionFrequency) (timeout_ms : Z)
  (chosen : callback -> callback) (get : impl -> callback) (set : callback -> impl -> impl) : method :=
  mkMethod rejects_reentry needs_session
    (fun cb i => (mkLocals (get i) SdkSnapshot0, set (chosen cb) i))
    (Some FnSubscribe) (VSubscribe topic (frequency_value f) timeout_ms)
    (fun l i => set (previous l) i)
    (fun l a i =>
       if code_of a =? ASTRALL_RES_SUCCESSED then (RResult (ok "success"), i)
       else (RResult (map_vendor_result (code_of a)), set (previous l) i))
    deinit_was_requested.

Definition subscribe_imu (f : SubscriptionFrequency) (timeout_ms : Z) : method :=
  subscription Imu f timeout_ms (fun cb => cb) imu_callback (fun cb i => i <| imu_callback := cb |>).

Definition subscribe_sport (f : SubscriptionFrequency) (timeout_ms : Z) : method :=
  subscription Sport f timeout_ms (fun cb => cb) sport_callback (fun cb i => i <| sport_callback := cb |>).

(** The discard callback of the LIDAR subscription. *)
Definition discard : callback := Some 0%nat.

Definition subscribe_lidar (f : SubscriptionFrequency) (timeout_ms : Z) : method :=
  subscription Lidar f timeout_ms (fun _ => discard) lidar_callback (fun cb i => i <| lidar_callback := cb |>).

Definition init (timeout_ms : Z) : method :=
  mkMethod rejects_reentry
    (fun st =>
       match st with
       | Uninitialized => None
       | ShuttingDown => Some (RResult (failure kSdkResFailed "deinit in progress"))
       | _ => Some (RResult (failure kSdkResFailed "SDK already initialized"))
       end)
    (fun cb i =>
       (no_locals,
        i <| callbacks := cb |> <| status_linked := false |> <| status_authority := false |>
          <| latest_sport := SportSample0 |> <| state := Initializing |>))
    (Some FnInit) (VInit timeout_ms)
    (fun _ i => i <| state := Uninitialized |> <| callbacks := None |>)
    (fun _ a i =>
       if code_of a =? ASTRALL_RES_SUCCESSED
       then (RResult (ok "success"), i <| state := Initialized |>)
       else (RResult (map_vendor_result (code_of a)),
             i <| state := Uninitialized |> <| callbacks := None |>
               <| status_linked := false |> <| status_authority := false |>))
    deinit_was_requested.

Definition cached_snapshot (i : impl) : SdkSnapshot :=
  mkSnapshot (status_linked i) (status_authority i) 0 0 0 0 fzero fzero fzero 0 0
    (sport_wheel_speed (latest_sport i)).

Section Table.
  Context (bound : VendorFn -> bool).    (* which entries of the table are not empty *)

(** A snapshot's getters fill what they can. *)
Definition fill_snapshot (a : answer) (o : SdkSnapshot) : SdkSnapshot :=
  match a with
  | Code _ => o
  | Getters system power sport =>
      let use_system := bound FnGetSystemStatus && (system.1 =? ASTRALL_RES_SUCCESSED) in
      let use_power := bound FnGetPowerStatus && (power.1 =? ASTRALL_RES_SUCCESSED) in
      let use_sport := bound FnGetSportStatus && negb (Z.land sport 0xF000 =? 0x8000) in
      mkSnapshot (sn_sdk_linked o) (sn_control_authority o)
        (if use_system then sys_status system.2 else system_status o)
        (if use_system then raw_error_code system.2 else error_code o)
        (if use_system then warn_code system.2 else warning_code o)
        (if use_sport then sport else sport_status o)
        (if use_power then soc power.2 else battery_percentage o)
        (if use_power then temp power.2 else battery_temperature o)
        (if use_power then voltage power.2 else battery_voltage o)
        (if use_power then cycle_count power.2 else battery_cycle_count o)
        (if use_power then charged power.2 else charge_status o)
        (wheel_speed o)
  end.

Definition snapshot : method :=
  mkMethod (fun i => (RSnapshot (cached_snapshot i), i))
    (fun st => if decide (st = Initialized) then None else Some (RSnapshot SdkSnapshot0))
    (fun _ i => (mkLocals None (cached_snapshot i), i))
    None VGetters (fun _ i => i)
    (fun l a i => (RSnapshot (fill_snapshot a (out l)), i))
    (fun l a => RSnapshot (fill_snapshot a (out l))).

Definition method_of (c : SdkCall) : method :=
  match c with
  | CallInit t => init t
  | CallDeinit => forward FnDeinit VDeinit         (* never used: see [deinit] *)
  | CallHeartbeat t => heartbeat t
  | CallRequestAuthority sdk t => request_authority sdk t
  | CallSubscribeImu f t => subscribe_imu f t
  | CallSubscribeSport f t => subscribe_sport f t
  | CallSubscribeLidar f t => subscribe_lidar f t
  | CallMove v t => move v t
  | CallSetMode m t => set_mode m t
  | CallSnapshot => snapshot
  end.

(** ** Teardown *)

(** The gate section of [teardown_impl]: the state after it, whether the vendor's
    deinit runs, and whether the callbacks in flight are waited for. *)
Definition close_gate (i : impl) : impl * bool * bool :=
  let already_shutting_down := bool_decide (state i = ShuttingDown) in
  let i := i <| deferred_teardown := false |> in
  let waiting := (0 <? in_flight i)%nat in
  if negb (bool_decide (state i = Uninitialized)) then
    (i <| state := ShuttingDown |> <| callbacks := None |> <| imu_callback := None |>
       <| sport_callback := None |> <| lidar_callback := None |>
       <| status_linked := false |> <| status_authority := false |>,
     negb already_shutting_down && bound FnDeinit, true)
  else if waiting then (i <| state := ShuttingDown |>, false, true)
  else (i, false, waiting).

(** One step of [teardown_impl]; [None] is blocked. *)
Definition teardown_impl (t : nat) (td : teardown) (i : impl)
  : option (impl * option teardown * list event) :=
  match td with
  | TdLifecycle =>
      if lifecycle_mutex i then None else Some (i <| lifecycle_mutex := true |>, Some TdClose, [])
  | TdClose =>
      let '(i', run, wait) := close_gate i in
      Some (i', Some (TdVendor run wait), if run then [EvVendor t VDeinit] else [])
  | TdVendor _ wait =>
      Some (i <| lifecycle_mutex := false |>, Some (if wait then TdWait else TdPublish), [])
  | TdWait => if (in_flight i =? 0)%nat then Some (i, Some TdPublish, []) else None
  | TdPublish => Some (i <| state := Uninitialized |>, Some TdLoop, [])
  | TdQueue | TdLoop => None
  end.

(** One step of [ensure_uninitialized], its calls of [teardown_impl] included; the
    program counter [None] means that it has returned. *)
Definition ensure_uninitialized (t : nat) (td : teardown) (i : impl)
  : option (impl * option teardown * list event) :=
  match td with
  | TdQueue =>
      if teardown_mutex i then None else Some (i <| teardown_mutex := true |>, Some TdLoop, [])
  | TdLoop =>
      if bool_decide (state i = Uninitialized) && negb (deferred_teardown i) &&
         (in_flight i =? 0)%nat
      then Some (i <| teardown_mutex := false |>, None, [EvClosed t])
      else Some (i <| deferred_teardown := false |>, Some TdLifecycle, [])
  | _ => teardown_impl t td i
  end.

Definition unlock (i : impl) : impl := i <| lifecycle_mutex := false |>.

(** The checkpoint after the vendor call: whether it claims a deferred teardown. *)
Definition finish_with_deferred_teardown (s : list frame) (i : impl) : bool * impl :=
  if in_vendor_frames s then (false, i)
  else if deferred_teardown i then (true, unlock (i <| deferred_teardown := false |>))
  else (false, i).

(** One step of a public call on top of [s]: [None] is blocked or waits for the
    vendor.  Releasing the lifecycle mutex is part of the step before it. *)
Definition call_step (t : nat) (c : SdkCall) (cb : callback) (p : pc) (s : list frame) (i : impl)
  : option (impl * list frame * list event) :=
  let m := method_of c in
  match p with
  | AtLock =>
      if lifecycle_mutex i then None
      else Some (i <| lifecycle_mutex := true |>, FCall c cb AtGate :: s, [])
  | AtGate =>
      match refuse_in m (state i) with
      | Some r => Some (unlock i, s, [EvReturn t c r])
      | None => let '(l, i') := installs m cb i in Some (i', FCall c cb (AtTable l) :: s, [])
      end
  | AtTable l =>
      if match entry m with Some fn => bound fn | None => true end
      then Some (i, FCall c cb (InVendor l) :: s, [EvVendor t (vendor_args m)])
      else Some (unlock (undo m l i), s, [EvReturn t c (RResult backend_unbound)])
  | InVendor _ => None
  | AtCheckpoint l a =>
      let '(claimed, i') := finish_with_deferred_teardown s i in
      Some (i', FCall c cb (if claimed then InTail l a TdQueue else AtEnd l a) :: s, [])
  | AtEnd l a => let '(r, i') := ends m l a i in Some (unlock i', s, [EvReturn t c r])
  | InTail l a td =>
      match ensure_uninitialized t td i with
      | None => None
      | Some (i', Some td', ev) => Some (i', FCall c cb (InTail l a td') :: s, ev)
      | Some (i', None, ev) => Some (i', s, EvReturn t c (tail m l a) :: ev)
      end
  end.

Definition deinit_step (t : nat) (td : teardown) (s : list frame) (i : impl)
  : option (impl * list frame * list event) :=
  match ensure_uninitialized t td i with
  | None => None
  | Some (i', Some td', ev) => Some (i', FDeinit td' :: s, ev)
  | Some (i', None, ev) => Some (i', s, EvReturn t CallDeinit RUnit :: ev)
  end.

(** ** Entering from outside *)

(** Inside a callback context only the request is recorded. *)
Definition deinit (t : nat) (s : list frame) (i : impl) : impl * list frame * list event :=
  if in_callback_context s
  then (i <| deferred_teardown := true |>, s, [EvReturn t CallDeinit RUnit])
  else (i, FDeinit TdQueue :: s, []).

Definition public_call (t : nat) (c : SdkCall) (cb : callback) (s : list frame) (i : impl)
  : impl * list frame * list event :=
  match c with
  | CallDeinit => deinit t s i
  | _ =>
      if in_callback_context s
      then let '(r, i') := reentrant (method_of c) i in (i', s, [EvReturn t c r])
      else (i, FCall c cb AtLock :: s, [])
  end.

(** Who runs on top of the stack: project code may call, vendor code (also
    [deinit]'s, and the vendor's own threads) may deliver. *)
Definition in_project_code (s : list frame) : bool :=
  match s with
  | [] | FDeliver _ (Some _) :: _ | FOtherCallback :: _ => true
  | _ => false
  end.

Definition in_vendor_code (s : list frame) : bool :=
  match s with
  | [] | FCall _ _ (InVendor _) :: _ | FCall _ _ (InTail _ _ (TdVendor true _)) :: _
  | FDeinit (TdVendor true _) :: _ | FOtherVendor :: _ => true
  | _ => false
  end.

(** Only a snapshot calls the getters. *)
Definition answers (c : SdkCall) (a : answer) : bool :=
  match c, a with
  | CallSnapshot, Getters _ _ _ => true
  | CallSnapshot, Code _ => false
  | _, Code _ => true
  | _, Getters _ _ _ => false
  end.

Inductive label :=
  | LCall (c : SdkCall) (cb : callback)        (* project code calls *)
  | LStep                                      (* the top frame runs *)
  | LAnswer (a : answer)                       (* the vendor returns *)
  | LThrow                                     (* the vendor throws *)
  | LDeliver (d : delivery)                    (* the vendor delivers *)
  | LEnd                                       (* the project callback returns *)
  | LOtherVendor                               (* project code calls another adapter *)
  | LOtherCallback                             (* ... which calls back *)
  | LOtherEnd.

Definition thread_step (l : label) (t : nat) (s : list frame) (i : impl)
  : option (impl * list frame * list event) :=
  match l, s with
  | LCall c cb, _ => if in_project_code s then Some (public_call t c cb s i) else None
  | LStep, FCall c cb p :: s' => call_step t c cb p s' i
  | LStep, FDeinit td :: s' => deinit_step t td s' i
  | LAnswer a, FCall c cb (InVendor lo) :: s' =>
      if answers c a then Some (i, FCall c cb (AtCheckpoint lo a) :: s', [EvVendorDone t c a])
      else None
  | LThrow, FCall c _ (InVendor _) :: s' => Some (unlock i, s', [EvReturn t c RThrow])
  | LDeliver d, _ => if in_vendor_code s then Some (deliver t d s i) else None
  | LEnd, FDeliver _ _ :: s' => Some (end_delivery i, s', [EvStop t])
  | LOtherVendor, _ => if in_project_code s then Some (i, FOtherVendor :: s, []) else None
  | LOtherCallback, _ => if in_vendor_code s then Some (i, FOtherCallback :: s, []) else None
  | LOtherEnd, (FOtherVendor | FOtherCallback) :: s' => Some (i, s', [])
  | _, _ => None
  end.

(** The gate as seen from outside. *)
Definition gate_events (t : nat) (i i' : impl) : list event :=
  match gate_open (state i), gate_open (state i') with
  | false, true => [EvOpen t]
  | true, false => [EvShut t]
  | _, _ => []
  end.

Definition step (t : nat) (l : label) (w : system) : option system :=
  match threads w !! t with
  | None => None
  | Some s =>
      match thread_step l t s (im w) with
      | None => None
      | Some (i, s', ev) => 
          Some (mkSystem i (<[t := s']> (threads w)) (ev ++ gate_events t (im w) i ++ events w))
      end
  end.

Fixpoint run (ls : list (nat * label)) (w : system) : option system :=
  match ls with
  | [] => Some w
  | (t, l) :: ls' => match step t l w with Some w' => run ls' w' | None => None end
  end.

Definition reachable (n : nat) (w : system) : Prop := exists ls, run ls (initial n) = Some w.

End Table.
