(* ===== verification/SdkBinding.v ===== *)
(** * SdkBinding: the binding of [direct_astrall_sdk.cpp] to the vendor's functions

    [make_real_astrall_vendor_api] and the mapping of the vendor's telemetry.  The
    vendor's header is not in the repository: its types, constants and functions are
    the operations of a class, [V] is the vendor's state and [E] what callbacks do. *)

From S2P Require Import Prelude Cxx SdkTypes SdkAdapter.

(** ** What [interface.h] offers *)

(** A data callback of the vendor, with the buffer and its length; [None] is empty. *)
Definition RawDataCallback (E : Type) : Type := option (option (list Byte.byte) -> Z -> list E).

Record AstrallConfig (E : Type) := mkConfig { heartbeatCb : RawDataCallback E; sdkStatusCb : RawDataCallback E }.
Arguments mkConfig {E}.
Arguments heartbeatCb {E}.
Arguments sdkStatusCb {E}.

Class Astrall (V E : Type) := {
  AstrallAuth : Type; ASTRALL_AUTH_SDK : AstrallAuth; ASTRALL_AUTH_JOYSTICK : AstrallAuth;
  AstrallSubscribeTopicId : Type;
  ASTRALL_SUB_TOPIC_ID_IMU : AstrallSubscribeTopicId;
  ASTRALL_SUB_TOPIC_ID_SPORT : AstrallSubscribeTopicId;
  ASTRALL_SUB_TOPIC_ID_LIDAR : AstrallSubscribeTopicId;
  AstrallSportModeCmd : Type; sport_mode_cmd : Z -> AstrallSportModeCmd;    (* the cast from an integer *)
  AstrallSystemStatus : Type;
  sysStatus : AstrallSystemStatus -> Z; errorCode : AstrallSystemStatus -> Z; warnCode : AstrallSystemStatus -> Z;
  AstrallPowerStatus : Type;
  power_soc : AstrallPowerStatus -> spec_float; power_temp : AstrallPowerStatus -> spec_float;
  power_voltage : AstrallPowerStatus -> spec_float;
  power_cycleCount : AstrallPowerStatus -> Z; power_charged : AstrallPowerStatus -> Z;
  AstrallImuData : Type;
  vi_timestamp : AstrallImuData -> Z; vi_accelerometer : AstrallImuData -> nat -> spec_float;
  vi_gyroscope : AstrallImuData -> nat -> spec_float; vi_quaternion : AstrallImuData -> nat -> spec_float;
  vi_pitch : AstrallImuData -> spec_float; vi_roll : AstrallImuData -> spec_float;
  vi_yaw : AstrallImuData -> spec_float; odomX : AstrallImuData -> spec_float; odomY : AstrallImuData -> spec_float;
  AstrallSportData : Type;
  vs_timestamp : AstrallSportData -> Z; wheelSpeed : AstrallSportData -> nat -> spec_float;
  AstrallSdkInit : AstrallConfig E -> Z -> V -> Z * V;
  AstrallSdkDeinit : V -> V;
  AstrallHeartbeat : Z -> V -> Z * V;
  AstrallAuthControl : AstrallAuth -> Z -> V -> Z * V;
  AstrallSubscriptionData : AstrallSubscribeTopicId -> AstrallSubscribeFreq -> RawDataCallback E -> Z -> V -> Z * V;
  AstrallSportModeControl : AstrallSportModeCmd -> Z -> V -> Z * V;
  AstrallMove : spec_float -> spec_float -> spec_float -> Z -> V -> Z * V;
  AstrallGetSystemStatus : V -> Z * AstrallSystemStatus * V;
  AstrallGetPowerStatus : V -> Z * AstrallPowerStatus * V;
  AstrallGetSportStatus : V -> Z * V }.

(** ** The table *)

Record AstrallVendorApi (V E : Type) := mkApi {
  api_init : RawDataCallback E -> RawDataCallback E -> Z -> V -> Z * V;
  api_deinit : V -> V;
  api_heartbeat : Z -> V -> Z * V;
  api_request_authority : AuthorityTarget -> Z -> V -> Z * V;
  api_subscribe : SubscriptionTopic -> Z -> RawDataCallback E -> Z -> V -> Z * V;
  api_set_mode : Z -> Z -> V -> Z * V;
  api_move : spec_float -> spec_float -> spec_float -> Z -> V -> Z * V;
  api_get_system_status : RawSystemStatus -> V -> Z * RawSystemStatus * V;   (* [out] in and out *)
  api_get_power_status : RawPowerStatus -> V -> Z * RawPowerStatus * V;
  api_get_sport_status : V -> Z * V }.
Arguments mkApi {V E}.
Arguments api_init {V E}.
Arguments api_deinit {V E}.
Arguments api_heartbeat {V E}.
Arguments api_request_authority {V E}.
Arguments api_subscribe {V E}.
Arguments api_set_mode {V E}.
Arguments api_move {V E}.
Arguments api_get_system_status {V E}.
Arguments api_get_power_status {V E}.
Arguments api_get_sport_status {V E}.

Section Binding.
  Context {V E : Type} `{!Astrall V E}.

(** The lambda around a callback: never empty, forwards if the callback is not. *)
Definition guard_callback (cb : RawDataCallback E) : RawDataCallback E :=
  Some (fun data len => match cb with Some f => f data len | None => [] end).

Definition authority_of (target : AuthorityTarget) : AstrallAuth :=
  match target with Sdk => ASTRALL_AUTH_SDK | Joystick => ASTRALL_AUTH_JOYSTICK end.

Definition topic_id (topic : SubscriptionTopic) : AstrallSubscribeTopicId :=
  match topic with
  | Imu => ASTRALL_SUB_TOPIC_ID_IMU
  | Sport => ASTRALL_SUB_TOPIC_ID_SPORT
  | Lidar => ASTRALL_SUB_TOPIC_ID_LIDAR
  end.

Definition read_system_status (out : RawSystemStatus) (v : V) : Z * RawSystemStatus * V :=
  let '(code, status, v) := AstrallGetSystemStatus v in
  (code,
   if code =? ASTRALL_RES_SUCCESSED
   then mkRawSystem (wrap 8 (sysStatus status)) (wrap 32 (errorCode status)) (wrap 32 (warnCode status))
   else out, v).

(** The integer members are assigned: they are converted to the member's width. *)
Definition read_power_status (out : RawPowerStatus) (v : V) : Z * RawPowerStatus * V :=
  let '(code, power, v) := AstrallGetPowerStatus v in
  (code,
   if code =? ASTRALL_RES_SUCCESSED
   then mkRawPower (power_soc power) (power_temp power) (power_voltage power)
          (wrap 16 (power_cycleCount power)) (wrap 16 (power_charged power))
   else out, v).

Definition make_real_astrall_vendor_api : AstrallVendorApi V E :=
  mkApi
    (fun heartbeat_cb status_cb timeout_ms =>
       AstrallSdkInit (mkConfig (guard_callback heartbeat_cb) (guard_callback status_cb)) timeout_ms)
    AstrallSdkDeinit
    AstrallHeartbeat
    (fun target timeout_ms => AstrallAuthControl (authority_of target) timeout_ms)
    (fun topic frequency data_cb timeout_ms =>
       AstrallSubscriptionData (topic_id topic) (vendor_frequency frequency) (guard_callback data_cb) timeout_ms)
    (fun mode timeout_ms => AstrallSportModeControl (sport_mode_cmd mode) timeout_ms)
    AstrallMove
    read_system_status
    read_power_status
    AstrallGetSportStatus.

(** Telemetry, field by field. *)
Definition map_imu (d : AstrallImuData) : ImuSample :=
  mkImu (vi_timestamp d)
    [vi_accelerometer d 0%nat; vi_accelerometer d 1%nat; vi_accelerometer d 2%nat]
    [vi_gyroscope d 0%nat; vi_gyroscope d 1%nat; vi_gyroscope d 2%nat]
    [vi_quaternion d 0%nat; vi_quaternion d 1%nat; vi_quaternion d 2%nat; vi_quaternion d 3%nat]
    (vi_pitch d) (vi_roll d) (vi_yaw d) (odomX d) (odomY d).

Definition map_sport (d : AstrallSportData) : SportSample :=
  mkSport (vs_timestamp d)
    [wheelSpeed d 0%nat; wheelSpeed d 1%nat; wheelSpeed d 2%nat; wheelSpeed d 3%nat].

(** ** The adapter on this table *)

(** One call of the adapter through the table: what the vendor's state becomes and
    what the adapter is answered.  [hb], [st] and [cb] are the adapter's callbacks;
    the out parameters of the getters are value-initialised. *)
Definition call_table (api : AstrallVendorApi V E) (hb st cb : RawDataCallback E) (c : VendorCall) (v : V) : answer * V :=
  let coded (x : Z * V) := (Code x.1, x.2) in
  match c with
  | VInit timeout_ms => coded (api_init api hb st timeout_ms v)
  | VDeinit => (Code 0, api_deinit api v)
  | VHeartbeat timeout_ms => coded (api_heartbeat api timeout_ms v)
  | VRequestAuthority target timeout_ms => coded (api_request_authority api target timeout_ms v)
  | VSubscribe topic frequency timeout_ms => coded (api_subscribe api topic frequency cb timeout_ms v)
  | VSetMode mode timeout_ms => coded (api_set_mode api mode timeout_ms v)
  | VMove vx vy vyaw timeout_ms => coded (api_move api vx vy vyaw timeout_ms v)
  | VGetters =>
      let '(code, system, v) := api_get_system_status api (mkRawSystem 0 0 0) v in
      let '(code', power, v) := api_get_power_status api (mkRawPower fzero fzero fzero 0 0) v in
      let '(sport, v) := api_get_sport_status api v in
      (Getters (code, system) (code', power) sport, v)
  end.

(** No entry is empty: the branches for an unbound entry are not taken. *)
Definition real_bound (fn : VendorFn) : bool := true.

(** The ranges of a snapshot's integer members. *)
Definition snapshot_fits (o : SdkSnapshot) : Prop :=
  0 <= system_status o < 2 ^ 8 /\ 0 <= error_code o < 2 ^ 32 /\ 0 <= warning_code o < 2 ^ 32 /\
  0 <= sport_status o < 2 ^ 16 /\ 0 <= battery_cycle_count o < 2 ^ 16 /\ 0 <= charge_status o < 2 ^ 16.

Lemma wrap_fits w z : 0 <= w -> 0 <= wrap w z < 2 ^ w.
Proof. intros Hw. apply Z.mod_pos_bound. lia. Qed.

(** Whatever the vendor's structures hold, the snapshot's members are in the ranges of
    their types; the sport status is never a failure code; a getter that fails leaves
    its members alone, and the vendor is asked each getter once, in order. *)
Lemma real_snapshot hb st cb o v :
  (forall v, 0 <= (AstrallGetSportStatus v).1 < 2 ^ 16) -> snapshot_fits o ->
  let '(system_code, system, v1) := AstrallGetSystemStatus v in
  let '(power_code, power, v2) := AstrallGetPowerStatus v1 in
  let '(sport, v3) := AstrallGetSportStatus v2 in
  let '(a, v') := call_table make_real_astrall_vendor_api hb st cb VGetters v in
  let o' := fill_snapshot real_bound a o in
  v' = v3 /\ snapshot_fits o' /\
  (system_code <> ASTRALL_RES_SUCCESSED ->
     system_status o' = system_status o /\ error_code o' = error_code o /\ warning_code o' = warning_code o) /\
  (power_code <> ASTRALL_RES_SUCCESSED ->
     battery_percentage o' = battery_percentage o /\ battery_cycle_count o' = battery_cycle_count o /\
     charge_status o' = charge_status o) /\
  sport_status o' = (if Z.land sport 0xF000 =? 0x8000 then sport_status o else sport).
Proof.
  intros Hs (H1 & H2 & H3 & H4 & H5 & H6). cbn. unfold read_system_status, read_power_status.
  destruct (AstrallGetSystemStatus v) as [[c1 sys] v1]. destruct (AstrallGetPowerStatus v1) as [[c2 pw] v2].
  pose proof (Hs v2) as Hs2. destruct (AstrallGetSportStatus v2) as [sp v3]. cbn in Hs2.
  cbn -[Z.pow Z.land wrap]. split; [done|].
  pose proof (wrap_fits 8 (sysStatus sys)). pose proof (wrap_fits 32 (errorCode sys)).
  pose proof (wrap_fits 32 (warnCode sys)). pose proof (wrap_fits 16 (power_cycleCount pw)).
  pose proof (wrap_fits 16 (power_charged pw)).
  destruct (Z.eqb_spec c1 ASTRALL_RES_SUCCESSED), (Z.eqb_spec c2 ASTRALL_RES_SUCCESSED);
    destruct (Z.land sp 0xF000 =? 0x8000); cbn -[Z.pow Z.land wrap]; split_and!; try done; try lia;
    unfold snapshot_fits; cbn -[Z.pow wrap]; split_and!; lia.
Qed.

(** The samples have all their components. *)
Lemma map_imu_shape d :
  length (accelerometer (map_imu d)) = 3%nat /\ length (gyroscope (map_imu d)) = 3%nat /\
  length (quaternion (map_imu d)) = 4%nat.
Proof. done. Qed.
End Binding.
