(* ===== verification/SdkAdapterSafety.v ===== *)
(** * SdkAdapterSafety: the adapter under any number of threads

    Locks and the in-flight count are accounted for by the frames on the threads'
    stacks; from this: the vendor is entered by one thread at a time, what may lie
    on what on a stack, and that the adapter does not deadlock, unless another adapter
    on the thread hides from it that it is called from inside itself. *)

From S2P Require Import Prelude Cxx SdkTypes SdkAdapter.

(** ** Counting frames *)

Definition weight (f : frame -> nat) (s : list frame) : nat := sum_list_with f s.
Definition total (f : frame -> nat) (ths : list (list frame)) : nat := sum_list_with (weight f) ths.

Lemma total_insert f ths t s s' :
  ths !! t = Some s -> (total f (<[t := s']> ths) + weight f s = total f ths + weight f s')%nat.
Proof.
  revert t. induction ths as [|s0 ths IH]; intros [|t] H; try done.
  - injection H as ->. cbn. lia.
  - specialize (IH t H). change (<[S t:=s']> (s0 :: ths)) with (s0 :: <[t:=s']> ths).
    cbn in *. unfold total in *. lia.
Qed.

Lemma total_lookup f ths t s : ths !! t = Some s -> (weight f s <= total f ths)%nat.
Proof.
  revert t. induction ths as [|s0 ths IH]; intros [|t] H; try done; cbn.
  - injection H as ->. lia.
  - specialize (IH t H). unfold total in IH. lia.
Qed.

Lemma total_replicate f n : total f (replicate n []) = 0%nat.
Proof. induction n; [done|exact IHn]. Qed.

(** Some thread has a frame that counts. *)
Lemma total_witness f ths :
  (0 < total f ths)%nat -> exists t s fr, ths !! t = Some s /\ fr ∈ s /\ (0 < f fr)%nat.
Proof.
  induction ths as [|s ths IH]; intros H; [cbn in H; lia|].
  destruct (decide (0 < weight f s)%nat) as [Hs|Hs].
  - exists 0%nat, s. enough (exists fr, fr ∈ s /\ (0 < f fr)%nat) as (fr & ? & ?) by (by exists fr).
    clear -Hs. induction s as [|fr s IH]; [cbn in Hs; lia|].
    destruct (decide (0 < f fr)%nat); [exists fr; split; [by left|done]|].
    destruct IH as (fr' & ? & ?); [cbn in Hs; unfold weight; lia|]. exists fr'. split; [by right|done].
  - destruct IH as (t & s' & fr & H1 & H2 & H3); [cbn in H; unfold total in *; lia|].
    by exists (S t), s', fr.
Qed.

(** What a frame holds. *)
Definition teardown_holds_lifecycle (td : teardown) : nat :=
  match td with TdClose | TdVendor _ _ => 1 | _ => 0 end.

Definition holds_lifecycle (f : frame) : nat :=
  match f with
  | FCall _ _ (AtGate | AtTable _ | InVendor _ | AtCheckpoint _ _ | AtEnd _ _) => 1
  | FCall _ _ (InTail _ _ td) | FDeinit td => teardown_holds_lifecycle td
  | _ => 0
  end.

Definition holds_teardown (f : frame) : nat :=
  match f with
  | FCall _ _ (InTail _ _ TdQueue) | FDeinit TdQueue => 0
  | FCall _ _ (InTail _ _ _) | FDeinit _ => 1
  | _ => 0
  end.

Definition delivering (f : frame) : nat := match f with FDeliver _ _ => 1 | _ => 0 end.

(** Inside a function of the vendor's table. *)
Definition inside_vendor (f : frame) : nat :=
  match f with
  | FCall _ _ (InVendor _) | FCall _ _ (InTail _ _ (TdVendor true _)) | FDeinit (TdVendor true _) => 1
  | _ => 0
  end.

(** The vendor's deinit is running. *)
Definition inside_deinit (f : frame) : nat :=
  match f with
  | FCall _ _ (InTail _ _ (TdVendor true _)) | FDeinit (TdVendor true _) => 1
  | _ => 0
  end.

(** ** Typing of stacks

    A frame is entered from the code that may enter it, a public call that was
    let in was not made from a callback context, and the vendor's deinit delivers
    nothing. *)

Definition pc_ok (c : SdkCall) (p : pc) : Prop :=
  c <> CallDeinit /\
  match p with
  | AtCheckpoint _ a | AtEnd _ a | InTail _ a _ => answers c a = true
  | _ => True
  end.

Definition entered_from_project (s : list frame) : Prop :=
  in_project_code s = true /\ in_callback_context s = false.

Fixpoint typed (s : list frame) : Prop :=
  match s with
  | [] => True
  | FCall c _ p :: s' => pc_ok c p /\ entered_from_project s' /\ typed s'
  | FDeinit _ :: s' => entered_from_project s' /\ typed s'
  | FDeliver _ _ :: s' => in_vendor_code s' = true /\ weight inside_deinit s' = 0%nat /\ typed s'
  | FOtherCallback :: s' => in_vendor_code s' = true /\ typed s'
  | FOtherVendor :: s' => in_project_code s' = true /\ typed s'
  end.

(** ** Bookkeeping of one step *)

Section Steps.
  Context (bound : VendorFn -> bool).

(** The locks and the count are left alone. *)
Definition same_locks (i i' : impl) : Prop :=
  lifecycle_mutex i' = lifecycle_mutex i /\ teardown_mutex i' = teardown_mutex i /\
  in_flight i' = in_flight i.

Lemma installs_locks c cb i : same_locks i (installs (method_of bound c) cb i).2.
Proof. by destruct c. Qed.

Lemma undo_locks c l i : same_locks i (undo (method_of bound c) l i).
Proof. by destruct c. Qed.

Lemma ends_locks c l a i : same_locks i (ends (method_of bound c) l a i).2.
Proof. destruct c; cbn; try case_match; done. Qed.

Lemma close_gate_locks i : same_locks i (close_gate bound i).1.1.
Proof. unfold close_gate. by repeat case_match. Qed.

(** A delivery passes the gate or is dropped. *)
Lemma deliver_result t d s i i' s' ev :
  deliver t d s i = (i', s', ev) ->
  (gate_open (state i) = false /\ i' = i /\ s' = s /\ ev = []) \/
  (gate_open (state i) = true /\
   exists cb, s' = FDeliver d cb :: s /\ ev = [EvStart t d cb] /\ state i' = state i /\
     lifecycle_mutex i' = lifecycle_mutex i /\ teardown_mutex i' = teardown_mutex i /\
     in_flight i' = S (in_flight i)).
Proof.
  intros H. destruct (gate_open (state i)) eqn:E; [right|left];
    destruct d; cbn in H; unfold deliver_status, deliver_imu, deliver_sport, deliver_lidar_discard,
      through_gate in H; rewrite E in H; cbn in H; injection H as <- <- <-; eauto 10.
Qed.

(** A call inside a callback context. *)
Lemma public_call_reentrant t c cb s i i' s' ev :
  in_callback_context s = true -> public_call bound t c cb s i = (i', s', ev) ->
  same_locks i i' /\ state i' = state i /\ s' = s /\ exists r, ev = [EvReturn t c r] /\ r <> RThrow.
Proof.
  intros Hc H. destruct c; cbn in H; unfold deinit in H; rewrite Hc in H; injection H as <- <- <-;
    (split; [done|]); eauto.
Qed.

(** A call from outside. *)
Lemma public_call_entered t c cb s i i' s' ev :
  in_callback_context s = false -> public_call bound t c cb s i = (i', s', ev) ->
  i' = i /\ ev = [] /\ s' = match c with CallDeinit => FDeinit TdQueue | _ => FCall c cb AtLock end :: s.
Proof.
  intros Hc H. destruct c; cbn in H; unfold deinit in H; rewrite Hc in H; by injection H as <- <- <-.
Qed.

(** What a step of a thread gives and takes is what its stack says. *)
Record balanced (s s' : list frame) (i i' : impl) : Prop := {
  bal_lifecycle : (weight holds_lifecycle s' + Nat.b2n (lifecycle_mutex i) =
                   weight holds_lifecycle s + Nat.b2n (lifecycle_mutex i'))%nat;
  bal_teardown : (weight holds_teardown s' + Nat.b2n (teardown_mutex i) =
                  weight holds_teardown s + Nat.b2n (teardown_mutex i'))%nat;
  bal_flight : (weight delivering s' + in_flight i = weight delivering s + in_flight i')%nat }.

(** What the stack of a thread holds is taken. *)
Record covered (s : list frame) (i : impl) : Prop := {
  cov_lifecycle : (weight holds_lifecycle s <= Nat.b2n (lifecycle_mutex i))%nat;
  cov_teardown : (weight holds_teardown s <= Nat.b2n (teardown_mutex i))%nat;
  cov_flight : (weight delivering s <= in_flight i)%nat }.

Lemma same_locks_balanced s i i' : same_locks i i' -> balanced s s i i'.
Proof. intros (H1 & H2 & H3). split; rewrite ?H1, ?H2, ?H3; lia. Qed.

#[local] Ltac books :=
  cbn in *; unfold weight in *;
  repeat match goal with
         | H : same_locks _ _ |- _ => destruct H as (? & ? & ?)
         | H : lifecycle_mutex _ = _ |- _ => rewrite H in *; clear H
         | H : teardown_mutex _ = _ |- _ => rewrite H in *; clear H
         | H : in_flight _ = _ |- _ => rewrite H in *; clear H
         end;
  repeat match goal with
         | |- context [Nat.b2n (lifecycle_mutex ?i)] => destruct (lifecycle_mutex i)
         | |- context [Nat.b2n (teardown_mutex ?i)] => destruct (teardown_mutex i)
         end; cbn in *; lia.

Lemma teardown_balanced t td i i' td' ev :
  ensure_uninitialized bound t td i = Some (i', td', ev) ->
  (teardown_holds_lifecycle td <= Nat.b2n (lifecycle_mutex i))%nat ->
  (match td with TdQueue => 0 | _ => 1 end <= Nat.b2n (teardown_mutex i))%nat ->
  (match td' with Some td' => teardown_holds_lifecycle td' | None => 0 end + Nat.b2n (lifecycle_mutex i) =
     teardown_holds_lifecycle td + Nat.b2n (lifecycle_mutex i'))%nat /\
  (match td' with Some TdQueue | None => 0 | Some _ => 1 end + Nat.b2n (teardown_mutex i) =
     match td with TdQueue => 0 | _ => 1 end + Nat.b2n (teardown_mutex i'))%nat /\
  in_flight i' = in_flight i.
Proof.
  intros H Hl Ht. destruct td; cbn [ensure_uninitialized teardown_impl] in H.
  - destruct (teardown_mutex i); [done|]. by injection H as <- <- <-.
  - case_match; injection H as <- <- <-; cbn in *; [|done].
    destruct (teardown_mutex i); cbn in *; lia.
  - destruct (lifecycle_mutex i); [done|]. by injection H as <- <- <-.
  - pose proof (close_gate_locks i) as (H1 & H2 & H3).
    destruct (close_gate bound i) as [[i1 run] wt]. injection H as <- <- <-. cbn in *.
    by rewrite H1, H2.
  - injection H as <- <- <-. cbn in *. destruct need_wait, (lifecycle_mutex i); cbn in *; lia.
  - case_match; [|done]. by injection H as <- <- <-.
  - by injection H as <- <- <-.
Qed.

Lemma call_step_balanced t c cb p s i i' s' ev :
  call_step bound t c cb p s i = Some (i', s', ev) ->
  covered (FCall c cb p :: s) i -> balanced (FCall c cb p :: s) s' i i'.
Proof.
  intros H [Hl Ht Hf]. destruct p; cbn [call_step] in H.
  - destruct (lifecycle_mutex i) eqn:E; [done|]. injection H as <- <- <-. split; books.
  - case_match; [injection H as <- <- <-; split; books|].
    pose proof (installs_locks c cb i). destruct (installs _ cb i) as [l i1].
    injection H as <- <- <-. split; books.
  - pose proof (undo_locks c l i).
    destruct (match entry _ with Some fn => bound fn | None => true end);
      injection H as <- <- <-; split; books.
  - done.
  - unfold finish_with_deferred_teardown in H.
    destruct (in_vendor_frames s), (deferred_teardown i); injection H as <- <- <-; split; books.
  - pose proof (ends_locks c l a i). destruct (ends _ l a i) as [r i1].
    injection H as <- <- <-. split; books.
  - destruct (ensure_uninitialized bound t t0 i) as [[[i1 td'] ev']|] eqn:E; [|done].
    apply teardown_balanced in E as (H1 & H2 & H3); [|cbn in Hl; lia|destruct t0; cbn in Ht; lia].
    destruct td' as [td'|]; injection H as <- <- <-; split; cbn in *; unfold weight in *;
      destruct t0; try destruct td'; cbn in *; lia.
Qed.

Lemma deinit_step_balanced t td s i i' s' ev :
  deinit_step bound t td s i = Some (i', s', ev) ->
  covered (FDeinit td :: s) i -> balanced (FDeinit td :: s) s' i i'.
Proof.
  intros H [Hl Ht Hf]. unfold deinit_step in H.
  destruct (ensure_uninitialized bound t td i) as [[[i1 td'] ev']|] eqn:E; [|done].
  apply teardown_balanced in E as (H1 & H2 & H3); [|cbn in Hl; lia|destruct td; cbn in Ht; lia].
  destruct td' as [td'|]; injection H as <- <- <-; split; cbn in *; unfold weight in *;
    destruct td; try destruct td'; cbn in *; lia.
Qed.

Lemma thread_step_balanced l t s i i' s' ev :
  thread_step bound l t s i = Some (i', s', ev) -> covered s i -> balanced s s' i i'.
Proof.
  intros H Hc. destruct l; cbn [thread_step] in H.
  - case_match; [|done]. injection H as H. destruct (in_callback_context s) eqn:Hx.
    + apply public_call_reentrant in H as (? & _ & -> & _); [by apply same_locks_balanced|done].
    + apply public_call_entered in H as (-> & _ & ->); [by destruct c|done].
  - destruct s as [|[] s0]; try done; [by eapply call_step_balanced|by eapply deinit_step_balanced].
  - destruct s as [|[? ? []| | | |] s0]; try done. case_match; [|done].
    injection H as <- <- <-. by split.
  - destruct s as [|[? ? []| | | |] s0]; try done. injection H as <- <- <-.
    destruct Hc as [Hl _ _]. split; books.
  - case_match; [|done]. injection H as H.
    apply deliver_result in H as [(_ & -> & -> & _)|(_ & cb & -> & _ & _ & H1 & H2 & H3)]; [by split|].
    split; cbn; unfold weight; rewrite ?H1, ?H2, ?H3; lia.
  - destruct s as [|[] s0]; try done. injection H as <- <- <-. destruct Hc as [_ _ Hf].
    split; cbn in *; unfold weight; lia.
  - case_match; [|done]. injection H as <- <- <-. by split.
  - case_match; [|done]. injection H as <- <- <-. by split.
  - destruct s as [|[] s0]; try done; injection H as <- <- <-; by split.
Qed.

(** *** Typing *)

Lemma call_step_typed t c cb p s i i' s' ev :
  call_step bound t c cb p s i = Some (i', s', ev) -> typed (FCall c cb p :: s) -> typed s'.
Proof.
  intros H [[Hc Hp] Ht]. destruct p; cbn [call_step] in H.
  - case_match; [done|]. by injection H as <- <- <-.
  - case_match; [injection H as <- <- <-; apply Ht|]. destruct (installs _ cb i).
    by injection H as <- <- <-.
  - destruct (match entry _ with Some fn => bound fn | None => true end);
      injection H as <- <- <-; [done|apply Ht].
  - done.
  - destruct (finish_with_deferred_teardown s i) as [[] ?]; by injection H as <- <- <-.
  - destruct (ends _ l a i). injection H as <- <- <-. apply Ht.
  - destruct (ensure_uninitialized bound t t0 i) as [[[i1 [td'|]] ev']|]; [..|done];
      injection H as <- <- <-; [done|apply Ht].
Qed.

Lemma thread_step_typed l t s i i' s' ev :
  thread_step bound l t s i = Some (i', s', ev) -> typed s ->
  (gate_open (state i) = true -> weight inside_deinit s = 0%nat) -> typed s'.
Proof.
  intros H Ht Hg. destruct l; cbn [thread_step] in H.
  - destruct (in_project_code s) eqn:Hp; [|done]. injection H as H.
    destruct (in_callback_context s) eqn:Hx.
    + by apply public_call_reentrant in H as (_ & _ & -> & _).
    + apply public_call_entered in H as (_ & _ & ->); [|done]. destruct c; repeat split; done.
  - destruct s as [|[] s0]; try done; [by eapply call_step_typed|].
    unfold deinit_step in H. destruct (ensure_uninitialized bound t t0 i) as [[[i1 [td'|]] ev']|]; [..|done];
      injection H as <- <- <-; [done|apply Ht].
  - destruct s as [|[? ? []| | | |] s0]; try done. destruct (answers c a) eqn:Ha; [|done].
    injection H as <- <- <-. destruct Ht as [[H1 _] H2]. exact (conj (conj H1 Ha) H2).
  - destruct s as [|[? ? []| | | |] s0]; try done. injection H as <- <- <-. apply Ht.
  - destruct (in_vendor_code s) eqn:Hv; [|done]. injection H as H.
    apply deliver_result in H as [(_ & _ & -> & _)|(Hop & cb & -> & _)]; [done|].
    split; [done|]. split; [by apply Hg|done].
  - destruct s as [|[] s0]; try done. injection H as <- <- <-. apply Ht.
  - destruct (in_project_code s) eqn:Hv; [|done]. injection H as <- <- <-. by split.
  - destruct (in_vendor_code s) eqn:Hv; [|done]. injection H as <- <- <-. by split.
  - destruct s as [|[] s0]; try done; injection H as <- <- <-; apply Ht.
Qed.

(** *** Who may change the state *)

(** The step of a frame that holds a lock and is not inside the vendor's deinit. *)
Definition owner_step (s : list frame) : Prop :=
  exists fr s0, s = fr :: s0 /\ inside_deinit fr = 0%nat /\
    (holds_lifecycle fr = 1 \/ holds_teardown fr = 1)%nat.

Lemma owner_top fr s :
  inside_deinit fr = 0%nat -> (holds_lifecycle fr = 1 \/ holds_teardown fr = 1)%nat ->
  owner_step (fr :: s).
Proof. intros H1 H2. by exists fr, s. Qed.

Lemma teardown_state t td i i' td' ev :
  ensure_uninitialized bound t td i = Some (i', td', ev) ->
  (state i' = state i \/ td = TdClose \/ td = TdPublish) /\
  (forall wait, td' = Some (TdVendor true wait) -> state i' = ShuttingDown).
Proof.
  intros H. destruct td; cbn [ensure_uninitialized teardown_impl] in H;
    try (repeat case_match; simplify_eq/=; (split; [by auto|by intros])).
  destruct (close_gate bound i) as [[i1 run] wt] eqn:E. injection H as <- <- <-.
  split; [auto|]. intros wait [= ->]. unfold close_gate in E. repeat case_match; by simplify_eq/=.
Qed.

(** [state] changes only under a lock, and is [ShuttingDown] once the vendor's
    deinit runs. *)
Lemma thread_step_state l t s i i' s' ev :
  thread_step bound l t s i = Some (i', s', ev) -> typed s ->
  (state i' = state i \/ owner_step s) /\
  (weight inside_deinit s' <= weight inside_deinit s \/ state i' = ShuttingDown)%nat.
Proof.
  intros H Ht. unfold weight. destruct l; cbn [thread_step] in H.
  - case_match; [|done]. injection H as H. destruct (in_callback_context s) eqn:Hx.
    + apply public_call_reentrant in H as (_ & ? & -> & _); auto.
    + apply public_call_entered in H as (-> & _ & ->); [|done]. destruct c; auto.
  - destruct s as [|[c cb p|td| | |] s0]; try done.
    + destruct p; cbn [call_step] in H.
      * case_match; [done|]. injection H as <- <- <-. auto.
      * split; [right; by apply owner_top; cbn; auto|]. left.
        case_match; [injection H as <- <- <-; cbn; lia|]. destruct (installs _ cb i).
        injection H as <- <- <-. cbn. lia.
      * split; [right; by apply owner_top; cbn; auto|]. left.
        destruct (match entry _ with Some fn => bound fn | None => true end);
          injection H as <- <- <-; cbn; lia.
      * done.
      * unfold finish_with_deferred_teardown in H.
        destruct (in_vendor_frames s0), (deferred_teardown i); injection H as <- <- <-; auto.
      * split; [right; by apply owner_top; cbn; auto|]. left.
        destruct (ends _ l a i). injection H as <- <- <-. cbn. lia.
      * destruct (ensure_uninitialized bound t t0 i) as [[[i1 td'] ev']|] eqn:E; [|done].
        apply teardown_state in E as [[E|[->| ->]] Hv]; destruct td' as [td'|];
          injection H as <- <- <-; (split; [eauto; right; by apply owner_top; cbn; auto|]);
          cbn; try (left; lia); destruct td' as [| | | |[]| |]; try (left; cbn; lia);
          right; by eapply Hv.
    + unfold deinit_step in H.
      destruct (ensure_uninitialized bound t td i) as [[[i1 td'] ev']|] eqn:E; [|done].
      apply teardown_state in E as [[E|[->| ->]] Hv]; destruct td' as [td'|];
        injection H as <- <- <-; (split; [eauto; right; by apply owner_top; cbn; auto|]);
        cbn; try (left; lia); destruct td' as [| | | |[]| |]; try (left; cbn; lia);
        right; by eapply Hv.
  - destruct s as [|[? ? []| | | |] s0]; try done. case_match; [|done]. injection H as <- <- <-. auto.
  - destruct s as [|[? ? []| | | |] s0]; try done. injection H as <- <- <-. auto.
  - case_match; [|done]. injection H as H.
    apply deliver_result in H as [(_ & -> & -> & _)|(_ & cb & -> & _ & Hs & _)]; auto.
  - destruct s as [|[] s0]; try done. injection H as <- <- <-. auto.
  - case_match; [|done]. injection H as <- <- <-. auto.
  - case_match; [|done]. injection H as <- <- <-. auto.
  - destruct s as [|[] s0]; try done; injection H as <- <- <-; auto.
Qed.

End Steps.

(** ** The invariant *)

Record inv (w : system) : Prop := {
  inv_lifecycle : total holds_lifecycle (threads w) = Nat.b2n (lifecycle_mutex (im w));
  inv_teardown : total holds_teardown (threads w) = Nat.b2n (teardown_mutex (im w));
  inv_flight : total delivering (threads w) = in_flight (im w);
  inv_typed : Forall typed (threads w);
  inv_closing : (0 < total inside_deinit (threads w))%nat -> state (im w) = ShuttingDown }.

Lemma inv_covered w t s : inv w -> threads w !! t = Some s -> covered s (im w).
Proof.
  intros [H1 H2 H3 _ _] Ht. split; [rewrite <- H1|rewrite <- H2|rewrite <- H3]; by eapply total_lookup.
Qed.

Lemma inv_lookup w t s : inv w -> threads w !! t = Some s -> typed s.
Proof. intros [_ _ _ H _] Ht. rewrite Forall_forall in H. by eapply H, list_elem_of_In, list_elem_of_lookup_2. Qed.

(** A count bounded by another leaves room for one more frame. *)
Lemma total_le f g ths : (forall fr, f fr <= g fr)%nat -> (total f ths <= total g ths)%nat.
Proof.
  intros H. assert (Hw : forall s, (weight f s <= weight g s)%nat).
  { induction s as [|fr s IH]; [done|]. specialize (H fr). cbn. unfold weight in IH. lia. }
  induction ths as [|s ths IH]; [done|]. specialize (Hw s). cbn. unfold total in IH. lia.
Qed.

Lemma total_slack f g ths t fr s :
  (forall fr, f fr <= g fr)%nat -> ths !! t = Some (fr :: s) -> f fr = 0%nat ->
  (total f ths + g fr <= total g ths)%nat.
Proof.
  intros H Ht Hf.
  pose proof (total_insert f ths t _ s Ht). pose proof (total_insert g ths t _ s Ht).
  pose proof (total_le f g (<[t:=s]> ths) H). cbn in *. unfold weight in *. lia.
Qed.

Lemma inside_deinit_lifecycle fr : (inside_deinit fr <= holds_lifecycle fr)%nat.
Proof.
  destruct fr as [? ? [| | | | | |? ? td]|td| | |]; cbn; try lia; destruct td as [| | | |[]| |]; cbn; lia.
Qed.

Lemma inside_deinit_teardown fr : (inside_deinit fr <= holds_teardown fr)%nat.
Proof.
  destruct fr as [? ? [| | | | | |? ? td]|td| | |]; cbn; try lia; destruct td as [| | | |[]| |]; cbn; lia.
Qed.

Section Invariant.
  Context (bound : VendorFn -> bool).

Lemma b2n_le b : (Nat.b2n b <= 1)%nat.
Proof. destruct b; cbn; lia. Qed.

(** A lock holder that is not inside the vendor's deinit excludes it. *)
Lemma owner_excludes_deinit w t s :
  inv w -> threads w !! t = Some s -> owner_step s -> total inside_deinit (threads w) = 0%nat.
Proof.
  intros Hi Ht (fr & s0 & -> & H0 & [H1|H1]).
  - pose proof (total_slack _ _ _ _ _ _ inside_deinit_lifecycle Ht H0) as H.
    rewrite (inv_lifecycle _ Hi) in H. pose proof (b2n_le (lifecycle_mutex (im w))). lia.
  - pose proof (total_slack _ _ _ _ _ _ inside_deinit_teardown Ht H0) as H.
    rewrite (inv_teardown _ Hi) in H. pose proof (b2n_le (teardown_mutex (im w))). lia.
Qed.

Lemma inv_step t l w w' : step bound t l w = Some w' -> inv w -> inv w'.
Proof.
  unfold step. intros H Hi. destruct (threads w !! t) as [s|] eqn:Ht; [|done].
  destruct (thread_step bound l t s (im w)) as [[[i s'] ev]|] eqn:Hs; [|done]. injection H as <-.
  pose proof (inv_covered _ _ _ Hi Ht) as Hc. pose proof (inv_lookup _ _ _ Hi Ht) as Hty.
  destruct (thread_step_balanced _ _ _ _ _ _ _ _ Hs Hc) as [B1 B2 B3].
  destruct (thread_step_state _ _ _ _ _ _ _ _ Hs Hty) as [Hst Hin].
  pose proof Hi as [I1 I2 I3 I4 I5]. split; cbn [im threads].
  - pose proof (total_insert holds_lifecycle _ t s s' Ht). lia.
  - pose proof (total_insert holds_teardown _ t s s' Ht). lia.
  - pose proof (total_insert delivering _ t s s' Ht). lia.
  - apply Forall_insert; [done|]. eapply thread_step_typed; [exact Hs|done|]. intros Hg.
    pose proof (total_lookup inside_deinit _ _ _ Ht).
    destruct (decide (weight inside_deinit s = 0%nat)) as [|Hne]; [done|].
    rewrite I5 in Hg by lia. done.
  - intros Hpos. destruct Hin as [Hle|?]; [|done].
    pose proof (total_insert inside_deinit _ t s s' Ht).
    destruct Hst as [->|Ho]; [apply I5; lia|].
    pose proof (owner_excludes_deinit _ _ _ Hi Ht Ho). lia.
Qed.

Lemma inv_initial n : inv (initial n).
Proof.
  split; unfold initial; cbn [threads im]; rewrite ?total_replicate; try done; [|lia].
  by apply Forall_replicate.
Qed.

Lemma run_inv ls w w' : run bound ls w = Some w' -> inv w -> inv w'.
Proof.
  revert w. induction ls as [|[t l] ls IH]; intros w H Hi; cbn in H; [by simplify_eq|].
  destruct (step bound t l w) as [w1|] eqn:E; [|done]. by eapply IH, inv_step.
Qed.

Lemma reachable_inv n w : reachable bound n w -> inv w.
Proof. intros [ls H]. by eapply run_inv, inv_initial. Qed.

End Invariant.

(** ** Shapes

    Without another adapter on the same threads, a stack is one of these: in
    particular no public call of the adapter runs below another one, so no thread
    ever takes a mutex twice. *)

Definition own_frame (f : frame) : Prop :=
  match f with FOtherVendor | FOtherCallback => False | _ => True end.

Definition alone (w : system) : Prop := Forall (Forall own_frame) (threads w).

Inductive shape : list frame -> Prop :=
  | shape_idle : shape []
  | shape_call c cb p : c <> CallDeinit -> shape [FCall c cb p]
  | shape_deinit td : shape [FDeinit td]
  | shape_delivery d cb : shape [FDeliver d cb]
  | shape_synchronous d cb c cb' l :
      c <> CallDeinit -> shape [FDeliver d cb; FCall c cb' (InVendor l)].

Lemma entered_idle s : entered_from_project s -> Forall own_frame s -> s = [].
Proof.
  intros [H1 H2] Ho. destruct s as [|[| |? [cb|]| |] s]; try done. by inversion Ho.
Qed.

Lemma typed_shape s : typed s -> Forall own_frame s -> shape s.
Proof.
  intros Ht Ho. destruct s as [|fr s]; [constructor|]. inversion Ho as [|? ? Hf Hs]; subst.
  destruct fr as [c cb p|td|d cb| |]; [..|done|done]; cbn in Ht.
  - destruct Ht as ([Hc _] & He & _). rewrite (entered_idle s He Hs). by constructor.
  - destruct Ht as (He & _). rewrite (entered_idle s He Hs). constructor.
  - destruct Ht as (Hv & Hd & Ht). destruct s as [|[c' cb' p|td| | |] s]; try done; [constructor|..].
    + destruct Ht as ([Hc _] & He & _). inversion Hs as [|? ? _ Hs']; subst.
      rewrite (entered_idle s He Hs'). destruct p as [| | | | | |? ? [| | | |[]| |]]; try done.
      by constructor.
    + by destruct td as [| | | |[]| |].
    + by inversion Hs.
Qed.

Lemma alone_own w t s : alone w -> threads w !! t = Some s -> Forall own_frame s.
Proof.
  unfold alone. rewrite Forall_forall. intros H Ht. by eapply H, list_elem_of_In, list_elem_of_lookup_2.
Qed.

Lemma inv_shape w t s : inv w -> alone w -> threads w !! t = Some s -> shape s.
Proof. intros Hi Ha Ht. apply typed_shape; [by apply (inv_lookup w t)|by apply (alone_own w t)]. Qed.

(** What a frame of the adapter may lie on, whoever else is on the thread: a public
    call on nothing or on a callback of another adapter, a delivery on nothing, on
    the vendor call that makes it, or on a call of another adapter. *)
Definition sits_on (f : frame) (below : list frame) : Prop :=
  match f, below with
  | (FCall _ _ _ | FDeinit _), ([] | FOtherCallback :: _) => True
  | FDeliver _ _, ([] | FCall _ _ (InVendor _) :: _ | FOtherVendor :: _) => True
  | (FOtherVendor | FOtherCallback), _ => True
  | _, _ => False
  end.

Lemma entered_below s : entered_from_project s -> s = [] \/ exists s', s = FOtherCallback :: s'.
Proof.
  intros [H1 H2]. destruct s as [|[| |? [cb|]| |] s]; try done; [by left|]. right. by eexists.
Qed.

Lemma typed_top f s : typed (f :: s) -> sits_on f s.
Proof.
  destruct f as [c cb p|td|d cb| |]; cbn; try done.
  - intros (_ & He & _). by destruct (entered_below s He) as [->|[? ->]].
  - intros (He & _). by destruct (entered_below s He) as [->|[? ->]].
  - intros (Hv & Hd & Ht). destruct s as [|[c' cb' p|td| | |] s]; try done.
    + destruct p as [| | | | | |? ? [| | | |[]| |]]; done.
    + by destruct td as [| | | |[]| |].
Qed.

Lemma typed_tail f s : typed (f :: s) -> typed s.
Proof. destruct f; cbn; tauto. Qed.

Lemma typed_sits s above f below : typed s -> s = above ++ f :: below -> sits_on f below.
Proof.
  revert s. induction above as [|g above IH]; intros s Ht ->; [by apply typed_top|].
  by eapply IH; [eapply typed_tail|].
Qed.

(** ** Progress *)

(** Moves nobody asks for: a thread runs on, the vendor, a project callback or
    another adapter returns. *)
Definition active (l : label) : bool :=
  match l with LStep | LAnswer _ | LEnd | LOtherEnd => true | _ => false end.

(** No public call of the adapter was entered on top of another public call or of a
    callback of it; frames of other adapters may be anywhere. *)
Definition public_frame (f : frame) : bool := match f with FCall _ _ _ | FDeinit _ => true | _ => false end.

Fixpoint orderly (s : list frame) : Prop :=
  match s with
  | [] => True
  | f :: below => (public_frame f = true -> Forall (fun g => ~ own_frame g) below) /\ orderly below
  end.

Lemma alone_orderly s : typed s -> Forall own_frame s -> orderly s.
Proof.
  intros Ht Ho. destruct (typed_shape s Ht Ho); cbn; repeat split; intros; try done; by apply List.Forall_nil.
Qed.

(** The top of an orderly stack with a public call or a delivery in it. *)
Lemma orderly_top s fr :
  orderly s -> fr ∈ s -> own_frame fr ->
  exists top below, s = top :: below /\ (public_frame top = true -> top = fr).
Proof.
  destruct s as [|top below]; [by intros _ ?%elem_of_nil|]. intros [Hp _] Hin Hf.
  exists top, below. split; [done|]. intros Ht. apply elem_of_cons in Hin as [->|Hin]; [done|].
  specialize (Hp Ht). rewrite List.Forall_forall in Hp.
  by destruct (Hp fr (proj1 (list_elem_of_In _ _) Hin)).
Qed.

Section Progress.
  Context (bound : VendorFn -> bool).

Definition can_move (w : system) (t : nat) : Prop :=
  exists l w', active l = true /\ step bound t l w = Some w'.

Lemma thread_moves w t s l r :
  threads w !! t = Some s -> active l = true -> thread_step bound l t s (im w) = Some r ->
  can_move w t.
Proof.
  intros Ht Hl Hs. destruct r as [[i s'] ev]. eexists l, _. split; [done|].
  unfold step. by rewrite Ht, Hs.
Qed.

Definition some_answer (c : SdkCall) : answer :=
  match c with
  | CallSnapshot => Getters (0, mkRawSystem 0 0 0) (0, mkRawPower fzero fzero fzero 0 0) 0
  | _ => Code 0
  end.

Lemma some_answer_ok c : answers c (some_answer c) = true.
Proof. by destruct c. Qed.

(** A teardown that holds the lifecycle mutex is not blocked. *)
Lemma teardown_moves t td i :
  teardown_holds_lifecycle td = 1%nat -> is_Some (ensure_uninitialized bound t td i).
Proof.
  destruct td; intros H; try done; cbn; repeat case_match; by eexists.
Qed.

Lemma call_teardown_moves t c cb l a td s i :
  is_Some (ensure_uninitialized bound t td i) -> is_Some (call_step bound t c cb (InTail l a td) s i).
Proof. intros [[[i' [td'|]] ev] H]; cbn; rewrite H; by eexists. Qed.

Lemma deinit_teardown_moves t td s i :
  is_Some (ensure_uninitialized bound t td i) -> is_Some (deinit_step bound t td s i).
Proof. intros [[[i' [td'|]] ev] H]; unfold deinit_step; rewrite H; by eexists. Qed.

(** So is a holder of the lifecycle mutex on top of its thread. *)
Lemma holder_moves w t fr s :
  threads w !! t = Some (fr :: s) -> holds_lifecycle fr = 1%nat -> can_move w t.
Proof.
  intros Ht Hh. destruct fr as [c cb p|td| | |]; try done.
  - enough (H : exists l, active l = true /\ is_Some (thread_step bound l t (FCall c cb p :: s) (im w))).
    { destruct H as (l & Hl & r & Hr). by eapply thread_moves. }
    destruct p; try done.
    + exists LStep. split; [done|]. cbn. case_match; [by eexists|]. destruct (installs _ cb (im w)). by eexists.
    + exists LStep. split; [done|]. cbn. repeat case_match; by eexists.
    + exists (LAnswer (some_answer c)). split; [done|]. cbn. rewrite some_answer_ok. by eexists.
    + exists LStep. split; [done|]. cbn. destruct (finish_with_deferred_teardown s (im w)). by eexists.
    + exists LStep. split; [done|]. cbn. destruct (ends _ l a (im w)). by eexists.
    + exists LStep. split; [done|]. by apply call_teardown_moves, teardown_moves.
  - destruct (deinit_teardown_moves t td s (im w)) as [r Hr]; [by apply teardown_moves|].
    by eapply (thread_moves w t _ LStep).
Qed.

(** A frame on top that is not a public call can end. *)
Lemma other_moves w t top below :
  threads w !! t = Some (top :: below) -> public_frame top = false -> can_move w t.
Proof.
  intros Ht Hp. destruct top; try done; [by eapply (thread_moves w t _ LEnd)| |];
    by eapply (thread_moves w t _ LOtherEnd).
Qed.

(** The thread one of whose frames counts: it can move, or that frame is its top. *)
Lemma frame_cases w t s fr :
  orderly s -> threads w !! t = Some s -> fr ∈ s -> own_frame fr ->
  can_move w t \/ (exists below, s = fr :: below) /\ public_frame fr = true.
Proof.
  intros Ho Ht Hin Hf. destruct (orderly_top s fr Ho Hin Hf) as (top & below & -> & Htop).
  destruct (public_frame top) eqn:Hp; [|left; by eapply other_moves].
  right. rewrite <- (Htop eq_refl). split; [by exists below|done].
Qed.

Definition all_orderly (w : system) : Prop := forall t s, threads w !! t = Some s -> orderly s.

Lemma lifecycle_owner_moves w n :
  reachable bound n w -> all_orderly w -> lifecycle_mutex (im w) = true -> exists t, can_move w t.
Proof.
  intros Hr Ha Hl. pose proof (reachable_inv _ _ _ Hr) as Hi.
  destruct (total_witness holds_lifecycle (threads w)) as (t & s & fr & Ht & Hin & Hpos).
  { rewrite (inv_lifecycle _ Hi), Hl. cbn. lia. }
  exists t. destruct (frame_cases w t s fr (Ha t s Ht) Ht Hin) as [?|[[below ->] _]]; [by destruct fr; cbn in Hpos; try lia|done|].
  eapply holder_moves; [done|]. destruct fr as [? ? [| | | | | |? ? []]|[]| | |]; cbn in *; lia.
Qed.

(** A frame that runs [ensure_uninitialized]. *)
Inductive tears_down : frame -> teardown -> Prop :=
  | tears_deinit td : tears_down (FDeinit td) td
  | tears_tail c cb l a td : tears_down (FCall c cb (InTail l a td)) td.

Lemma tears_down_moves w t fr td s :
  threads w !! t = Some (fr :: s) -> tears_down fr td ->
  is_Some (ensure_uninitialized bound t td (im w)) -> can_move w t.
Proof.
  intros Ht Hf H. inversion Hf; subst.
  - destruct (deinit_teardown_moves t td s (im w) H) as [r Hr]. by eapply (thread_moves w t _ LStep).
  - destruct (call_teardown_moves t c cb l a td s (im w) H) as [r Hr].
    by eapply (thread_moves w t _ LStep).
Qed.

(** The teardown that owns [teardown_mutex] waits only for threads that can move:
    the owner of the lifecycle mutex, or the callbacks in flight. *)
Lemma teardown_owner_moves n w t fr td s :
  reachable bound n w -> all_orderly w -> threads w !! t = Some (fr :: s) -> tears_down fr td ->
  td <> TdQueue -> exists t', can_move w t'.
Proof.
  intros Hr Ha Ht Hf Hq. destruct (ensure_uninitialized bound t td (im w)) eqn:Hs.
  { exists t. by eapply tears_down_moves. }
  destruct td; cbn in Hs; try done.
  - by case_match.
  - destruct (lifecycle_mutex (im w)) eqn:El; [|done]. by eapply lifecycle_owner_moves.
  - by destruct (close_gate bound (im w)) as [[]].
  - destruct (in_flight (im w)) eqn:Ef; [done|].
    destruct (total_witness delivering (threads w)) as (t' & s' & f & Ht' & Hin & Hpos).
    { rewrite (inv_flight _ (reachable_inv _ _ _ Hr)). lia. }
    exists t'. destruct (frame_cases w t' s' f (Ha t' s' Ht') Ht' Hin) as [?|[_ Hp]]; [by destruct f; cbn in Hpos; try lia|done|].
    destruct f; cbn in *; try done; lia.
Qed.

Lemma holds_teardown_tears fr :
  (0 < holds_teardown fr)%nat -> exists td, tears_down fr td /\ td <> TdQueue.
Proof.
  destruct fr as [c cb [| | | | | |l a td]|td| | |]; cbn; try lia; intros H;
    (exists td; split; [constructor|intros ->; cbn in H; lia]).
Qed.

Lemma tears_down_progress n w t fr td s :
  reachable bound n w -> all_orderly w -> threads w !! t = Some (fr :: s) -> tears_down fr td ->
  exists t', can_move w t'.
Proof.
  intros Hr Ha Ht Hf. destruct (decide (td = TdQueue)) as [->|Hq]; [|by eapply teardown_owner_moves].
  destruct (teardown_mutex (im w)) eqn:Em.
  - destruct (total_witness holds_teardown (threads w)) as (t' & s' & f & Ht' & Hin & Hpos).
    { rewrite (inv_teardown _ (reachable_inv _ _ _ Hr)), Em. cbn. lia. }
    destruct (holds_teardown_tears f Hpos) as (td & Htd & ?).
    destruct (frame_cases w t' s' f (Ha t' s' Ht') Ht' Hin) as [?|[[below ->] _]];
      [by destruct Htd|by eexists|]. by eapply teardown_owner_moves.
  - exists t. eapply tears_down_moves; [done..|]. cbn. rewrite Em. by eexists.
Qed.

(** The adapter does not deadlock, with any number of client threads, vendor
    threads and other adapters on the same threads, as long as no public call was
    entered on top of another public call or a callback of this adapter
    ([orderly]; the adapter itself answers such calls on the spot, except when a
    callback of another adapter lies in between, see [SdkAdapterFindings]): while some
    thread is inside the adapter, some thread can go on by itself, or the vendor, the
    project callback or the other adapter it is waiting for can return.  Claim C11. *)
Theorem adapter_never_deadlocks n w t fr s :
  reachable bound n w -> all_orderly w -> threads w !! t = Some (fr :: s) -> exists t', can_move w t'.
Proof.
  intros Hr Ha Ht. destruct (public_frame fr) eqn:Hp; [|exists t; by eapply other_moves].
  destruct fr as [c cb p|td| | |]; try done.
  - destruct p as [| | | | | |l a td].
    { destruct (lifecycle_mutex (im w)) eqn:E; [by eapply lifecycle_owner_moves|].
      exists t. eapply (thread_moves w t _ LStep); [done..|]. cbn. by rewrite E. }
    1-5: exists t; by eapply holder_moves.
    eapply tears_down_progress; [done..|constructor].
  - eapply tears_down_progress; [done..|constructor].
Qed.

End Progress.

(** ** Results *)

Lemma inside_vendor_lifecycle fr : (inside_vendor fr <= holds_lifecycle fr)%nat.
Proof.
  destruct fr as [? ? [| | | | | |? ? td]|td| | |]; cbn; try lia; destruct td as [| | | |[]| |]; cbn; lia.
Qed.

(** The vendor library is entered by one thread at a time, under the lifecycle
    mutex; [in_flight] is exactly the number of deliveries in progress, so that it
    never underflows when one ends; and the vendor's deinit runs with the gate
    closed. Claim C12. *)
Theorem vendor_is_exclusive bound n w :
  reachable bound n w ->
  (total inside_vendor (threads w) <= 1)%nat /\
  ((0 < total inside_vendor (threads w))%nat -> lifecycle_mutex (im w) = true) /\
  in_flight (im w) = total delivering (threads w) /\
  (forall t d cb s, threads w !! t = Some (FDeliver d cb :: s) -> (0 < in_flight (im w))%nat) /\
  ((0 < total inside_deinit (threads w))%nat -> gate_open (state (im w)) = false).
Proof.
  intros Hr. pose proof (reachable_inv _ _ _ Hr) as Hi.
  pose proof (total_le _ _ (threads w) inside_vendor_lifecycle) as Hle. pose proof Hi as [I1 I2 I3 I4 I5].
  split_and!.
  - pose proof (b2n_le (lifecycle_mutex (im w))). lia.
  - intros H. destruct (lifecycle_mutex (im w)); [done|]. cbn in *. lia.
  - done.
  - intros t d cb s Ht. pose proof (total_lookup delivering _ _ _ Ht). cbn in *. lia.
  - intros H. by rewrite (I5 H).
Qed.

(** The stacks of the threads, whatever other adapters do on them: a public call of
    this adapter is at the bottom of its thread or directly on a callback of another
    adapter, never directly on a call or a callback of this one; a delivery is at the
    bottom, directly on the vendor call that makes it, or on a call of another
    adapter, never inside the vendor's deinit.  So a thread without frames of another
    adapter is outside, in one public call, or in one delivery, which is either the
    vendor's own or made by the one vendor call the thread is in.  A public call from a callback context is answered on the spot and enters
    nothing; a deinit from there records the request.  Claim C13. *)
Theorem adapter_stacks_are_typed bound n w t s :
  reachable bound n w -> threads w !! t = Some s ->
  (forall above f below, s = above ++ f :: below -> sits_on f below) /\
  (Forall own_frame s -> shape s) /\
  (forall c cb, in_callback_context s = true -> in_project_code s = true ->
     exists i r, thread_step bound (LCall c cb) t s (im w) = Some (i, s, [EvReturn t c r]) /\
       i = match c with
           | CallDeinit => (im w) <| deferred_teardown := true |>
           | _ => im w
           end).
Proof.
  intros Hr Ht. pose proof (inv_lookup _ _ _ (reachable_inv _ _ _ Hr) Ht) as Hty.
  split_and!; [intros above f below; by apply typed_sits|by apply typed_shape|].
  intros c cb Hc Hp. unfold thread_step, public_call.
  rewrite Hp. destruct c; cbn; unfold deinit; rewrite Hc; by eexists _, _.
Qed.

(** ** Witnesses *)

Definition all_bound : VendorFn -> bool := fun _ => true.

(** Thread 0 initialises; inside, the vendor delivers a status. *)
Definition init_schedule : list (nat * label) :=
  [(0, LCall (CallInit 1000) (Some 1)); (0, LStep); (0, LStep); (0, LStep);
   (0, LDeliver (DStatus true true))]%nat.

(** The vendor call returns, a vendor thread delivers, and thread 0 deinitialises:
    it waits for the callback of thread 1. *)
Definition wait_schedule : list (nat * label) :=
  init_schedule ++
  [(0, LEnd); (0, LAnswer (Code ASTRALL_RES_SUCCESSED)); (0, LStep); (0, LStep);
   (1, LDeliver (DStatus false false)); (0, LCall CallDeinit None);
   (0, LStep); (0, LStep); (0, LStep); (0, LStep); (0, LStep)]%nat.

Definition after (ls : list (nat * label)) : system :=
  default (initial 2) (run all_bound ls (initial 2)).

Definition runs (ls : list (nat * label)) : bool :=
  match run all_bound ls (initial 2) with Some _ => true | None => false end.

Lemma after_reachable ls : runs ls = true -> reachable all_bound 2 (after ls).
Proof. unfold runs, after. intros H. exists ls. by destruct (run all_bound ls (initial 2)). Qed.

Lemma vendor_is_exclusive_witness :
  total inside_vendor (threads (after init_schedule)) = 1%nat /\
  lifecycle_mutex (im (after init_schedule)) = true /\ in_flight (im (after init_schedule)) = 1%nat.
Proof.
  destruct (vendor_is_exclusive all_bound 2 (after init_schedule)) as (_ & H1 & H2 & _).
  - apply after_reachable. vm_compute. reflexivity.
  - split; [vm_compute; reflexivity|]. split; [apply H1; vm_compute; lia|].
    rewrite H2. vm_compute. reflexivity.
Defined.

Lemma adapter_stacks_are_typed_witness :
  exists s, threads (after init_schedule) !! 0%nat = Some s /\ shape s /\
    exists i r, thread_step all_bound (LCall CallDeinit None) 0 s (im (after init_schedule)) =
      Some (i, s, [EvReturn 0 CallDeinit r]) /\ deferred_teardown i = true.
Proof.
  eexists. split; [vm_compute; reflexivity|].
  edestruct (adapter_stacks_are_typed all_bound 2 (after init_schedule) 0) as (_ & H1 & H2);
    [apply after_reachable; vm_compute; reflexivity|vm_compute; reflexivity|].
  split; [apply H1; repeat constructor|].
  destruct (H2 CallDeinit None) as (i & r & H3 & H4); [reflexivity..|].
  exists i, r. split; [exact H3|]. by rewrite H4.
Defined.

(** Thread 1's callback is inside a call of another adapter. *)
Definition other_schedule : list (nat * label) := (wait_schedule ++ [(1, LOtherVendor)])%nat.

Lemma adapter_never_deadlocks_witness :
  head <$> threads (after other_schedule) = [Some (FDeinit TdWait); Some FOtherVendor] /\
  exists t, can_move all_bound (after other_schedule) t.
Proof.
  split; [vm_compute; reflexivity|].
  apply (adapter_never_deadlocks all_bound 2 (after other_schedule) 0 (FDeinit TdWait) []).
  - apply after_reachable. vm_compute. reflexivity.
  - intros [|[|t]] s Hs; vm_compute in Hs; try done; injection Hs as <-; by repeat constructor.
  - vm_compute. reflexivity.
Defined.
