(* ===== verification/SdkAdapterSessions.v ===== *)
(** * SdkAdapterSessions: what one client sees of the adapter

    The runtime calls the adapter from one thread; vendor threads only deliver,
    and project callbacks may call back.  Under that discipline the adapter's
    events follow an abstract session protocol: the vendor is initialised once,
    used only while it is up, deinitialised exactly once, callbacks run only while
    a session is open, and when the teardown of a [deinit] returns none is left (a
    [deinit] called inside a callback only records the request). *)

From S2P Require Import Prelude Cxx SdkTypes SdkAdapter SdkAdapterSafety.

(** ** The session protocol *)

Inductive phase :=
  | Closed                           (* no session *)
  | Opening                          (* the gate is open, the vendor not yet up *)
  | Up
  | Failed                           (* the vendor's init failed or threw *)
  | Owing                            (* the gate is shut, the vendor's deinit is due *)
  | Dropped.                         (* a failed session; the vendor's deinit is allowed *)

Section Protocol.
  Context (bound : VendorFn -> bool).

(** One event in a phase with [n] callbacks running; [None] breaks the protocol. *)
Definition advance (e : event) (p : phase * nat) : option (phase * nat) :=
  let '(ph, n) := p in
  match e, ph with
  | EvOpen _, (Closed | Dropped) => Some (Opening, n)
  | EvShut _, Opening => Some (Closed, n)
  | EvShut _, Up => Some (if bound FnDeinit then Owing else Closed, n)
  | EvShut _, Failed => Some (Dropped, n)
  | EvVendor _ (VInit _), Opening => Some (Opening, n)
  | EvVendor _ (VInit _), _ => None
  | EvVendor _ VDeinit, (Owing | Dropped) => Some (Closed, n)
  | EvVendor _ VDeinit, _ => None
  | EvVendor _ _, Up => Some (Up, n)
  | EvVendorDone _ (CallInit _) (Code code), Opening =>
      Some (if code =? ASTRALL_RES_SUCCESSED then Up else Failed, n)
  | EvVendorDone _ (CallInit _) _, _ => None
  | EvVendorDone _ _ _, Up => Some (Up, n)
  | EvReturn _ (CallInit _) RThrow, Opening => Some (Failed, n)
  | EvReturn _ _ _, _ => Some (ph, n)
  | EvStart _ _ _, (Opening | Up | Failed) => Some (ph, S n)
  | EvStop _, _ => match n with S n => Some (ph, n) | O => None end
  | EvClosed _, (Closed | Dropped) => match n with O => Some (ph, O) | _ => None end
  | _, _ => None
  end.

(** The protocol's state after a trace (newest event first). *)
Fixpoint protocol (tr : list event) : option (phase * nat) :=
  match tr with
  | [] => Some (Closed, 0%nat)
  | e :: tr => match protocol tr with Some p => advance e p | None => None end
  end.

(** ** The discipline *)

(** A step that keeps it: no other adapter, and only [client] calls from outside
    a callback. *)
Definition disciplined (client t : nat) (l : label) (w : system) : Prop :=
  match l with
  | LOtherVendor | LOtherCallback | LOtherEnd => False
  | LCall _ _ => t = client \/ exists s, threads w !! t = Some s /\ in_callback_context s = true
  | _ => True
  end.

Inductive client_reachable (client n : nat) : system -> Prop :=
  | client_start : client_reachable client n (initial n)
  | client_step w t l w' :
      client_reachable client n w -> disciplined client t l w -> step bound t l w = Some w' ->
      client_reachable client n w'.

(** ** The simulation *)

Definition shut (p : phase) : Prop := p = Closed \/ p = Dropped.

(** Between calls. *)
Definition at_rest (p : phase) (st : AdapterState) : Prop :=
  match st with
  | Uninitialized | ShuttingDown => shut p
  | Initializing => p = Up \/ p = Failed
  | Initialized => p = Up
  end.

Definition teardown_ok (td : teardown) (p : phase) (st : AdapterState) : Prop :=
  match td with
  | TdVendor _ _ | TdWait | TdPublish => (st = Uninitialized \/ st = ShuttingDown) /\ shut p
  | _ => at_rest p st
  end.

(** The phase and the state fit the client's call. *)
Definition call_ok (c : SdkCall) (pos : pc) (p : phase) (st : AdapterState) : Prop :=
  match pos with
  | AtLock | AtGate => at_rest p st
  | InTail _ _ td => teardown_ok td p st
  | AtTable _ | InVendor _ =>
      match c with CallInit _ => st = Initializing /\ p = Opening | _ => st = Initialized /\ p = Up end
  | AtCheckpoint _ a | AtEnd _ a =>
      match c, a with
      | CallInit _, Code code =>
          st = Initializing /\ p = if code =? ASTRALL_RES_SUCCESSED then Up else Failed
      | CallInit _, _ => False
      | _, _ => st = Initialized /\ p = Up
      end
  end.

Fixpoint client_ok (s : list frame) (p : phase) (st : AdapterState) : Prop :=
  match s with
  | [] => at_rest p st
  | FCall c _ pos :: _ => call_ok c pos p st
  | FDeinit td :: _ => teardown_ok td p st
  | _ :: s' => client_ok s' p st
  end.

(** The stack of a thread that is not the client's. *)
Inductive bystander : list frame -> Prop :=
  | bystander_idle : bystander []
  | bystander_delivery d cb : bystander [FDeliver d cb].

Record simulates (client : nat) (w : system) : Prop := {
  sm_inv : inv w;
  sm_alone : alone w;
  sm_bystanders : forall t s, threads w !! t = Some s -> t <> client -> bystander s;
  sm_phase : exists p s, protocol (events w) = Some (p, in_flight (im w)) /\
    threads w !! client = Some s /\ client_ok s p (state (im w)) }.

(** Several events, newest first. *)
Fixpoint advances (evs : list event) (p : phase * nat) : option (phase * nat) :=
  match evs with
  | [] => Some p
  | e :: evs => match advances evs p with Some p => advance e p | None => None end
  end.

Lemma protocol_app evs tr p : protocol tr = Some p -> protocol (evs ++ tr) = advances evs p.
Proof. intros H. induction evs as [|e evs IH]; cbn; [done|]. by rewrite IH. Qed.

Lemma at_rest_open p st : at_rest p st -> gate_open st = true -> p = Opening \/ p = Up \/ p = Failed.
Proof. destruct st; cbn; naive_solver. Qed.

(** An open gate means an open session. *)
Lemma client_ok_open s p st :
  shape s -> client_ok s p st -> gate_open st = true -> p = Opening \/ p = Up \/ p = Failed.
Proof.
  assert (Htd : forall td, teardown_ok td p st -> gate_open st = true -> p = Opening \/ p = Up \/ p = Failed).
  { intros td. destruct td; cbn; try (by apply at_rest_open); intros [[-> | ->] _]; done. }
  intros [|c cb pos _|td|d cb|d cb c cb' l _]; cbn; try apply at_rest_open.
  - destruct pos as [| | | |l a|l a|l a td]; cbn; try apply at_rest_open; try apply Htd;
      intros H _; repeat case_match; destruct_and?; subst; by auto.
  - apply Htd.
  - intros H _; repeat case_match; destruct_and?; subst; by auto.
Qed.

Lemma client_ok_state s p st :
  shape s -> client_ok s p st -> (st = Initialized -> p = Up) /\ (st = Uninitialized -> shut p).
Proof.
  assert (Hr : at_rest p st -> (st = Initialized -> p = Up) /\ (st = Uninitialized -> shut p)).
  { by destruct st. }
  assert (Htd : forall td, teardown_ok td p st ->
    (st = Initialized -> p = Up) /\ (st = Uninitialized -> shut p)).
  { intros td. destruct td; cbn; try exact Hr; intros [[-> | ->] ?]; done. }
  assert (Hc : forall c pos, call_ok c pos p st ->
    (st = Initialized -> p = Up) /\ (st = Uninitialized -> shut p)).
  { intros c pos. destruct pos as [| | | |l a|l a|l a td]; cbn; try exact Hr; try apply Htd;
      intros H; repeat case_match; destruct_and?; subst; done. }
  intros [|c cb pos _|td|d cb|d cb c cb' l _]; [exact Hr|apply Hc|apply Htd|exact Hr|apply (Hc c (InVendor l))].
Qed.

Lemma same_gate t i i' : state i' = state i -> gate_events t i i' = [].
Proof. intros H. unfold gate_events. rewrite H. by destruct (gate_open _). Qed.

Lemma close_gate_result i i' run wait :
  close_gate bound i = (i', run, wait) ->
  in_flight i' = in_flight i /\
  ((state i = Uninitialized /\ (state i' = Uninitialized \/ state i' = ShuttingDown) /\ run = false) \/
   (state i <> Uninitialized /\ state i' = ShuttingDown /\
    run = match state i with ShuttingDown => false | _ => bound FnDeinit end)).
Proof.
  unfold close_gate. cbn. intros H. destruct (state i) eqn:E;
    repeat (case_bool_decide; cbn in H; try done); try (case_match; cbn in H); simplify_eq/=; auto 8.
Qed.

Lemma teardown_protocol t td i i' td' ev p :
  ensure_uninitialized bound t td i = Some (i', td', ev) -> teardown_ok td p (state i) ->
  exists p', advances (ev ++ gate_events t i i') (p, in_flight i) = Some (p', in_flight i') /\
    match td' with Some td' => teardown_ok td' p' (state i') | None => at_rest p' (state i') end.
Proof.
  intros H Ht. destruct td; cbn [ensure_uninitialized teardown_impl] in H.
  - case_match; [done|]. injection H as <- <- <-. rewrite same_gate by done. by exists p.
  - destruct (bool_decide _ && _ && _) eqn:E; injection H as <- <- <-; rewrite same_gate by done.
    + bool_prop. apply Nat.eqb_eq in H0. cbn in *. rewrite H, H0 in *. exists p.
      destruct Ht as [-> | ->]; (split; [done|by cbn; unfold shut; auto]).
    + by exists p.
  - case_match; [done|]. injection H as <- <- <-. rewrite same_gate by done. by exists p.
  - destruct (close_gate bound i) as [[i1 run] wt] eqn:E. injection H as <- <- <-.
    apply close_gate_result in E as (Hf & Hg). rewrite Hf. cbn in Ht. unfold gate_events.
    destruct Hg as [(Es & Hs & ->)|(Es & Hs & ->)].
    + rewrite Es in *. exists p. destruct Hs as [-> | ->]; cbn; auto.
    + rewrite Hs. destruct (state i) eqn:Est; cbn in *; [done|..|by exists p; auto].
      * destruct Ht as [-> | ->], (bound FnDeinit) eqn:Eb; cbn; rewrite ?Eb; cbn; rewrite ?Eb;
          eexists; (split; [done|by unfold shut; auto]).
      * rewrite Ht. destruct (bound FnDeinit) eqn:Eb; cbn; rewrite ?Eb; cbn;
          eexists; (split; [done|by unfold shut; auto]).
  - injection H as <- <- <-. rewrite same_gate by done. exists p. split; [done|]. by case_match.
  - case_match; [|done]. injection H as <- <- <-. rewrite same_gate by done. by exists p.
  - injection H as <- <- <-. exists p. cbn in *. destruct Ht as [Hst Hp].
    unfold gate_events. cbn. by destruct Hst as [-> | ->].
Qed.

Lemma flight_of i i' : same_locks i i' -> in_flight i' = in_flight i.
Proof. by intros (_ & _ & ?). Qed.

(** What a method's gate sections do to the gate. *)
Lemma installs_state c cb i :
  state (installs (method_of bound c) cb i).2 = match c with CallInit _ => Initializing | _ => state i end.
Proof. by destruct c. Qed.

Lemma refuse_state c st :
  refuse_in (method_of bound c) st = None ->
  st = match c with CallInit _ => Uninitialized | _ => Initialized end.
Proof. destruct c, st; cbn; unfold needs_session; try case_decide; done. Qed.

Lemma refuse_ret c st : refuse_in (method_of bound c) st <> Some RThrow.
Proof. by destruct c, st. Qed.

Lemma undo_state c l i :
  state (undo (method_of bound c) l i) = match c with CallInit _ => Uninitialized | _ => state i end.
Proof. by destruct c. Qed.

Lemma ends_state c l a i :
  state (ends (method_of bound c) l a i).2 =
  match c with
  | CallInit _ => if code_of a =? ASTRALL_RES_SUCCESSED then Initialized else Uninitialized
  | _ => state i
  end.
Proof. destruct c; cbn; try case_match; done. Qed.

Lemma ends_ret c l a i : (ends (method_of bound c) l a i).1 <> RThrow.
Proof. destruct c; cbn; try case_match; done. Qed.

Lemma advance_return t c r p n :
  r <> RThrow -> advance (EvReturn t c r) (p, n) = Some (p, n).
Proof. intros H. destruct c; try done; by destruct r. Qed.

Lemma call_step_protocol t c cb pos i i' s' ev p :
  call_step bound t c cb pos [] i = Some (i', s', ev) -> pc_ok c pos -> call_ok c pos p (state i) ->
  exists p', advances (ev ++ gate_events t i i') (p, in_flight i) = Some (p', in_flight i') /\
    client_ok s' p' (state i').
Proof.
  intros H [Hd Hpc] Hok. destruct pos as [| |l|l|l a|l a|l a td]; cbn [call_step] in H.
  - case_match; [done|]. injection H as <- <- <-. rewrite same_gate by done. by exists p.
  - destruct (refuse_in _ (state i)) as [r|] eqn:Er.
    + injection H as <- <- <-. rewrite same_gate by done. exists p. split; [|done].
      cbn [app advances]. apply advance_return. intros ->. by apply refuse_ret in Er.
    + apply refuse_state in Er. pose proof (installs_state c cb i) as Hs.
      pose proof (flight_of _ _ (installs_locks bound c cb i)) as Hf.
      destruct (installs _ cb i) as [l i1]. injection H as <- <- <-. cbn [snd] in *.
      unfold gate_events. rewrite Hs, Hf. cbn in Hok. rewrite Er in *.
      destruct c; cbn in *; try (by exists p).
      exists Opening. by destruct Hok as [-> | ->].
  - pose proof (undo_state c l i) as Hs.
    pose proof (flight_of _ _ (undo_locks bound c l i)) as Hf.
    destruct (match entry _ with Some fn => bound fn | None => true end);
      injection H as <- <- <-.
    + rewrite same_gate by done. exists p. split; [|done]. cbn in Hok.
      destruct c; cbn; destruct Hok as [_ ->]; done.
    + unfold gate_events, unlock. cbn in Hok |- *. rewrite Hs, Hf.
      destruct c; destruct Hok as [Est ->]; rewrite Est; cbn; try done;
        eexists; (split; [done|by cbn; unfold shut; auto]).
  - done.
  - cbn in Hok. assert (Hrest : at_rest p (state i)).
    { destruct c; try (destruct Hok as [-> ->]; done). destruct a; [|done].
      destruct Hok as [-> ->]. cbn. destruct (_ =? _); auto. }
    unfold finish_with_deferred_teardown in H. cbn [in_vendor_frames existsb] in H.
    destruct (deferred_teardown i); injection H as <- <- <-; (rewrite same_gate by done); by exists p.
  - pose proof (ends_state c l a i) as Hs. pose proof (ends_ret c l a i) as Hr.
    pose proof (flight_of _ _ (ends_locks bound c l a i)) as Hf.
    destruct (ends _ l a i) as [r i1]. injection H as <- <- <-. cbn [fst snd] in *.
    unfold gate_events, unlock. cbn [app] in *.
    assert (H : exists p', advances (gate_events t i i1) (p, in_flight i) = Some (p', in_flight i) /\
      at_rest p' (state i1)).
    { unfold gate_events. rewrite Hs. cbn in Hok.
      destruct c; try (destruct Hok as [Est ->]; rewrite Est; by exists Up).
      destruct a; [|done]. destruct Hok as [Est ->]. rewrite Est. destruct (_ =? _); cbn; [by exists Up|].
      exists Dropped. by cbn; unfold shut; auto. }
    destruct H as (p' & H1 & H2). exists p'. split; [|done].
    cbn. unfold gate_events in H1. cbn in H1 |- *. rewrite H1, Hf. by apply advance_return.
  - destruct (ensure_uninitialized bound t td i) as [[[i1 td'] ev']|] eqn:E; [|done].
    apply (teardown_protocol _ _ _ _ _ _ p) in E as (p' & H1 & H2); [|done]. exists p'.
    destruct td' as [td'|]; injection H as <- <- <-; [done|]. split; [|done].
    cbn [app advances]. rewrite H1. apply advance_return. by destruct c.
Qed.

Lemma deinit_step_protocol t td i i' s' ev p :
  deinit_step bound t td [] i = Some (i', s', ev) -> teardown_ok td p (state i) ->
  exists p', advances (ev ++ gate_events t i i') (p, in_flight i) = Some (p', in_flight i') /\
    client_ok s' p' (state i').
Proof.
  intros H Hok. unfold deinit_step in H.
  destruct (ensure_uninitialized bound t td i) as [[[i1 td'] ev']|] eqn:E; [|done].
  apply (teardown_protocol _ _ _ _ _ _ p) in E as (p' & H1 & H2); [|done]. exists p'.
  destruct td' as [td'|]; injection H as <- <- <-; [done|]. split; [|done].
  cbn [app advances]. by rewrite H1.
Qed.

(** A vendor call returns or throws. *)
Lemma answer_protocol t c l a i p :
  answers c a = true -> call_ok c (InVendor l) p (state i) ->
  exists p', advance (EvVendorDone t c a) (p, in_flight i) = Some (p', in_flight i) /\
    call_ok c (AtCheckpoint l a) p' (state i).
Proof.
  intros Ha Hok. cbn in Hok. destruct c; cbn in Hok; destruct Hok as [Hs ->];
    try (by exists Up; rewrite Hs). destruct a; [|done]. by eexists.
Qed.

Lemma throw_protocol t c l i p :
  call_ok c (InVendor l) p (state i) ->
  exists p', advance (EvReturn t c RThrow) (p, in_flight i) = Some (p', in_flight i) /\
    at_rest p' (state i).
Proof.
  intros Hok. cbn in Hok. destruct c; cbn in Hok; destruct Hok as [Hs ->]; rewrite Hs;
    try (by exists Up). exists Failed. split; [done|]. by right.
Qed.

Lemma deliver_protocol t d s i i' s' ev p :
  deliver t d s i = (i', s', ev) ->
  (gate_open (state i) = true -> p = Opening \/ p = Up \/ p = Failed) ->
  advances (ev ++ gate_events t i i') (p, in_flight i) = Some (p, in_flight i') /\
  state i' = state i /\ (s' = s \/ exists cb, s' = FDeliver d cb :: s).
Proof.
  intros H Hp.
  apply deliver_result in H as [(_ & -> & -> & ->)|(Ho & cb & -> & -> & Hs & _ & _ & Hf)].
  - rewrite same_gate by done. auto.
  - rewrite same_gate by exact Hs. cbn. rewrite Hf, Hs.
    split; [by destruct (Hp Ho) as [->|[-> | ->]]|eauto].
Qed.

Lemma end_protocol t i i' p :
  i' = end_delivery i -> (0 < in_flight i)%nat ->
  advances ([EvStop t] ++ gate_events t i i') (p, in_flight i) = Some (p, in_flight i').
Proof.
  intros -> Hpos. rewrite same_gate by done. cbn. destruct (in_flight i); [lia|done].
Qed.

Lemma reentrant_protocol t c cb s i i' s' ev p :
  in_callback_context s = true -> public_call bound t c cb s i = (i', s', ev) ->
  advances (ev ++ gate_events t i i') (p, in_flight i) = Some (p, in_flight i') /\
  state i' = state i /\ s' = s.
Proof.
  intros Hc H. apply public_call_reentrant in H as ((_ & _ & Hf) & Hs & -> & r & -> & Hr); [|done].
  rewrite same_gate, Hf by exact Hs. split; [by apply advance_return|done].
Qed.

(** *** Any thread's step *)

Lemma bystander_step client t l w s i' s' ev p :
  disciplined client t l w -> t <> client -> threads w !! t = Some s -> bystander s ->
  thread_step bound l t s (im w) = Some (i', s', ev) -> (weight delivering s <= in_flight (im w))%nat ->
  (gate_open (state (im w)) = true -> p = Opening \/ p = Up \/ p = Failed) ->
  advances (ev ++ gate_events t (im w) i') (p, in_flight (im w)) = Some (p, in_flight i') /\
  state i' = state (im w) /\ bystander s'.
Proof.
  intros Hd Hne Ht Hb H Hf Hp. destruct l; cbn [disciplined thread_step] in *; try done.
  - destruct Hd as [?|(s1 & Hs1 & Hc)]; [done|]. simplify_eq. case_match; [|done].
    injection H as H. by apply (reentrant_protocol _ _ _ _ _ _ _ _ p) in H as (? & ? & ->).
  - by destruct Hb.
  - by destruct Hb.
  - by destruct Hb.
  - destruct (in_vendor_code s) eqn:Hv; [|done]. injection H as H.
    apply (deliver_protocol _ _ _ _ _ _ _ p) in H as (H1 & H2 & H3); [|done].
    split_and!; [done|done|]. destruct Hb; [|done]. destruct H3 as [->|[cb ->]]; constructor.
  - destruct Hb; [done|]. injection H as <- <- <-. cbn in Hf.
    split_and!; [by apply end_protocol; [|lia]|done|constructor].
Qed.

(** The client's stack, typed and alone, has a shape. *)
Lemma client_thread_step client l w s i' s' ev p :
  threads w !! client = Some s -> typed s -> shape s -> client_ok s p (state (im w)) ->
  disciplined client client l w -> (weight delivering s <= in_flight (im w))%nat ->
  thread_step bound l client s (im w) = Some (i', s', ev) ->
  exists p', advances (ev ++ gate_events client (im w) i') (p, in_flight (im w)) = Some (p', in_flight i') /\
    client_ok s' p' (state i').
Proof.
  intros Hc Hty Hsh Hok Hd Hf H. pose proof (client_ok_open _ _ _ Hsh Hok) as Hg.
  destruct l; cbn [disciplined thread_step] in *; try done.
  - destruct (in_project_code s) eqn:Hp; [|done]. injection H as H.
    destruct (in_callback_context s) eqn:Hx.
    + exists p. apply (reentrant_protocol _ _ _ _ _ _ _ _ p) in H as (? & Hs & ->); [|done].
      by rewrite Hs.
    + exists p. apply public_call_entered in H as (-> & -> & ->); [|done].
      assert (Hs : at_rest p (state (im w))).
      { destruct Hsh as [| | |d [cb'|]|d [cb'|]]; try done. }
      rewrite same_gate by done. split; [done|]. by destruct c.
  - destruct Hsh as [|c cb pos|td| |]; try done.
    + apply (call_step_protocol _ _ _ _ _ _ _ _ p) in H; [done|apply Hty|done].
    + by apply (deinit_step_protocol _ _ _ _ _ _ p) in H.
  - destruct Hsh as [|c cb pos|td| |]; try done. destruct pos; try done.
    destruct (answers c a) eqn:Ha; [|done]. injection H as <- <- <-. rewrite same_gate by done.
    by apply (answer_protocol client c l a (im w) p) in Ha as (p' & H1 & H2); [exists p'|].
  - destruct Hsh as [|c cb pos|td| |]; try done. destruct pos; try done.
    injection H as <- <- <-. rewrite same_gate by done.
    by apply (throw_protocol client c l (im w) p) in Hok.
  - destruct (in_vendor_code s) eqn:Hv; [|done]. injection H as H.
    apply (deliver_protocol _ _ _ _ _ _ _ p) in H as (H1 & H2 & H3); [|done].
    exists p. split; [done|]. rewrite H2. by destruct H3 as [->|[cb ->]].
  - exists p. destruct Hsh as [| | |d cb|d cb c cb' lo]; try done; injection H as <- <- <-; cbn in Hf;
      (split; [by apply end_protocol; [|lia]|done]).
Qed.

Lemma own_frames_step l t s i i' s' ev :
  thread_step bound l t s i = Some (i', s', ev) -> Forall own_frame s ->
  match l with LOtherVendor | LOtherCallback => False | _ => True end -> Forall own_frame s'.
Proof.
  intros H Ho Hl.
  assert (Htop : forall fr s1, s = fr :: s1 -> Forall own_frame s1).
  { intros fr s1 ->. by inversion Ho. }
  destruct l; cbn [thread_step] in H; try done.
  - case_match; [|done]. injection H as H. destruct (in_callback_context s) eqn:Hx.
    + by apply public_call_reentrant in H as (_ & _ & -> & _).
    + apply public_call_entered in H as (_ & _ & ->); [|done]. constructor; [by destruct c|done].
  - destruct s as [|[c cb p|td| | |] s0]; try done; specialize (Htop _ _ eq_refl).
    + destruct p; cbn [call_step] in H; repeat case_match; simplify_eq; auto; by constructor.
    + unfold deinit_step in H. repeat case_match; simplify_eq; auto; by constructor.
  - destruct s as [|[? ? []| | | |] s0]; try done. specialize (Htop _ _ eq_refl).
    case_match; simplify_eq. by constructor.
  - destruct s as [|[? ? []| | | |] s0]; try done. simplify_eq. by eapply Htop.
  - case_match; [|done]. injection H as H.
    apply deliver_result in H as [(_ & _ & -> & _)|(_ & cb & -> & _)]; [done|by constructor].
  - destruct s as [|[] s0]; try done. simplify_eq. by eapply Htop.
  - destruct s as [|[] s0]; try done; simplify_eq; by eapply Htop.
Qed.

Lemma simulates_step client t l w w' :
  simulates client w -> disciplined client t l w -> step bound t l w = Some w' -> simulates client w'.
Proof.
  intros [Hi Ha Hb (p & sc & Hp & Hc & Hok)] Hd H. pose proof (inv_step _ _ _ _ _ H Hi) as Hi'.
  unfold step in H. destruct (threads w !! t) as [s|] eqn:Ht; [|done].
  destruct (thread_step bound l t s (im w)) as [[[i' s'] ev]|] eqn:Hs; [|done]. injection H as <-.
  pose proof (inv_lookup _ _ _ Hi Ht) as Hty.
  pose proof (alone_own _ _ _ Ha Ht) as Ho. pose proof (inv_shape _ _ _ Hi Ha Hc) as Hshc.
  pose proof (cov_flight _ _ (inv_covered _ _ _ Hi Ht)) as Hf.
  assert (Ho' : Forall own_frame s') by (eapply own_frames_step; [exact Hs|done|by destruct l; cbn in Hd |- *]).
  assert (Hlt : (t < length (threads w))%nat) by (by eapply lookup_lt_Some).
  assert (Ha' : alone (mkSystem i' (<[t:=s']> (threads w)) (ev ++ gate_events t (im w) i' ++ events w)))
    by (by apply Forall_insert).
  destruct (decide (t = client)) as [->|Hne].
  - assert (sc = s) as -> by congruence. destruct (client_thread_step client l w s i' s' ev p) as (p' & H1 & H2); try done.
    split; [done|done| |].
    + intros t s1 Hs1 Hne. cbn in Hs1. rewrite list_lookup_insert_ne in Hs1 by done. by eapply Hb.
    + exists p', s'. cbn. rewrite list_lookup_insert_eq by done. rewrite app_assoc.
      by rewrite (protocol_app _ _ _ Hp).
  - destruct (bystander_step client t l w s i' s' ev p) as (H1 & H2 & H3); try done.
    { by eapply Hb. } { by eapply client_ok_open. }
    split; [done|done| |].
    + intros t1 s1 Hs1 Hne1. cbn in Hs1. apply lookup_insert_cases in Hs1 as [(<- & -> & _)|[_ Hs1]]; [done|].
      by eapply Hb.
    + exists p, sc. cbn. rewrite list_lookup_insert_ne by done. rewrite app_assoc, H2.
      by rewrite (protocol_app _ _ _ Hp).
Qed.

Lemma simulates_initial client n : (client < n)%nat -> simulates client (initial n).
Proof.
  intros Hlt. split; [apply inv_initial|by apply Forall_replicate| |].
  - intros t s Hs _. apply lookup_replicate in Hs as [-> _]. constructor.
  - exists Closed, []. split; [done|]. split; [by apply lookup_replicate_2|by left].
Qed.

Lemma client_simulates client n w :
  (client < n)%nat -> client_reachable client n w -> simulates client w.
Proof.
  intros Hlt. induction 1; [by apply simulates_initial|by eapply simulates_step].
Qed.

(** ** Consequences for traces *)

(** A project callback starts, or the vendor is called to do something. *)
Definition starts (e : event) : bool :=
  match e with EvStart _ _ _ => true | EvVendor _ VDeinit => false | EvVendor _ _ => true | _ => false end.
Definition opens (e : event) : bool := match e with EvOpen _ => true | _ => false end.

(** Callbacks started and not yet ended. *)
Fixpoint running (tr : list event) : Z :=
  match tr with
  | [] => 0
  | EvStart _ _ _ :: tr => running tr + 1
  | EvStop _ :: tr => running tr - 1
  | _ :: tr => running tr
  end.

Lemma protocol_split post tr p :
  protocol (post ++ tr) = Some p -> exists q, protocol tr = Some q /\ advances post q = Some p.
Proof.
  revert p. induction post as [|e post IH]; intros p H; [by exists p|]. cbn in *.
  destruct (protocol (post ++ tr)) as [p1|]; [|done]. destruct (IH p1 eq_refl) as (q & H1 & H2).
  exists q. by rewrite H2.
Qed.

Lemma running_protocol tr p k : protocol tr = Some (p, k) -> running tr = Z.of_nat k.
Proof.
  revert p k. induction tr as [|e tr IH]; intros p k H; cbn in H; [by simplify_eq|].
  destruct (protocol tr) as [[p0 k0]|] eqn:E; [|done]. specialize (IH p0 k0 eq_refl).
  cbn [running]. unfold advance in H. destruct e; cbn in H |- *; repeat case_match; simplify_eq; lia.
Qed.

(** Without an opening a shut gate stays shut, and nothing starts. *)
Lemma shut_stays e p n p' n' :
  advance e (p, n) = Some (p', n') -> shut p -> opens e = false -> shut p' /\ starts e = false.
Proof.
  intros H [-> | ->] Ho; destruct e; try destruct c; try destruct v; try destruct r; try destruct a;
    cbn in *; try done; try destruct n; simplify_eq; unfold shut; auto.
Qed.

Lemma shut_silent post q p n k :
  advances post (q, k) = Some (p, n) -> shut q -> Forall (fun e => opens e = false) post ->
  Forall (fun e => starts e = false) post.
Proof.
  intros H Hq Ho. enough (shut p /\ Forall (fun e => starts e = false) post) by tauto.
  revert p n H. induction Ho as [|e post Ho Hpost IH]; intros p n H; [by simplify_eq/=|]. cbn in *.
  destruct (advances post (q, k)) as [[p1 n1]|]; [|done].
  destruct (IH p1 n1 eq_refl) as [Hs Hst]. destruct (shut_stays _ _ _ _ _ H Hs Ho). auto.
Qed.

(** *** Returns of [deinit] *)

(** The project callbacks thread [t] is inside of. *)
Fixpoint running_on (t : nat) (tr : list event) : Z :=
  match tr with
  | [] => 0
  | EvStart t' _ _ :: tr => running_on t tr + (if decide (t' = t) then 1 else 0)
  | EvStop t' :: tr => running_on t tr - (if decide (t' = t) then 1 else 0)
  | _ :: tr => running_on t tr
  end.

Definition deinit_returns (e : event) : bool :=
  match e with EvReturn _ CallDeinit _ => true | _ => false end.

(** No event of a kind that is counted. *)
Definition plain (e : event) : bool :=
  match e with EvStart _ _ _ | EvStop _ => false | _ => negb (deinit_returns e) end.

(** What a step of thread [t] on the stack [s] adds to the trace, and to the stack. *)
Inductive adds (t : nat) (s s' : list frame) : list event -> Prop :=
  | adds_plain ev : forallb plain ev = true -> weight delivering s' = weight delivering s -> adds t s s' ev
  | adds_start d cb : weight delivering s' = S (weight delivering s) -> adds t s s' [EvStart t d cb]
  | adds_stop : S (weight delivering s') = weight delivering s -> adds t s s' [EvStop t]
  | adds_closed : weight delivering s' = weight delivering s ->
      adds t s s' [EvReturn t CallDeinit RUnit; EvClosed t]
  | adds_deferred : s' = s -> (0 < weight delivering s)%nat -> adds t s s' [EvReturn t CallDeinit RUnit].

Lemma teardown_plain t td i i' td' ev :
  ensure_uninitialized bound t td i = Some (i', td', ev) ->
  forallb plain ev = true /\ (td' = None -> ev = [EvClosed t]).
Proof.
  intros H. destruct td; cbn [ensure_uninitialized teardown_impl] in H; repeat case_match; by simplify_eq/=.
Qed.

Lemma call_step_adds t c cb p s i i' s' ev :
  call_step bound t c cb p s i = Some (i', s', ev) -> c <> CallDeinit -> adds t (FCall c cb p :: s) s' ev.
Proof.
  intros H Hc. assert (Hr : forall r ev, forallb plain ev = true -> forallb plain (EvReturn t c r :: ev) = true).
  { intros r ev0 He. cbn. rewrite He. by destruct c. }
  destruct p; cbn [call_step] in H.
  - case_match; [done|]. simplify_eq. by apply adds_plain.
  - case_match; [simplify_eq; apply adds_plain; [by apply Hr|done]|]. destruct (installs _ cb i). simplify_eq. by apply adds_plain.
  - destruct (match entry _ with Some fn => bound fn | None => true end); simplify_eq;
      apply adds_plain; try done; by apply Hr.
  - done.
  - destruct (finish_with_deferred_teardown s i) as [claimed i1]. simplify_eq. by apply adds_plain.
  - destruct (ends _ l a i). simplify_eq. apply adds_plain; [by apply Hr|done].
  - destruct (ensure_uninitialized bound t t0 i) as [[[i1 td'] ev']|] eqn:E; [|done].
    apply teardown_plain in E as [E _]. destruct td'; simplify_eq; apply adds_plain; try done. by apply Hr.
Qed.

Lemma thread_step_adds l t s i i' s' ev :
  thread_step bound l t s i = Some (i', s', ev) -> typed s -> Forall own_frame s -> adds t s s' ev.
Proof.
  intros H Hty Ho. destruct l; cbn [thread_step] in H.
  - destruct (in_project_code s) eqn:Hp; [|done]. injection H as H. destruct (in_callback_context s) eqn:Hx.
    + assert (c = CallDeinit \/ c <> CallDeinit) as [->|Hc] by (destruct c; auto).
      * cbn in H. unfold deinit in H. rewrite Hx in H.
        injection H as ? ? ?. subst s' ev. apply adds_deferred; [done|].
        destruct s as [|[| |d [cb'|]| |] s0]; try done; [cbn; lia|by inversion Ho].
      * apply public_call_reentrant in H as (_ & _ & -> & r & -> & _); [|done].
        apply adds_plain; [|done]. by destruct c.
    + apply public_call_entered in H as (-> & -> & ->); [|done]. apply adds_plain; [done|]. by destruct c.
  - destruct s as [|[c cb p|td| | |] s0]; try done; [apply call_step_adds in H; [done|apply Hty]|].
    unfold deinit_step in H. destruct (ensure_uninitialized bound t td i) as [[[i1 td'] ev']|] eqn:E; [|done].
    apply teardown_plain in E as [E1 E2]. destruct td'; simplify_eq; [by apply adds_plain|].
    rewrite (E2 eq_refl). by apply adds_closed.
  - destruct s as [|[? ? []| | | |] s0]; try done. case_match; [|done]. simplify_eq. by apply adds_plain.
  - destruct s as [|[c ? []| | | |] s0]; try done. simplify_eq. apply adds_plain; [|done].
    destruct Hty as [[Hc _] _]. by destruct c.
  - case_match; [|done]. injection H as H.
    apply deliver_result in H as [(_ & _ & -> & ->)|(_ & cb & -> & -> & _)]; [by apply adds_plain|by apply adds_start].
  - destruct s as [|[] s0]; try done. simplify_eq. by apply adds_stop.
  - case_match; [|done]. simplify_eq. by apply adds_plain.
  - case_match; [|done]. simplify_eq. by apply adds_plain.
  - destruct s as [|[] s0]; try done; simplify_eq; by apply adds_plain.
Qed.

(** A [deinit] that returned did the whole teardown, or was called inside a callback. *)
Fixpoint deinits_justified (tr : list event) : Prop :=
  match tr with
  | [] => True
  | e :: tr =>
      match e with
      | EvReturn t CallDeinit _ => 0 < running_on t tr \/ exists tr', tr = EvClosed t :: tr'
      | _ => True
      end /\ deinits_justified tr
  end.

Lemma plain_running t ev tr : forallb plain ev = true -> running_on t (ev ++ tr) = running_on t tr.
Proof.
  induction ev as [|e ev IH]; [done|]. cbn [forallb]. intros [He H]%andb_true_iff.
  cbn [app running_on]. rewrite (IH H). by destruct e.
Qed.

Lemma plain_justified ev tr : forallb plain ev = true -> deinits_justified tr -> deinits_justified (ev ++ tr).
Proof.
  induction ev as [|e ev IH]; [done|]. cbn [forallb]. intros [He H]%andb_true_iff Htr.
  split; [|by apply IH]. by destruct e as [| | | | | | |t0 [] r].
Qed.

Lemma gate_plain t i i' : forallb plain (gate_events t i i') = true.
Proof. unfold gate_events. by destruct (gate_open _), (gate_open _). Qed.

(** What is running and what was justified, in every state of the discipline. *)
Record traced (w : system) : Prop := {
  tr_running : forall t s, threads w !! t = Some s -> running_on t (events w) = Z.of_nat (weight delivering s);
  tr_deinits : deinits_justified (events w) }.

Lemma traced_step client t l w w' :
  simulates client w -> traced w -> step bound t l w = Some w' -> traced w'.
Proof.
  intros [Hi Ha _ _] [Hr Hd] H. unfold step in H. destruct (threads w !! t) as [s|] eqn:Ht; [|done].
  destruct (thread_step bound l t s (im w)) as [[[i' s'] ev]|] eqn:Hs; [|done]. injection H as <-.
  apply thread_step_adds in Hs; [|by apply (inv_lookup w t)|by apply (alone_own w t)].
  set (tr := gate_events t (im w) i' ++ events w).
  assert (Htr : forall j, running_on j tr = running_on j (events w)) by (intros j; by apply plain_running, gate_plain).
  assert (Hdt : deinits_justified tr) by (by apply plain_justified, Hd; apply gate_plain).
  assert (Hw : running_on t tr = Z.of_nat (weight delivering s)) by (by rewrite Htr, (Hr t s Ht)).
  split; cbn [threads events].
  - intros j sj Hj. fold tr.
    assert (Hcase : (j = t /\ sj = s') \/ (j <> t /\ threads w !! j = Some sj)).
    { apply lookup_insert_cases in Hj as [(-> & -> & _)|[? ?]]; auto. }
    destruct Hcase as [[-> ->]|[Hne Hj0]].
    + destruct Hs; cbn [app running_on]; rewrite ?plain_running by done; repeat case_decide; try done; try lia.
      all: subst; lia.
    + rewrite <- (Hr j sj Hj0), <- Htr.
      destruct Hs; cbn [app running_on]; rewrite ?plain_running by done; repeat case_decide; try done; try lia.
  - fold tr. destruct Hs as [ev Hev _|d cb _|_|_|Heq Hpos]; cbn [app deinits_justified].
    + by apply plain_justified.
    + done.
    + done.
    + split; [right; by eexists|done].
    + split; [left; lia|done].
Qed.

Lemma client_traced client n w : (client < n)%nat -> client_reachable client n w -> traced w.
Proof.
  intros Hlt. induction 1 as [|w t l w' Hr IH Hd Hs].
  - split; [|done]. intros t s [-> _]%lookup_replicate. done.
  - by apply (traced_step client t l w w'); [apply (client_simulates client n)|..].
Qed.

Lemma deinits_split post t r pre :
  deinits_justified (post ++ EvReturn t CallDeinit r :: pre) ->
  0 < running_on t pre \/ exists pre', pre = EvClosed t :: pre'.
Proof. induction post as [|e post IH]; cbn; [by intros [H _]|]. intros [_ H]. by apply IH. Qed.

End Protocol.

(** ** Results *)

(** The adapter refines the session protocol: with one client thread, in every
    interleaving with vendor threads and callbacks, the events follow it, and the
    protocol counts the callbacks in flight.  So the vendor's init is called only
    when no session is up, every session that came up is ended by exactly one
    call of the vendor's deinit, nothing else is called outside a session, and
    callbacks start only while one is open. Claim C9. *)
Theorem adapter_refines_session_protocol bound client n w :
  (client < n)%nat -> client_reachable bound client n w ->
  exists p, protocol bound (events w) = Some (p, in_flight (im w)) /\
    (state (im w) = Initialized -> p = Up) /\
    (state (im w) = Uninitialized -> p = Closed \/ p = Dropped).
Proof.
  intros Hlt Hr. pose proof (client_simulates _ _ _ _ Hlt Hr) as [Hi Ha _ (p & s & Hp & Hs & Hok)].
  exists p. split; [done|]. eapply client_ok_state, Hok.
  by eapply inv_shape.
Qed.

(** What a [deinit] leaves behind, with one client thread that calls the adapter from
    outside callbacks and no other adapter on the threads.  A [deinit] returns either
    from inside a project callback of its own thread, where it only records the
    request, or after the whole teardown ([EvClosed]).  When the teardown returns, in
    [deinit] or in the call that completes a recorded request, every callback that was
    started has ended, and until [init] opens the gate again no project callback starts
    and the vendor is asked for nothing (a deinit apart).  Claim C10. *)
Theorem deinit_leaves_nothing_behind bound client n w :
  (client < n)%nat -> client_reachable bound client n w ->
  (forall post t r pre, events w = post ++ EvReturn t CallDeinit r :: pre ->
     0 < running_on t pre \/ exists pre', pre = EvClosed t :: pre') /\
  (forall post t pre, events w = post ++ EvClosed t :: pre -> Forall (fun e => opens e = false) post ->
     running pre = 0 /\ Forall (fun e => starts e = false) post).
Proof.
  intros Hlt Hr. split.
  { intros post t r pre Hev. pose proof (tr_deinits _ (client_traced _ _ _ _ Hlt Hr)) as H.
    rewrite Hev in H. by eapply deinits_split. }
  intros post t pre Hev Ho. destruct (client_simulates _ _ _ _ Hlt Hr) as [_ _ _ (p & s & Hp & _)].
  rewrite Hev in Hp. destruct (protocol_split _ _ _ _ Hp) as ([q k] & H1 & H2).
  cbn in H1. destruct (protocol bound pre) as [[q0 k0]|] eqn:Hpre; [|done].
  assert (k0 = 0%nat /\ shut q) as [-> Hq].
  { unfold shut. destruct q0; cbn in H1; try done; destruct k0; try done; injection H1 as <- <-; auto. }
  split; [exact (running_protocol _ _ _ _ Hpre)|]. by eapply shut_silent.
Qed.

(** ** Witnesses *)

(** A session: init with a synchronous status; an IMU subscription during which a
    vendor thread delivers a sample whose callback asks for the deinit; the
    subscription's checkpoint completes it; a deinit with nothing to do; a late
    delivery that is dropped. *)
Definition session_schedule : list (nat * label) :=
  init_schedule ++
  [(0, LEnd); (0, LAnswer (Code ASTRALL_RES_SUCCESSED)); (0, LStep); (0, LStep);
   (0, LCall (CallSubscribeImu Hz50 1000) (Some 2)); (0, LStep); (0, LStep); (0, LStep);
   (1, LDeliver (DImu ImuSample0)); (1, LCall CallDeinit None); (1, LEnd);
   (0, LAnswer (Code ASTRALL_RES_SUCCESSED));
   (0, LStep); (0, LStep); (0, LStep); (0, LStep); (0, LStep); (0, LStep); (0, LStep); (0, LStep);
   (0, LStep); (0, LCall CallDeinit None); (0, LStep); (0, LStep); (1, LDeliver (DStatus true true))]%nat.

(** The schedule keeps the discipline of client 0. *)
Fixpoint disciplined_run (ls : list (nat * label)) (w : system) : bool :=
  match ls with
  | [] => true
  | (t, l) :: ls =>
      match l with
      | LOtherVendor | LOtherCallback | LOtherEnd => false
      | LCall _ _ => (t =? 0)%nat || in_callback_context (default [] (threads w !! t))
      | _ => true
      end &&
      match step all_bound t l w with Some w' => disciplined_run ls w' | None => false end
  end.

Lemma disciplined_run_reachable n ls w w' :
  client_reachable all_bound 0 n w -> disciplined_run ls w = true -> run all_bound ls w = Some w' ->
  client_reachable all_bound 0 n w'.
Proof.
  revert w. induction ls as [|[t l] ls IH]; intros w Hr Hd H; cbn in *; [by simplify_eq|].
  destruct (step all_bound t l w) as [w1|] eqn:E; [|by rewrite andb_false_r in Hd].
  apply andb_true_iff in Hd as [Hl Hd]. apply (IH w1); [|done|done].
  apply (client_step _ _ _ w t l); [done| |done]. destruct l; try done. cbn.
  apply orb_true_iff in Hl as [Hl|Hl]; [left; by apply Nat.eqb_eq in Hl|right].
  destruct (threads w !! t) as [s|]; [by exists s|done].
Qed.

Definition session_run : system := after session_schedule.

Lemma session_run_reachable : client_reachable all_bound 0 2 session_run.
Proof.
  apply (disciplined_run_reachable 2 session_schedule (initial 2)); [constructor|..];
    vm_compute; reflexivity.
Qed.

Lemma adapter_refines_session_protocol_witness :
  (exists p, protocol all_bound (events session_run) = Some (p, 0%nat) /\ (p = Closed \/ p = Dropped)) /\
  length (List.filter starts (events session_run)) = 4%nat.
Proof.
  destruct (adapter_refines_session_protocol all_bound 0 2 session_run) as (p & H1 & _ & H2);
    [lia|exact session_run_reachable|].
  split; [|vm_compute; reflexivity]. exists p. split; [exact H1|]. by apply H2; vm_compute.
Defined.

(** The client's deinit at the end of the run, and the callback's before it. *)
Lemma deinit_leaves_nothing_behind_witness :
  exists post pre, events session_run = post ++ EvReturn 0 CallDeinit RUnit :: pre /\
    (0 < running_on 0 pre \/ exists pre', pre = EvClosed 0 :: pre') /\
    length (List.filter deinit_returns (events session_run)) = 2%nat /\
    exists post' pre', events session_run = post' ++ EvClosed 0 :: pre' /\ post' <> [] /\ running pre' = 0.
Proof.
  destruct (deinit_leaves_nothing_behind all_bound 0 2 session_run) as [H1 H2];
    [lia|exact session_run_reachable|].
  set (tr := events session_run). vm_compute in tr.
  assert (Hd : events session_run = [] ++ EvReturn 0 CallDeinit RUnit :: drop 1 tr) by (vm_compute; reflexivity).
  assert (Hc : events session_run = take 1 tr ++ EvClosed 0 :: drop 2 tr) by (vm_compute; reflexivity).
  exists [], (drop 1 tr). split; [exact Hd|]. split; [exact (H1 _ _ _ _ Hd)|]. split; [vm_compute; reflexivity|].
  exists (take 1 tr), (drop 2 tr). split; [exact Hc|]. split; [done|].
  apply (H2 _ _ _ Hc). vm_compute. repeat constructor.
Defined.
