(* ===== verification/SdkAdapterCalls.v ===== *)
(** * SdkAdapterCalls: an undisturbed call

    The reference semantics of the adapter's public calls as one function of the
    state and the vendor's answer, and the proof that a thread that runs alone does
    exactly that: every call returns, with the result and the state of the
    reference, and [deinit] reaches [Uninitialized]. *)

From S2P Require Import Prelude Cxx SdkTypes SdkAdapter SdkAdapterSafety.

Section Calls.
  Context (bound : VendorFn -> bool).

(** ** The reference *)




(** ** One thread alone *)






(** ** Teardown *)


(** [ensure_uninitialized] on behalf of a frame: [wrap] rebuilds it. *)
Section Teardown.
  Context (t : nat) (s : list frame) (wrap : teardown -> frame) (last : event).
  Context (wrap_step : forall td i, thread_step bound LStep t (wrap td :: s) i =
    match ensure_uninitialized bound t td i with
    | None => None
    | Some (i', Some td', ev) => Some (i', wrap td' :: s, ev)
    | Some (i', None, ev) => Some (i', s, last :: ev)
    end).






End Teardown.

(** ** Calls *)











End Calls.

(** ** Result *)





