(* ===== verification/SdkAdapterFindings.v ===== *)
(** * SdkAdapterFindings: runs the adapter's comments exclude

    Concrete schedules of the adapter, evaluated in the model, with two client
    threads, a failing vendor, or a second adapter on the same thread. *)

From S2P Require Import Prelude Cxx SdkTypes SdkAdapter SdkAdapterSafety.

(** Thread [t] makes a call and runs until the vendor is entered. *)
Definition enter (t : nat) (c : SdkCall) (cb : callback) : list (nat * label) :=
  [(t, LCall c cb); (t, LStep); (t, LStep); (t, LStep)].

Definition vendor_returns (t : nat) (code : Z) : list (nat * label) :=
  [(t, LAnswer (Code code)); (t, LStep); (t, LStep)].

(** ** A stale publication

    Thread 0's init fails while a callback of thread 2 runs; thread 1's deinit sees
    the callback in flight and goes to tear down, but the callback ends before the
    gate is closed, so nothing is shut and nothing is waited for; thread 0
    initialises again, and thread 1 then publishes [Uninitialized] over the live
    session. *)
Definition stale_schedule : list (nat * label) :=
  (enter 0 (CallInit 1000) (Some 1) ++ [(2, LDeliver (DStatus true true))] ++
   vendor_returns 0 kSdkResTimeout ++
   [(1, LCall CallDeinit None); (1, LStep); (1, LStep); (2, LEnd);
    (1, LStep); (1, LStep); (1, LStep)] ++
   enter 0 (CallInit 1000) (Some 1) ++ vendor_returns 0 ASTRALL_RES_SUCCESSED ++
   [(1, LStep); (1, LStep)])%nat.

(** Afterwards every thread is idle, the vendor's init has succeeded and its
    deinit was never called, and yet the adapter is uninitialised: the next call
    is refused, and the next init initialises the vendor again. *)
Theorem stale_publication_loses_a_session :
  exists w, run all_bound stale_schedule (initial 3) = Some w /\
    threads w = [[]; []; []] /\ state (im w) = Uninitialized /\
    EvReturn 0 (CallInit 1000) (RResult (ok "success")) ∈ events w /\
    Forall (fun e => match e with EvVendor _ VDeinit => False | _ => True end) (events w).
Proof.
  eexists. split; [vm_compute; reflexivity|]. split_and!; [done|done|cbn; set_solver|].
  repeat constructor.
Qed.

(** ** A deinit after a failed init

    The comment of [teardown_impl] says that the vendor's deinit must not be called
    after a failed init, which has cleaned up; it is, when a callback delivered
    during the init asked for a deinit. *)
Definition failed_deinit_schedule : list (nat * label) :=
  (enter 0 (CallInit 1000) (Some 1) ++
   [(0, LDeliver (DStatus true true)); (0, LCall CallDeinit None); (0, LEnd);
    (0, LAnswer (Code kSdkResTimeout)); (0, LStep);
    (0, LStep); (0, LStep); (0, LStep); (0, LStep)])%nat.

Theorem failed_init_is_deinitialised :
  exists w tr, run all_bound failed_deinit_schedule (initial 1) = Some w /\
    events w = EvVendor 0 VDeinit :: EvShut 0 ::
      EvVendorDone 0 (CallInit 1000) (Code kSdkResTimeout) :: tr.
Proof. eexists _, _. split; vm_compute; reflexivity. Qed.

(** ** A deadlock across adapters

    A vendor thread runs a callback of this adapter, which calls another adapter,
    whose vendor call delivers one of its own callbacks, which calls this
    adapter's deinit.  The marker of the thread names the other adapter and no
    vendor frame of this one is on the stack, so the call is not taken for a
    re-entry, and the teardown waits for the callback below it. *)
Definition cross_schedule : list (nat * label) :=
  (enter 0 (CallInit 1000) (Some 1) ++ vendor_returns 0 ASTRALL_RES_SUCCESSED ++
   [(1, LDeliver (DStatus true true)); (1, LOtherVendor); (1, LOtherCallback);
    (1, LCall CallDeinit None); (1, LStep); (1, LStep); (1, LStep); (1, LStep); (1, LStep)])%nat.

Theorem cross_adapter_deinit_deadlocks :
  exists w d cb, run all_bound cross_schedule (initial 2) = Some w /\
    threads w = [[]; [FDeinit TdWait; FOtherCallback; FOtherVendor; FDeliver d cb]] /\
    forall t, ~ can_move all_bound w t.
Proof.
  eexists _, _, _. split; [vm_compute; reflexivity|]. split; [reflexivity|].
  intros [|[|t]] (l & w' & Ha & Hs); by destruct l.
Qed.

(** ** A call during the vendor's deinit

    The teardown calls the vendor's deinit under the lifecycle mutex but without a
    [VendorCallScope].  When that deinit runs a callback of another adapter which
    calls this one, the call is not taken for a re-entry and waits for the mutex its
    own thread holds. *)
Definition deinit_schedule : list (nat * label) :=
  (enter 0 (CallInit 1000) (Some 1) ++ vendor_returns 0 ASTRALL_RES_SUCCESSED ++
   [(0, LCall CallDeinit None); (0, LStep); (0, LStep); (0, LStep); (0, LStep);
    (0, LOtherCallback); (0, LCall (CallHeartbeat 100) None)])%nat.

Theorem cross_adapter_call_in_deinit_deadlocks :
  exists w td, run all_bound deinit_schedule (initial 1) = Some w /\
    threads w = [[FCall (CallHeartbeat 100) None AtLock; FOtherCallback; FDeinit td]] /\
    inside_deinit (FDeinit td) = 1%nat /\ forall t, ~ can_move all_bound w t.
Proof.
  eexists _, _. split; [vm_compute; reflexivity|]. split; [reflexivity|]. split; [reflexivity|].
  intros [|[|t]] (l & w' & Ha & Hs); by destruct l.
Qed.
