(* ===== verification/RuntimeState.v ===== *)
(** * RuntimeState: the shared state of [DirectDriverRuntime]

    The members of [direct_driver_runtime.hpp], the calls other threads make on
    the runtime ([submit_velocity], [trigger_estop], [request_authority],
    [request_mode], [stop]) and the SDK callbacks.  A call that takes several
    steps under different locks is cut at the points where it holds none, so
    that the worker and the other calls interleave with it; its future is its
    entry in [promises].  An action that needs [wake_mutex_] does nothing while
    the worker holds it ([held]): that thread is blocked, and goes on when the
    environment schedules it again; a blocked [stop] is counted ([stops_waiting])
    and goes on as soon as the worker gives the lock back. *)

From S2P Require Import Prelude Cxx ThreadSafeQueue RobotController NetworkPreflight SdkTypes.

(** ** Configuration and members *)

(** Durations in nanoseconds, call timeouts in milliseconds as passed on. *)
Record RuntimeConfig := mkRuntimeConfig {
  cfg_interface : string; cfg_host_address : string; cfg_robot_address : string;
  init_timeout_ms : Z; sdk_call_timeout_ms : Z;
  heartbeat_call_timeout_ms : Z; heartbeat_max_failures : Z;
  queue_capacity : nat;
  heartbeat_period : Z; motion_refresh_period : Z; deadman_ms : Z;
  mode_timeout_ms : Z; state_poll_period : Z;
  imu_freq : SubscriptionFrequency; sport_freq : SubscriptionFrequency;
  lidar_freq : SubscriptionFrequency; enable_lidar_stream : bool;
  reconnect_initial_delay_ms : Z; reconnect_max_delay_ms : Z }.

Definition default_runtime_config (interface host robot : string) : RuntimeConfig :=
  mkRuntimeConfig interface host robot 60000 5000 500 1 16
    (milliseconds 100) (milliseconds 20) (milliseconds 100) (milliseconds 5000)
    (milliseconds 500) Hz50 Hz50 Hz1 true (milliseconds 1000) (milliseconds 30000).

Inductive CommandKind := RequestAuthority | RequestMode.

Record Command := mkCommand {
  kind : CommandKind; authority_sdk : bool; mode : Z; promise : nat }.

Record ModeTransition := mkTransition {
  mt_active : bool; stable_status : Z; mt_deadline : Z; mt_promise : nat }.

#[export] Instance eta_transition : Eta ModeTransition := fun t =>
  mkTransition (mt_active t) (stable_status t) (mt_deadline t) (mt_promise t).

Record runtime := mkRuntime {
  controller_ : controller;
  stop_requested_ : bool;
  sdk_linked_ : bool;
  connected_ : bool;
  link_drop_latched_ : bool;
  control_authority_ : bool;
  last_snapshot_sport_status_ : Z;
  last_snapshot_error_code_ : Z;
  motion_refresh_due_ : bool;
  estop_engaged_ : bool;
  estop_promise_ : option nat;
  command_queue_ : queue Command;
  mode_transition_ : ModeTransition;
  last_sent_nonzero_ : bool;
  driver_ready_armed_ : bool;
  latest_imu_ : ImuSample;
  latest_sport_ : SportSample;
  observer_errors_ : Z }.

#[export] Instance eta_runtime : Eta runtime := fun r =>
  mkRuntime (controller_ r) (stop_requested_ r) (sdk_linked_ r) (connected_ r)
    (link_drop_latched_ r) (control_authority_ r) (last_snapshot_sport_status_ r)
    (last_snapshot_error_code_ r) (motion_refresh_due_ r) (estop_engaged_ r)
    (estop_promise_ r) (command_queue_ r) (mode_transition_ r) (last_sent_nonzero_ r)
    (driver_ready_armed_ r) (latest_imu_ r) (latest_sport_ r) (observer_errors_ r).

(** The constructor; [None] when a member's constructor throws. *)
Definition make_runtime (config : RuntimeConfig) : option runtime :=
  match make_controller (deadman_ms config), make_queue (queue_capacity config) RejectNew with
  | Some c, Some q =>
      Some (mkRuntime c false false false false false 0 0 false false None q
              (mkTransition false 0 0 0) false false ImuSample0 SportSample0 0)
  | _, _ => None
  end.

(** ** Calls in progress *)

Inductive api_call := ApiEstop (engage : bool) | ApiAuthority (sdk : bool) | ApiMode (name : string).

(** Where a call of another thread stands. *)
Inductive call :=
  | InClear
  | InLatch
  | InMark
  | InAuthority (sdk : bool)
  | InGate (name : string)
  | InDecide (name : string)
  | InEnqueue (mode : Z).

Definition initial_call (a : api_call) : call :=
  match a with
  | ApiEstop true => InLatch
  | ApiEstop false => InClear
  | ApiAuthority sdk => InAuthority sdk
  | ApiMode name => InGate name
  end.

Definition needs_lock (c : call) : bool :=
  match c with InMark | InAuthority _ | InGate _ | InEnqueue _ => true | _ => false end.

Inductive observer_event :=
  | OnState (s : SdkSnapshot) | OnImu (s : ImuSample) | OnSport (s : SportSample)
  | OnStatus (linked control_authority : bool) | OnEvent (severity : Z) (message : string).

(** What happened, newest first in [trace]: the calls made on the runtime, the
    calls the worker makes on the SDK and what they returned, the gate decisions
    behind them, and what the observer was told. *)
Inductive event :=
  | EvApi (id : nat) (a : api_call)
  | EvStop
  | EvVelocity (at_ : Z) (v : VelocityPayload)       (* accepted *)
  | EvModeAccepted (id : nat) (mode : Z)
  | EvTick (at_ : Z) (c : controller)
  | EvPreflight (e : NetworkExpectation)
  | EvNetwork (d : NetworkDecision)                  (* the preflight's verdict *)
  | EvSdk (c : SdkCall)
  | EvDone (c : SdkCall) (r : Result)                (* what the call returned *)
  | EvReported (s : SdkSnapshot)                     (* what [snapshot] returned *)
  | EvObserver (e : observer_event).

Record world := mkWorld {
  rt : runtime;
  clock : Z;
  position : nat;                    (* environment steps taken so far *)
  stops_waiting : nat;               (* calls of [stop] blocked on [wake_mutex_] *)
  calls : gmap nat call;             (* calls in progress, by promise *)
  next_id : nat;                     (* promises issued so far *)
  promises : gmap nat Result;        (* answers *)
  trace : list event }.

#[export] Instance eta_world : Eta world := fun w =>
  mkWorld (rt w) (clock w) (position w) (stops_waiting w) (calls w) (next_id w) (promises w) (trace w).

(** The system when [start] has created the worker thread. *)
Definition initial_world (config : RuntimeConfig) (now : Z) : option world :=
  match make_runtime config with
  | Some r => Some (mkWorld r now 0 0 ∅ 0 ∅ [])
  | None => None
  end.

Definition set_rt (f : runtime -> runtime) (w : world) : world := over rt f w.
Definition emit (e : event) (w : world) : world := over trace (cons e) w.
Definition set_controller (f : controller -> controller) (w : world) : world :=
  set_rt (over controller_ f) w.

(** [promise->set_value]: the first answer wins. *)
Definition set_promise (p : nat) (r : Result) (w : world) : world :=
  match promises w !! p with
  | Some _ => w
  | None => w <| promises := <[p := r]> (promises w) |>
  end.

Definition kSportStatusDamping : Z := 0xB101.
Definition kSportStatusStand : Z := 0xB102.
Definition kSportStatusDown : Z := 0xB103.
Definition kSportStatusMove : Z := 0xB104.
Definition kSportStatusAutoCharge : Z := 0xB107.
Definition kSportStatusExitCharge : Z := 0xB10B.
Definition kSportStatusRecovery : Z := 0xB1FF.

Definition stable_status_for (mode : Z) : Z :=
  if mode =? 0xA101 then kSportStatusDamping
  else if mode =? 0xA102 then kSportStatusStand
  else if mode =? 0xA103 then kSportStatusDown
  else if mode =? 0xA104 then kSportStatusMove
  else if mode =? 0xA105 then kSportStatusAutoCharge
  else if mode =? 0xA106 then kSportStatusExitCharge
  else if mode =? 0xA1FF then kSportStatusRecovery
  else 0.

Definition map_mode_rejection (decision : ModeDecision) : Result :=
  match md_error decision with
  | InvalidCommand =>
      if str_contains "pending" (md_reason decision)
      then failure kSdkResRunning (md_reason decision)
      else failure kSdkResInvalidParam (md_reason decision)
  | SdkDisconnected => failure kSdkResNotInit (md_reason decision)
  | NoControlAuthority => failure kSdkResWithoutAuth (md_reason decision)
  | _ => failure kSdkResFailed (md_reason decision)
  end.

Definition kRuntimeEventInfo : Z := 0.
Definition kRuntimeEventWarning : Z := 1.
Definition kRuntimeEventError : Z := 2.

Section Callbacks.
  (** The observer: [None] for a null pointer; the function says whether its
      callback throws. *)
  Context (observer : option (observer_event -> bool)).

Definition dispatch_observer_safely (e : observer_event) (w : world) : world :=
  match observer with
  | None => w
  | Some throws =>
      let w := emit (EvObserver e) w in
      if throws e then set_rt (over observer_errors_ (Z.add 1)) w else w
  end.

Definition notify_event (severity : Z) (message : string) (w : world) : world :=
  dispatch_observer_safely (OnEvent severity message) w.

(** ** Public member functions, on the caller's thread *)

Definition submit_velocity (v : Velocity) (w : world) : world :=
  let payload := mkVelocity (v_vx v) (v_vy v) (v_vyaw v) in
  let '(decision, c) := accept_velocity (clock w) payload (controller_ (rt w)) in
  let w := set_controller (fun _ => c) w in
  if negb (vd_accepted decision)
  then notify_event kRuntimeEventWarning ("velocity rejected: " +:+ vd_reason decision) w
  else emit (EvVelocity (clock w) payload) w.

(** No live session: stopping, disconnected, link down, or a drop latched. *)
Definition no_session (r : runtime) : bool :=
  stop_requested_ r || negb (connected_ r) || negb (sdk_linked_ r) || link_drop_latched_ r.

Definition finish_call (id : nat) (w : world) : world := over calls (delete id) w.
Definition next_step (id : nat) (c : call) (w : world) : world := over calls (insert id c) w.

Definition trigger_estop_clear (id : nat) (w : world) : world :=
  let w := set_controller (fun c => (clear_estop (clock w) c).2) w in
  finish_call id (set_promise id (ok "software emergency stop cleared") w).

Definition trigger_estop_latch (id : nat) (w : world) : world :=
  next_step id InMark (set_controller (fun c => (trigger_estop (clock w) c).2) w).

Definition trigger_estop_mark (id : nat) (w : world) : world :=
  let w :=
    match estop_promise_ (rt w) with
    | Some old => set_promise old (failure kSdkResFailed "emergency stop request superseded") w
    | None => w
    end in
  let w := set_rt (fun r => r <| estop_engaged_ := true |> <| estop_promise_ := Some id |>) w in
  let w :=
    if no_session (rt w) then
      set_promise id (failure kSdkResNotInit
        "runtime is disconnected; emergency stop latched locally")
        (set_rt (fun r => r <| estop_engaged_ := false |> <| estop_promise_ := None |>) w)
    else w in
  finish_call id w.

Definition request_authority_step (sdk : bool) (id : nat) (w : world) : world :=
  finish_call id
    (if no_session (rt w) then
       set_promise id (failure kSdkResNotInit
         "runtime is disconnected; authority request not enqueued") w
     else
       let '(pushed, q) := push (mkCommand RequestAuthority sdk 0 id) (command_queue_ (rt w)) in
       if negb pushed then set_promise id (failure kSdkResFailed "command queue is full") w
       else set_rt (fun r => r <| command_queue_ := q |>) w).

Definition request_mode_gate (name : string) (id : nat) (w : world) : world :=
  if no_session (rt w) then
    finish_call id (set_promise id (failure kSdkResNotInit
      "runtime is disconnected; mode request not enqueued") w)
  else next_step id (InDecide name) w.

Definition request_mode_decide (name : string) (id : nat) (w : world) : world :=
  let '(decision, c) := request_mode (clock w) name (controller_ (rt w)) in
  let w := set_controller (fun _ => c) w in
  if negb (md_accepted decision) then
    finish_call id (set_promise id (map_mode_rejection decision) w)
  else
    emit (EvModeAccepted id (md_mode decision)) (next_step id (InEnqueue (md_mode decision)) w).

Definition complete_transition (success : bool) (w : world) : world :=
  set_controller (complete_mode_transition (clock w) success) w.

Definition request_mode_enqueue (mode : Z) (id : nat) (w : world) : world :=
  finish_call id
    (if no_session (rt w) then
       set_promise id (failure kSdkResNotInit
         "runtime disconnected before the mode command was enqueued")
         (complete_transition false w)
     else
       let '(pushed, q) := push (mkCommand RequestMode false mode id) (command_queue_ (rt w)) in
       if negb pushed then
         set_promise id (failure kSdkResFailed "command queue is full")
           (complete_transition false w)
       else set_rt (fun r => r <| command_queue_ := q |>) w).

Definition stop (w : world) : world :=
  emit EvStop (set_rt (fun r => r <| stop_requested_ := true |>) w).

(** ** SDK callbacks *)

Definition handle_status (linked control_authority : bool) (w : world) : world :=
  let w := set_rt (fun r => r <| sdk_linked_ := linked |>
                              <| control_authority_ := control_authority |>) w in
  let w := if negb linked then set_rt (fun r => r <| link_drop_latched_ := true |>) w else w in
  let w := set_controller (update_robot_state (clock w)
             (mkStatus linked control_authority (last_snapshot_sport_status_ (rt w))
                (last_snapshot_error_code_ (rt w)))) w in
  let w := set_rt (fun r => r <| motion_refresh_due_ := true |>) w in
  dispatch_observer_safely (OnStatus linked control_authority) w.

Definition handle_imu (s : ImuSample) (w : world) : world :=
  dispatch_observer_safely (OnImu s) (set_rt (fun r => r <| latest_imu_ := s |>) w).

Definition handle_sport (s : SportSample) (w : world) : world :=
  dispatch_observer_safely (OnSport s) (set_rt (fun r => r <| latest_sport_ := s |>) w).

Definition latest_imu (w : world) : ImuSample := latest_imu_ (rt w).
Definition latest_sport (w : world) : SportSample := latest_sport_ (rt w).
Definition observer_error_count (w : world) : Z := observer_errors_ (rt w).

(** ** What other threads do between two steps of the worker *)

Inductive action :=
  | ActCall (a : api_call)
  | ActStep (id : nat)
  | ActVelocity (v : Velocity)
  | ActStatus (linked control_authority : bool)
  | ActImu (s : ImuSample)
  | ActSport (s : SportSample)
  | ActStop.

Definition begin_call (a : api_call) (w : world) : world :=
  emit (EvApi (next_id w) a)
    (next_step (next_id w) (initial_call a) (w <| next_id := S (next_id w) |>)).

Definition step_call (id : nat) (c : call) (w : world) : world :=
  match c with
  | InClear => trigger_estop_clear id w
  | InLatch => trigger_estop_latch id w
  | InMark => trigger_estop_mark id w
  | InAuthority sdk => request_authority_step sdk id w
  | InGate name => request_mode_gate name id w
  | InDecide name => request_mode_decide name id w
  | InEnqueue mode => request_mode_enqueue mode id w
  end.

Definition run_action (held : bool) (a : action) (w : world) : world :=
  match a with
  | ActCall a => begin_call a w
  | ActStep id =>
      match calls w !! id with
      | Some c => if held && needs_lock c then w else step_call id c w
      | None => w
      end
  | ActVelocity v => submit_velocity v w
  | ActStatus l a => if held then w else handle_status l a w
  | ActImu s => handle_imu s w
  | ActSport s => handle_sport s w
  | ActStop => if held then over stops_waiting S w else stop w
  end.

End Callbacks.
