(* ===== verification/NodeConfig.v ===== *)
(** * NodeConfig: the configuration of [driver_node.cpp]

    [validate_parameters] with everything it resolves, and the configurations that
    [create_receivers] and [assemble_runtime] build from it.  The parameters are
    what the node reads after [declare_parameters]: integers have 64 bits, and
    [const int x = as_int()] narrows them. *)

From S2P Require Import Prelude Cxx ThreadSafeQueue RobotController LidarParse FrameAssembler SdkTypes RuntimeState.

(** ** Parameters *)

Record parameters := mkParameters {
  interface : string; host_address : string; robot_address : string;
  frames_imu : string; frames_odom : string; frames_base : string;
  sdk_init_timeout_ms : Z; sdk_call_timeout_ms : Z; sdk_heartbeat_call_timeout_ms : Z;
  sdk_heartbeat_max_failures : Z;
  timing_heartbeat_period_ms : Z; timing_motion_refresh_period_ms : Z;
  timing_state_poll_period_ms : Z; timing_mode_timeout_ms : Z;
  timing_reconnect_initial_delay_ms : Z; timing_reconnect_max_delay_ms : Z;
  safety_command_deadman_ms : Z; safety_queue_capacity : Z;
  imu_frequency_hz : Z; sport_frequency_hz : Z; lidar_enabled : bool; lidar_frequency_hz : Z;
  topics_points : string; topics_odom_lidar : string;
  lidar_point_cloud_port : Z; lidar_odometry_port : Z;
  lidar_bind_ip : string; lidar_source_ip : string;
  lidar_point_position_scale : spec_float; lidar_odom_position_scale : spec_float;
  lidar_odom_quaternion_scale : spec_float; lidar_odom_quaternion_order : string;
  lidar_frame_id : string; lidar_frame_timeout_ms : Z; lidar_max_parallel_frames : Z;
  lidar_max_points_per_frame : Z; lidar_max_packets_per_frame : Z;
  odom_lidar_parent_frame : string; odom_lidar_child_frame : string;
  odom_lidar_publish_tf : bool; odom_lidar_pose_covariance_diagonal : list spec_float;
  imu_quaternion_order : string; imu_orientation_covariance_diagonal : list spec_float;
  imu_angular_velocity_covariance_diagonal : list spec_float;
  imu_linear_acceleration_covariance_diagonal : list spec_float;
  odom_publish_tf : bool; odometry_scale_verified : bool }.

#[export] Instance eta_parameters : Eta parameters := fun p =>
  mkParameters (interface p) (host_address p) (robot_address p)
    (frames_imu p) (frames_odom p) (frames_base p)
    (sdk_init_timeout_ms p) (sdk_call_timeout_ms p) (sdk_heartbeat_call_timeout_ms p)
    (sdk_heartbeat_max_failures p)
    (timing_heartbeat_period_ms p) (timing_motion_refresh_period_ms p)
    (timing_state_poll_period_ms p) (timing_mode_timeout_ms p)
    (timing_reconnect_initial_delay_ms p) (timing_reconnect_max_delay_ms p)
    (safety_command_deadman_ms p) (safety_queue_capacity p)
    (imu_frequency_hz p) (sport_frequency_hz p) (lidar_enabled p) (lidar_frequency_hz p)
    (topics_points p) (topics_odom_lidar p)
    (lidar_point_cloud_port p) (lidar_odometry_port p) (lidar_bind_ip p) (lidar_source_ip p)
    (lidar_point_position_scale p) (lidar_odom_position_scale p)
    (lidar_odom_quaternion_scale p) (lidar_odom_quaternion_order p)
    (lidar_frame_id p) (lidar_frame_timeout_ms p) (lidar_max_parallel_frames p)
    (lidar_max_points_per_frame p) (lidar_max_packets_per_frame p)
    (odom_lidar_parent_frame p) (odom_lidar_child_frame p)
    (odom_lidar_publish_tf p) (odom_lidar_pose_covariance_diagonal p)
    (imu_quaternion_order p) (imu_orientation_covariance_diagonal p)
    (imu_angular_velocity_covariance_diagonal p)
    (imu_linear_acceleration_covariance_diagonal p)
    (odom_publish_tf p) (odometry_scale_verified p).

(** A decimal literal [n / 10 ^ k]. *)
Definition f64_decimal (n k : Z) : spec_float := f64_div (f64_of_Z n) (f64_of_Z (10 ^ k)).

Definition declared_defaults : parameters :=
  mkParameters "eno1" "10.18.0.200/24" "10.18.0.100" "imu_link" "odom" "base_link"
    60000 5000 500 1 100 20 500 5000 1000 30000 100 16 50 50 true 1
    "/points" "/odom_lidar" 6100 6101 "0.0.0.0" "10.18.0.100"
    (f64_decimal 1 3) (f64_decimal 1 6) (f64_of_Z 1) "xyzw"
    "lidar_points" 300 4 2000000 4096 "odom" "lidar" false
    [f64_decimal 5 2; f64_decimal 5 2; f64_decimal 5 2;
     f64_decimal 1 2; f64_decimal 1 2; f64_decimal 1 2] "xyzw"
    [f64_decimal 2 2; f64_decimal 2 2; f64_decimal 5 2]
    [f64_decimal 1 2; f64_decimal 1 2; f64_decimal 2 2]
    [f64_decimal 10 2; f64_decimal 10 2; f64_decimal 20 2] false false.

(** ** What construction resolves *)

Record LidarParams := mkLidarParams {
  lp_point_cloud_port : Z; lp_odometry_port : Z; lp_bind_ip : string; lp_source_ip : string;
  lp_frame_id : string; lp_frame_timeout_ms : Z; lp_max_parallel_frames : Z;
  lp_max_points_per_frame : Z; lp_max_packets_per_frame : Z;
  lp_point_position_scale : spec_float; lp_odom_position_scale : spec_float;
  lp_odom_quaternion_scale : spec_float; lp_odom_quaternion_order : string }.

Record OdomLidarParams := mkOdomLidarParams {
  ol_parent_frame : string; ol_child_frame : string; ol_publish_tf : bool;
  ol_pose_covariance_diagonal : list spec_float }.

Record resolved := mkResolved {
  imu_freq_ : SubscriptionFrequency; sport_freq_ : SubscriptionFrequency;
  lidar_freq_ : SubscriptionFrequency; quaternion_order_wxyz_ : bool;
  orientation_covariance_ : list spec_float; angular_velocity_covariance_ : list spec_float;
  linear_acceleration_covariance_ : list spec_float;
  fr_imu : string; fr_odom : string; fr_base : string;
  lidar_enabled_ : bool; points_topic_ : string; odom_lidar_topic_ : string;
  lidar_ : LidarParams; odom_lidar_ : OdomLidarParams }.

(** ** Validation: a value, or the message of the exception *)

Definition outcome (A : Type) : Type := string + A.

(** The checks in order; the first that holds fails with its message. *)
Fixpoint fail_if {A} (checks : list (bool * string)) (k : outcome A) : outcome A :=
  match checks with
  | [] => k
  | (b, message) :: checks' => if b then inl message else fail_if checks' k
  end.

Definition and_then {A B} (x : outcome A) (k : A -> outcome B) : outcome B :=
  match x with inl message => inl message | inr a => k a end.

(** [const int x = get_parameter(...).as_int()]. *)
Definition as_int (z : Z) : Z := swrap 32 z.

Definition frequency_from_hz (hz : Z) : outcome SubscriptionFrequency :=
  if hz =? 0 then inr Disabled
  else if hz =? 1 then inr Hz1
  else if hz =? 25 then inr Hz25
  else if hz =? 50 then inr Hz50
  else if hz =? 125 then inr Hz125
  else if hz =? 250 then inr Hz250
  else inl ("subscription frequency " +:+ pretty hz +:+
            " Hz is not valid (must be one of 0/1/25/50/125/250)").

(** The coefficient of a diagonal, as the messages read it. *)
Definition coefficient (diag : list spec_float) (i : nat) : spec_float :=
  match diag !! i with
  | Some v => if isfinite v then v else fzero
  | None => fzero
  end.

Definition diagonal_covariance (diag : list spec_float) : list spec_float :=
  [coefficient diag 0; fzero; fzero;
   fzero; coefficient diag 1; fzero;
   fzero; fzero; coefficient diag 2].

Section Validation.

(** [inet_pton] of the C library, and [std::to_string] of a double. *)
Context (inet_pton : string -> bool) (to_string : spec_float -> string).

Definition valid_ipv4 (value : string) : bool := inet_pton (c_str value).

Fixpoint covariance_checks (name : string) (diag : list spec_float) (i : nat)
  : list (bool * string) :=
  match diag with
  | [] => []
  | v :: diag' =>
      (negb (isfinite v) || SFltb v fzero,
       name +:+ " coefficient " +:+ pretty (Z.of_nat i) +:+ " (" +:+ to_string v +:+
       ") must be finite and >= 0") :: covariance_checks name diag' (S i)
  end.

Definition validate_covariance_diagonal (name : string) (diag : list spec_float)
  : list (bool * string) := covariance_checks name diag 0.

Definition outside (lo hi x : Z) : bool := (x <? lo) || (hi <? x).

(** Ports and addresses. *)
Definition address_checks (p : parameters) : list (bool * string) :=
  let point_cloud_port := as_int (lidar_point_cloud_port p) in
  let odometry_port := as_int (lidar_odometry_port p) in
  [(outside 1 65535 point_cloud_port,
    "lidar.point_cloud_port=" +:+ pretty point_cloud_port +:+
    " is outside the valid port range [1, 65535]");
   (outside 1 65535 odometry_port,
    "lidar.odometry_port=" +:+ pretty odometry_port +:+
    " is outside the valid port range [1, 65535]");
   (point_cloud_port =? odometry_port,
    "lidar.point_cloud_port and lidar.odometry_port must differ");
   (negb (valid_ipv4 (lidar_bind_ip p)),
    "lidar.bind_ip='" +:+ lidar_bind_ip p +:+ "' is not a valid IPv4 address");
   (negb (str_empty (lidar_source_ip p)) && negb (valid_ipv4 (lidar_source_ip p)),
    "lidar.source_ip='" +:+ lidar_source_ip p +:+ "' is not a valid IPv4 address")].

(** Every [*_ms] parameter, in the order of the loop. *)
Definition timings (p : parameters) : list (string * Z) :=
  [("sdk.init_timeout_ms", sdk_init_timeout_ms p);
   ("sdk.call_timeout_ms", sdk_call_timeout_ms p);
   ("sdk.heartbeat_call_timeout_ms", sdk_heartbeat_call_timeout_ms p);
   ("timing.heartbeat_period_ms", timing_heartbeat_period_ms p);
   ("timing.motion_refresh_period_ms", timing_motion_refresh_period_ms p);
   ("timing.state_poll_period_ms", timing_state_poll_period_ms p);
   ("timing.mode_timeout_ms", timing_mode_timeout_ms p);
   ("timing.reconnect_initial_delay_ms", timing_reconnect_initial_delay_ms p);
   ("timing.reconnect_max_delay_ms", timing_reconnect_max_delay_ms p);
   ("safety.command_deadman_ms", safety_command_deadman_ms p);
   ("lidar.frame_timeout_ms", lidar_frame_timeout_ms p)]%string.

Definition timing_check (e : string * Z) : bool * string :=
  let ms := as_int e.2 in
  (ms <=? 0, e.1 +:+ "=" +:+ pretty ms +:+ " must be strictly positive").

Definition range_check (name : string) (z lo hi : Z) : bool * string :=
  (outside lo hi (as_int z),
   name +:+ "=" +:+ pretty (as_int z) +:+ " is outside [" +:+ pretty lo +:+ ", " +:+
   pretty hi +:+ "]").

Definition total_point_budget (p : parameters) : Z :=
  as_int (lidar_max_parallel_frames p) * as_int (lidar_max_points_per_frame p).

Definition capacity_checks (p : parameters) : list (bool * string) :=
  [range_check "safety.queue_capacity" (safety_queue_capacity p) 1 1024;
   range_check "lidar.max_parallel_frames" (lidar_max_parallel_frames p) 1 64;
   range_check "lidar.max_points_per_frame" (lidar_max_points_per_frame p) 1 50000000;
   range_check "lidar.max_packets_per_frame" (lidar_max_packets_per_frame p) 1 65536;
   (20000000 <? total_point_budget p,
    "lidar.max_parallel_frames * lidar.max_points_per_frame = " +:+
    pretty (total_point_budget p) +:+ " exceeds the 20,000,000 point memory budget")].

Definition scale_check (e : string * spec_float) : bool * string :=
  (negb (isfinite e.2) || SFleb e.2 fzero || SFltb scale_limit e.2,
   e.1 +:+ "=" +:+ to_string e.2 +:+ " must be finite and within (0, 1e9]").

Definition scale_checks (p : parameters) : list (bool * string) :=
  map scale_check
    [("lidar.point_position_scale"%string, lidar_point_position_scale p);
     ("lidar.odom_position_scale"%string, lidar_odom_position_scale p);
     ("lidar.odom_quaternion_scale"%string, lidar_odom_quaternion_scale p)] ++
  [(negb (bool_decide (lidar_odom_quaternion_order p = "xyzw"%string)) &&
    negb (bool_decide (lidar_odom_quaternion_order p = "wxyz"%string)),
    "lidar.odom_quaternion_order='" +:+ lidar_odom_quaternion_order p +:+
    "' is not 'xyzw' or 'wxyz'")].

Definition session_checks (p : parameters) : list (bool * string) :=
  let heartbeat_max_failures := as_int (sdk_heartbeat_max_failures p) in
  let reconnect_initial := as_int (timing_reconnect_initial_delay_ms p) in
  let reconnect_max := as_int (timing_reconnect_max_delay_ms p) in
  [(heartbeat_max_failures <? 1,
    "sdk.heartbeat_max_failures=" +:+ pretty heartbeat_max_failures +:+ " must be >= 1");
   (reconnect_max <? reconnect_initial,
    "timing.reconnect_initial_delay_ms (" +:+ pretty reconnect_initial +:+ ") exceeds " +:+
    "timing.reconnect_max_delay_ms (" +:+ pretty reconnect_max +:+ ")")].

(** The log lines of the validation that do not fail it. *)
Inductive config_warning :=
  | FramesCannotBeAddressed
  | VelocitiesExpireBeforeRefresh
  | HeartbeatTimeoutTooLong
  | RobotAddressDiffers.

Definition config_warnings (p : parameters) : list config_warning :=
  (if as_int (lidar_max_packets_per_frame p) <?
      Z.quot (as_int (lidar_max_points_per_frame p) + 49) 50
   then [FramesCannotBeAddressed] else []) ++
  (if as_int (safety_command_deadman_ms p) <? as_int (timing_motion_refresh_period_ms p)
   then [VelocitiesExpireBeforeRefresh] else []) ++
  (if 500 <=? as_int (sdk_heartbeat_call_timeout_ms p) then [HeartbeatTimeoutTooLong] else []) ++
  (if bool_decide (robot_address p = "10.18.0.100"%string) then [] else [RobotAddressDiffers]).

Definition quaternion_order (order : string) : outcome bool :=
  if bool_decide (order = "wxyz"%string) then inr true
  else if bool_decide (order = "xyzw"%string) then inr false
  else inl ("imu.quaternion_order='" +:+ order +:+ "' is not 'xyzw' or 'wxyz'").

Definition resolve_lidar (p : parameters) : LidarParams :=
  mkLidarParams (wrap 16 (lidar_point_cloud_port p)) (wrap 16 (lidar_odometry_port p))
    (lidar_bind_ip p) (lidar_source_ip p) (lidar_frame_id p)
    (as_int (lidar_frame_timeout_ms p)) (wrap 64 (lidar_max_parallel_frames p))
    (wrap 64 (lidar_max_points_per_frame p)) (wrap 64 (lidar_max_packets_per_frame p))
    (lidar_point_position_scale p) (lidar_odom_position_scale p)
    (lidar_odom_quaternion_scale p) (lidar_odom_quaternion_order p).

(** The frequency of a telemetry topic. *)
Definition subscription_frequency (hz : Z) : outcome SubscriptionFrequency := frequency_from_hz (as_int hz).

Definition frame_checks (p : parameters) : list (bool * string) :=
  [(str_empty (frames_imu p) || str_empty (frames_odom p) || str_empty (frames_base p),
    "frame names must not be empty"%string)].

Definition imu_covariances_valid {A} (p : parameters) (k : outcome A) : outcome A :=
  fail_if (validate_covariance_diagonal "imu.orientation_covariance_diagonal"
             (imu_orientation_covariance_diagonal p))
  (fail_if (validate_covariance_diagonal "imu.angular_velocity_covariance_diagonal"
              (imu_angular_velocity_covariance_diagonal p))
  (fail_if (validate_covariance_diagonal "imu.linear_acceleration_covariance_diagonal"
              (imu_linear_acceleration_covariance_diagonal p)) k)).

Definition resolve_odom_lidar (p : parameters) : OdomLidarParams :=
  mkOdomLidarParams (odom_lidar_parent_frame p) (odom_lidar_child_frame p)
    (odom_lidar_publish_tf p) (odom_lidar_pose_covariance_diagonal p).

Definition odom_lidar_covariance_valid {A} (p : parameters) (k : outcome A) : outcome A :=
  fail_if (validate_covariance_diagonal "odom_lidar.pose_covariance_diagonal"
             (odom_lidar_pose_covariance_diagonal p)) k.

(** The members set from valid parameters. *)
Definition resolve (p : parameters) (imu sport lidar : SubscriptionFrequency) (wxyz : bool) : resolved :=
  mkResolved imu sport lidar wxyz
    (diagonal_covariance (imu_orientation_covariance_diagonal p))
    (diagonal_covariance (imu_angular_velocity_covariance_diagonal p))
    (diagonal_covariance (imu_linear_acceleration_covariance_diagonal p))
    (frames_imu p) (frames_odom p) (frames_base p)
    (lidar_enabled p) (topics_points p) (topics_odom_lidar p) (resolve_lidar p) (resolve_odom_lidar p).

Definition validate_parameters (p : parameters) : outcome resolved :=
  fail_if (address_checks p)
  (fail_if (map timing_check (timings p))
  (fail_if (capacity_checks p)
  (fail_if (scale_checks p)
  (fail_if (session_checks p)
  (and_then (subscription_frequency (imu_frequency_hz p)) (fun imu =>
   and_then (subscription_frequency (sport_frequency_hz p)) (fun sport =>
   and_then (subscription_frequency (lidar_frequency_hz p)) (fun lidar =>
   and_then (quaternion_order (imu_quaternion_order p)) (fun wxyz =>
   fail_if (frame_checks p)
  (imu_covariances_valid p
  (odom_lidar_covariance_valid p
  (inr (resolve p imu sport lidar wxyz))))))))))))).

End Validation.

(** ** What the components get *)

(** [decide_tf_broadcaster]: whether [odom] and [odom_lidar] transforms are sent. *)
Definition tf_broadcaster (p : parameters) : bool := odom_publish_tf p && odometry_scale_verified p.
Definition lidar_tf_broadcaster (p : parameters) : bool :=
  odom_lidar_publish_tf p && odometry_scale_verified p.

Definition parse_config (r : resolved) : LidarParseConfig :=
  mkParseConfig (lp_point_position_scale (lidar_ r)) (lp_odom_position_scale (lidar_ r))
    (lp_odom_quaternion_scale (lidar_ r)) (lp_odom_quaternion_order (lidar_ r)).

Definition assembler_config (r : resolved) : AssemblerConfig :=
  mkAssemblerConfig (Z.to_nat (lp_max_parallel_frames (lidar_ r)))
    (milliseconds (lp_frame_timeout_ms (lidar_ r))) (lp_max_points_per_frame (lidar_ r))
    (lp_max_packets_per_frame (lidar_ r)).

Definition runtime_config (p : parameters) (r : resolved) : RuntimeConfig :=
  mkRuntimeConfig (interface p) (host_address p) (robot_address p)
    (wrap 32 (sdk_init_timeout_ms p)) (wrap 32 (sdk_call_timeout_ms p))
    (wrap 32 (sdk_heartbeat_call_timeout_ms p)) (wrap 32 (sdk_heartbeat_max_failures p))
    (Z.to_nat (wrap 64 (safety_queue_capacity p)))
    (milliseconds (timing_heartbeat_period_ms p))
    (milliseconds (timing_motion_refresh_period_ms p))
    (milliseconds (safety_command_deadman_ms p)) (milliseconds (timing_mode_timeout_ms p))
    (milliseconds (timing_state_poll_period_ms p))
    (imu_freq_ r) (sport_freq_ r) (lidar_freq_ r) (lidar_enabled_ r)
    (milliseconds (timing_reconnect_initial_delay_ms p))
    (milliseconds (timing_reconnect_max_delay_ms p)).

(** ** Facts *)

Lemma fail_if_inr {A} checks (k : outcome A) a :
  fail_if checks k = inr a -> Forall (fun c => c.1 = false) checks /\ k = inr a.
Proof.
  induction checks as [|[b message] checks IH]; cbn [fail_if]; [done|].
  destruct b; [done|]. intros [H1 H2]%IH. split; [by constructor|done].
Qed.

Lemma and_then_inr {A B} (x : outcome A) (k : A -> outcome B) b :
  and_then x k = inr b -> exists a, x = inr a /\ k a = inr b.
Proof. destruct x as [message|a]; [done|]. intros H. by exists a. Qed.

(** Every integer parameter fits the [int] it is validated as. *)
Definition integers (p : parameters) : list Z :=
  map snd (timings p) ++
  [sdk_heartbeat_max_failures p; safety_queue_capacity p; imu_frequency_hz p;
   sport_frequency_hz p; lidar_frequency_hz p; lidar_point_cloud_port p; lidar_odometry_port p;
   lidar_max_parallel_frames p; lidar_max_points_per_frame p; lidar_max_packets_per_frame p].

Definition in_int32 (z : Z) : Prop := - 2 ^ 31 <= z < 2 ^ 31.

Lemma as_int_id z : in_int32 z -> as_int z = z.
Proof. intros Hz. by apply swrap_small. Qed.

(** The double parameters are binary64 values. *)
Definition doubles (p : parameters) : bool :=
  valid_binary 53 1024 (lidar_point_position_scale p) &&
  valid_binary 53 1024 (lidar_odom_position_scale p) &&
  valid_binary 53 1024 (lidar_odom_quaternion_scale p).

Definition nonnegative (v : spec_float) : bool := isfinite v && negb (SFltb v fzero).

Lemma covariance_checks_pass to_string name diag i :
  Forall (fun c => c.1 = false) (covariance_checks to_string name diag i) ->
  Forall (fun v => nonnegative v = true) diag.
Proof.
  revert i. induction diag as [|v diag IH]; intros i; cbn [covariance_checks]; [done|].
  intros [H1 H2]%Forall_cons_iff. constructor; [|by apply (IH (S i))].
  cbn [fst] in H1. apply orb_false_iff in H1 as [Hf Hn]. apply negb_false_iff in Hf.
  unfold nonnegative. by rewrite Hf, Hn.
Qed.

Lemma coefficient_nonnegative diag i :
  Forall (fun v => nonnegative v = true) diag -> nonnegative (coefficient diag i) = true.
Proof.
  intros Hd. unfold coefficient. destruct (diag !! i) as [v|] eqn:Hi; [|done].
  rewrite List.Forall_forall in Hd.
  assert (Hv : nonnegative v = true) by (apply Hd, list_elem_of_In, list_elem_of_lookup; eauto).
  destruct (isfinite v); [done|done].
Qed.

Lemma diagonal_covariance_nonnegative diag :
  Forall (fun v => nonnegative v = true) diag ->
  Forall (fun v => nonnegative v = true) (diagonal_covariance diag).
Proof. intros Hd. unfold diagonal_covariance. repeat constructor; by apply coefficient_nonnegative. Qed.

(** The node's scale test implies the parser's. *)
Lemma scale_check_pass to_string name v :
  (scale_check to_string (name, v)).1 = false ->
  IsFinitePositive v = true /\ SFleb (SFabs v) scale_limit = true.
Proof.
  unfold scale_check, IsFinitePositive. cbn [fst snd].
  rewrite !orb_false_iff, negb_false_iff. intros [[Hf Hle] Hgt].
  assert (Hnan : isnan v = false) by (by apply isfinite_not_nan).
  assert (Hpos : SFltb fzero v = true).
  { destruct (SFltb fzero v) eqn:E; [done|]. apply SFltb_not_leb in E; [congruence|done|done]. }
  rewrite Hf, Hpos. split; [done|].
  assert (Habs : SFabs v = v) by (destruct v as [[]|[]| |[] m e]; done).
  rewrite Habs. by apply SFltb_not_leb.
Qed.

Lemma make_runtime_some c :
  0 < deadman_ms c -> (0 < queue_capacity c)%nat -> exists rt, make_runtime c = Some rt.
Proof.
  intros Hd Hq. unfold make_runtime, make_controller, make_queue.
  replace (deadman_ms c <=? 0) with false by arith.
  rewrite decide_False by lia. by eexists.
Qed.

(** The conditions under which the components are proved correct. *)
Record sound (p : parameters) (r : resolved) : Prop := {
  so_runtime : exists rt, make_runtime (runtime_config p r) = Some rt;
  so_queue : (1 <= queue_capacity (runtime_config p r) <= 1024)%nat;
  so_periods : Forall (fun d => milliseconds 1 <= d)
    [heartbeat_period (runtime_config p r); motion_refresh_period (runtime_config p r);
     deadman_ms (runtime_config p r); mode_timeout_ms (runtime_config p r);
     state_poll_period (runtime_config p r); reconnect_initial_delay_ms (runtime_config p r)];
  so_backoff : reconnect_initial_delay_ms (runtime_config p r) <=
               reconnect_max_delay_ms (runtime_config p r);
  so_heartbeat : 1 <= heartbeat_max_failures (runtime_config p r) < 2 ^ 31;
  so_timeouts : Forall (fun t => 1 <= t < 2 ^ 31)
    [init_timeout_ms (runtime_config p r); RuntimeState.sdk_call_timeout_ms (runtime_config p r);
     heartbeat_call_timeout_ms (runtime_config p r)];
  so_parser : ValidateScales (parse_config r) = true /\ config_doubles (parse_config r) = true /\
              ValidQuaternionOrder (odom_quaternion_order (parse_config r)) = true;
  so_assembler : (1 <= max_parallel_frames (assembler_config r) <= 64)%nat /\
    milliseconds 1 <= frame_timeout (assembler_config r) /\
    1 <= max_points_per_frame (assembler_config r) /\
    1 <= max_packets_per_frame (assembler_config r) <= 65536;
  so_budget : Z.of_nat (max_parallel_frames (assembler_config r)) *
              max_points_per_frame (assembler_config r) <= 20000000;
  so_ports : lp_point_cloud_port (lidar_ r) = lidar_point_cloud_port p /\
    lp_odometry_port (lidar_ r) = lidar_odometry_port p /\
    lidar_point_cloud_port p <> lidar_odometry_port p /\
    Forall (fun q => 1 <= q <= 65535) [lidar_point_cloud_port p; lidar_odometry_port p];
  so_frequencies : Forall2 (fun f hz => frequency_from_hz hz = inr f)
    [imu_freq (runtime_config p r); sport_freq (runtime_config p r); lidar_freq (runtime_config p r)]
    [imu_frequency_hz p; sport_frequency_hz p; lidar_frequency_hz p];
  so_covariances : Forall (fun v => nonnegative v = true)
    (orientation_covariance_ r ++ angular_velocity_covariance_ r ++
     linear_acceleration_covariance_ r ++ ol_pose_covariance_diagonal (odom_lidar_ r));
  so_frames : Forall (fun f => f <> ""%string) [fr_imu r; fr_odom r; fr_base r] }.

Lemma validate_inr inet_pton to_string p r :
  validate_parameters inet_pton to_string p = inr r ->
  Forall (fun c => c.1 = false)
    (address_checks inet_pton p ++ map timing_check (timings p) ++ capacity_checks p ++
     scale_checks to_string p ++ session_checks p ++
     [(str_empty (frames_imu p) || str_empty (frames_odom p) || str_empty (frames_base p), ""%string)]) /\
  Forall (fun v => nonnegative v = true)
    (imu_orientation_covariance_diagonal p ++ imu_angular_velocity_covariance_diagonal p ++
     imu_linear_acceleration_covariance_diagonal p ++ odom_lidar_pose_covariance_diagonal p) /\
  exists imu sport lidar wxyz,
    frequency_from_hz (as_int (imu_frequency_hz p)) = inr imu /\
    frequency_from_hz (as_int (sport_frequency_hz p)) = inr sport /\
    frequency_from_hz (as_int (lidar_frequency_hz p)) = inr lidar /\
    quaternion_order (imu_quaternion_order p) = inr wxyz /\
    r = resolve p imu sport lidar wxyz.
Proof.
  unfold validate_parameters, subscription_frequency, imu_covariances_valid, odom_lidar_covariance_valid.
  intros [H1 [H2 [H3 [H4 [H5 H]%fail_if_inr]%fail_if_inr]%fail_if_inr]%fail_if_inr]%fail_if_inr.
  apply and_then_inr in H as (imu & Himu & H). apply and_then_inr in H as (sport & Hsport & H).
  apply and_then_inr in H as (lidar & Hlidar & H). apply and_then_inr in H as (wxyz & Hw & H).
  apply fail_if_inr in H as [H6 H]. apply fail_if_inr in H as [H7 H]. apply fail_if_inr in H as [H8 H].
  apply fail_if_inr in H as [H9 H]. apply fail_if_inr in H as [H10 H]. injection H as <-.
  split_and!.
  - rewrite !List.Forall_app. split_and!; try done. constructor; [|done].
    by apply Forall_cons_iff in H6 as [H6 _].
  - rewrite !List.Forall_app. split_and!; by eapply covariance_checks_pass.
  - by exists imu, sport, lidar, wxyz.
Qed.

Lemma wrap_id w z n : 0 <= z < n -> n <= 2 ^ w -> wrap w z = z.
Proof. intros Hz Hn. apply wrap_small. lia. Qed.

Lemma outside_false lo hi x : outside lo hi x = false -> lo <= x <= hi.
Proof. unfold outside. intros H. arith. Qed.

(** Takes apart the checks that passed. *)
Ltac passed H :=
  repeat match type of H with
  | Forall _ (_ ++ _) => let H' := fresh H in apply List.Forall_app in H as [H' H]; passed H'
  | Forall _ (_ :: _) => let H' := fresh H in apply Forall_cons_iff in H as [H' H]
  end.

Section Sound.

Context (inet_pton : string -> bool) (to_string : spec_float -> string).
Context (p : parameters).
Hypothesis (Hint : Forall in_int32 (integers p)).

Lemma timings_positive :
  Forall (fun c => c.1 = false) (map timing_check (timings p)) ->
  Forall (fun e => 1 <= e.2 < 2 ^ 31) (timings p).
Proof.
  intros H. apply List.Forall_map in H. apply List.Forall_forall. intros e He.
  rewrite List.Forall_forall in H, Hint. specialize (H e He).
  assert (Hr : in_int32 e.2).
  { apply Hint. unfold integers. apply in_or_app. left. by apply in_map. }
  unfold timing_check in H. cbn [fst] in H. rewrite as_int_id in H by done.
  unfold in_int32 in Hr. bool_prop. lia.
Qed.

Lemma capacities_in_range :
  Forall (fun c => c.1 = false) (capacity_checks p) ->
  1 <= safety_queue_capacity p <= 1024 /\ 1 <= lidar_max_parallel_frames p <= 64 /\
  1 <= lidar_max_points_per_frame p <= 50000000 /\
  1 <= lidar_max_packets_per_frame p <= 65536 /\
  lidar_max_parallel_frames p * lidar_max_points_per_frame p <= 20000000.
Proof.
  intros H. unfold capacity_checks, range_check, total_point_budget in H.
  pose proof Hint as Hi. unfold integers in Hi. apply List.Forall_app in Hi as [_ Hi].
  passed Hi. passed H. cbn [fst] in *. rewrite !as_int_id in * by done.
  repeat match goal with Ho : outside _ _ _ = false |- _ => apply outside_false in Ho end.
  bool_prop. lia.
Qed.

Lemma ports_in_range :
  Forall (fun c => c.1 = false) (address_checks inet_pton p) ->
  1 <= lidar_point_cloud_port p <= 65535 /\ 1 <= lidar_odometry_port p <= 65535 /\
  lidar_point_cloud_port p <> lidar_odometry_port p.
Proof.
  intros H. unfold address_checks in H.
  pose proof Hint as Hi. unfold integers in Hi. apply List.Forall_app in Hi as [_ Hi].
  passed Hi. passed H. cbn [fst] in *. rewrite !as_int_id in * by done.
  repeat match goal with Ho : outside _ _ _ = false |- _ => apply outside_false in Ho end.
  bool_prop. lia.
Qed.

Lemma scales_valid r :
  doubles p = true -> lidar_ r = resolve_lidar p ->
  Forall (fun c => c.1 = false) (scale_checks to_string p) ->
  ValidateScales (parse_config r) = true /\ config_doubles (parse_config r) = true /\
  ValidQuaternionOrder (LidarParse.odom_quaternion_order (parse_config r)) = true.
Proof.
  intros Hd Hl H. unfold scale_checks in H. cbn [map app] in H. passed H. cbn [fst] in *.
  apply scale_check_pass in H0 as [H0 H0'], H1 as [H1 H1'], H2 as [H2 H2'].
  unfold ValidateScales, config_doubles, parse_config. rewrite Hl.
  cbn [point_position_scale odom_position_scale odom_quaternion_scale lp_point_position_scale
       lp_odom_position_scale lp_odom_quaternion_scale resolve_lidar LidarParse.odom_quaternion_order
       lp_odom_quaternion_order].
  rewrite H0, H0', H1, H1', H2, H2'. split_and!; [done|exact Hd|].
  unfold ValidQuaternionOrder. by destruct (bool_decide _), (bool_decide _).
Qed.

End Sound.

Lemma validated_sound inet_pton to_string p r :
  Forall in_int32 (integers p) -> doubles p = true ->
  validate_parameters inet_pton to_string p = inr r -> sound p r.
Proof.
  intros Hint Hd Hv. apply validate_inr in Hv as (Hc & Hcov & imu & sport & lidar & wxyz & Hv).
  destruct Hv as (Himu & Hsport & Hlidar & _ & ->). rewrite !List.Forall_app in Hc.
  destruct Hc as (Ha & Ht & Hcap & Hs & Hses & Hfr). rewrite !List.Forall_app in Hcov.
  apply timings_positive in Ht; [|done]. unfold timings in Ht. passed Ht. cbn [snd] in *.
  apply capacities_in_range in Hcap; [|done]. apply ports_in_range in Ha; [|done].
  assert (Hi := Hint). unfold integers in Hi. apply List.Forall_app in Hi as [_ Hi]. passed Hi.
  rewrite as_int_id in Himu, Hsport, Hlidar by done.
  unfold session_checks in Hses. passed Hses. cbn [fst] in *.
  rewrite !as_int_id in * by (done || (unfold in_int32; lia)). bool_prop.
  split; cbn -[Z.to_nat wrap milliseconds diagonal_covariance]; unfold wrap.
  - apply make_runtime_some; cbn; unfold milliseconds, wrap; [lia|]. rewrite Z.mod_small; lia.
  - rewrite Z.mod_small; lia.
  - unfold milliseconds. repeat constructor; lia.
  - unfold milliseconds. lia.
  - rewrite Z.mod_small; unfold in_int32 in *; lia.
  - rewrite !Z.mod_small by lia. repeat constructor; lia.
  - by apply (scales_valid to_string p).
  - rewrite !as_int_id by (unfold in_int32; lia). rewrite !Z.mod_small by lia.
    unfold milliseconds. lia.
  - rewrite !Z.mod_small by lia. rewrite Z2Nat.id; lia.
  - rewrite !Z.mod_small by lia. split_and!; try done; try lia. repeat constructor; lia.
  - by repeat constructor.
  - rewrite !List.Forall_app. split_and!; try apply diagonal_covariance_nonnegative; by apply Hcov.
  - apply Forall_cons_iff in Hfr as [Hfr _]. cbn [fst] in Hfr.
    destruct (frames_imu p), (frames_odom p), (frames_base p); try done. by repeat constructor.
Qed.

(** ** Properties *)

(** A configuration the node accepts meets the conditions of every component it
    configures, provided its integer parameters fit an [int]: the runtime and its
    gate can be constructed, periods and timeouts are positive and survive the
    conversions, the reconnect delays are ordered, the queue and the assembler are
    bounded with at most twenty million points in flight, the parsers accept the
    scales and the quaternion order, the ports are distinct and not truncated, the
    covariances are finite and not negative, the frames have names.
    Claim C30. *)
Theorem accepted_configuration_is_sound inet_pton to_string p r :
  Forall in_int32 (integers p) -> doubles p = true ->
  validate_parameters inet_pton to_string p = inr r -> sound p r.
Proof. apply validated_sound. Qed.

(** ** Witness *)

Definition any_address (address : string) : bool := true.
Definition no_text (v : spec_float) : string := "".

Definition accepted (p : parameters) : option resolved :=
  match validate_parameters any_address no_text p with inl _ => None | inr r => Some r end.

Lemma accepted_configuration_is_sound_witness :
  exists r, accepted declared_defaults = Some r /\ sound declared_defaults r.
Proof.
  destruct (accepted declared_defaults) as [r|] eqn:Hr; [|vm_compute in Hr; discriminate].
  exists r. split; [reflexivity|].
  apply (accepted_configuration_is_sound any_address no_text).
  - unfold declared_defaults, integers, in_int32. cbn. repeat constructor; lia.
  - vm_compute. reflexivity.
  - unfold accepted in Hr. destruct (validate_parameters _ _ _) as [m|r']; [discriminate|].
    injection Hr as ->. reflexivity.
Defined.

(** The declared defaults are the defaults of the runtime and of the parsers. *)
Example declared_defaults_agree :
  match accepted declared_defaults with
  | Some r => runtime_config declared_defaults r =
                default_runtime_config "eno1" "10.18.0.200/24" "10.18.0.100" /\
              parse_config r = default_parse_config
  | None => False
  end.
Proof. vm_compute. done. Qed.

(** ** What the code leaves open

    The declared defaults trigger two of the node's own warnings: 4096 packets
    cannot carry two million points, and the heartbeat call may take as long as
    the robot's heartbeat-loss threshold. *)
Example declared_defaults_warn :
  config_warnings declared_defaults = [FramesCannotBeAddressed; HeartbeatTimeoutTooLong].
Proof. vm_compute. done. Qed.

(** The checks narrow each integer to [int], what they protect reads all 64 bits:
    a deadman of 49 days and frames of four billion points pass. *)
Example wide_parameters_escape_validation :
  let p := declared_defaults <| safety_command_deadman_ms := 2 ^ 32 + 100 |>
             <| lidar_max_points_per_frame := 2 ^ 32 + 1 |> in
  match accepted p with
  | Some r => deadman_ms (runtime_config p r) = milliseconds 4294967396 /\
              max_points_per_frame (assembler_config r) = 4294967297
  | None => False
  end.
Proof. vm_compute. done. Qed.
