(* ===== verification/NodeLifetime.v ===== *)
(** * NodeLifetime: construction and destruction of [HypertronDriverNode::Impl]

    The constructor, the life and the destructor of the node as the program of one
    thread, next to the two receive threads ([LidarReceiver]) and the runtime.  Every
    step of the constructor may throw; the members are then destroyed in the reverse
    of their declaration order.  Of the runtime only its lifetime is kept: its worker
    and the SDK call the node's handlers while the worker runs, and the worker returns
    once a stop is requested and no handler is running. *)

From S2P Require Import Prelude Cxx LidarParse FrameAssembler NodeConfig LidarReceiver LidarDelivery.

(** ** Members and steps *)

Inductive stream := CloudStream | OdometryStream.

#[export] Instance stream_eq_dec : EqDecision stream.
Proof. solve_decision. Defined.

(** The parts with threads of their own. *)
Inductive service := SReceiver (w : stream) | SRuntime.

#[export] Instance service_eq_dec : EqDecision service.
Proof. solve_decision. Defined.

Inductive member :=
  | MClock | MObserver | MParameters | MPublishers | MSubscriptions | MServices
  | MBroadcasters | MState | MPose | MDeviceClock | MService (sv : service).

#[export] Instance member_eq_dec : EqDecision member.
Proof. solve_decision. Defined.

(** The declaration order. *)
Definition members : list member :=
  [MClock; MObserver; MParameters; MPublishers; MSubscriptions; MServices; MBroadcasters;
   MState; MPose; MDeviceClock; MService (SReceiver CloudStream);
   MService (SReceiver OdometryStream); MService SRuntime].

Inductive instr :=
  | DeclareParameters | ValidateParameters | CreateGraphInterfaces | DecideTfBroadcaster
  | CreateReceiver (w : stream)
  | EmplaceRuntime | StartRuntime
  | StartReceiver (w : stream)
  | PublishRobotState
  | Live
  | RequestStop (sv : service)         (* [stop] up to the join, *)
  | AwaitStop (sv : service)           (* the join *)
  | DeinitSdk
  | LogLidarStats
  | Destroy (m : member).

#[export] Instance instr_eq_dec : EqDecision instr.
Proof. solve_decision. Defined.

Definition assemble_runtime : list instr := [EmplaceRuntime; StartRuntime].

Definition start_receivers : list instr := [StartReceiver CloudStream; StartReceiver OdometryStream].

Definition create_receivers : list instr := [CreateReceiver CloudStream; CreateReceiver OdometryStream].

(** The constructor's body. *)
Definition constructor : list instr :=
  [DeclareParameters; ValidateParameters; CreateGraphInterfaces; DecideTfBroadcaster] ++
  create_receivers ++ assemble_runtime ++ start_receivers ++ [PublishRobotState].

Definition stop_service (sv : service) : list instr := [RequestStop sv; AwaitStop sv].

(** The destructor's body. *)
Definition destructor : list instr :=
  stop_service (SReceiver CloudStream) ++ stop_service (SReceiver OdometryStream) ++
  stop_service SRuntime ++ [LogLidarStats].

(** The destructor of a member: those of the receivers and of the runtime stop them. *)
Definition destroy (m : member) : list instr :=
  match m with
  | MService SRuntime => stop_service SRuntime ++ [DeinitSdk; Destroy m]
  | MService sv => stop_service sv ++ [Destroy m]
  | _ => [Destroy m]
  end.

(** Also after an exception in the constructor. *)
Definition unwinding : list instr := concat (map destroy (rev members)).

Definition program : list instr := constructor ++ [Live] ++ destructor ++ unwinding.

(** ** The system *)

Inductive worker_thread := NotStarted | Working | Returned.

#[export] Instance worker_thread_eq_dec : EqDecision worker_thread.
Proof. solve_decision. Defined.

Record runtime_life := mkRuntimeLife {
  worker_ : worker_thread;
  stop_requested_ : bool;
  in_handlers : nat }.                 (* node handlers the runtime is inside of *)

#[export] Instance eta_runtime_life : Eta runtime_life := fun l =>
  mkRuntimeLife (worker_ l) (stop_requested_ l) (in_handlers l).

Record life (Src I : Type) := mkLife {
  todo : list instr;                   (* what the owning thread still has to do *)
  alive_members : list member;
  graph_ : bool;                       (* publishers, subscriptions, services exist *)
  runtime_ : option runtime_life;
  point_cloud_receiver_ : option (system Src I);
  odometry_receiver_ : option (system Src I) }.
Arguments mkLife {Src I}.
Arguments todo {Src I}.
Arguments alive_members {Src I}.
Arguments graph_ {Src I}.
Arguments runtime_ {Src I}.
Arguments point_cloud_receiver_ {Src I}.
Arguments odometry_receiver_ {Src I}.

#[export] Instance eta_life Src I : Eta (life Src I) := fun s =>
  mkLife (todo s) (alive_members s) (graph_ s) (runtime_ s) (point_cloud_receiver_ s)
    (odometry_receiver_ s).

(** What an operation of the owning thread that may fail does; a new thread gets an id. *)
Inductive result := Goes (new_thread : nat) | Throws.

Definition main_thread : nat := 0.

Section Node.
  Context {Src I : Type} `{!DatagramSource Src I}.
  Context (inet_pton : string -> option Z) (r : resolved).
  Context (injected : stream -> option Src).       (* the sources given to the constructor *)
  Context (opening_of : stream -> Udp.opening) (of_udp : Udp.UdpLidarDatagramSource -> Src).

#[local] Notation life := (life Src I).
#[local] Notation system := (system Src I).

Definition port_of (w : stream) : Z :=
  match w with CloudStream => lp_point_cloud_port (lidar_ r) | OdometryStream => lp_odometry_port (lidar_ r) end.

Definition setup_of (w : stream) : setup :=
  mkSetup (match w with CloudStream => PointCloud | OdometryStream => Odometry end)
    (parse_config r) true true true.

(** The injected source, or a UDP source if its port could be bound. *)
Definition chosen_source (w : stream) : option Src :=
  match injected w with
  | Some s => Some s
  | None =>
      let udp := (Udp.open_source inet_pton (opening_of w) (port_of w) (lp_bind_ip (lidar_ r))
                    (lp_source_ip (lidar_ r))).1 in
      if Udp.valid udp then Some (of_udp udp) else None
  end.

Definition receiver_of (w : stream) (s : life) : option system :=
  match w with CloudStream => point_cloud_receiver_ s | OdometryStream => odometry_receiver_ s end.

Definition set_receiver (w : stream) (x : system) (s : life) : life :=
  match w with
  | CloudStream => s <| point_cloud_receiver_ := Some x |>
  | OdometryStream => s <| odometry_receiver_ := Some x |>
  end.

(** A step of a receiver; nothing when it was not created. *)
Definition on_receiver (w : stream) (l : LidarReceiver.label I) (s : life) : option life :=
  match receiver_of w s with
  | None => Some s
  | Some x => x' ← LidarReceiver.step (setup_of w) l x; Some (set_receiver w x' s)
  end.

Definition on_runtime (f : runtime_life -> runtime_life) (s : life) : life := s <| runtime_ := f <$> runtime_ s |>.

Definition create_receiver (w : stream) (s : life) : life :=
  if negb (lidar_enabled_ r) then s
  else
    match chosen_source w with
    | None => s
    | Some src => set_receiver w (make_receiver src (assembler_config r) 1) s
    end.

(** An exception leaves the constructor. *)
Definition unwind (s : life) : life := s <| todo := unwinding |>.

Definition may_throw (i : instr) : bool :=
  match i with
  | Live | RequestStop _ | AwaitStop _ | DeinitSdk | LogLidarStats | Destroy _ => false
  | _ => true
  end.

(** The join of [stop]: [Some (s, true)] when it is over. *)
Definition await (sv : service) (s : life) : option (life * bool) :=
  match sv with
  | SRuntime =>
      match runtime_ s with
      | Some l => if decide (worker_ l = Working) then None else Some (s, true)
      | None => Some (s, true)
      end
  | SReceiver w =>
      match receiver_of w s with
      | None => Some (s, true)
      | Some x =>
          match callers x !! 0%nat with
          | Some Idle => Some (s, true)
          | Some AtStopMutex => s' ← on_receiver w (LStopMutex 0) s; Some (s', false)
          | Some Joining => s' ← on_receiver w (LJoin 0) s; Some (s', false)
          | None => None
          end
      end
  end.

(** One step of the owning thread. *)
Definition main_step (o : result) (s : life) : option life :=
  match todo s with
  | [] => None
  | i :: rest =>
      let next (s : life) := Some (s <| todo := rest |>) in
      match i, o with
      | AwaitStop sv, _ =>
          '(s, over) ← await sv s; if (over : bool) then next s else Some s
      | RequestStop (SReceiver w), _ => s ← on_receiver w (LStop 0 main_thread) s; next s
      | RequestStop SRuntime, _ => next (on_runtime (fun l => l <| stop_requested_ := true |>) s)
      | Destroy m, _ => next (s <| alive_members := list_difference (alive_members s) [m] |>)
      | (Live | DeinitSdk | LogLidarStats), _ => next s
      | StartReceiver w, Throws => s ← on_receiver w (LStart None) s; Some (unwind s)
      | _, Throws => Some (unwind s)
      | CreateGraphInterfaces, Goes _ => next (s <| graph_ := true |>)
      | CreateReceiver w, Goes _ => next (create_receiver w s)
      | EmplaceRuntime, Goes _ => next (s <| runtime_ := Some (mkRuntimeLife NotStarted false 0) |>)
      | StartRuntime, Goes _ => next (on_runtime (fun l => l <| worker_ := Working |>) s)
      | StartReceiver w, Goes id =>
          if decide (id = main_thread) then None
          else s ← on_receiver w (LStart (Some id)) s; next s
      | (DeclareParameters | ValidateParameters | DecideTfBroadcaster | PublishRobotState), Goes _ => next s
      end
  end.

Inductive runtime_move := EntersHandler | LeavesHandler | WorkerReturns.

Definition runtime_step (m : runtime_move) (l : runtime_life) : option runtime_life :=
  match m with
  | EntersHandler => if decide (worker_ l = Working) then Some (over in_handlers S l) else None
  | LeavesHandler => if decide (in_handlers l = 0%nat) then None else Some (over in_handlers Nat.pred l)
  | WorkerReturns =>
      if bool_decide (worker_ l = Working) && stop_requested_ l && bool_decide (in_handlers l = 0%nat)
      then Some (l <| worker_ := Returned |>) else None
  end.

Inductive move :=
  | MMain (o : result)
  | MReceiver (w : stream) (l : LidarReceiver.label I)
  | MRuntime (m : runtime_move).

(** The labels of the receive thread; the node's callbacks do not stop it. *)
Definition receive_thread (l : LidarReceiver.label I) : bool :=
  match l with LWait | LReceive _ _ | LCallbackEnd _ => true | _ => false end.

Definition life_step (m : move) (s : life) : option life :=
  match m with
  | MMain o => main_step o s
  | MReceiver w l => if receive_thread l then on_receiver w l s else None
  | MRuntime m => l ← runtime_ s; l' ← runtime_step m l; Some (s <| runtime_ := Some l' |>)
  end.

Definition move_wf (m : move) : Prop := match m with MReceiver _ l => label_wf l | _ => True end.

Fixpoint life_run (ms : list move) (s : life) : option life :=
  match ms with
  | [] => Some s
  | m :: ms => s' ← life_step m s; life_run ms s'
  end.

(** The constructor's body is entered: all members are there, the pointers null. *)
Definition newborn : life := mkLife program members false None None None.

(** ** The program *)

(** [P] of every instruction and what follows it. *)
Fixpoint everywhere (P : instr -> list instr -> bool) (l : list instr) : bool :=
  match l with
  | [] => true
  | i :: rest => P i rest && everywhere P rest
  end.

Lemma everywhere_at P l before i rest :
  everywhere P l = true -> l = before ++ i :: rest -> P i rest = true.
Proof.
  intros H ->. induction before as [|j before IH]; cbn in H; apply andb_true_iff in H as [H1 H2]; auto.
Qed.

Definition suffix_of_program (l : list instr) : Prop := exists before, program = before ++ l.

Definition has (i : instr) (l : list instr) : bool := bool_decide (i ∈ l).

(** What the handlers use. *)
Definition used_by_handlers (m : member) : bool := match m with MService _ => false | _ => true end.

Definition services : list service := [SReceiver CloudStream; SReceiver OdometryStream; SRuntime].

(** A part is created, started and asked to stop before its last join. *)
Definition started_before_stop (i : instr) (rest : list instr) : bool :=
  match i with
  | CreateReceiver w | StartReceiver w => has (AwaitStop (SReceiver w)) rest
  | EmplaceRuntime | StartRuntime => has (AwaitStop SRuntime) rest
  | RequestStop sv => has (AwaitStop sv) rest
  | _ => true
  end.

(** Nothing the handlers use is destroyed before the last stop, nothing twice, and
    nothing before the end of the constructor. *)
Definition destroyed_last (i : instr) (rest : list instr) : bool :=
  match i with
  | Destroy m =>
      negb (has (Destroy m) rest) &&
      (negb (used_by_handlers m) || forallb (fun sv => negb (has (AwaitStop sv) rest)) services)
  | _ => if may_throw i then forallb (fun m => has (Destroy m) rest) members else true
  end.

(** A join follows its request and a request is followed by its join, the graph interfaces come before the parts. *)
Definition in_order (i : instr) (rest : list instr) : bool :=
  match rest with
  | AwaitStop sv :: _ => bool_decide (i = RequestStop sv)
  | _ => true
  end &&
  match i with
  | CreateGraphInterfaces => true
  | CreateReceiver _ | EmplaceRuntime => negb (has CreateGraphInterfaces rest)
  | RequestStop sv => bool_decide (head rest = Some (AwaitStop sv))
  | _ => true
  end.

Lemma program_checks :
  everywhere (fun i rest => started_before_stop i rest && destroyed_last i rest && in_order i rest) program = true.
Proof. vm_compute. reflexivity. Qed.

Lemma program_at i rest :
  suffix_of_program (i :: rest) ->
  started_before_stop i rest = true /\ destroyed_last i rest = true /\ in_order i rest = true.
Proof.
  intros [before H]. pose proof (everywhere_at _ _ _ _ _ program_checks H) as Hc. cbv beta in Hc.
  apply andb_true_iff in Hc as [[H1 H2]%andb_true_iff H3]. auto.
Qed.

Lemma suffix_tail i rest : suffix_of_program (i :: rest) -> suffix_of_program rest.
Proof. intros [before H]. exists (before ++ [i]). by rewrite <- app_assoc. Qed.

Lemma unwinding_suffix : suffix_of_program unwinding.
Proof. by exists (constructor ++ [Live] ++ destructor). Qed.

Lemma unwinding_destroys m : m ∈ members -> Destroy m ∈ unwinding.
Proof.
  intros Hm. apply (bool_decide_unpack _). revert Hm. rewrite list_elem_of_In.
  cbn. intros H. repeat (destruct H as [<-|H]; [vm_compute; done|]). done.
Qed.

Lemma program_destroys m : m ∈ members -> Destroy m ∈ program.
Proof.
  intros Hm. destruct unwinding_suffix as [before ->]. apply elem_of_app. right. by apply unwinding_destroys.
Qed.

Lemma unwinding_no_creation w :
  CreateReceiver w ∉ unwinding /\ EmplaceRuntime ∉ unwinding.
Proof. split; apply (bool_decide_unpack _); destruct w; vm_compute; done. Qed.

(** While something the handlers use is gone, every part was stopped for good. *)
Lemma stopped_before_destruction l m sv :
  suffix_of_program l -> m ∈ members -> used_by_handlers m = true ->
  Destroy m ∉ l -> AwaitStop sv ∉ l.
Proof.
  intros [before H] Hm Hu Hd.
  assert (Hin : Destroy m ∈ before).
  { pose proof (program_destroys m Hm) as Hp. rewrite H in Hp. by apply elem_of_app in Hp as [|]. }
  apply list_elem_of_split in Hin as (b1 & b2 & ->).
  destruct (program_at (Destroy m) (b2 ++ l)) as (_ & Hl & _).
  { exists b1. by rewrite H, <- app_assoc. }
  cbn [destroyed_last] in Hl. rewrite Hu in Hl. apply andb_true_iff in Hl as [_ Hl]. cbn [negb orb] in Hl.
  assert (Hsv : has (AwaitStop sv) (b2 ++ l) = false).
  { cbn [forallb services] in Hl. bool_prop. by destruct sv as [[]|]. }
  unfold has in Hsv. apply bool_decide_eq_false in Hsv. rewrite elem_of_app in Hsv. tauto.
Qed.

(** ** The receivers *)

Lemma receive_step_grows cfg inp c (x : system) :
  exists es, events (receive_step cfg inp c x) = es ++ events x.
Proof.
  unfold receive_step. destruct (receive _ _ _ _) as [[got buffer] src]. cbv zeta.
  destruct (handle cfg got buffer c _) as [[[evs [d|]] i]|]; [|destruct (end_iteration cfg c i) as [evs' i']|by exists []].
  all: cbn [events]; eexists; rewrite ?app_comm_cons, ?app_assoc; reflexivity.
Qed.

Lemma end_iteration_control cfg c (i i' : LidarReceiver.impl Src) (evs : list (event I)) :
  end_iteration cfg c i = (evs, i') ->
  thread_id i' = thread_id i /\ stop_requested i' = stop_requested i.
Proof. unfold end_iteration. by destruct (kind cfg); intros [= <- <-]. Qed.

(** Events are never forgotten. *)
Lemma receiver_step_grows cfg l (x x' : system) :
  LidarReceiver.step cfg l x = Some x' -> exists es, events x' = es ++ events x.
Proof.
  destruct l as [created|k me|k|k| |inp c| |c]; cbn [LidarReceiver.step]; intros H.
  all: try (repeat case_match; simplify_eq; (by exists []) || by eexists [_]).
  - destruct (rx x); try done. injection H as <-. apply receive_step_grows.
  - destruct (rx x); try done. destruct (end_iteration cfg c (im x)) as [es i]. injection H as <-. by exists es.
Qed.

(** What the node relies on: how the receiver was made, and that its thread is not
    the owning one. *)
Record good_receiver (w : stream) (x : system) : Prop := {
  gr_reachable : exists src, source_ok src /\
    reachable (setup_of w) (make_receiver src (assembler_config r) 1) x;
  gr_id : thread_id (im x) <> Some main_thread;
  gr_callers : length (callers x) = 1%nat }.

Context (Hdoubles : config_doubles (parse_config r) = true).
Context (Hpackets : 0 <= max_packets_per_frame (assembler_config r)).
Context (Hsources : forall w src, chosen_source w = Some src -> source_ok src).

Lemma good_invariants w x :
  good_receiver w x ->
  control x /\ exists ac, 0 <= max_packets_per_frame ac /\ pipeline (setup_of w) ac (im x) (events x).
Proof.
  intros [(src & Hs & Hr) _ _].
  destruct (receiver_inv (setup_of w) (assembler_config r) Hdoubles Hpackets src 1 x Hs Hr); eauto.
Qed.

Lemma good_new w src : source_ok src -> good_receiver w (make_receiver src (assembler_config r) 1).
Proof. intros Hs. split; [exists src; split; [done|constructor]|done|done]. Qed.

Lemma good_halted w x : good_receiver w x -> EvStopped 0 ∈ events x -> rx x = NotCreated \/ rx x = Exited.
Proof.
  intros Hg He. destruct (good_invariants w x Hg) as [Hc _].
  by destruct (stopped_silent 0 x Hc He) as (_ & _ & H).
Qed.

(** The labels by which the owning thread and the receive thread move. *)
Definition node_label (l : LidarReceiver.label I) : bool :=
  match l with
  | LStart (Some id) => negb (bool_decide (id = main_thread))
  | LSelfStop => false
  | _ => true
  end.

Lemma good_step w l x x' :
  good_receiver w x -> label_wf l -> node_label l = true ->
  LidarReceiver.step (setup_of w) l x = Some x' ->
  good_receiver w x' /\ (stop_requested (im x) = true -> stop_requested (im x') = true) /\
  (receive_thread l = true \/ (exists o, l = LStart o) -> callers x' = callers x).
Proof.
  intros Hg Hl Hn H. pose proof Hg as [(src & Hs & Hr) Hid Hlen].
  destruct (good_invariants w x Hg) as (Hc & ac & Hac & Hp).
  assert (H' : thread_id (im x') <> Some main_thread /\ length (callers x') = 1%nat /\
    (stop_requested (im x) = true -> stop_requested (im x') = true) /\
    (receive_thread l = true \/ (exists o, l = LStart o) -> callers x' = callers x)).
  { destruct l as [created|k me|k|k| |inp c| |c]; cbn [LidarReceiver.step receive_thread node_label label_wf] in *; try done.
    - destruct (_ || _); simplify_eq; [done|]. destruct created as [id|]; simplify_eq; [|done].
      bool_prop. split; [|done]. cbn. congruence.
    - destruct (_ && _); [|done]. destruct (bool_decide _); simplify_eq;
        (split; [done|]); (split; [by cbn; rewrite ?length_insert|]); (split; [done|naive_solver]).
    - destruct (_ && _); [|done]. destruct (bool_decide _); simplify_eq;
        (split; [done|]); (split; [by cbn; rewrite length_insert|]); (split; [done|naive_solver]).
    - destruct (bool_decide _); [|done]. destruct (rx x); simplify_eq.
      split; [done|]. split; [by cbn; rewrite length_insert|]. split; [done|naive_solver].
    - repeat case_match; by simplify_eq.
    - destruct (rx x); simplify_eq.
      destruct (receive_step_spec (setup_of w) ac Hdoubles Hac inp c x Hl Hp) as (_ & (Es & _ & _ & _ & E) & Ec & _).
      by rewrite E, Ec, Es.
    - destruct (rx x); simplify_eq. destruct (end_iteration _ c (im x)) as [es i] eqn:E. simplify_eq.
      apply end_iteration_control in E as [E1 E2]. cbn. by rewrite E1, E2. }
  destruct H' as (H1 & H2 & H3). split; [|done]. split; [|done|done].
  exists src. split; [done|]. by eapply reach_step.
Qed.

(** The owning thread is the only caller. *)
Lemma good_stop w x x' :
  good_receiver w x -> LidarReceiver.step (setup_of w) (LStop 0 main_thread) x = Some x' ->
  stop_requested (im x') = true /\ (callers x' !! 0%nat = Some Idle -> EvStopped 0 ∈ events x').
Proof.
  intros Hg. cbn [LidarReceiver.step]. destruct (_ && _); [|done].
  destruct (bool_decide _); intros [= <-]; (split; [done|]); [by left|]. cbn.
  rewrite list_lookup_insert_eq by (by rewrite (gr_callers w x Hg); lia). done.
Qed.

Lemma good_join w l x x' :
  good_receiver w x -> l = LStopMutex 0 \/ l = LJoin 0 -> LidarReceiver.step (setup_of w) l x = Some x' ->
  callers x' !! 0%nat = Some Idle -> EvStopped 0 ∈ events x'.
Proof.
  intros Hg [->| ->]; cbn [LidarReceiver.step].
  - destruct (_ && _); [|done]. destruct (bool_decide _); intros [= <-]; [|by left]. cbn.
    rewrite list_lookup_insert_eq by (by rewrite (gr_callers w x Hg); lia). done.
  - destruct (bool_decide _); [|done]. destruct (rx x); try done. intros [= <-] _. by left.
Qed.

(** ** The invariant *)

Definition alive_ok (td : list instr) (al : list member) : Prop :=
  forall m, m ∈ members -> m ∈ al <-> Destroy m ∈ td.

Definition creates (i : instr) : Prop := i = EmplaceRuntime \/ exists w, i = CreateReceiver w.

Definition graph_ok (td : list instr) (g : bool) : Prop :=
  (exists i, creates i /\ i ∈ td) -> CreateGraphInterfaces ∉ td -> g = true.

Record receiver_ok_at (td : list instr) (w : stream) (x : system) : Prop := {
  ro_good : good_receiver w x;
  ro_stopped : AwaitStop (SReceiver w) ∉ td -> EvStopped 0 ∈ events x;
  ro_joined : head td = Some (AwaitStop (SReceiver w)) -> callers x !! 0%nat = Some Idle ->
    EvStopped 0 ∈ events x;
  ro_requested : head td = Some (AwaitStop (SReceiver w)) -> stop_requested (im x) = true;
  ro_idle : head td <> Some (AwaitStop (SReceiver w)) -> callers x !! 0%nat = Some Idle }.

Record runtime_ok_at (td : list instr) (l : runtime_life) : Prop := {
  rl_stopped : AwaitStop SRuntime ∉ td -> worker_ l <> Working;
  rl_handlers : worker_ l <> Working -> in_handlers l = 0%nat;
  rl_requested : head td = Some (AwaitStop SRuntime) -> stop_requested_ l = true }.

Definition absent (s : life) : Prop := runtime_ s = None /\ forall w, receiver_of w s = None.

Record ordered (s : life) : Prop := {
  od_suffix : suffix_of_program (todo s);
  od_alive : alive_ok (todo s) (alive_members s);
  od_graph : graph_ok (todo s) (graph_ s);
  od_parts : graph_ s = true \/ absent s;
  od_receiver : forall w x, receiver_of w s = Some x -> receiver_ok_at (todo s) w x;
  od_runtime : forall l, runtime_ s = Some l -> runtime_ok_at (todo s) l }.

Lemma ordered_newborn : ordered newborn.
Proof.
  split; try done.
  - by exists [].
  - intros m Hm. cbn. split; [|done]. intros _.
    by apply program_destroys.
  - intros _ H. destruct H. apply (bool_decide_unpack _). by vm_compute.
  - right. split; [done|]. by intros [].
  - by intros [].
Qed.

(** *** Leaving an instruction behind *)

Lemma alive_pop i rest al :
  (forall m, i <> Destroy m) -> alive_ok (i :: rest) al -> alive_ok rest al.
Proof. intros Hi H m Hm. rewrite (H m Hm), elem_of_cons. specialize (Hi m). naive_solver. Qed.

Lemma alive_destroy m rest al :
  suffix_of_program (Destroy m :: rest) -> alive_ok (Destroy m :: rest) al ->
  alive_ok rest (list_difference al [m]).
Proof.
  intros Hs H. apply program_at in Hs as (_ & Hd & _). cbn in Hd. apply andb_true_iff in Hd as [Hd _].
  unfold has in Hd. bool_prop. intros m' Hm'. rewrite list_elem_of_difference, list_elem_of_singleton, (H m' Hm'), elem_of_cons.
  split; [|intros Hin; split; [by right|by intros ->]]. intros [[[= ->]|Hin] Hne]; done.
Qed.

Lemma graph_pop i rest g : i <> CreateGraphInterfaces -> graph_ok (i :: rest) g -> graph_ok rest g.
Proof.
  intros Hi H (j & Hj & Hin) Hn. apply H; [exists j; split; [done|by right]|].
  rewrite elem_of_cons. naive_solver.
Qed.

(** An instruction that neither stops nor joins [sv]. *)
Definition other_than (sv : service) (i : instr) : Prop := i <> AwaitStop sv /\ i <> RequestStop sv.

Lemma await_next sv i rest :
  suffix_of_program (i :: rest) -> i <> RequestStop sv -> head rest <> Some (AwaitStop sv).
Proof.
  intros Hs Hi Hh. apply program_at in Hs as (_ & _ & Ho).
  destruct rest as [|j rest]; [done|]. cbn in Hh. simplify_eq. cbn in Ho.
  apply andb_true_iff in Ho as [Ho _]. by apply bool_decide_eq_true in Ho.
Qed.

Lemma request_await sv rest :
  suffix_of_program (RequestStop sv :: rest) -> head rest = Some (AwaitStop sv).
Proof.
  intros Hs. apply program_at in Hs as (_ & _ & Ho). apply andb_true_iff in Ho as [_ Ho].
  by apply bool_decide_eq_true in Ho.
Qed.

Lemma receiver_pop w i rest x :
  suffix_of_program (i :: rest) -> other_than (SReceiver w) i ->
  receiver_ok_at (i :: rest) w x -> receiver_ok_at rest w x.
Proof.
  intros Hs [H1 H2] [Hg Hst _ _ Hid]. pose proof (await_next _ _ _ Hs H2) as Hh. split; try done.
  - intros Hn. apply Hst. rewrite elem_of_cons. naive_solver.
  - intros _. apply Hid. cbn. congruence.
Qed.

Lemma runtime_pop i rest l :
  suffix_of_program (i :: rest) -> other_than SRuntime i -> runtime_ok_at (i :: rest) l -> runtime_ok_at rest l.
Proof.
  intros Hs [Hi Hi'] [H1 H2 H3]. pose proof (await_next _ _ _ Hs Hi') as Hh. split; try done.
  intros Hn. apply H1. rewrite elem_of_cons. naive_solver.
Qed.

(** The instruction at the head is done. *)
Lemma ordered_next s i rest :
  ordered s -> todo s = i :: rest -> (forall m, i <> Destroy m) -> i <> CreateGraphInterfaces ->
  (forall w x, receiver_of w s = Some x -> receiver_ok_at rest w x) ->
  (forall l, runtime_ s = Some l -> runtime_ok_at rest l) ->
  ordered (s <| todo := rest |>).
Proof.
  intros [H1 H2 H3 H4 H5 H6] Htd Hd Hg Hr Hl. rewrite Htd in *. split; cbn; try done.
  - by eapply suffix_tail.
  - by eapply alive_pop.
  - by eapply graph_pop.
Qed.

Definition plain (i : instr) : bool :=
  match i with CreateGraphInterfaces | RequestStop _ | AwaitStop _ | Destroy _ => false | _ => true end.

Lemma ordered_plain s i rest :
  ordered s -> todo s = i :: rest -> plain i = true -> ordered (s <| todo := rest |>).
Proof.
  intros H Htd Hi. eapply ordered_next; eauto; try (by intros ->); try (by intros m ->).
  - intros w x Hx. pose proof (od_receiver _ H w x Hx) as Hok. rewrite Htd in Hok.
    apply (receiver_pop w i); [|by split; intros ->|done]. rewrite <- Htd. apply H.
  - intros l Hx. pose proof (od_runtime _ H l Hx) as Hok. rewrite Htd in Hok.
    apply (runtime_pop i); [|by split; intros ->|done]. rewrite <- Htd. apply H.
Qed.

Lemma ordered_unwind s i rest :
  ordered s -> todo s = i :: rest -> may_throw i = true -> ordered (unwind s).
Proof.
  intros [H1 H2 H3 H4 H5 H6] Htd Hi. rewrite Htd in *.
  assert (Hawait : forall sv, AwaitStop sv ∈ unwinding).
  { intros sv. apply (bool_decide_unpack _). destruct sv as [[]|]; by vm_compute. }
  split; cbn [unwind todo alive_members graph_ runtime_]; try done.
  - apply unwinding_suffix.
  - intros m Hm. rewrite (H2 m Hm). split; intros _; [by apply unwinding_destroys|].
    apply program_at in H1 as (_ & Hd & _).
    assert (Hall : forallb (fun m => has (Destroy m) rest) members = true) by (destruct i; try done; exact Hd).
    right. rewrite forallb_forall in Hall. apply list_elem_of_In in Hm. specialize (Hall m Hm).
    by apply bool_decide_eq_true in Hall.
  - intros (j & Hj & Hin). exfalso. destruct (unwinding_no_creation CloudStream) as [Hn Hn'].
    destruct (unwinding_no_creation OdometryStream) as [Hn'' _].
    destruct Hj as [->|[[] ->]]; tauto.
  - intros w x Hx. destruct (H5 w x Hx) as [Hg _ _ _ Hid]. split; try done.
    + intros Hn. by destruct Hn.
    + intros _. apply Hid. cbn. intros [= ->]. done.
  - intros l Hx. destruct (H6 l Hx) as [_ Hh _]. split; try done. intros Hn. by destruct Hn.
Qed.

(** *** Changing a part *)

Lemma ordered_receiver s w x :
  ordered s -> graph_ s = true -> receiver_ok_at (todo s) w x -> ordered (set_receiver w x s).
Proof.
  intros [H1 H2 H3 H4 H5 H6] Hg Hx.
  split; destruct w; cbn; auto; intros w' y Hy; destruct w'; cbn in Hy; simplify_eq; try done; by apply H5.
Qed.

Lemma ordered_runtime s l :
  ordered s -> graph_ s = true -> runtime_ok_at (todo s) l -> ordered (s <| runtime_ := Some l |>).
Proof.
  intros [H1 H2 H3 H4 H5 H6] Hg Hx. split; cbn; auto. by intros l' [= <-].
Qed.

Lemma ordered_graph s w x : ordered s -> receiver_of w s = Some x -> graph_ s = true.
Proof. intros H Hx. destruct (od_parts _ H) as [|[_ Hn]]; [done|]. by rewrite Hn in Hx. Qed.

Lemma ordered_graph' s l : ordered s -> runtime_ s = Some l -> graph_ s = true.
Proof. intros H Hx. destruct (od_parts _ H) as [|[Hn _]]; [done|]. by rewrite Hn in Hx. Qed.

(** *** Steps *)

Lemma receiver_of_set w x s : receiver_of w (set_receiver w x s) = Some x.
Proof. by destruct w. Qed.

Lemma set_receiver_todo w x s : todo (set_receiver w x s) = todo s.
Proof. by destruct w. Qed.

(** A step of receiver [w] that does not leave the instruction. *)
Lemma ordered_on_receiver s w l s' :
  ordered s -> label_wf l -> node_label l = true -> on_receiver w l s = Some s' ->
  (forall x x', receiver_of w s = Some x -> LidarReceiver.step (setup_of w) l x = Some x' ->
     good_receiver w x' ->
     (head (todo s) = Some (AwaitStop (SReceiver w)) -> callers x' !! 0%nat = Some Idle ->
      EvStopped 0 ∈ events x') /\
     (head (todo s) <> Some (AwaitStop (SReceiver w)) -> callers x' = callers x)) ->
  ordered s' /\ todo s' = todo s.
Proof.
  intros H Hl Hn Hs Hj. unfold on_receiver in Hs. destruct (receiver_of w s) as [x|] eqn:Hx; [|by simplify_eq].
  destruct (LidarReceiver.step (setup_of w) l x) as [x'|] eqn:Hstep; [|done]. cbn in Hs. simplify_eq.
  destruct (od_receiver _ H w x Hx) as [Hg Hst _ Hrq Hid].
  destruct (good_step w l x x' Hg Hl Hn Hstep) as (Hg' & Hmono & _).
  destruct (Hj x x' eq_refl Hstep Hg') as [Hj1 Hj2].
  split; [|apply set_receiver_todo].
  apply ordered_receiver; [done|by eapply ordered_graph|]. split; [done| |done|by auto|].
  - intros Hna. destruct (receiver_step_grows _ _ _ _ Hstep) as [es ->].
    apply elem_of_app. right. by apply Hst.
  - intros Hh. rewrite Hj2 by done. by apply Hid.
Qed.

(** [start] on a receiver, at its instruction. *)
Lemma ordered_start_receiver s w created s1 rest :
  ordered s -> todo s = StartReceiver w :: rest -> node_label (LStart created) = true ->
  on_receiver w (LStart created) s = Some s1 -> ordered s1 /\ todo s1 = todo s.
Proof.
  intros H Htd Hn Hs. apply (ordered_on_receiver s w (LStart created) s1); [done..|].
  intros x x' Hx Hstep _. rewrite Htd. split; [done|]. intros _.
  destruct (od_receiver _ H w x Hx) as [Hg _ _ _ _].
  destruct (good_step w (LStart created) x x' Hg Logic.I Hn Hstep) as (_ & _ & Hc). eauto.
Qed.

(** The first part of [stop]. *)
Lemma ordered_request s s' w rest :
  ordered s -> todo s = RequestStop (SReceiver w) :: rest ->
  on_receiver w (LStop 0 main_thread) s = Some s' -> ordered (s' <| todo := rest |>).
Proof.
  intros H Htd Hs. pose proof (od_suffix _ H) as Hsuf. rewrite Htd in Hsuf.
  assert (Hrt : forall l, runtime_ s = Some l -> runtime_ok_at rest l).
  { intros l Hx. pose proof (od_runtime _ H l Hx) as Hok. rewrite Htd in Hok.
    by apply (runtime_pop (RequestStop (SReceiver w))). }
  assert (Hrec : forall w' x, w' <> w \/ receiver_of w s = None -> receiver_of w' s = Some x -> receiver_ok_at rest w' x).
  { intros w' x Hw' Hx. pose proof (od_receiver _ H w' x Hx) as Hok. rewrite Htd in Hok.
    apply (receiver_pop w' (RequestStop (SReceiver w))); [done| |done].
    split; [done|]. intros [= ->]. destruct Hw'; congruence. }
  unfold on_receiver in Hs. destruct (receiver_of w s) as [x|] eqn:Hx.
  - destruct (LidarReceiver.step (setup_of w) (LStop 0 main_thread) x) as [x'|] eqn:Hstep; [|done].
    cbn in Hs. simplify_eq. pose proof (od_receiver _ H w x Hx) as [Hg Hst _ _ _].
    destruct (good_stop w x x' Hg Hstep) as [Hrq Hstop].
    destruct (good_step w (LStop 0 main_thread) x x' Hg Logic.I eq_refl Hstep) as (Hg' & _).
    assert (Hgr : graph_ s = true) by by eapply ordered_graph.
    assert (Hok : receiver_ok_at rest w x').
    { split; auto.
      - intros Hna. destruct (receiver_step_grows _ _ _ _ Hstep) as [es ->].
        apply elem_of_app. right. apply Hst. rewrite Htd, elem_of_cons. naive_solver.
      - intros Hh. by destruct (Hh (request_await _ _ Hsuf)). }
    destruct H as [H1 H2 H3 H4 H5 H6]. rewrite Htd in *.
    split; destruct w; cbn; try done; try (by eapply suffix_tail); try (by left);
      try (by apply (alive_pop (RequestStop (SReceiver CloudStream))));
      try (by apply (alive_pop (RequestStop (SReceiver OdometryStream))));
      try (eapply graph_pop; [|exact H3]; done);
      intros [] y Hy; cbn in Hy; simplify_eq; try done; apply Hrec; auto.
  - injection Hs as <-. apply (ordered_next s (RequestStop (SReceiver w)) rest H Htd); auto.
Qed.

(** The join is over. *)
Lemma ordered_awaited s sv rest :
  ordered s -> todo s = AwaitStop sv :: rest ->
  (forall w x, sv = SReceiver w -> receiver_of w s = Some x ->
     EvStopped 0 ∈ events x /\ callers x !! 0%nat = Some Idle) ->
  (forall l, sv = SRuntime -> runtime_ s = Some l -> worker_ l <> Working) ->
  ordered (s <| todo := rest |>).
Proof.
  intros H Htd Hr Hl. pose proof (od_suffix _ H) as Hsuf. rewrite Htd in Hsuf.
  apply (ordered_next s (AwaitStop sv) rest H Htd); [done..| |].
  - intros w x Hx. pose proof (od_receiver _ H w x Hx) as Hok. rewrite Htd in Hok.
    destruct (decide (sv = SReceiver w)) as [->|Hne].
    + destruct Hok as [Hg _ _ _ _], (Hr w x eq_refl Hx) as [He Hi]. split; try done.
      intros Hh. by destruct (await_next _ _ _ Hsuf ltac:(done) Hh).
    + apply (receiver_pop w (AwaitStop sv)); [done| |done]. split; congruence.
  - intros l Hx. pose proof (od_runtime _ H l Hx) as Hok. rewrite Htd in Hok.
    destruct (decide (sv = SRuntime)) as [->|Hne].
    + destruct Hok as [_ Hh _]. split; [by intros _; apply Hl|done|].
      intros Hn. by destruct (await_next _ _ _ Hsuf ltac:(done) Hn).
    + apply (runtime_pop (AwaitStop sv)); [done|split; congruence|done].
Qed.

(** One step of a join. *)
Lemma ordered_joins s w l s' rest :
  ordered s -> todo s = AwaitStop (SReceiver w) :: rest -> l = LStopMutex 0 \/ l = LJoin 0 ->
  on_receiver w l s = Some s' -> ordered s' /\ todo s' = todo s.
Proof.
  intros H Htd Hl Hs. apply (ordered_on_receiver s w l s'); [done|by destruct Hl as [->| ->]..|done|].
  intros x x' Hx Hstep _. split; [|by rewrite Htd]. intros _.
  apply (good_join w l x x'); [apply (od_receiver _ H w x Hx)|done|done].
Qed.

Lemma ordered_await s s' sv over rest :
  ordered s -> todo s = AwaitStop sv :: rest -> await sv s = Some (s', over) ->
  ordered (if over then s' <| todo := rest |> else s').
Proof.
  intros H Htd Hs. destruct sv as [w|]; cbn [await] in Hs.
  - destruct (receiver_of w s) as [x|] eqn:Hx; [|simplify_eq; apply (ordered_awaited _ _ _ H Htd); naive_solver].
    assert (Hjoin : forall l s2, l = LStopMutex 0 \/ l = LJoin 0 -> on_receiver w l s = Some s2 -> ordered s2)
      by (intros l s2 Hl Hon; by destruct (ordered_joins s w l s2 rest H Htd Hl Hon)).
    destruct (callers x !! 0%nat) as [[]|] eqn:Hc; [|destruct (on_receiver w _ s) as [s2|] eqn:Hon; [|done]..|done];
      cbn in Hs; simplify_eq; [|by eapply (Hjoin (LStopMutex 0)); [left|]|by eapply (Hjoin (LJoin 0)); [right|]].
    apply (ordered_awaited _ _ _ H Htd); [|done]. intros w' y [= <-] Hy. rewrite Hx in Hy. simplify_eq.
    split; [|done]. by apply (ro_joined _ _ _ (od_receiver _ H w _ Hx)); [rewrite Htd|].
  - assert (Hw : s' = s /\ over = true /\ forall l, runtime_ s = Some l -> worker_ l <> Working).
    { destruct (runtime_ s) as [l|]; [|by simplify_eq]. destruct (decide (worker_ l = Working)); [done|].
      simplify_eq. split_and!; try done. by intros l' [= <-]. }
    destruct Hw as (-> & -> & Hw). apply (ordered_awaited s SRuntime rest H Htd); auto. done.
Qed.

Lemma started i rest sv :
  suffix_of_program (i :: rest) ->
  match i with
  | CreateReceiver w | StartReceiver w => sv = SReceiver w
  | EmplaceRuntime | StartRuntime => sv = SRuntime
  | _ => False
  end -> AwaitStop sv ∈ i :: rest.
Proof.
  intros Hs Hi. apply program_at in Hs as (H & _). right.
  destruct i; try done; subst sv; by apply bool_decide_eq_true in H.
Qed.

Lemma creation_graph s i rest :
  ordered s -> todo s = i :: rest -> creates i -> graph_ s = true.
Proof.
  intros H Htd Hi. apply (od_graph _ H).
  - exists i. split; [done|]. rewrite Htd. by left.
  - pose proof (od_suffix _ H) as Hs. rewrite Htd in *. apply program_at in Hs as (_ & _ & Ho).
    apply andb_true_iff in Ho as [_ Ho]. rewrite elem_of_cons.
    assert (Hn : has CreateGraphInterfaces rest = false) by (destruct Hi as [->|[w ->]]; by apply negb_true_iff in Ho).
    apply bool_decide_eq_false in Hn. destruct Hi as [->|[w ->]]; naive_solver.
Qed.

Lemma ordered_create s w rest :
  ordered s -> todo s = CreateReceiver w :: rest -> ordered (create_receiver w s) /\
  todo (create_receiver w s) = todo s.
Proof.
  intros H Htd. unfold create_receiver. destruct (lidar_enabled_ r); cbn [negb]; [|done].
  destruct (chosen_source w) as [src|] eqn:Hsrc; [|done]. split; [|apply set_receiver_todo].
  apply ordered_receiver; [done| |].
  - eapply creation_graph; [done|exact Htd|]. right. by exists w.
  - split; [by eapply good_new, Hsources| |by rewrite Htd|by rewrite Htd|done].
    intros Hn. destruct Hn. rewrite Htd. apply started; [|done]. rewrite <- Htd. apply H.
Qed.

(** The runtime in the hands of the constructor. *)
Lemma ordered_start_runtime s i rest l :
  ordered s -> todo s = i :: rest -> i = EmplaceRuntime \/ i = StartRuntime -> graph_ s = true ->
  in_handlers l = 0%nat -> ordered (s <| runtime_ := Some l |>).
Proof.
  intros H Htd Hi Hg Hl. apply ordered_runtime; [done|done|]. split; [|done|].
  2: rewrite Htd; cbn; destruct Hi as [->| ->]; congruence.
  intros Hn. destruct Hn. rewrite Htd. apply started; [rewrite <- Htd; apply H|]. by destruct Hi as [->| ->].
Qed.

Lemma ordered_on_runtime s f :
  ordered s -> (forall l, runtime_ s = Some l -> runtime_ok_at (todo s) (f l)) -> ordered (on_runtime f s).
Proof.
  intros H Hf. unfold on_runtime. destruct (runtime_ s) as [l|] eqn:Hl; cbn.
  - apply ordered_runtime; [done|by eapply ordered_graph'|by apply Hf].
  - destruct s, H; cbn in *; subst; by split.
Qed.

Lemma ordered_create_graph s rest :
  ordered s -> todo s = CreateGraphInterfaces :: rest ->
  ordered (s <| graph_ := true |> <| todo := rest |>).
Proof.
  intros [H1 H2 H3 H4 H5 H6] Htd. rewrite Htd in *. split; cbn; try done.
  - by eapply suffix_tail.
  - by apply (alive_pop CreateGraphInterfaces).
  - by left.
  - intros w x Hx. apply (receiver_pop w CreateGraphInterfaces); [done|done|by apply H5].
  - intros l Hx. apply (runtime_pop CreateGraphInterfaces); [done|done|by apply H6].
Qed.

Lemma ordered_destroy s m rest :
  ordered s -> todo s = Destroy m :: rest ->
  ordered (s <| alive_members := list_difference (alive_members s) [m] |> <| todo := rest |>).
Proof.
  intros [H1 H2 H3 H4 H5 H6] Htd. rewrite Htd in *. split; cbn; try done.
  - by eapply suffix_tail.
  - by apply alive_destroy.
  - by apply (graph_pop (Destroy m)).
  - intros w x Hx. apply (receiver_pop w (Destroy m)); [done|done|by apply H5].
  - intros l Hx. apply (runtime_pop (Destroy m)); [done|done|by apply H6].
Qed.

Lemma ordered_request_runtime s rest :
  ordered s -> todo s = RequestStop SRuntime :: rest ->
  ordered (on_runtime (fun l => l <| stop_requested_ := true |>) s <| todo := rest |>).
Proof.
  intros H Htd. set (s1 := on_runtime (fun l => l <| stop_requested_ := true |>) s). pose proof (od_suffix _ H) as Hsuf. rewrite Htd in Hsuf.
  assert (H1 : ordered s1) by (apply ordered_on_runtime; [done|]; intros l Hl; by destruct (od_runtime _ H l Hl)).
  apply (ordered_next s1 (RequestStop SRuntime) rest H1 Htd); [done..| |].
  - intros w x Hx. apply (receiver_pop w (RequestStop SRuntime)); [done|done|].
    pose proof (od_receiver _ H1 w x Hx) as Hok. change (todo s1) with (todo s) in Hok. by rewrite Htd in Hok.
  - intros l Hx. pose proof (od_runtime _ H1 l Hx) as [Hst Hh _]. change (todo s1) with (todo s) in Hst.
    rewrite Htd in Hst. split; [|done|].
    + intros Hn. apply Hst. rewrite elem_of_cons. naive_solver.
    + intros _. unfold s1, on_runtime in Hx. cbn in Hx. destruct (runtime_ s) as [l0|]; [|done]. by injection Hx as <-.
Qed.

Lemma ordered_main o s s' : ordered s -> main_step o s = Some s' -> ordered s'.
Proof.
  intros H Hs. unfold main_step in Hs. destruct (todo s) as [|i rest] eqn:Htd; [done|].
  pose proof (od_suffix _ H) as Hsuf. rewrite Htd in Hsuf.
  assert (Hplain : forall s1, ordered s1 -> todo s1 = i :: rest -> plain i = true -> ordered (s1 <| todo := rest |>))
    by eauto using ordered_plain.
  assert (Hthrow : forall s1, ordered s1 -> todo s1 = i :: rest -> may_throw i = true -> ordered (unwind s1))
    by eauto using ordered_unwind.
  destruct i as [| | | |w| | |w| | |sv|sv| | |m]; try (destruct o; simplify_eq; by auto).
  - destruct o; simplify_eq; [by apply ordered_create_graph|by apply Hthrow].
  - destruct o; simplify_eq; [|by apply Hthrow]. destruct (ordered_create s w rest H Htd) as [H1 E].
    by apply Hplain; rewrite ?E.
  - destruct o; simplify_eq; [|by apply Hthrow]. apply Hplain; [|done|done].
    eapply ordered_start_runtime; [done|exact Htd|by left| |done]. eapply creation_graph; [done|exact Htd|by left].
  - destruct o; simplify_eq; [|by apply Hthrow]. apply Hplain; [|done|done].
    apply ordered_on_runtime; [done|]. intros l Hl. split; [|done|by rewrite Htd].
    intros Hn. destruct Hn. rewrite Htd. by apply started.
  - destruct o as [id|]; [destruct (decide (id = main_thread)) as [|Hid]; [done|]|].
    all: destruct (on_receiver w _ s) as [s1|] eqn:Hon; [|done]; cbn in Hs; simplify_eq.
    + destruct (ordered_start_receiver s w (Some id) s1 rest H Htd) as [H1 E]; [cbn; by rewrite bool_decide_eq_false_2|done|].
      by apply Hplain; rewrite ?E.
    + destruct (ordered_start_receiver s w None s1 rest H Htd) as [H1 E]; [done..|]. by apply Hthrow; rewrite ?E.
  - destruct sv as [w|]; [|destruct o; simplify_eq; by apply ordered_request_runtime].
    destruct (on_receiver w (LStop 0 main_thread) s) as [s1|] eqn:Hon; [|by destruct o].
    destruct o; cbn in Hs; simplify_eq; by apply (ordered_request s s1 w).
  - destruct (await sv s) as [[s1 over]|] eqn:Haw; [|by destruct o].
    pose proof (ordered_await s s1 sv over rest H Htd Haw) as Hnext.
    destruct over, o; cbn in Hs; by simplify_eq.
  - destruct o; simplify_eq; by apply ordered_destroy.
Qed.

Lemma ordered_step m s s' : ordered s -> move_wf m -> life_step m s = Some s' -> ordered s'.
Proof.
  intros H Hm Hs. destruct m as [o|w l|m]; cbn in Hs, Hm; [by eapply ordered_main|..].
  - destruct (receive_thread l) eqn:Hl; [|done].
    apply (ordered_on_receiver s w l s'); [done|done|by destruct l|done|].
    intros x x' Hx Hstep _. destruct (od_receiver _ H w x Hx) as [Hg _ Hj _ _].
    destruct (good_step w l x x' Hg Hm ltac:(by destruct l) Hstep) as (_ & _ & Hc). rewrite Hc by auto.
    split; [|done]. intros Hh Hi. destruct (receiver_step_grows _ _ _ _ Hstep) as [es ->].
    apply elem_of_app. right. by apply Hj.
  - destruct (runtime_ s) as [l|] eqn:Hl; [|done]. cbn in Hs.
    destruct (runtime_step m l) as [l'|] eqn:Hstep; [|done]. cbn in Hs. simplify_eq.
    apply ordered_runtime; [done|by eapply ordered_graph'|].
    destruct (od_runtime _ H l Hl) as [H1 H2 H3]. destruct m; cbn in Hstep; case_match; simplify_eq; try done.
    + split; cbn; [exact H1| |exact H3]. intros Hw. by rewrite H2.
    + bool_prop. by split.
Qed.

Lemma ordered_run ms s s' : ordered s -> Forall move_wf ms -> life_run ms s = Some s' -> ordered s'.
Proof.
  intros H Hms. revert s H. induction Hms as [|m ms Hm _ IH]; intros s H Hs; cbn in Hs; [by simplify_eq|].
  destruct (life_step m s) as [s1|] eqn:E; [|done]. apply (IH s1); [by eapply ordered_step|done].
Qed.


(** ** The owning thread always gets on *)

(** Moves that finish what was begun. *)
Definition finishing (m : move) : bool :=
  match m with
  | MMain (Goes _) | MReceiver _ _ | MRuntime (LeavesHandler | WorkerReturns) => true
  | _ => false
  end.

(** From [s] the owning thread can get to [rest]. *)
Definition gets_to (rest : list instr) (s : life) : Prop :=
  exists ms s', Forall move_wf ms /\ forallb finishing ms = true /\ life_run ms s = Some s' /\ todo s' = rest.

Lemma gets_to_step m s s' rest :
  move_wf m -> finishing m = true -> life_step m s = Some s' -> gets_to rest s' -> gets_to rest s.
Proof.
  intros Hm Hf Hs (ms & s2 & H1 & H2 & H3 & H4). exists (m :: ms), s2.
  split; [by constructor|]. split; [cbn; by rewrite Hf|]. split; [cbn; by rewrite Hs|done].
Qed.

Lemma gets_to_here s : gets_to (todo s) s.
Proof. by exists [], s. Qed.

Lemma only_caller w x k p : good_receiver w x -> callers x !! k = Some p -> k = 0%nat.
Proof. intros Hg Hk. apply lookup_lt_Some in Hk. rewrite (gr_callers w x Hg) in Hk. lia. Qed.

(** A receiver whose stop was requested takes a step towards the end of the join. *)
Lemma join_step (inp : I) s w x rest :
  ordered s -> todo s = AwaitStop (SReceiver w) :: rest -> receiver_of w s = Some x ->
  callers x !! 0%nat <> Some Idle ->
  exists m x', move_wf m /\ finishing m = true /\ life_step m s = Some (set_receiver w x' s) /\
    (work x' < work x)%nat.
Proof.
  intros H Htd Hx Hc. destruct (od_receiver _ H w x Hx) as [Hg _ _ Hrq _]. rewrite Htd in Hrq.
  specialize (Hrq eq_refl). destruct (good_invariants w x Hg) as (Hct & ac & Hac & Hp).
  assert (Hwork : (0 < work x)%nat).
  { pose proof (gr_callers w x Hg) as Hlen. unfold work. destruct (callers x) as [|p [|]]; try done.
    destruct p; cbn in Hc |- *; [done|lia..]. }
  destruct (some_step (setup_of w) inp x Hct Hrq Hwork) as (l & x' & Hl & Hwf & Hstep).
  destruct (work_decreases (setup_of w) ac Hdoubles Hac l x x' Hct Hp Hwf Hrq Hl Hstep) as [_ Hlt].
  destruct (receive_thread l) eqn:Hr.
  - exists (MReceiver w l), x'. split; [done|]. split; [done|]. split; [|done].
    cbn. rewrite Hr. unfold on_receiver. by rewrite Hx, Hstep.
  - exists (MMain (Goes 1)), x'. split; [done|]. split; [done|]. split; [|done].
    cbn. unfold main_step. rewrite Htd. cbn [await]. rewrite Hx. unfold on_receiver.
    destruct l as [|? ?|k|k| | | |]; try done.
    + assert (k = 0%nat /\ callers x !! 0%nat = Some AtStopMutex) as [-> Hk].
      { cbn in Hstep. destruct (bool_decide (callers x !! k = _)) eqn:E; [|done]. bool_prop.
        pose proof (only_caller w x k _ Hg E). by subst. }
      rewrite Hk. rewrite Hx. cbn [mbind option_bind]. by rewrite Hstep.
    + assert (k = 0%nat /\ callers x !! 0%nat = Some Joining) as [-> Hk].
      { cbn in Hstep. destruct (bool_decide (callers x !! k = _)) eqn:E; [|done]. bool_prop.
        pose proof (only_caller w x k _ Hg E). by subst. }
      rewrite Hk. rewrite Hx. cbn [mbind option_bind]. by rewrite Hstep.
Qed.

Lemma join_over s sv rest :
  todo s = AwaitStop sv :: rest -> await sv s = Some (s, true) -> gets_to rest s.
Proof.
  intros Htd Ha. eapply (gets_to_step (MMain (Goes 1)) s (s <| todo := rest |>)); [done|done| |].
  - cbn. unfold main_step. rewrite Htd, Ha. done.
  - exact (gets_to_here (s <| todo := rest |>)).
Qed.

Lemma receiver_join_ends (inp : I) s w rest :
  ordered s -> todo s = AwaitStop (SReceiver w) :: rest -> gets_to rest s.
Proof.
  destruct (receiver_of w s) as [x|] eqn:Hx.
  2: { intros _ Htd. apply (join_over s (SReceiver w)); [done|]. cbn. by rewrite Hx. }
  remember (work x) as n eqn:Hn. revert s x Hx Hn.
  induction n as [n IH] using lt_wf_ind; intros s x Hx Hn H Htd.
  destruct (decide (callers x !! 0%nat = Some Idle)) as [Hc|Hc].
  - apply (join_over s (SReceiver w)); [done|]. cbn. by rewrite Hx, Hc.
  - destruct (join_step inp s w x rest H Htd Hx Hc) as (m & x' & Hm & Hf & Hs & Hlt).
    eapply gets_to_step; [exact Hm|exact Hf|exact Hs|].
    apply (IH (work x') ltac:(lia) (set_receiver w x' s) x' (receiver_of_set _ _ _) eq_refl).
    + by eapply ordered_step.
    + by rewrite set_receiver_todo.
Qed.

Lemma runtime_join_ends s rest :
  ordered s -> todo s = AwaitStop SRuntime :: rest -> gets_to rest s.
Proof.
  intros H Htd. destruct (runtime_ s) as [l|] eqn:Hl.
  2: { apply (join_over s SRuntime); [done|]. cbn. by rewrite Hl. }
  destruct (od_runtime _ H l Hl) as [_ _ Hrq]. rewrite Htd in Hrq. specialize (Hrq eq_refl).
  clear H. remember (in_handlers l) as n eqn:Hn. revert s l Htd Hl Hrq Hn.
  induction n as [|n IH]; intros s l Htd Hl Hrq Hn.
  - destruct (decide (worker_ l = Working)) as [Hw|Hw].
    2: { apply (join_over s SRuntime); [done|]. cbn. rewrite Hl. by rewrite decide_False. }
    eapply (gets_to_step (MRuntime WorkerReturns)); [done|done| |].
    + cbn. rewrite Hl. cbn. by rewrite Hw, Hrq, <- Hn.
    + apply (join_over _ SRuntime); [done|]. done.
  - eapply (gets_to_step (MRuntime LeavesHandler)); [done|done| |].
    + cbn. rewrite Hl. cbn. by rewrite <- Hn.
    + by apply (IH _ (over in_handlers Nat.pred l)); cbn; try rewrite <- Hn.
Qed.

Lemma start_ends w id (x : system) :
  exists x', LidarReceiver.step (setup_of w) (LStart (Some id)) x = Some x'.
Proof. cbn. destruct (_ || _); by eexists. Qed.

Lemma stop_ends w x :
  good_receiver w x -> callers x !! 0%nat = Some Idle ->
  exists x', LidarReceiver.step (setup_of w) (LStop 0 main_thread) x = Some x'.
Proof.
  intros Hg Hc. cbn. rewrite bool_decide_eq_true_2 by done. unfold distinct_id.
  pose proof (gr_id w x Hg) as Hid. destruct (thread (im x)); cbn.
  2: rewrite bool_decide_eq_false_2 by done; cbn.
  all: repeat case_match; by eexists.
Qed.

(** Every instruction of the owning thread is completed. *)
Lemma instruction_ends (inp : I) s i rest :
  ordered s -> todo s = i :: rest -> gets_to rest s.
Proof.
  intros H Htd.
  assert (Hgo : forall s', main_step (Goes 1) s = Some s' -> todo s' = rest -> gets_to rest s).
  { intros s' Hs E. eapply (gets_to_step (MMain (Goes 1))); [done|done|exact Hs|]. rewrite <- E. apply gets_to_here. }
  unfold main_step in Hgo. rewrite Htd in Hgo.
  destruct i as [| | | |w| | |w| | |[w|]|[w|]| | |m]; try (eapply Hgo; [reflexivity|reflexivity]).
  - unfold on_receiver in Hgo. destruct (receiver_of w s) as [x|]; [|eapply Hgo; reflexivity].
    destruct (start_ends w 1 x) as [x' Hx']. rewrite decide_False in Hgo by done.
    rewrite Hx' in Hgo. eapply Hgo; reflexivity.
  - unfold on_receiver in Hgo. destruct (receiver_of w s) as [x|] eqn:Hx; [|eapply Hgo; reflexivity].
    destruct (od_receiver _ H w x Hx) as [Hg _ _ _ Hid]. rewrite Htd in Hid.
    destruct (stop_ends w x Hg (Hid ltac:(done))) as [x' Hx'].
    rewrite Hx' in Hgo. eapply Hgo; reflexivity.
  - by apply (receiver_join_ends inp s w).
  - by apply runtime_join_ends.
Qed.

Lemma gets_to_end (inp : I) s : ordered s -> gets_to [] s.
Proof.
  intros H. remember (todo s) as td eqn:Htd. symmetry in Htd. revert s H Htd.
  induction td as [|i rest IH]; intros s H Htd; [rewrite <- Htd; apply gets_to_here|].
  destruct (instruction_ends inp s i rest H Htd) as (ms & s1 & H1 & H2 & H3 & H4).
  destruct (IH s1 ltac:(by eapply ordered_run) H4) as (ms' & s2 & H1' & H2' & H3' & H4').
  exists (ms ++ ms'), s2. split; [by apply List.Forall_app|]. split; [by rewrite forallb_app, H2|].
  split; [|done]. clear -H3 H3'. revert s H3. induction ms as [|m ms IH]; intros s H3; cbn in H3 |- *.
  - by simplify_eq.
  - destruct (life_step m s) as [s'|]; [|done]. by apply IH.
Qed.
(** ** Handlers *)

(** Some thread is inside a handler of the node. *)
Definition in_handler (s : life) : Prop :=
  (exists w x d, receiver_of w s = Some x /\ rx x = InCallback d) \/
  (exists l, runtime_ s = Some l /\ (0 < in_handlers l)%nat).

(** No thread of the node is left. *)
Definition quiet (s : life) : Prop :=
  (forall w x, receiver_of w s = Some x -> rx x = NotCreated \/ rx x = Exited) /\
  (forall l, runtime_ s = Some l -> worker_ l <> Working /\ in_handlers l = 0%nat).

Lemma ordered_quiet s : ordered s -> (forall sv, AwaitStop sv ∉ todo s) -> quiet s.
Proof.
  intros H Hn. split.
  - intros w x Hx. destruct (od_receiver _ H w x Hx) as [Hg Hst _ _ _]. by apply (good_halted w x Hg), Hst.
  - intros l Hl. destruct (od_runtime _ H l Hl) as [H1 H2 _]. split; [by apply H1|by apply H2, H1].
Qed.

Lemma ordered_handlers s m :
  ordered s -> in_handler s -> m ∈ members -> used_by_handlers m = true -> m ∈ alive_members s.
Proof.
  intros H Hin Hm Hu. apply (od_alive _ H m Hm).
  destruct (decide (Destroy m ∈ todo s)) as [|Hd]; [done|].
  destruct (ordered_quiet s H) as [Hq1 Hq2].
  { intros sv. eapply stopped_before_destruction; [apply H|exact Hm|exact Hu|exact Hd]. }
  destruct Hin as [(w & x & d & Hx & Hrx)|(l & Hl & Hc)].
  - destruct (Hq1 w x Hx); congruence.
  - destruct (Hq2 l Hl). lia.
Qed.
End Node.

(** ** Theorems *)

(** An accepted configuration meets the conditions of the receivers. *)
Lemma accepted_receivers inet to_string p r :
  Forall in_int32 (integers p) -> doubles p = true -> validate_parameters inet to_string p = inr r ->
  config_doubles (parse_config r) = true /\ 0 <= max_packets_per_frame (assembler_config r).
Proof.
  intros Hint Hd Hv.
  destruct (validated_sound inet to_string p r Hint Hd Hv) as [_ _ _ _ _ _ (_ & Hdoubles & _) Hasm _ _ _ _].
  split; [exact Hdoubles|lia].
Qed.

(** A handler never runs in a half-built or half-destroyed node: in every
    interleaving of the node's construction, which may fail at any step, its life and
    its destruction with the receive threads and the runtime, whenever a receiver or
    the runtime is inside a handler the publishers exist and every member the
    handlers use is alive; and when the destruction is over no thread of the node is
    left.  The configuration is any that the node accepts.  Claim C27. *)
Theorem handlers_run_in_a_whole_node {Src I} `{!DatagramSource Src I} inet to_string p inet_pton r injected
    opening_of of_udp ms (s : life Src I) :
  Forall in_int32 (integers p) -> doubles p = true -> validate_parameters inet to_string p = inr r ->
  (forall w src, chosen_source inet_pton r injected opening_of of_udp w = Some src -> source_ok src) ->
  Forall move_wf ms -> life_run inet_pton r injected opening_of of_udp ms newborn = Some s ->
  (in_handler s -> graph_ s = true /\
     forall m, m ∈ members -> used_by_handlers m = true -> m ∈ alive_members s) /\
  (todo s = [] -> quiet s).
Proof.
  intros Hint Hd Hv Hsrc Hms Hrun.
  destruct (accepted_receivers inet to_string p r Hint Hd Hv) as [Hdoubles Hpackets].
  pose proof (ordered_run inet_pton r injected opening_of of_udp Hdoubles Hpackets Hsrc ms newborn s
    (ordered_newborn r) Hms Hrun) as H.
  split.
  - intros Hin. split; [|intros m; by apply (ordered_handlers r Hdoubles Hpackets)].
    destruct Hin as [(w & x & d & Hx & _)|(l & Hl & _)]; [by eapply ordered_graph|by eapply ordered_graph'].
  - intros Htd. apply (ordered_quiet r Hdoubles Hpackets s H). intros sv. rewrite Htd. set_solver.
Qed.

(** The destruction cannot hang: from every state of every such interleaving, also in
    the middle of the constructor, with receive threads in callbacks and handlers
    running, the owning thread can get to the end using only steps that finish what
    was begun, and then no thread is left.  [inp] is any answer of the sockets.
    Claim C28. *)
Theorem destruction_can_complete {Src I} `{!DatagramSource Src I} inet to_string p inet_pton r injected
    opening_of of_udp ms (s : life Src I) (inp : I) :
  Forall in_int32 (integers p) -> doubles p = true -> validate_parameters inet to_string p = inr r ->
  (forall w src, chosen_source inet_pton r injected opening_of of_udp w = Some src -> source_ok src) ->
  Forall move_wf ms -> life_run inet_pton r injected opening_of of_udp ms newborn = Some s ->
  exists ms' s', Forall move_wf ms' /\ forallb finishing ms' = true /\
    life_run inet_pton r injected opening_of of_udp ms' s = Some s' /\ todo s' = [] /\ quiet s'.
Proof.
  intros Hint Hd Hv Hsrc Hms Hrun.
  destruct (accepted_receivers inet to_string p r Hint Hd Hv) as [Hdoubles Hpackets].
  pose proof (ordered_run inet_pton r injected opening_of of_udp Hdoubles Hpackets Hsrc ms newborn s
    (ordered_newborn r) Hms Hrun) as H.
  destruct (gets_to_end inet_pton r injected opening_of of_udp Hdoubles Hpackets Hsrc inp s H)
    as (ms' & s' & H1 & H2 & H3 & H4).
  exists ms', s'. split_and!; try done.
  pose proof (ordered_run inet_pton r injected opening_of of_udp Hdoubles Hpackets Hsrc ms' s s' H H1 H3) as H'.
  apply (ordered_quiet r Hdoubles Hpackets s' H'). intros sv. rewrite H4. set_solver.
Qed.

(** ** A run: the odometry thread cannot be created *)

Definition any_name (addr : Z) : string := "10.18.0.100".

Definition node_transport : DatagramSource Udp.UdpLidarDatagramSource Udp.reception :=
  Udp.udp_transport any_name "10.18.0.100".

Definition sample_resolved : option resolved := accepted declared_defaults.

Definition bound_ports (w : stream) : Udp.opening := Udp.mkOpening 5 0.

#[local] Abbreviation run_node r ms :=
  (life_run (DatagramSource0 := node_transport) (fun _ => Some 0) r (fun _ => None) bound_ports id ms newborn).

Definition go (n : nat) : list (move (I:=Udp.reception)) := replicate n (MMain (Goes 7)).

(** The constructor up to the start of the odometry receiver; a bad datagram arrives
    on the cloud port and its warning is being logged. *)
Definition cloud_started : list move :=
  go 9 ++ [MReceiver CloudStream LWait;
           MReceiver CloudStream (LReceive (from 1 [Byte.x00]) (sample_clocks (seconds 10)))].

(** The odometry thread cannot be created, and the members are destroyed up to the runtime. *)
Definition odometry_fails : list move := cloud_started ++ [MMain Throws].
Definition runtime_destroyed : list move := odometry_fails ++ go 1 ++ [MRuntime WorkerReturns] ++ go 3.

Lemma udp_sources_ok r w src :
  lp_source_ip (lidar_ r) = "10.18.0.100"%string ->
  chosen_source (fun _ => Some 0) r (fun _ => None) bound_ports id w = Some src ->
  @source_ok _ _ node_transport src.
Proof.
  intros Hr. unfold chosen_source. destruct (Udp.valid _); [|done]. intros [= <-]. exact Hr.
Qed.

(** The cloud thread is inside its callback. *)
Definition logging_warning (s : life Udp.UdpLidarDatagramSource Udp.reception) : bool :=
  match receiver_of CloudStream s with
  | Some x => match rx x with InCallback _ => true | _ => false end
  | None => false
  end.

Lemma logging_in_handler s : logging_warning s = true -> in_handler s.
Proof.
  unfold logging_warning. destruct (receiver_of CloudStream s) as [x|] eqn:Hx; [|done].
  destruct (rx x) as [| | |d| |] eqn:Hd; try done. left. by exists CloudStream, x, d.
Qed.

Lemma handlers_run_in_a_whole_node_witness :
  exists r s, sample_resolved = Some r /\ run_node r runtime_destroyed = Some s /\ logging_warning s = true /\ MPublishers ∈ alive_members s.
Proof.
  assert (H : exists r s, sample_resolved = Some r /\ run_node r runtime_destroyed = Some s /\ logging_warning s = true /\ lp_source_ip (lidar_ r) = "10.18.0.100"%string).
  { eexists _, _. split; [vm_compute; reflexivity|]. split; [vm_compute; reflexivity|].
    split; vm_compute; reflexivity. }
  destruct H as (r & s & Hr & Hrun & Hlog & Hip). exists r, s.
  assert (Hv : validate_parameters any_address no_text declared_defaults = inr r).
  { revert Hr. unfold sample_resolved, accepted. destruct (validate_parameters _ _ _); congruence. }
  destruct (handlers_run_in_a_whole_node (DatagramSource0 := node_transport) any_address no_text
    declared_defaults (fun _ => Some 0) r (fun _ => None) bound_ports id runtime_destroyed s) as [H _].
  - unfold declared_defaults, integers, in_int32. cbn. repeat constructor; lia.
  - vm_compute. reflexivity.
  - exact Hv.
  - intros w src. exact (udp_sources_ok r w src Hip).
  - repeat constructor; vm_compute; reflexivity.
  - exact Hrun.
  - destruct (H (logging_in_handler s Hlog)) as [_ Hm].
    refine (conj Hr (conj Hrun (conj Hlog (Hm MPublishers _ eq_refl)))).
    apply (bool_decide_unpack _). vm_compute. exact Logic.I.
Defined.

(** From the exception to the end. *)
Lemma destruction_can_complete_witness :
  exists r s ms' s', sample_resolved = Some r /\ run_node r odometry_fails = Some s /\
    logging_warning s = true /\
    life_run (DatagramSource0 := node_transport) (fun _ => Some 0) r (fun _ => None) bound_ports id ms' s = Some s' /\
    todo s' = [] /\ quiet s'.
Proof.
  assert (H : exists r s, sample_resolved = Some r /\ run_node r odometry_fails = Some s /\
    logging_warning s = true /\ lp_source_ip (lidar_ r) = "10.18.0.100"%string).
  { eexists _, _. split; [vm_compute; reflexivity|]. split; [vm_compute; reflexivity|].
    split; vm_compute; reflexivity. }
  destruct H as (r & s & Hr & Hrun & Hlog & Hip).
  destruct (destruction_can_complete (DatagramSource0 := node_transport) any_address no_text
    declared_defaults (fun _ => Some 0) r (fun _ => None) bound_ports id odometry_fails s silence)
    as (ms' & s' & _ & _ & H1 & H2 & H3).
  - unfold declared_defaults, integers, in_int32. cbn. repeat constructor; lia.
  - vm_compute. reflexivity.
  - revert Hr. unfold sample_resolved, accepted. destruct (validate_parameters _ _ _); congruence.
  - intros w src. exact (udp_sources_ok r w src Hip).
  - repeat constructor; vm_compute; reflexivity.
  - exact Hrun.
  - exact (ex_intro _ r (ex_intro _ s (ex_intro _ ms' (ex_intro _ s'
      (conj Hr (conj Hrun (conj Hlog (conj H1 (conj H2 H3))))))))).
Defined.

(** When the constructor fails the runtime is destroyed before the receivers: the
    cloud thread is inside its callback, the runtime is gone. *)
Example runtime_destroyed_first :
  match sample_resolved with
  | Some r =>
      match run_node r runtime_destroyed with
      | Some s => MService SRuntime ∉ alive_members s /\ MService (SReceiver CloudStream) ∈ alive_members s
      | None => False
      end
  | None => False
  end.
Proof. vm_compute. split; [set_solver|repeat constructor]. Qed.
