(* ===== verification/DriverMain.v ===== *)
(** * DriverMain: the process of [driver_main.cpp]

    [main] around the life of the node ([NodeLifetime]): [rclcpp::init], construction,
    [rclcpp::spin], [rclcpp::shutdown], and the destruction of the node when [main]
    returns, after the shutdown.  [main] catches nothing: an exception of the
    constructor finds no handler and ends the process by [std::terminate], without the
    unwinding of [NodeLifetime] (which is what a caller that catches gets). *)

From S2P Require Import Prelude Cxx LidarParse FrameAssembler NodeConfig LidarReceiver LidarDelivery NodeLifetime.

Inductive main_pc :=
  | AtInit | AtMakeNode | AtSpin | AtShutdown | AtReturn | Exited (code : Z) | Terminated.

#[export] Instance main_pc_eq_dec : EqDecision main_pc.
Proof. solve_decision. Defined.

Section Process.
  Context {Src I : Type} `{!DatagramSource Src I}.
  Context (inet_pton : string -> option Z) (r : resolved).
  Context (injected : stream -> option Src).
  Context (opening_of : stream -> Udp.opening) (of_udp : Udp.UdpLidarDatagramSource -> Src).

#[local] Notation life := (life Src I).
#[local] Notation step := (life_step inet_pton r injected opening_of of_udp).
#[local] Notation run := (life_run inet_pton r injected opening_of of_udp).

Record process := mkProcess { pc : main_pc; context_ok : bool; node : life }.

Definition throws (o : result) (s : life) : bool :=
  match o, todo s with Throws, i :: _ => may_throw i | _, _ => false end.

(** A step of [main]; [Live] is the node's life between its constructor and its destructor. *)
Definition main (o : result) (s : process) : option process :=
  match pc s with
  | AtInit => Some (mkProcess AtMakeNode true (node s))
  | AtMakeNode =>
      if throws o (node s) then Some (mkProcess Terminated (context_ok s) (node s))
      else
        match todo (node s) with
        | Live :: _ => Some (mkProcess AtSpin (context_ok s) (node s))
        | _ => n ← step (MMain o) (node s); Some (mkProcess AtMakeNode (context_ok s) n)
        end
  | AtSpin => Some (mkProcess AtShutdown (context_ok s) (node s))          (* [spin] returns *)
  | AtShutdown => Some (mkProcess AtReturn false (node s))
  | AtReturn =>
      match todo (node s) with
      | [] => Some (mkProcess (Exited 0) false (node s))
      | _ => n ← step (MMain o) (node s); Some (mkProcess AtReturn (context_ok s) n)
      end
  | Exited _ | Terminated => None
  end.

Inductive process_label :=
  | PMain (o : result)
  | POther (m : move (I:=I)).            (* a receive thread or the runtime *)

Definition process_step (l : process_label) (s : process) : option process :=
  match l with
  | PMain o => main o s
  | POther m =>
      match pc s, m with
      | (AtMakeNode | AtSpin | AtShutdown | AtReturn), (MReceiver _ _ | MRuntime _) =>
          n ← step m (node s); Some (mkProcess (pc s) (context_ok s) n)
      | _, _ => None
      end
  end.

Fixpoint process_run (ls : list process_label) (s : process) : option process :=
  match ls with [] => Some s | l :: ls => s' ← process_step l s; process_run ls s' end.

Definition process_start : process := mkProcess AtInit false newborn.

Definition label_ok (l : process_label) : Prop := match l with PMain _ => True | POther m => move_wf m end.

(** Where [main] is says what is left of the node's program. *)
Definition in_place (s : process) : Prop :=
  match pc s with
  | AtSpin | AtShutdown => head (todo (node s)) = Some Live
  | AtReturn => context_ok s = false
  | Exited code => code = 0 /\ context_ok s = false /\ todo (node s) = []
  | _ => True
  end.

(** The node lives as in [NodeLifetime]. *)
Lemma process_step_node l s s' :
  process_step l s = Some s' -> label_ok l ->
  exists ms, Forall move_wf ms /\ run ms (node s) = Some (node s').
Proof.
  intros Hs Hl. destruct l as [o|m]; cbn in Hs.
  - unfold main in Hs. destruct (pc s); try done; try (injection Hs as <-; by exists []).
    + destruct (throws o (node s)); [injection Hs as <-; by exists []|].
      destruct (todo (node s)) as [|[] rest]; try (injection Hs as <-; by exists []);
        (destruct (step (MMain o) (node s)) as [n|] eqn:E; [|done]; injection Hs as <-;
         exists [MMain o]; split; [by repeat constructor|cbn [life_run]; by rewrite E]).
    + destruct (todo (node s)) as [|i rest]; [injection Hs as <-; by exists []|].
      destruct (step (MMain o) (node s)) as [n|] eqn:E; [|done]. injection Hs as <-.
      exists [MMain o]. split; [by repeat constructor|]. cbn [life_run]. by rewrite E.
  - destruct (pc s), m as [|w l|m]; try done;
      (destruct (step _ (node s)) as [n|] eqn:E; [|done]; injection Hs as <-;
       eexists (_ :: []); split; [apply List.Forall_cons; [exact Hl|constructor]|cbn [life_run]; by rewrite E]).
Qed.

Lemma process_run_node ls s s' :
  process_run ls s = Some s' -> Forall label_ok ls ->
  exists ms, Forall move_wf ms /\ run ms (node s) = Some (node s').
Proof.
  intros Hs Hls. revert s Hs. induction Hls as [|l ls Hl _ IH]; intros s Hs; cbn in Hs.
  - exists []. split; [done|]. by injection Hs as <-.
  - destruct (process_step l s) as [s1|] eqn:E; [|done].
    destruct (process_step_node l s s1 E Hl) as (ms1 & H1 & R1). destruct (IH s1 Hs) as (ms2 & H2 & R2).
    exists (ms1 ++ ms2). split; [by apply List.Forall_app|]. clear -R1 R2.
    revert R1. generalize (node s). induction ms1 as [|m ms IH]; intros n R1; cbn in R1 |- *.
    + by injection R1 as ->.
    + destruct (step m n) as [n'|]; [|done]. by apply IH.
Qed.

Lemma receiver_move_todo m n n' :
  step m n = Some n' -> match m with MMain _ => False | _ => True end -> todo n' = todo n.
Proof.
  destruct m as [|w l|m]; [done| |]; cbn; intros Hs _.
  - destruct (receive_thread l); [|done]. unfold on_receiver in Hs.
    destruct (receiver_of w n) as [x|]; [|by injection Hs as <-].
    destruct (LidarReceiver.step _ l x); [|done]. injection Hs as <-. by destruct w.
  - destruct (runtime_ n) as [l|]; [|done]. cbn in Hs. destruct (runtime_step m l) as [l'|]; [|done].
    cbn in Hs. by injection Hs as <-.
Qed.

Lemma in_place_step l s s' : process_step l s = Some s' -> in_place s -> in_place s'.
Proof.
  intros Hs Hp. destruct l as [o|m]; cbn in Hs.
  - unfold main in Hs. unfold in_place in *. destruct (pc s); try done; try by injection Hs as <-.
    + destruct (throws o (node s)); [by injection Hs as <-|].
      destruct (todo (node s)) as [|[] rest] eqn:Htd; try (by injection Hs as <-; cbn; rewrite Htd);
        (destruct (step (MMain o) (node s)); [|done]; by injection Hs as <-).
    + destruct (todo (node s)) as [|i rest] eqn:Htd; [by injection Hs as <-|].
      destruct (step (MMain o) (node s)); [|done]; by injection Hs as <-.
  - assert (Htd : forall n, step m (node s) = Some n -> match m with MMain _ => False | _ => True end ->
      in_place (mkProcess (pc s) (context_ok s) n)).
    { intros n Hn Hm. unfold in_place in *. cbn. by rewrite (receiver_move_todo m _ _ Hn Hm). }
    destruct (pc s), m as [|w l|m]; try done;
      (destruct (step _ (node s)) as [n|] eqn:E; [|done]; injection Hs as <-; by apply Htd).
Qed.

Lemma in_place_run ls s s' : process_run ls s = Some s' -> in_place s -> in_place s'.
Proof.
  revert s. induction ls as [|l ls IH]; intros s Hs Hp; cbn in Hs; [by injection Hs as <-|].
  destruct (process_step l s) as [s1|] eqn:E; [|done]. by eapply IH, in_place_step.
Qed.

(** While the node is destroyed every move of its life is one of the process. *)
Definition in_return (m : move (I:=I)) : process_label := match m with MMain o => PMain o | _ => POther m end.

Lemma return_step m n n' c : step m n = Some n' ->
  process_step (in_return m) (mkProcess AtReturn c n) = Some (mkProcess AtReturn c n').
Proof.
  intros Hs. destruct m as [o|w l|m]; cbn [in_return process_step pc node context_ok].
  - unfold main. cbn. destruct (todo n) eqn:Htd.
    + cbn in Hs. unfold main_step in Hs. by rewrite Htd in Hs.
    + cbn in Hs. by rewrite Hs.
  - by rewrite Hs.
  - by rewrite Hs.
Qed.

Lemma return_run ms n n' c : run ms n = Some n' ->
  process_run (map in_return ms) (mkProcess AtReturn c n) = Some (mkProcess AtReturn c n').
Proof.
  revert n. induction ms as [|m ms IH]; intros n Hr; cbn in Hr |- *; [by injection Hr as ->|].
  destruct (step m n) as [n1|] eqn:E; [|done]. rewrite (return_step m n n1 c E). by apply IH.
Qed.

Lemma process_run_app ls ls' s :
  process_run (ls ++ ls') s = process_run ls s ≫= process_run ls'.
Proof.
  revert s. induction ls as [|l ls IH]; intros s; cbn; [done|]. by destruct (process_step l s); cbn.
Qed.
End Process.

(** ** Theorems *)

(** [main] returns 0 and leaves no thread: for a configuration the node accepts, in
    every interleaving of [main] with the receive threads and the runtime, a process
    that exits has exit code 0, has destroyed the whole node after
    [rclcpp::shutdown] and has no thread left; and once [rclcpp::spin] is entered it
    can always get there, whatever the receive threads and the handlers are doing. *)
Theorem process_ends_cleanly {Src I} `{!DatagramSource Src I} inet to_string p inet_pton r injected
    opening_of of_udp ls (s : process) (inp : I) :
  Forall in_int32 (integers p) -> doubles p = true -> validate_parameters inet to_string p = inr r ->
  (forall w src, chosen_source inet_pton r injected opening_of of_udp w = Some src -> source_ok src) ->
  Forall label_ok ls -> process_run inet_pton r injected opening_of of_udp ls process_start = Some s ->
  (forall code, pc s = Exited code ->
     code = 0 /\ context_ok s = false /\ todo (node s) = [] /\ quiet (node s)) /\
  (pc s = AtSpin \/ pc s = AtShutdown \/ pc s = AtReturn ->
   exists ls' s', Forall label_ok ls' /\ process_run inet_pton r injected opening_of of_udp ls' s = Some s' /\
     pc s' = Exited 0 /\ quiet (node s')).
Proof.
  intros Hint Hd Hv Hsrc Hls Hrun.
  destruct (accepted_receivers inet to_string p r Hint Hd Hv) as [Hdoubles Hpackets].
  assert (Hord : forall ms n n', ordered r n -> Forall move_wf ms ->
      life_run inet_pton r injected opening_of of_udp ms n = Some n' -> ordered r n').
  { intros ms n n' Hn Hms. by apply (ordered_run inet_pton r injected opening_of of_udp Hdoubles Hpackets Hsrc). }
  assert (Hq : forall n : life Src I, ordered r n -> todo n = [] -> quiet n).
  { intros n Hn Htd. apply (ordered_quiet r Hdoubles Hpackets n Hn). intros sv. rewrite Htd. set_solver. }
  assert (H : ordered r (node s)).
  { destruct (process_run_node _ _ _ _ _ ls _ s Hrun Hls) as (ms & Hms & Hr).
    exact (Hord ms _ _ (ordered_newborn r) Hms Hr). }
  pose proof (in_place_run _ _ _ _ _ ls _ s Hrun Logic.I) as Hp. split.
  - intros code E. unfold in_place in Hp. rewrite E in Hp. destruct Hp as (-> & Hc & Htd). auto.
  - intros Hpc.
    destruct (gets_to_end inet_pton r injected opening_of of_udp Hdoubles Hpackets Hsrc inp (node s) H)
      as (ms & n & Hms & _ & Hr & Htd).
    assert (Hto : exists pre c, Forall label_ok pre /\
      process_run inet_pton r injected opening_of of_udp pre s = Some (mkProcess AtReturn c (node s))).
    { destruct s as [q c n0]. cbn in Hpc. destruct Hpc as [-> | [-> | -> ]].
      - exists [PMain Throws; PMain Throws], false. split; [by repeat constructor|done].
      - exists [PMain Throws], false. split; [by repeat constructor|done].
      - exists [], c. by split. }
    destruct Hto as (pre & c & Hpre & Hto).
    exists (pre ++ map in_return ms ++ [PMain Throws]), (mkProcess (Exited 0) false n). split_and!.
    + repeat (apply List.Forall_app; split); [done| |by repeat constructor].
      apply List.Forall_map. eapply List.Forall_impl; [|exact Hms]. by intros [].
    + rewrite process_run_app, Hto. cbn [mbind option_bind]. rewrite process_run_app, (return_run _ _ _ _ _ ms _ n c Hr).
      cbn. unfold main. cbn. by rewrite Htd.
    + done.
    + apply Hq; [|done]. exact (Hord ms _ _ H Hms Hr).
Qed.

(** A bad datagram arrives while the node spins; its warning is being logged. *)
Definition spinning : list (process_label (I:=Udp.reception)) :=
  replicate 13 (PMain (Goes 7)) ++
  [POther (MReceiver CloudStream LWait);
   POther (MReceiver CloudStream (LReceive (from 1 [Byte.x00]) (sample_clocks (seconds 10))))].

#[local] Abbreviation run_process r ls :=
  (process_run (DatagramSource0 := node_transport) (fun _ => Some 0) r (fun _ => None) bound_ports id ls).

Lemma process_ends_cleanly_witness :
  exists r s ls' s', sample_resolved = Some r /\ run_process r spinning process_start = Some s /\
    pc s = AtSpin /\ logging_warning (node s) = true /\
    run_process r ls' s = Some s' /\ pc s' = Exited 0 /\ quiet (node s').
Proof.
  assert (H : exists r s, sample_resolved = Some r /\ run_process r spinning process_start = Some s /\
    pc s = AtSpin /\ logging_warning (node s) = true /\ lp_source_ip (lidar_ r) = "10.18.0.100"%string).
  { eexists _, _. split; [vm_compute; reflexivity|]. split; [vm_compute; reflexivity|].
    split_and!; vm_compute; reflexivity. }
  destruct H as (r & s & Hr & Hrun & Hpc & Hlog & Hip).
  destruct (process_ends_cleanly (DatagramSource0 := node_transport) any_address no_text
    declared_defaults (fun _ => Some 0) r (fun _ => None) bound_ports id spinning s silence) as [_ H].
  - unfold declared_defaults, integers, in_int32. cbn. repeat constructor; lia.
  - vm_compute. reflexivity.
  - revert Hr. unfold sample_resolved, accepted. destruct (validate_parameters _ _ _); congruence.
  - intros w src. exact (udp_sources_ok r w src Hip).
  - repeat constructor; vm_compute; reflexivity.
  - exact Hrun.
  - destruct (H (or_introl Hpc)) as (ls' & s' & _ & H1 & H2 & H3).
    exact (ex_intro _ r (ex_intro _ s (ex_intro _ ls' (ex_intro _ s'
      (conj Hr (conj Hrun (conj Hpc (conj Hlog (conj H1 (conj H2 H3)))))))))).
Defined.

(** A constructor that throws ends the process with every member still alive. *)
Example constructor_exception_terminates :
  match sample_resolved with
  | Some r =>
      match run_process r (replicate 9 (PMain (Goes 7)) ++ [PMain Throws]) process_start with
      | Some s => pc s = Terminated /\ alive_members (node s) = members
      | None => False
      end
  | None => False
  end.
Proof. vm_compute. by split. Qed.
