(* ===== verification/NodeBridge.v ===== *)
(** * NodeBridge: the handlers of [driver_node.cpp]

    Observer callbacks, topic and service callbacks and receiver callbacks as
    programs of atomic steps over the node's members: one step per critical
    section or per call of ROS or of the runtime, so that handlers of different
    threads interleave between them.  Clock readings and the answers of the
    runtime's futures are arguments; [sin] and [cos] are parameters. *)

From S2P Require Import Prelude Cxx ThreadSafeQueue RobotController LidarParse FrameAssembler SdkTypes RuntimeState DeviceClock NodeConfig.
From Stdlib Require Import Ascii.

(** ** Single precision, as the handlers use it *)

(** [static_cast<double>] of a [float]: exact. *)
Definition f64_of_f32 (x : spec_float) : spec_float :=
  match x with S754_finite s m e => binary_round 53 1024 s m e | _ => x end.

Definition f32_mul := SFmul 24 128.
Definition f32_add := SFadd 24 128.
Definition f32_div := SFdiv 24 128.
Definition f32_sqrt := SFsqrt 24 128.

(** [numeric_limits::epsilon() * 4], for [float] and [double]. *)
Definition norm_limit32 : spec_float := S754_finite false 8388608 (-44).
Definition norm_limit64 : spec_float := S754_finite false 4503599627370496 (-102).

Arguments f64_of_f32 : simpl never.
Arguments f32_mul : simpl never.
Arguments f32_add : simpl never.
Arguments f32_div : simpl never.
Arguments f32_sqrt : simpl never.

(** The 32 bits of a [float], as [memcpy] reads them. *)
Definition f32_bits (x : spec_float) : Z :=
  let sign (s : bool) := if s then 2 ^ 31 else 0 in
  match x with
  | S754_zero s => sign s
  | S754_infinity s => sign s + 255 * 2 ^ 23
  | S754_nan => 255 * 2 ^ 23 + 2 ^ 22
  | S754_finite s m e =>
      if Z.pos m <? 2 ^ 23 then sign s + Z.pos m
      else sign s + (e + 150) * 2 ^ 23 + (Z.pos m - 2 ^ 23)
  end.

(** ** Messages *)

Record Vector3 := mkVector3 { v3_x : spec_float; v3_y : spec_float; v3_z : spec_float }.
Record Quaternion := mkQuaternion {
  q_x : spec_float; q_y : spec_float; q_z : spec_float; q_w : spec_float }.
Record Pose := mkPose { position : Vector3; orientation : Quaternion }.

Record ImuMsg := mkImuMsg {
  im_stamp : Z; im_frame_id : string; im_orientation : Quaternion;
  im_orientation_covariance : list spec_float;
  im_angular_velocity : Vector3; im_angular_velocity_covariance : list spec_float;
  im_linear_acceleration : Vector3; im_linear_acceleration_covariance : list spec_float }.

Record OdometryMsg := mkOdometryMsg {
  om_stamp : Z; om_frame_id : string; om_child_frame_id : string; om_pose : Pose;
  om_pose_covariance : list spec_float }.

Record TransformMsg := mkTransform {
  tf_stamp : Z; tf_frame_id : string; tf_child_frame_id : string; tf_pose : Pose }.

Record RobotStateMsg := mkRobotState {
  rs_stamp : Z; rs_frame_id : string; rs_ssh_connected : bool; rs_agent_connected : bool;
  rs_sdk_linked : bool; rs_control_authority : bool; rs_emergency_stop : bool;
  rs_joint_interface_available : bool; rs_camera_available : bool;
  rs_odometry_scale_verified : bool; rs_system_status : Z; rs_error_code : Z;
  rs_warning_code : Z; rs_sport_status : Z; rs_battery_percentage : spec_float;
  rs_battery_temperature : spec_float; rs_battery_voltage : spec_float;
  rs_battery_cycle_count : Z; rs_charge_status : Z; rs_wheel_speed : list spec_float;
  rs_protocol_rx_drops : Z; rs_rejected_joint_commands : Z; rs_last_error : string }.

Inductive FieldType := FLOAT32 | UINT32.
Record PointField := mkField {
  pf_name : string; pf_offset : Z; pf_datatype : FieldType; pf_count : Z }.

Record PointCloud2 := mkPointCloud2 {
  pc_stamp : Z; pc_frame_id : string; pc_height : Z; pc_width : Z; pc_fields : list PointField;
  pc_is_bigendian : bool; pc_point_step : Z; pc_row_step : Z; pc_data : bytes;
  pc_is_dense : bool }.

(** ** The node's members that change *)

Record node_state := mkNode {
  runtime_ : bool;                     (* emplaced *)
  snapshot_ : SdkSnapshot;
  status_linked_ : bool;
  status_authority_ : bool;
  estop_latched_ : bool;
  last_error_ : string;
  rejected_joint_commands_ : Z;
  last_pose_ : option Pose;
  lidar_device_clock_ : mapper;
  scale_parameter : bool }.            (* [odometry.scale_verified] as ROS holds it now *)

#[export] Instance eta_node : Eta node_state := fun s =>
  mkNode (runtime_ s) (snapshot_ s) (status_linked_ s) (status_authority_ s) (estop_latched_ s)
    (last_error_ s) (rejected_joint_commands_ s) (last_pose_ s) (lidar_device_clock_ s)
    (scale_parameter s).

#[export] Instance eta_snapshot : Eta SdkSnapshot := fun s =>
  mkSnapshot (sn_sdk_linked s) (sn_control_authority s) (system_status s) (error_code s)
    (warning_code s) (sport_status s) (battery_percentage s) (battery_temperature s)
    (battery_voltage s) (battery_cycle_count s) (charge_status s) (wheel_speed s).

Definition fresh_node : node_state :=
  mkNode false SdkSnapshot0 false false false "" 0 None fresh_mapper false.

(** ** Programs of atomic steps *)

Inductive effect :=
  | PubImu (m : ImuMsg)
  | PubOdom (m : OdometryMsg)
  | PubState (m : RobotStateMsg)
  | PubPoints (m : PointCloud2)
  | PubOdomLidar (m : OdometryMsg)
  | SendTransform (m : TransformMsg)
  | SendLidarTransform (m : TransformMsg)
  | SubmitVelocity (v : Velocity)
  | CallRequestMode (name : string)
  | CallTriggerEstop (engage : bool)
  | CallRequestAuthority (sdk : bool)
  | Respond (success : bool) (message : string)
  | Overflow.                          (* signed overflow in the clock mapper *)

(** A step changes the members and has effects, both read off the members before
    it; the rest of the program may depend on them as well. *)
Inductive prog :=
  | Done
  | Step (update : node_state -> node_state) (effects : node_state -> list effect)
      (next : node_state -> prog).

Definition modify (f : node_state -> node_state) (k : prog) : prog :=
  Step f (fun _ => []) (fun _ => k).
Definition emit (e : effect) (k : prog) : prog := Step id (fun _ => [e]) (fun _ => k).
Definition inspect (k : node_state -> prog) : prog := Step id (fun _ => []) k.

(** One thread runs a program without interruption. *)
Fixpoint exec (p : prog) (s : node_state) : list effect * node_state :=
  match p with
  | Done => ([], s)
  | Step update effects next =>
      let '(es, s') := exec (next s) (update s) in (effects s ++ es, s')
  end.

(** ** Helpers *)

Definition robot_mode_names : list string :=
  ["damping"; "stand"; "down"; "move"; "auto_charge"; "exit_charge"; "recover"; "recovery"]%string.

(** The characters of the set [" \t\r\n"]. *)
Definition is_blank (c : ascii) : bool :=
  let n := N_of_ascii c in ((n =? 32) || (n =? 9) || (n =? 13) || (n =? 10))%N.

Fixpoint skip_blank (l : list ascii) : list ascii :=
  match l with c :: l' => if is_blank c then skip_blank l' else l | [] => [] end.

Definition trimmed_lower (input : string) : string :=
  of_chars (map tolower (rev (skip_blank (rev (skip_blank (chars input)))))).

Definition clamp_unit (v : spec_float) : spec_float := fmax fmone32 (fmin fone32 v).

Definition at_ (l : list spec_float) (i : nat) : spec_float := default fzero (l !! i).

Definition or_zero (v : spec_float) : spec_float := if isfinite v then v else fzero.

Definition imu_sample_finite (s : ImuSample) : bool :=
  forallb isfinite (accelerometer s) && forallb isfinite (gyroscope s) &&
  forallb isfinite (quaternion s) &&
  isfinite (pitch s) && isfinite (roll s) && isfinite (yaw s) && isfinite (odom_x s) &&
  isfinite (odom_y s).

Definition is_near_zero (limit norm : spec_float) : bool :=
  negb (isfinite norm) || SFltb norm limit.

Definition orientation_quaternion (wxyz : bool) (s : ImuSample) : option Quaternion :=
  let q := at_ (quaternion s) in
  let '(x, y, z, w) :=
    if wxyz then (q 1%nat, q 2%nat, q 3%nat, q 0%nat) else (q 0%nat, q 1%nat, q 2%nat, q 3%nat) in
  let norm := f32_sqrt (f32_add (f32_add (f32_add (f32_mul x x) (f32_mul y y)) (f32_mul z z))
                         (f32_mul w w)) in
  if is_near_zero norm_limit32 norm then None
  else Some (mkQuaternion (f64_of_f32 (f32_div x norm)) (f64_of_f32 (f32_div y norm))
               (f64_of_f32 (f32_div z norm)) (f64_of_f32 (f32_div w norm))).

Definition vector_of (l : list spec_float) : Vector3 :=
  mkVector3 (f64_of_f32 (at_ l 0)) (f64_of_f32 (at_ l 1)) (f64_of_f32 (at_ l 2)).

(** One point of the cloud message: [x], [y], [z] and the first colour word, in the
    memory order of a little-endian machine. *)
Definition point_bytes (p : LidarPoint) : bytes :=
  le_bytes 4 (f32_bits (pt_x p)) ++ le_bytes 4 (f32_bits (pt_y p)) ++
  le_bytes 4 (f32_bits (pt_z p)) ++ le_bytes 4 (rgba p).

Definition point_fields : list PointField :=
  [mkField "x" 0 FLOAT32 1; mkField "y" 4 FLOAT32 1; mkField "z" 8 FLOAT32 1;
   mkField "rgba" 12 UINT32 1].

Definition cloud_message (frame_id : string) (stamp : Z) (f : PointCloudFrame) : PointCloud2 :=
  let width := wrap 32 (psize (fr_points f)) in
  mkPointCloud2 stamp frame_id 1 width point_fields false 16 (wrap 32 (16 * width))
    (concat (map point_bytes (fr_points f))) true.

(** The diagonal packed into a row-major 6x6 matrix. *)
Definition pose_covariance (diag : list spec_float) : list spec_float :=
  map (fun k => if (k mod 7 =? 0)%nat then coefficient diag (k / 7) else fzero) (seq 0 36).

Definition joint_rejection : string :=
  "joint command rejected: ASTRALL 1.0.7 exposes no joint API".

(** ** Handlers *)

Section Handlers.

Context (sin cos : spec_float -> spec_float) (p : parameters) (r : resolved).

(** The message from a copy [s] of the members; the counter and the parameter are read
    when it is published, from [s']. *)
Definition robot_state_message (now : Z) (s s' : node_state) : RobotStateMsg :=
  let snapshot := snapshot_ s in
  mkRobotState now (fr_base r) false false (status_linked_ s) (status_authority_ s)
    (estop_latched_ s) false false (scale_parameter s')
    (system_status snapshot) (error_code snapshot) (warning_code snapshot)
    (sport_status snapshot) (or_zero (battery_percentage snapshot))
    (or_zero (battery_temperature snapshot)) (or_zero (battery_voltage snapshot))
    (battery_cycle_count snapshot) (charge_status snapshot)
    (map or_zero (wheel_speed snapshot)) 0 (rejected_joint_commands_ s') (last_error_ s).

(** [state_mutex_] is released before the message is built and published. *)
Definition publish_robot_state (now : Z) (k : prog) : prog :=
  inspect (fun s =>
    Step id (fun s' => [PubState (robot_state_message now s s')])
      (fun _ => k)).

Definition publish_tf (now : Z) (k : prog) : prog :=
  inspect (fun s =>
    match last_pose_ s with
    | None => k
    | Some pose => emit (SendTransform (mkTransform now (fr_odom r) (fr_base r) pose)) k
    end).

Definition update_last_error (message : string) (k : prog) : prog :=
  modify (fun s => s <| last_error_ := message |>) k.

Definition on_state (snapshot : SdkSnapshot) (now now_tf : Z) : prog :=
  modify (fun s => s <| snapshot_ := snapshot |>)
    (publish_robot_state now
      (if tf_broadcaster p then
         inspect (fun s => match last_pose_ s with
                           | Some _ => publish_tf now_tf Done
                           | None => Done
                           end)
       else Done)).

Definition imu_message (now : Z) (sample : ImuSample) (q : Quaternion) : ImuMsg :=
  mkImuMsg now (fr_imu r) q (orientation_covariance_ r) (vector_of (gyroscope sample))
    (angular_velocity_covariance_ r) (vector_of (accelerometer sample))
    (linear_acceleration_covariance_ r).

Definition imu_pose (sample : ImuSample) : Pose :=
  let half := f64_mul (f64_of_f32 (yaw sample)) (f64_decimal 5 1) in
  mkPose (mkVector3 (f64_of_f32 (odom_x sample)) (f64_of_f32 (odom_y sample)) fzero)
    (mkQuaternion fzero fzero (sin half) (cos half)).

Definition imu_odometry (now : Z) (sample : ImuSample) : OdometryMsg :=
  mkOdometryMsg now (fr_odom r) (fr_base r) (imu_pose sample) (replicate 36 fzero).

Definition on_imu (sample : ImuSample) (now now_tf : Z) : prog :=
  if negb (imu_sample_finite sample) then
    update_last_error "dropped sample: IMU telemetry contained a non-finite value" Done
  else
    match orientation_quaternion (quaternion_order_wxyz_ r) sample with
    | None => update_last_error "dropped sample: IMU orientation norm was zero" Done
    | Some q =>
        emit (PubImu (imu_message now sample q))
          (emit (PubOdom (imu_odometry now sample))
            (modify (fun s => s <| last_pose_ := Some (imu_pose sample) |>)
              (if tf_broadcaster p then publish_tf now_tf Done else Done)))
    end.

Definition on_sport (sample : SportSample) : prog :=
  if forallb isfinite (sport_wheel_speed sample) then
    modify (fun s => s <| snapshot_ := (snapshot_ s) <| wheel_speed := sport_wheel_speed sample |> |>)
      Done
  else
    update_last_error "dropped sport sample: wheel speed contained a non-finite value" Done.

Definition status_changes (linked authority : bool) (s : node_state) : bool :=
  negb (Bool.eqb (status_linked_ s) linked) || negb (Bool.eqb (status_authority_ s) authority).

Definition on_status (linked authority : bool) (now : Z) : prog :=
  Step (fun s => s <| status_linked_ := linked |> <| status_authority_ := authority |>)
    (fun _ => [])
    (fun s =>
      let finish := if status_changes linked authority s
                    then publish_robot_state now Done else Done in
      if linked then finish else modify (fun s => s <| last_pose_ := None |>) finish).

Definition on_event (severity : Z) (message : string) (now : Z) : prog :=
  if kRuntimeEventWarning <=? severity
  then update_last_error message (publish_robot_state now Done)
  else Done.

Definition on_cmd_vel (linear_x linear_y angular_z : spec_float) : prog :=
  inspect (fun s =>
    if negb (runtime_ s) then Done
    else if negb (isfinite linear_x) || negb (isfinite linear_y) || negb (isfinite angular_z)
    then Done
    else emit (SubmitVelocity (mkVel (clamp_unit (f32_of_f64 linear_x))
                 (clamp_unit (f32_of_f64 linear_y)) (clamp_unit (f32_of_f64 angular_z)))) Done).

Definition on_robot_mode (data : string) : prog :=
  inspect (fun s =>
    if negb (runtime_ s) then Done
    else
      let name := trimmed_lower data in
      if bool_decide (name ∈ robot_mode_names) then emit (CallRequestMode name) Done else Done).

Definition reject_joint_command (reason : string) (now : Z) : prog :=
  modify (fun s => s <| rejected_joint_commands_ := wrap 32 (rejected_joint_commands_ s + 1) |>)
    (update_last_error reason (publish_robot_state now Done)).

Definition on_joint_commands (now : Z) : prog := reject_joint_command joint_rejection now.

(** The answer of a service call whose future may time out; rclcpp sends it when the
    callback has returned. *)
Definition respond (answer : option Result) (timeout_message : string) : effect :=
  match answer with
  | Some result => Respond (success result) (res_message result)
  | None => Respond false timeout_message
  end.

Definition on_emergency_stop (data : bool) (answer : option Result) (now : Z) : prog :=
  inspect (fun s =>
    if negb (runtime_ s) then emit (Respond false "runtime not available") Done
    else
      modify (fun s => s <| estop_latched_ := data |>)
        (emit (CallTriggerEstop data)
          (publish_robot_state now
            (emit (respond answer ("estop request latched locally but SDK execution was not " +:+
                                   "confirmed within the service timeout")) Done)))).

Definition on_control_authority (data : bool) (answer : option Result) (now : Z) : prog :=
  inspect (fun s =>
    if negb (runtime_ s) then emit (Respond false "runtime not available") Done
    else
      emit (CallRequestAuthority data)
        (publish_robot_state now
          (emit (respond answer "control authority request not confirmed within the service timeout") Done))).

Definition on_lidar_frame (frame : PointCloudFrame) (receive_time : Z) : prog :=
  if negb (lidar_enabled_ r) then Done
  else
    inspect (fun s =>
      match map_cloud (fr_timestamp_ns frame) receive_time (lidar_device_clock_ s) with
      | None => emit Overflow Done
      | Some stamp => emit (PubPoints (cloud_message (lp_frame_id (lidar_ r)) stamp frame)) Done
      end).

Definition lidar_pose (o : LidarOdometry) (norm : spec_float) : Pose :=
  mkPose (mkVector3 (od_x o) (od_y o) (od_z o))
    (mkQuaternion (f64_div (od_qx o) norm) (f64_div (od_qy o) norm) (f64_div (od_qz o) norm)
       (f64_div (od_qw o) norm)).

Definition lidar_norm (o : LidarOdometry) : spec_float :=
  quaternion_norm (od_qx o) (od_qy o) (od_qz o) (od_qw o).

Definition on_lidar_odometry (o : LidarOdometry) (receive_time : Z) : prog :=
  if negb (lidar_enabled_ r) then Done
  else if is_near_zero norm_limit64 (lidar_norm o) then Done
  else
    let ol := odom_lidar_ r in
    let pose := lidar_pose o (lidar_norm o) in
    let observe s := observe_odometry (od_timestamp_ns o) receive_time (lidar_device_clock_ s) in
    Step (fun s => match observe s with
                   | Some (_, m) => s <| lidar_device_clock_ := m |>
                   | None => s
                   end)
      (fun _ => [])
      (fun s =>
        match observe s with
        | None => emit Overflow Done
        | Some (stamp, _) =>
            emit (PubOdomLidar (mkOdometryMsg stamp (ol_parent_frame ol) (ol_child_frame ol) pose
                    (pose_covariance (ol_pose_covariance_diagonal ol))))
              (if lidar_tf_broadcaster p then
                 emit (SendLidarTransform
                         (mkTransform stamp (ol_parent_frame ol) (ol_child_frame ol) pose)) Done
               else Done)
        end).

(** The end of construction: the runtime exists, a first state is published. *)
Definition construct (now : Z) : prog :=
  modify (fun s => s <| scale_parameter := odometry_scale_verified p |> <| runtime_ := true |>)
    (publish_robot_state now Done).

(** Somebody sets the parameter, which is not declared read-only. *)
Definition set_scale_verified (value : bool) : prog :=
  modify (fun s => s <| scale_parameter := value |>) Done.

End Handlers.
