(* ===== verification/NodeOutputs.v ===== *)
(** * NodeOutputs: what the node of [NodeBridge] sends, in every interleaving

    Any number of handlers run on any threads, interleaved between their steps.
    Every command to the runtime and every message on the graph is justified by
    what the node received and sent before. *)

From S2P Require Import Prelude Cxx FloatFacts ThreadSafeQueue RobotController LidarParse FrameAssembler SdkTypes RuntimeState DeviceClock NodeConfig NodeBridge.

(** ** The node as a transition system *)

(** A callback of the observer, of ROS or of a receiver, with its arguments and
    clock readings. *)
Inductive event :=
  | OnConstruct (now : Z)
  | OnState (snapshot : SdkSnapshot) (now now_tf : Z)
  | OnImu (sample : ImuSample) (now now_tf : Z)
  | OnSport (sample : SportSample)
  | OnStatus (linked authority : bool) (now : Z)
  | OnEvent (severity : Z) (message : string) (now : Z)
  | OnCmdVel (linear_x linear_y angular_z : spec_float)
  | OnRobotMode (data : string)
  | OnJointCommands (now : Z)
  | OnEmergencyStop (data : bool) (answer : option Result) (now : Z)
  | OnControlAuthority (data : bool) (answer : option Result) (now : Z)
  | OnLidarFrame (frame : PointCloudFrame) (now : Z)
  | OnLidarOdometry (o : LidarOdometry) (now : Z)
  | OnSetScaleVerified (value : bool).

(** [trace] and [past] are newest first; [past] are the members' values so far. *)
Record system := mkSystem {
  members : node_state; threads : list prog; trace : list effect; past : list node_state }.

Inductive label := Spawn (e : event) | Run (k : nat).

Section Node.

Context (sin cos : spec_float -> spec_float) (p : parameters) (r : resolved).

Definition handler (e : event) : prog :=
  match e with
  | OnConstruct now => construct p r now
  | OnState snapshot now now_tf => on_state p r snapshot now now_tf
  | OnImu sample now now_tf => on_imu sin cos p r sample now now_tf
  | OnSport sample => on_sport sample
  | OnStatus linked authority now => on_status r linked authority now
  | OnEvent severity message now => on_event r severity message now
  | OnCmdVel x y z => on_cmd_vel x y z
  | OnRobotMode data => on_robot_mode data
  | OnJointCommands now => on_joint_commands r now
  | OnEmergencyStop data answer now => on_emergency_stop r data answer now
  | OnControlAuthority data answer now => on_control_authority r data answer now
  | OnLidarFrame frame now => on_lidar_frame r frame now
  | OnLidarOdometry o now => on_lidar_odometry p r o now
  | OnSetScaleVerified value => set_scale_verified value
  end.

Definition start : system := mkSystem fresh_node [] [] [fresh_node].

Definition step (l : label) (s : system) : option system :=
  match l with
  | Spawn e => Some (mkSystem (members s) (threads s ++ [handler e]) (trace s) (past s))
  | Run k =>
      match threads s !! k with
      | Some (Step update effects next) =>
          let m := members s in
          Some (mkSystem (update m) (<[k := next m]> (threads s))
                  (rev (effects m) ++ trace s) (update m :: past s))
      | _ => None
      end
  end.

Fixpoint run (ls : list label) (s : system) : option system :=
  match ls with
  | [] => Some s
  | l :: ls' => match step l s with Some s' => run ls' s' | None => None end
  end.

Inductive reachable : system -> Prop :=
  | reach_start : reachable start
  | reach_step l s s' : reachable s -> step l s = Some s' -> reachable s'.

(** ** Justification *)

(** A finite twist, narrowed and clamped; the gate takes it unchanged. *)
Definition velocity_ok (v : Velocity) : Prop :=
  let payload := mkVelocity (v_vx v) (v_vy v) (v_vyaw v) in
  (exists x y z, forallb isfinite [x; y; z] = true /\
     v = mkVel (clamp_unit (f32_of_f64 x)) (clamp_unit (f32_of_f64 y)) (clamp_unit (f32_of_f64 z))) /\
  finite_velocity payload = true /\ clamp_velocity payload = payload.

(** Why an effect may be there, given the values the members have had and the
    effects before it. *)
Definition justified (states : list node_state) (before : list effect) (e : effect) : Prop :=
  match e with
  | PubState m => exists now s s', s ∈ states /\ s' ∈ states /\ m = robot_state_message r now s s'
  | PubImu m => exists now sample q, imu_sample_finite sample = true /\
      orientation_quaternion (quaternion_order_wxyz_ r) sample = Some q /\
      m = imu_message r now sample q
  | PubOdom m => exists now sample, imu_sample_finite sample = true /\
      m = imu_odometry sin cos r now sample
  | SendTransform t => odom_publish_tf p = true /\ odometry_scale_verified p = true /\
      exists m, PubOdom m ∈ before /\ tf_pose t = om_pose m /\
        tf_frame_id t = om_frame_id m /\ tf_child_frame_id t = om_child_frame_id m
  | SendLidarTransform t => odom_lidar_publish_tf p = true /\ odometry_scale_verified p = true /\
      exists m, PubOdomLidar m ∈ before /\ tf_pose t = om_pose m /\ tf_stamp t = om_stamp m /\
        tf_frame_id t = om_frame_id m /\ tf_child_frame_id t = om_child_frame_id m
  | PubPoints m => lidar_enabled_ r = true /\
      exists f stamp, m = cloud_message (lp_frame_id (lidar_ r)) stamp f
  | PubOdomLidar m => lidar_enabled_ r = true /\
      exists o, is_near_zero norm_limit64 (lidar_norm o) = false /\ om_pose m = lidar_pose o (lidar_norm o)
  | SubmitVelocity v => velocity_ok v
  | CallRequestMode name => name ∈ robot_mode_names
  | _ => True
  end.

Fixpoint all_justified (states : list node_state) (tr : list effect) : Prop :=
  match tr with
  | [] => True
  | e :: tr' => justified states tr' e /\ all_justified states tr'
  end.

(** The pose kept for transforms has been published. *)
Definition pose_known (tr : list effect) (s : node_state) : Prop :=
  forall pose, last_pose_ s = Some pose -> exists m, PubOdom m ∈ tr /\ om_pose m = pose /\
    om_frame_id m = fr_odom r /\ om_child_frame_id m = fr_base r.

(** The effects of a program are justified wherever its steps are taken, from now
    on: [states] and [tr] only grow. *)
Fixpoint good (states : list node_state) (tr : list effect) (pr : prog) : Prop :=
  match pr with
  | Done => True
  | NodeBridge.Step update effects next =>
      forall states' tr' s, states ⊆ states' -> tr ⊆ tr' -> s ∈ states' -> pose_known tr' s ->
        (forall e, e ∈ effects s -> justified states' tr' e) /\
        pose_known (rev (effects s) ++ tr') (update s) /\
        good (update s :: states') (rev (effects s) ++ tr') (next s)
  end.

(** ** Monotonicity *)

Lemma justified_mono states states' tr tr' e :
  states ⊆ states' -> tr ⊆ tr' -> justified states tr e -> justified states' tr' e.
Proof.
  intros Hs Ht. destruct e; cbn; try solve [naive_solver].
  intros (now & s1 & s2 & H1 & H2 & ->). exists now, s1, s2. auto.
Qed.

Lemma pose_known_mono tr tr' s : tr ⊆ tr' -> pose_known tr s -> pose_known tr' s.
Proof. intros Ht Hk pose Hp. destruct (Hk pose Hp) as (m & Hm & ?). exists m. split; [set_solver|done]. Qed.

Lemma good_mono states states' tr tr' pr :
  states ⊆ states' -> tr ⊆ tr' -> good states tr pr -> good states' tr' pr.
Proof.
  intros Hs Ht. destruct pr as [|u es n]; cbn [good]; [done|].
  intros H states2 tr2 s H1 H2. apply H; set_solver.
Qed.

(** ** The program combinators *)

(** Updates that do not bring a pose up. *)
Definition keeps_pose (f : node_state -> node_state) : Prop :=
  forall s, last_pose_ (f s) = last_pose_ s \/ last_pose_ (f s) = None.

Lemma pose_known_keeps f tr s : keeps_pose f -> pose_known tr s -> pose_known tr (f s).
Proof. intros Hf Hk pose Hp. destruct (Hf s) as [E|E]; rewrite E in Hp; [by apply Hk|done]. Qed.

Lemma good_modify states tr f k :
  keeps_pose f ->
  (forall states' tr', states ⊆ states' -> tr ⊆ tr' -> good states' tr' k) ->
  good states tr (modify f k).
Proof.
  intros Hf Hk states' tr' s Hs Ht Hin Hp. split_and!; [set_solver|by apply pose_known_keeps|].
  apply Hk; set_solver.
Qed.

Lemma good_emit states tr e k :
  (forall states' tr', states ⊆ states' -> tr ⊆ tr' ->
     justified states' tr' e /\ good states' (e :: tr') k) ->
  good states tr (emit e k).
Proof.
  intros Hk states' tr' s Hs Ht Hin Hp. destruct (Hk states' tr' Hs Ht) as [Hj Hg].
  cbn [rev app]. split_and!.
  - intros e' He'. apply list_elem_of_singleton in He'. by subst.
  - eapply pose_known_mono; [|exact Hp]. set_solver.
  - eapply good_mono; [| |exact Hg]; set_solver.
Qed.

Lemma good_inspect states tr k :
  (forall states' tr' s, states ⊆ states' -> tr ⊆ tr' -> s ∈ states' -> pose_known tr' s ->
     good states' tr' (k s)) ->
  good states tr (inspect k).
Proof.
  intros Hk states' tr' s Hs Ht Hin Hp. split_and!; [set_solver|done|].
  eapply good_mono; [| |apply (Hk states' tr' s)]; set_solver.
Qed.

Lemma good_publish states tr now k :
  (forall states' tr', states ⊆ states' -> tr ⊆ tr' -> good states' tr' k) ->
  good states tr (publish_robot_state r now k).
Proof.
  intros Hk. apply good_inspect. intros states1 tr1 s1 Hs1 Ht1 Hin1 _.
  intros states2 tr2 s2 Hs2 Ht2 Hin2 Hp2. cbn [rev app]. split_and!.
  - intros e He. apply list_elem_of_singleton in He as ->. cbn.
    exists now, s1, s2. split_and!; [set_solver|done|done].
  - eapply pose_known_mono; [|exact Hp2]. set_solver.
  - apply Hk; set_solver.
Qed.

Lemma good_publish_tf states tr now k :
  tf_broadcaster p = true ->
  (forall states' tr', states ⊆ states' -> tr ⊆ tr' -> good states' tr' k) ->
  good states tr (publish_tf r now k).
Proof.
  intros Htf Hk. apply andb_true_iff in Htf as [Htf1 Htf2]. apply good_inspect.
  intros states1 tr1 s Hs1 Ht1 _ Hp. destruct (last_pose_ s) as [pose|] eqn:Hpose; [|by apply Hk].
  destruct (Hp pose Hpose) as (m & Hm & H1 & H2 & H3).
  apply good_emit. intros states2 tr2 Hs2 Ht2. split; [|apply Hk; set_solver].
  cbn. split_and!; try done. exists m. split; [set_solver|done].
Qed.

(** ** The handlers *)

Lemma SFltb_leb x y : SFltb x y = true -> SFleb x y = true.
Proof. unfold SFltb, SFleb. by destruct (SFcompare x y) as [[]|]. Qed.

Lemma f32_clamped x :
  isfinite x = true -> in_range fmone32 fone32 (clamp_unit (f32_of_f64 x)) = true.
Proof.
  intros Hx. pose proof (f32_of_f64_not_nan x (isfinite_not_nan _ Hx)) as Hn.
  revert Hn. generalize (f32_of_f64 x). intros v Hn. unfold clamp_unit, fmax, fmin, in_range.
  destruct (SFltb v fone32) eqn:E1; [|done].
  destruct (SFltb fmone32 v) eqn:E2; [|done]. by rewrite !SFltb_leb.
Qed.

Lemma clamped_velocity_ok x y z :
  isfinite x = true -> isfinite y = true -> isfinite z = true ->
  velocity_ok (mkVel (clamp_unit (f32_of_f64 x)) (clamp_unit (f32_of_f64 y))
                 (clamp_unit (f32_of_f64 z))).
Proof.
  intros Hx Hy Hz. split.
  { exists x, y, z. split; [|done]. cbn. by rewrite Hx, Hy, Hz. }
  apply f32_clamped in Hx, Hy, Hz. unfold finite_velocity, clamp_velocity.
  cbn [v_vx v_vy v_vyaw vx vy vyaw]. rewrite !fclamp_id by done. split; [|done].
  by rewrite !(in_range_finite_bounds fmone32 fone32).
Qed.

(** Tries the combinators; what remains are the effects to justify. *)
Ltac program :=
  repeat match goal with
  | |- forall _, _ => intros
  | |- good _ _ Done => exact I
  | |- good _ _ (modify _ _) => apply good_modify; [intros ?; cbn; by auto|]
  | |- good _ _ (update_last_error _ _) => apply good_modify; [intros ?; cbn; by auto|]
  | |- good _ _ (publish_robot_state _ _ _) => apply good_publish
  | |- good _ _ (publish_tf _ _ _) => apply good_publish_tf; [done|]
  | |- good _ _ (emit _ _) => apply good_emit; intros; split
  | |- good _ _ (inspect _) => apply good_inspect
  | |- good _ _ (if ?b then _ else _) => destruct b eqn:?
  | |- good _ _ (match ?x with _ => _ end) => destruct x eqn:?
  | |- justified _ _ (Respond _ _) => exact I
  | |- justified _ _ (CallTriggerEstop _) => exact I
  | |- justified _ _ (CallRequestAuthority _) => exact I
  | |- justified _ _ Overflow => exact I
  | |- justified _ _ (respond ?a _) => by destruct a
  end.

Lemma on_imu_good states tr sample now now_tf :
  good states tr (on_imu sin cos p r sample now now_tf).
Proof.
  unfold on_imu. destruct (imu_sample_finite sample) eqn:Hfin; cbn [negb]; [|program].
  destruct (orientation_quaternion _ sample) as [q|] eqn:Hq; [|program].
  apply good_emit. intros states1 tr1 Hs1 Ht1. split; [by exists now, sample, q|].
  apply good_emit. intros states2 tr2 Hs2 Ht2. split; [by exists now, sample|].
  intros states3 tr3 s Hs3 Ht3 Hin Hp. split_and!; [set_solver| |program].
  intros pose [= <-]. exists (imu_odometry sin cos r now sample).
  split_and!; [|done..]. set_solver.
Qed.

Lemma on_status_good states tr linked authority now :
  good states tr (on_status r linked authority now).
Proof.
  intros states1 tr1 s Hs Ht Hin Hp. split_and!; [set_solver|by apply pose_known_keeps; [by left|]|].
  cbn [rev app]. program.
Qed.

Lemma on_lidar_odometry_good states tr o now :
  good states tr (on_lidar_odometry p r o now).
Proof.
  unfold on_lidar_odometry. destruct (lidar_enabled_ r) eqn:Hen; cbn [negb]; [|done].
  destruct (is_near_zero _ _) eqn:Hz; [done|].
  intros states1 tr1 s Hs Ht Hin Hp. split_and!; [set_solver| |].
  - cbn [rev app]. by destruct (observe_odometry _ _ _) as [[]|].
  - cbn [rev app]. destruct (observe_odometry _ _ _) as [[stamp m]|]; [|program].
    apply good_emit. intros states2 tr2 Hs2 Ht2. split.
    { split; [done|]. by exists o. }
    destruct (lidar_tf_broadcaster p) eqn:Htf; [|done]. apply andb_true_iff in Htf as [H1 H2].
    apply good_emit. intros states3 tr3 Hs3 Ht3. split; [|done]. cbn. split_and!; [done|done|].
    eexists. split; [apply Ht3; left|]. by split_and!.
Qed.

Lemma handler_good states tr e : good states tr (handler e).
Proof.
  destruct e; cbn [handler].
  - unfold construct. program.
  - unfold on_state. program.
  - apply on_imu_good.
  - unfold on_sport. program.
  - apply on_status_good.
  - unfold on_event. program.
  - unfold on_cmd_vel. program. bool_prop. by apply clamped_velocity_ok.
  - unfold on_robot_mode. program. by bool_prop.
  - unfold on_joint_commands, reject_joint_command. program.
  - unfold on_emergency_stop. program.
  - unfold on_control_authority. program.
  - unfold on_lidar_frame. program. bool_prop. split; [done|]. by eexists _, _.
  - apply on_lidar_odometry_good.
  - unfold set_scale_verified. program.
Qed.

(** ** Reachable states *)

Record node_inv (s : system) : Prop := {
  ni_threads : Forall (good (past s) (trace s)) (threads s);
  ni_members : members s ∈ past s;
  ni_pose : pose_known (trace s) (members s);
  ni_trace : all_justified (past s) (trace s) }.

Lemma all_justified_mono states states' tr :
  states ⊆ states' -> all_justified states tr -> all_justified states' tr.
Proof.
  intros Hs. induction tr as [|e tr IH]; [done|]. intros [H1 H2]. split; [|by apply IH].
  by eapply justified_mono.
Qed.

Lemma all_justified_app states tr es :
  all_justified states tr -> (forall e, e ∈ es -> justified states tr e) ->
  all_justified states (rev es ++ tr).
Proof.
  revert tr. induction es as [|e es IH]; intros tr Htr Hes; [done|].
  cbn [rev]. rewrite <- app_assoc. apply IH.
  - split; [apply Hes; left|done].
  - intros e' He'. eapply justified_mono; [done| |apply Hes; by right]. set_solver.
Qed.

Lemma start_inv : node_inv start.
Proof. split; cbn; [done|set_solver|by intros ?|done]. Qed.

Lemma step_inv l s s' : node_inv s -> step l s = Some s' -> node_inv s'.
Proof.
  intros [Ht Hm Hp Htr]. destruct l as [e|k]; cbn [step].
  - intros [= <-]. split; cbn; try done. apply List.Forall_app. split; [done|].
    constructor; [apply handler_good|done].
  - destruct (threads s !! k) as [[|update effects next]|] eqn:Hk; try done. intros [= <-].
    assert (Hg : good (past s) (trace s) (NodeBridge.Step update effects next)).
    { rewrite List.Forall_forall in Ht. apply Ht, list_elem_of_In, list_elem_of_lookup. eauto. }
    destruct (Hg (past s) (trace s) (members s)) as (Hj & Hp' & Hg'); try done.
    split; cbn.
    + apply Forall_insert_inv; [|done]. refine (List.Forall_impl _ _ Ht). intros pr Hpr.
      eapply good_mono; [| |exact Hpr]; set_solver.
    + set_solver.
    + done.
    + eapply all_justified_mono; [|by apply all_justified_app]. set_solver.
Qed.

Lemma node_reachable_inv s : reachable s -> node_inv s.
Proof. induction 1 as [|l s s' _ IH Hstep]; [apply start_inv|by eapply step_inv]. Qed.

Lemma all_justified_split states tr1 e tr2 :
  all_justified states (tr1 ++ e :: tr2) -> justified states tr2 e.
Proof. induction tr1 as [|e' tr1 IH]; cbn; [by intros [H _]|]. intros [_ H]. by apply IH. Qed.

Lemma run_node_reachable ls s0 s : reachable s0 -> run ls s0 = Some s -> reachable s.
Proof.
  revert s0. induction ls as [|l ls IH]; intros s0 H0; cbn [run]; [by intros [= <-]|].
  destruct (step l s0) as [s1|] eqn:Hs; [|done]. apply IH. by eapply reach_step.
Qed.

End Node.

(** ** Handlers that run one after the other *)

Section Sequential.

Context (sin cos : spec_float -> spec_float) (p : parameters) (r : resolved).

Fixpoint exec_all (es : list event) (s : node_state) : list effect * node_state :=
  match es with
  | [] => ([], s)
  | e :: es' =>
      let '(tr, s1) := exec (handler sin cos p r e) s in
      let '(tr', s2) := exec_all es' s1 in (tr ++ tr', s2)
  end.

Definition published_state (e : effect) : option RobotStateMsg :=
  match e with PubState m => Some m | _ => None end.

(** The last robot state among effects in order. *)
Definition last_state (tr : list effect) : option RobotStateMsg := list.last (omap published_state tr).

(** What a subscriber must not be misled about. *)
Definition vital (s : node_state) : bool * bool * bool * Z :=
  (status_linked_ s, status_authority_ s, estop_latched_ s, rejected_joint_commands_ s).
Definition vital_message (m : RobotStateMsg) : bool * bool * bool * Z :=
  (rs_sdk_linked m, rs_control_authority m, rs_emergency_stop m, rs_rejected_joint_commands m).

Lemma last_state_app tr tr' :
  last_state (tr ++ tr') = match last_state tr' with Some m => Some m | None => last_state tr end.
Proof.
  unfold last_state. rewrite omap_app. destruct (omap published_state tr') as [|m l] eqn:E.
  - by rewrite app_nil_r.
  - rewrite last_app_cons. by destruct (list.last (m :: l)) eqn:El; [|apply last_None in El].
Qed.

(** A handler that publishes no state leaves the vital members alone; one that
    publishes reports them as they are at its end. *)
Definition reports (pr : prog) (s : node_state) : Prop :=
  let '(tr, s') := exec pr s in
  match last_state tr with
  | Some m => vital_message m = vital s'
  | None => vital s' = vital s
  end.

Lemma handler_reports e s : reports (handler sin cos p r e) s.
Proof.
  unfold reports. destruct e; cbn [handler]; try done.
  - unfold on_state. cbn. destruct (tf_broadcaster p); [|done]. cbn.
    by destruct (last_pose_ s) eqn:E; cbn; rewrite ?E.
  - unfold on_imu. destruct (imu_sample_finite sample); [|done].
    destruct (orientation_quaternion _ _); [|done]. cbn. by destruct (tf_broadcaster p).
  - unfold on_sport. by destruct (forallb _ _).
  - unfold on_status. cbn. destruct (status_changes linked authority s) eqn:Hch; [by destruct linked|].
    unfold status_changes in Hch. apply orb_false_iff in Hch as [H1 H2].
    apply negb_false_iff, Bool.eqb_prop in H1, H2. 
    destruct linked; unfold vital; cbn; by rewrite H1, H2.
  - unfold on_event. by destruct (_ <=? _).
  - unfold on_cmd_vel. cbn. destruct (runtime_ s); [|done]. by destruct (_ || _).
  - unfold on_robot_mode. cbn. destruct (runtime_ s); [|done]. by destruct (bool_decide _).
  - unfold on_emergency_stop. cbn. destruct (runtime_ s); [|done]. by destruct answer.
  - unfold on_control_authority. cbn. destruct (runtime_ s); [|done]. by destruct answer.
  - unfold on_lidar_frame. destruct (lidar_enabled_ r); [|done]. cbn. by destruct (map_cloud _ _ _).
  - unfold on_lidar_odometry. destruct (lidar_enabled_ r); [|done]. destruct (is_near_zero _ _); [done|].
    cbn. destruct (observe_odometry _ _ _) as [[stamp m]|]; [|done]. cbn.
    by destruct (lidar_tf_broadcaster p).
Qed.

Lemma exec_all_reports es s :
  let '(tr, s') := exec_all es s in
  match last_state tr with
  | Some m => vital_message m = vital s'
  | None => vital s' = vital s
  end.
Proof.
  revert s. induction es as [|e es IH]; intros s; [done|]. cbn [exec_all].
  pose proof (handler_reports e s) as H. unfold reports in H.
  destruct (exec _ s) as [tr1 s1]. specialize (IH s1). destruct (exec_all es s1) as [tr2 s2].
  rewrite last_state_app. destruct (last_state tr2); [done|].
  destruct (last_state tr1); congruence.
Qed.

End Sequential.

(** ** Properties *)


(** What crosses from ROS to the safety gate.  Every velocity any handler submits
    comes from a finite twist and lies within the gate's limits, so that the gate
    neither rejects it as not finite nor changes it; every mode name is one the gate knows.
    And nothing valid is lost: a finite twist is submitted, clamped, and a name is
    requested exactly when the gate knows it after trimming and lowering.
    Claim C24. *)
Theorem commands_fit_the_gate sin cos p r s :
  reachable sin cos p r s ->
  (forall v, SubmitVelocity v ∈ trace s -> velocity_ok v) /\
  (forall name, CallRequestMode name ∈ trace s -> find_mode kModes (normalized_mode name) <> None) /\
  (forall m x y z, runtime_ m = true -> isfinite x = true -> isfinite y = true -> isfinite z = true ->
     exec (on_cmd_vel x y z) m =
       ([SubmitVelocity (mkVel (clamp_unit (f32_of_f64 x)) (clamp_unit (f32_of_f64 y))
                           (clamp_unit (f32_of_f64 z)))], m)) /\
  (forall m data, runtime_ m = true ->
     exec (on_robot_mode data) m =
       (match find_mode kModes (trimmed_lower data) with
        | Some _ => [CallRequestMode (trimmed_lower data)] | None => [] end, m)).
Proof.
  intros Hs.
  assert (Hj : forall e, e ∈ trace s -> exists tr, justified sin cos p r (past s) tr e).
  { intros e (tr1 & tr2 & Ht)%list_elem_of_split. exists tr2.
    apply (all_justified_split sin cos p r (past s) tr1).
    rewrite <- Ht. by apply ni_trace, node_reachable_inv. }
  split_and!.
  - intros v Hv. by destruct (Hj _ Hv).
  - intros name Hn. destruct (Hj _ Hn) as [tr Hin]. cbn in Hin. unfold robot_mode_names in Hin.
    rewrite !elem_of_cons, elem_of_nil in Hin. by destruct_or! Hin; subst.
  - intros m x y z Hm Hx Hy Hz. unfold on_cmd_vel. cbn. by rewrite Hm, Hx, Hy, Hz.
  - intros m data Hm. unfold on_robot_mode. cbn. rewrite Hm. cbn.
    generalize (trimmed_lower data). intros name.
    assert (Hiff : name ∈ robot_mode_names <-> find_mode kModes name <> None).
    { unfold robot_mode_names, find_mode, kModes. rewrite !elem_of_cons, elem_of_nil.
      repeat destruct (decide _); naive_solver. }
    destruct (bool_decide _) eqn:E; bool_prop; destruct (find_mode kModes name); naive_solver.
Qed.

(** The published robot state is current: after construction and any sequence of
    completed handlers, the last message published shows the link, the authority,
    the emergency stop and the count of rejected joint commands as the node holds
    them, although it publishes only on changes.  Claim C26. *)
Theorem last_robot_state_is_current sin cos p r now es :
  let '(tr, s) := exec_all sin cos p r (OnConstruct now :: es) fresh_node in
  exists m, last_state tr = Some m /\ vital_message m = vital s.
Proof.
  pose proof (exec_all_reports sin cos p r es) as H. cbn [exec_all].
  destruct (exec (handler sin cos p r (OnConstruct now)) fresh_node) as [tr1 s1] eqn:E1.
  specialize (H s1). destruct (exec_all sin cos p r es s1) as [tr2 s2]. rewrite last_state_app.
  destruct (last_state tr2) as [m|]; [by exists m|]. injection E1 as <- <-.
  eexists. split; [reflexivity|]. rewrite H. reflexivity.
Qed.

(** ** Samples and witnesses *)

Definition same (x : spec_float) : spec_float := x.

Definition sample_parameters : parameters :=
  declared_defaults <| odom_publish_tf := true |> <| odometry_scale_verified := true |>.

Definition sample_resolved : resolved :=
  match accepted sample_parameters with
  | Some r => r
  | None => mkResolved Disabled Disabled Disabled false [] [] [] "" "" "" false "" ""
              (resolve_lidar sample_parameters) (mkOdomLidarParams "" "" false [])
  end.

Definition sample_imu (x : Z) : ImuSample :=
  mkImu 0 (replicate 3 fzero) (replicate 3 fzero) [fzero; fzero; fzero; fone32] fzero fzero fzero
    (f32_of_Z x) fzero.

Definition sample_labels : list label :=
  [Spawn (OnConstruct 1); Run 0; Run 0; Run 0; Spawn (OnImu (sample_imu 3) 2 3);
   Spawn (OnCmdVel (f64_of_Z 7) fzero fzero); Run 1; Run 2; Run 1; Run 2;
   Spawn (OnRobotMode " Stand "); Run 3; Run 3; Run 1; Run 1; Run 1].

Definition sample_system (ls : list label) : system :=
  match run same same sample_parameters sample_resolved ls start with
  | Some s => s
  | None => start
  end.

Lemma sample_system_reachable ls :
  reachable same same sample_parameters sample_resolved (sample_system ls).
Proof.
  unfold sample_system. destruct (run _ _ _ _ ls start) as [s|] eqn:Hr; [|apply reach_start].
  eapply run_node_reachable; [apply reach_start|exact Hr].
Qed.

Definition is_transform (e : effect) : bool := match e with SendTransform _ => true | _ => false end.


Lemma commands_fit_the_gate_witness :
  existsb (fun e => match e with SubmitVelocity _ => true | _ => false end)
    (trace (sample_system sample_labels)) = true /\
  forall v, SubmitVelocity v ∈ trace (sample_system sample_labels) -> velocity_ok v.
Proof.
  split; [vm_compute; reflexivity|].
  apply (commands_fit_the_gate same same sample_parameters sample_resolved
    (sample_system sample_labels)). apply sample_system_reachable.
Defined.

(** ** What the code leaves open

    [publish_robot_state] copies the members under its lock and publishes after
    releasing it: with two threads the message published last may be the older
    one.  Here the link drops while a state callback is publishing, and the last
    robot state on the topic still reports the link. *)
Definition stale_state_labels : list label :=
  [Spawn (OnStatus true true 1); Run 0; Run 0; Run 0;
   Spawn (OnState SdkSnapshot0 2 2); Run 1; Run 1;
   Spawn (OnStatus false false 3); Run 2; Run 2; Run 2; Run 2; Run 1].

Example last_published_state_is_stale :
  let s := sample_system stale_state_labels in
  match trace s with
  | PubState m :: _ => rs_sdk_linked m = true /\ rs_control_authority m = true
  | _ => False
  end /\ status_linked_ (members s) = false /\ status_authority_ (members s) = false.
Proof. vm_compute. done. Qed.

(** The pose is dropped when a link loss is reported, and kept again by an IMU
    sample delivered after the report and before the session is torn down: the
    next session sends it as a transform before it has any sample of its own. *)
Example stale_pose_survives_link_loss :
  let '(tr, s) := exec_all same same sample_parameters sample_resolved
    [OnConstruct 1; OnStatus true true 2; OnImu (sample_imu 3) 3 3; OnStatus false false 4;
     OnImu (sample_imu 7) 5 5] fresh_node in
  let '(tr', _) := exec_all same same sample_parameters sample_resolved
    [OnStatus true true 100; OnState SdkSnapshot0 101 102] s in
  omap (fun e => match e with SendTransform t => Some (tf_stamp t, v3_x (position (tf_pose t)))
                 | _ => None end) tr' = [(102, f64_of_Z 7)].
Proof. vm_compute. done. Qed.

(** Whether transforms are sent is decided once, in the constructor; the robot state
    reads the parameter again.  When it is set to false while the node runs, the state
    reports an unverified scale and the transforms go on. *)
Example scale_flag_and_transforms_disagree :
  let '(tr, _) := exec_all same same sample_parameters sample_resolved
    [OnConstruct 1; OnSetScaleVerified false; OnImu (sample_imu 3) 2 3; OnEvent kRuntimeEventWarning "" 4] fresh_node in
  existsb is_transform tr = true /\
  match last_state tr with Some m => rs_odometry_scale_verified m = false | None => False end.
Proof. vm_compute. done. Qed.
