(* ===== verification/NodeCauses.v ===== *)
(** * NodeCauses: every output of the node belongs to an input of its kind

    A command to the runtime, or a message with the robot's or the LiDAR's data, is
    sent by the handler of one input, whatever handlers run in between. *)

From S2P Require Import Prelude Cxx LidarParse FrameAssembler SdkTypes DeviceClock NodeConfig NodeBridge NodeOutputs.

(** ** Outputs have inputs *)

(** The effects of a program, whatever the members are. *)
Fixpoint allows (P : effect -> Prop) (pr : prog) : Prop :=
  match pr with
  | Done => True
  | NodeBridge.Step update effects next =>
      (forall s e, e ∈ effects s -> P e) /\ forall s, allows P (next s)
  end.

(** The input behind a command of the node or behind a LiDAR message. *)
Definition caused_by (r : resolved) (ev : NodeOutputs.event) (e : effect) : Prop :=
  match e with
  | SubmitVelocity v => exists x y z, ev = OnCmdVel x y z /\ forallb isfinite [x; y; z] = true /\
      v = mkVel (clamp_unit (f32_of_f64 x)) (clamp_unit (f32_of_f64 y)) (clamp_unit (f32_of_f64 z))
  | CallRequestMode name => exists data, ev = OnRobotMode data /\ name = trimmed_lower data
  | CallTriggerEstop b => exists answer now, ev = OnEmergencyStop b answer now
  | NodeBridge.CallRequestAuthority b => exists answer now, ev = OnControlAuthority b answer now
  | PubPoints m => exists f now stamp, ev = OnLidarFrame f now /\
      m = cloud_message (lp_frame_id (lidar_ r)) stamp f
  | PubOdomLidar m => exists o now, ev = OnLidarOdometry o now /\ om_pose m = lidar_pose o (lidar_norm o)
  | PubImu _ | PubOdom _ => exists sample now now_tf, ev = NodeOutputs.OnImu sample now now_tf
  | _ => True
  end.

Lemma allows_emit P e k : P e -> allows P k -> allows P (NodeBridge.emit e k).
Proof. intros He Hk. split; [|done]. intros s e' He'. by apply list_elem_of_singleton in He' as ->. Qed.

Lemma allows_modify P f k : allows P k -> allows P (NodeBridge.modify f k).
Proof. intros Hk. split; [|done]. intros s e He. by apply elem_of_nil in He. Qed.

Lemma allows_inspect P k : (forall s, allows P (k s)) -> allows P (inspect k).
Proof. intros Hk. split; [|done]. intros s e He. by apply elem_of_nil in He. Qed.

Lemma allows_publish P r now k :
  (forall m, P (PubState m)) -> allows P k -> allows P (publish_robot_state r now k).
Proof.
  intros HP Hk. apply allows_inspect. intros s. split; [|done].
  intros s' e He. by apply list_elem_of_singleton in He as ->.
Qed.

Lemma allows_publish_tf P r now k :
  (forall m, P (SendTransform m)) -> allows P k -> allows P (publish_tf r now k).
Proof. intros HP Hk. apply allows_inspect. intros s. destruct (last_pose_ s); [by apply allows_emit|done]. Qed.

(** Through a program, down to its effects. *)
Ltac walk :=
  repeat match goal with
  | |- forall _, _ => intros
  | |- allows _ (let _ := _ in _) => cbv zeta
  | |- allows _ Done => exact Logic.I
  | |- allows _ (NodeBridge.modify _ _) => apply allows_modify
  | |- allows _ (update_last_error _ _) => apply allows_modify
  | |- allows _ (publish_robot_state _ _ _) => apply allows_publish; [done|]
  | |- allows _ (publish_tf _ _ _) => apply allows_publish_tf; [solve [done|cbn; intros; assumption]|]
  | |- allows _ (NodeBridge.emit _ _) => apply allows_emit
  | |- allows _ (inspect _) => apply allows_inspect
  | |- allows _ (if ?b then _ else _) => destruct b eqn:?
  | |- allows _ (match ?x with _ => _ end) => destruct x eqn:?
  | |- caused_by _ _ (respond ?a _) => by destruct a
  end.

Section Runs.
  Context (sin cos : spec_float -> spec_float) (p : parameters) (r : resolved).
  Context (cause : NodeOutputs.event -> effect -> Prop).
  Context (Hcause : forall ev, allows (cause ev) (handler sin cos p r ev)).

(** The inputs of a schedule. *)
Definition received (ls : list NodeOutputs.label) (ev : NodeOutputs.event) : Prop := Spawn ev ∈ ls.

(** Every output and every handler still running belongs to an input. *)
Definition accounted (ins : NodeOutputs.event -> Prop) (s : NodeOutputs.system) : Prop :=
  (forall e, e ∈ NodeOutputs.trace s -> exists ev, ins ev /\ cause ev e) /\
  (forall pr, pr ∈ threads s -> exists ev, ins ev /\ allows (cause ev) pr).

Lemma accounted_step (ins : NodeOutputs.event -> Prop) l s s' :
  (forall ev, l = Spawn ev -> ins ev) -> accounted ins s -> NodeOutputs.step sin cos p r l s = Some s' ->
  accounted ins s'.
Proof.
  intros Hl [H1 H2]. destruct l as [ev|k]; cbn [NodeOutputs.step].
  - intros [= <-]. split; [done|]. intros pr. cbn. rewrite elem_of_app, list_elem_of_singleton.
    intros [Hpr| ->]; [by apply H2|]. exists ev. split; [by apply Hl|apply Hcause].
  - destruct (threads s !! k) as [[|update effects next]|] eqn:Hk; try done. intros [= <-].
    destruct (H2 _ (list_elem_of_lookup_2 _ _ _ Hk)) as (ev & Hin & Heff & Hnext). split; cbn.
    + intros e. rewrite elem_of_app, list_elem_of_In, <- List.in_rev, <- list_elem_of_In. intros [He|He]; [|by apply H1].
      exists ev. split; [done|]. by eapply Heff.
    + intros pr Hpr. apply list_elem_of_lookup in Hpr as [j Hj].
      apply lookup_insert_cases in Hj as [(-> & -> & _)|[_ Hj]].
      * exists ev. by split.
      * apply H2. by eapply list_elem_of_lookup_2.
Qed.

Lemma effects_run ls s :
  NodeOutputs.run sin cos p r ls start = Some s -> accounted (received ls) s.
Proof.
  assert (H : forall ls' s0, (forall l, l ∈ ls' -> l ∈ ls) -> accounted (received ls) s0 ->
    NodeOutputs.run sin cos p r ls' s0 = Some s -> accounted (received ls) s).
  { induction ls' as [|l ls' IH]; intros s0 Hsub H0 Hrun; cbn in Hrun; [by simplify_eq|].
    destruct (NodeOutputs.step sin cos p r l s0) as [s1|] eqn:E; [|done].
    apply (IH s1); [intros l' Hl'; apply Hsub; by right| |done].
    eapply accounted_step; [|exact H0|exact E]. intros ev ->. apply Hsub. by left. }
  apply (H ls start); [done|]. split; cbn; intros ? Hx; by apply elem_of_nil in Hx.
Qed.
End Runs.

(** ** The input behind a command or a LiDAR message *)

Lemma handler_causes sin cos p r ev : allows (caused_by r ev) (handler sin cos p r ev).
Proof.
  destruct ev; cbn [handler].
  - unfold construct. walk.
  - unfold on_state. walk.
  - unfold on_imu. walk; by repeat eexists.
  - unfold on_sport. walk.
  - split; [by intros s e He; apply elem_of_nil in He|]. walk.
  - unfold on_event. walk.
  - unfold on_cmd_vel. walk. eexists _, _, _. split; [done|]. split; [|done].
    cbn. repeat match goal with H : _ || _ = false |- _ => apply orb_false_iff in H as [? ?] end.
    repeat match goal with H : negb _ = false |- _ => apply negb_false_iff in H end.
    by repeat match goal with H : isfinite _ = true |- _ => rewrite H; clear H end.
  - unfold on_robot_mode. walk. by eexists.
  - unfold on_joint_commands, reject_joint_command. walk.
  - unfold on_emergency_stop. walk; by repeat eexists.
  - unfold on_control_authority. walk; by repeat eexists.
  - unfold on_lidar_frame. walk; by repeat eexists.
  - unfold on_lidar_odometry. walk. split; [by intros s e He; apply elem_of_nil in He|].
    walk; by repeat eexists.
  - unfold set_scale_verified. walk.
Qed.

Lemma accounted_run sin cos p r ls s :
  NodeOutputs.run sin cos p r ls start = Some s -> accounted (caused_by r) (received ls) s.
Proof. apply effects_run, handler_causes. Qed.
