(* ===== verification/NodeGraph.v ===== *)
(** * NodeGraph: the publishers, subscriptions and services of [driver_node]

    What [create_graph_interfaces] creates from the configuration, which handler each
    subscription, service and observer callback reaches, and that no handler sends
    through a publisher or a broadcaster that was not created. *)

From S2P Require Import Prelude Cxx LidarParse FrameAssembler SdkTypes DeviceClock NodeConfig NodeBridge NodeOutputs NodeCauses.

(** ** The graph *)

Record topics := mkTopics {
  topics_cmd_vel : string; topics_robot_mode : string; topics_joint_commands : string;
  topics_imu : string; topics_odom : string; topics_robot_state : string }.

Definition declared_topics : topics :=
  mkTopics "/cmd_vel" "/robot_mode" "/joint_commands" "/imu/data" "/odom" "/robot_state".

Inductive message_type :=
  | MImu | MOdometry | MRobotState | MPointCloud2 | MTwist | MString | MJointState.

#[export] Instance message_type_eq_dec : EqDecision message_type.
Proof. solve_decision. Defined.

(** [rclcpp]'s profile for sensors, or reliable with a queue. *)
Inductive qos := SensorDataQoS | Reliable (keep_last : nat) (transient_local : bool).

Record endpoint := mkEndpoint { ep_topic : string; ep_type : message_type; ep_qos : qos }.

Inductive publisher := imu_pub_ | odom_pub_ | robot_state_pub_ | points_pub_ | odom_lidar_pub_.
Inductive subscription := cmd_vel_sub_ | mode_sub_ | joint_sub_.
Inductive service := estop_srv_ | authority_srv_.

(** [None]: the pointer is null. *)
Record graph := mkGraph {
  publishers : publisher -> option endpoint;
  subscriptions : subscription -> endpoint;
  services : service -> string }.

Definition create_publishers (t : topics) (r : resolved) (pub : publisher) : option endpoint :=
  match pub with
  | imu_pub_ => Some (mkEndpoint (topics_imu t) MImu SensorDataQoS)
  | odom_pub_ => Some (mkEndpoint (topics_odom t) MOdometry SensorDataQoS)
  | robot_state_pub_ => Some (mkEndpoint (topics_robot_state t) MRobotState (Reliable 10 true))
  | points_pub_ =>
      if lidar_enabled_ r then Some (mkEndpoint (points_topic_ r) MPointCloud2 SensorDataQoS) else None
  | odom_lidar_pub_ =>
      if lidar_enabled_ r then Some (mkEndpoint (odom_lidar_topic_ r) MOdometry SensorDataQoS) else None
  end.

Definition create_subscriptions (t : topics) (sub : subscription) : endpoint :=
  match sub with
  | cmd_vel_sub_ => mkEndpoint (topics_cmd_vel t) MTwist (Reliable 1 false)
  | mode_sub_ => mkEndpoint (topics_robot_mode t) MString (Reliable 10 false)
  | joint_sub_ => mkEndpoint (topics_joint_commands t) MJointState (Reliable 1 false)
  end.

Definition create_services (srv : service) : string :=
  match srv with estop_srv_ => "/emergency_stop" | authority_srv_ => "/control_authority" end.

Definition create_graph_interfaces (t : topics) (r : resolved) : graph :=
  mkGraph (create_publishers t r) (create_subscriptions t) create_services.

(** ** Inputs *)

(** Messages and requests as ROS delivers them. *)
Inductive message :=
  | Twist (linear_x linear_y angular_z : spec_float)
  | StringMsg (data : string)
  | JointState.

Definition type_of (m : message) : message_type :=
  match m with Twist _ _ _ => MTwist | StringMsg _ => MString | JointState => MJointState end.

(** The callback of a subscription; [None] for a message of another type, which ROS
    does not deliver. *)
Definition subscription_callback (sub : subscription) (m : message) (now : Z) : option NodeOutputs.event :=
  match sub, m with
  | cmd_vel_sub_, Twist x y z => Some (OnCmdVel x y z)
  | mode_sub_, StringMsg data => Some (OnRobotMode data)
  | joint_sub_, JointState => Some (OnJointCommands now)
  | _, _ => None
  end.

(** [answer] is what the future of the runtime gives within the service's timeout. *)
Definition service_callback (srv : service) (data : bool) (answer : option Result) (now : Z) : NodeOutputs.event :=
  match srv with
  | estop_srv_ => OnEmergencyStop data answer now
  | authority_srv_ => OnControlAuthority data answer now
  end.

Inductive observer_call :=
  | ob_state (snapshot : SdkSnapshot)
  | ob_imu (sample : ImuSample)
  | ob_sport (sample : SportSample)
  | ob_status (linked control_authority : bool)
  | ob_event (severity : Z) (message : string).

(** [NodeObserver] forwards; the clock readings are those of the handlers. *)
Definition node_observer (c : observer_call) (now now_tf : Z) : NodeOutputs.event :=
  match c with
  | ob_state snapshot => OnState snapshot now now_tf
  | ob_imu sample => NodeOutputs.OnImu sample now now_tf
  | ob_sport sample => NodeOutputs.OnSport sample
  | ob_status linked authority => NodeOutputs.OnStatus linked authority now
  | ob_event severity message => OnEvent severity message now
  end.

Definition all_subscriptions : list subscription := [cmd_vel_sub_; mode_sub_; joint_sub_].

(** The handlers a message on a topic reaches. *)
Definition take_message (g : graph) (topic : string) (m : message) (now : Z) : list NodeOutputs.event :=
  omap (fun sub =>
    let ep := subscriptions g sub in
    if bool_decide (ep_topic ep = topic) && bool_decide (ep_type ep = type_of m)
    then subscription_callback sub m now else None) all_subscriptions.

(** ** Outputs *)

Definition published_by (e : effect) : option (publisher * message_type) :=
  match e with
  | PubImu _ => Some (imu_pub_, MImu)
  | PubOdom _ => Some (odom_pub_, MOdometry)
  | PubState _ => Some (robot_state_pub_, MRobotState)
  | PubPoints _ => Some (points_pub_, MPointCloud2)
  | PubOdomLidar _ => Some (odom_lidar_pub_, MOdometry)
  | _ => None
  end.

(** What the guards of the handlers promise. *)
Definition guarded (p : parameters) (r : resolved) (e : effect) : Prop :=
  match e with
  | PubPoints _ | PubOdomLidar _ => lidar_enabled_ r = true
  | SendTransform _ => tf_broadcaster p = true
  | SendLidarTransform _ => lidar_tf_broadcaster p = true
  | _ => True
  end.

Lemma handler_guarded sin cos p r ev : allows (guarded p r) (handler sin cos p r ev).
Proof.
  assert (H : forall b : bool, negb b = false -> b = true) by (by intros []).
  destruct ev; cbn [handler].
  - unfold construct. walk; done.
  - unfold on_state. walk; done.
  - unfold on_imu. walk; done.
  - unfold on_sport. walk; done.
  - split; [by intros s e He; apply elem_of_nil in He|]. walk; done.
  - unfold on_event. walk; done.
  - unfold on_cmd_vel. walk; done.
  - unfold on_robot_mode. walk; done.
  - unfold on_joint_commands, reject_joint_command. walk; done.
  - unfold on_emergency_stop. walk; by destruct answer.
  - unfold on_control_authority. walk; by destruct answer.
  - unfold on_lidar_frame. walk; try done; by apply H.
  - unfold on_lidar_odometry. walk. split; [by intros s e He; apply elem_of_nil in He|].
    walk; try done; by apply H.
  - unfold set_scale_verified. walk.
Qed.

(** ** Theorem *)

(** The node never sends through a null pointer, whatever its handlers do in whatever
    interleaving: the publisher of every message sent exists, with the message's type,
    and every transform has its broadcaster.  With the LiDAR disabled there are no
    LiDAR publishers and nothing is sent for them.  A message on a topic reaches the
    velocity handler only as a twist on the velocity topic, and the mode handler only
    as a string on the mode topic.  Claim C29. *)
Theorem no_null_publisher sin cos p r t ls s :
  NodeOutputs.run sin cos p r ls start = Some s ->
  let g := create_graph_interfaces t r in
  (forall e, e ∈ NodeOutputs.trace s ->
     match published_by e with
     | Some (pub, ty) => exists ep, publishers g pub = Some ep /\ ep_type ep = ty
     | None => match e with
               | SendTransform _ => tf_broadcaster p = true
               | SendLidarTransform _ => lidar_tf_broadcaster p = true
               | _ => True
               end
     end) /\
  (lidar_enabled_ r = false ->
     publishers g points_pub_ = None /\ publishers g odom_lidar_pub_ = None /\
     forall e, e ∈ NodeOutputs.trace s -> match e with PubPoints _ | PubOdomLidar _ => False | _ => True end) /\
  (forall topic m now ev, ev ∈ take_message g topic m now ->
     match ev with
     | OnCmdVel x y z => topic = topics_cmd_vel t /\ m = Twist x y z
     | OnRobotMode data => topic = topics_robot_mode t /\ m = StringMsg data
     | OnJointCommands _ => topic = topics_joint_commands t /\ m = JointState
     | _ => False
     end).
Proof.
  intros Hrun g.
  destruct (effects_run sin cos p r (fun _ => guarded p r) (handler_guarded sin cos p r) ls s Hrun) as [Hg _].
  assert (H : forall e, e ∈ NodeOutputs.trace s -> guarded p r e) by (intros e He; by destruct (Hg e He) as (? & _ & ?)).
  split_and!.
  - intros e He. pose proof (H e He) as Hp.
    destruct e; cbn in Hp |- *; try rewrite Hp; try done; by eexists.
  - intros Hoff. cbn. rewrite Hoff. split_and!; try done.
    intros e He. pose proof (H e He) as Hp. destruct e; try done; cbn in Hp; congruence.
  - intros topic m now ev Hev. unfold take_message in Hev. apply list_elem_of_omap in Hev as (sub & _ & Hev).
    destruct (bool_decide _ && _) eqn:Hb; [|done]. bool_prop.
    destruct sub, m; try done; injection Hev as <-; by split.
Qed.

(** ** Witness: a run with a transform and a velocity *)

Lemma no_null_publisher_witness :
  existsb is_transform (NodeOutputs.trace (sample_system sample_labels)) = true /\
  take_message (create_graph_interfaces declared_topics sample_resolved) "/cmd_vel" (Twist fone32 fzero fzero) 0 =
    [OnCmdVel fone32 fzero fzero] /\
  forall e, e ∈ NodeOutputs.trace (sample_system sample_labels) ->
    match e with SendTransform _ => tf_broadcaster sample_parameters = true | _ => True end.
Proof.
  split; [vm_compute; reflexivity|]. split; [vm_compute; reflexivity|].
  assert (Hrun : exists s, NodeOutputs.run same same sample_parameters sample_resolved sample_labels start = Some s /\
    sample_system sample_labels = s).
  { unfold sample_system. eexists. split; [vm_compute; reflexivity|vm_compute; reflexivity]. }
  destruct Hrun as (s & Hrun & Hs). rewrite Hs.
  pose proof (proj1 (no_null_publisher same same sample_parameters sample_resolved declared_topics sample_labels s Hrun)) as H.
  intros e He. specialize (H e He). destruct e; done.
Defined.
