(* ===== verification/NodeCloud.v ===== *)
(** * NodeCloud: the point cloud message of [NodeBridge] read back

    A subscriber reads a [PointCloud2] through its field table.  Reading the
    message of a frame gives the points of the frame. *)

From S2P Require Import Prelude Cxx FloatFacts LidarParse FrameAssembler NodeBridge.

(** ** Reading a message *)

(** The [float] of 32 bits. *)
Definition f32_of_bits (b : Z) : spec_float :=
  let sign := 2 ^ 31 <=? b in
  let e := (b / 2 ^ 23) mod 256 in
  let m := b mod 2 ^ 23 in
  if e =? 0 then
    match m with Zpos m => S754_finite sign m (-149) | _ => S754_zero sign end
  else if e =? 255 then (if m =? 0 then S754_infinity sign else S754_nan)
  else match m + 2 ^ 23 with Zpos m => S754_finite sign m (e - 150) | _ => S754_nan end.

Definition find_field (name : string) (l : list PointField) : option PointField :=
  List.find (fun f => bool_decide (pf_name f = name)) l.

(** The 32 bits of a field of point [i]. *)
Definition read_field (m : PointCloud2) (name : string) (i : nat) : option Z :=
  f ← find_field name (pc_fields m);
  Some (field (pc_data m) (Z.of_nat i * pc_point_step m + pf_offset f) 4).

Definition read_point (m : PointCloud2) (i : nat)
  : option (spec_float * spec_float * spec_float * Z) :=
  x ← read_field m "x" i;
  y ← read_field m "y" i;
  z ← read_field m "z" i;
  c ← read_field m "rgba" i;
  Some (f32_of_bits x, f32_of_bits y, f32_of_bits z, c).

Definition read_cloud (m : PointCloud2) : list (option (spec_float * spec_float * spec_float * Z)) :=
  map (read_point m) (seq 0 (Z.to_nat (pc_width m))).

(** The ranges of the members' types. *)
Definition point_wf (p : LidarPoint) : Prop :=
  valid_binary 24 128 (pt_x p) = true /\ valid_binary 24 128 (pt_y p) = true /\
  valid_binary 24 128 (pt_z p) = true /\ 0 <= rgba p < 2 ^ 32.

(** ** The bits of a float *)

Lemma bits_split (s : bool) e m :
  0 <= e < 256 -> 0 <= m < 2 ^ 23 ->
  let b := (if s then 2 ^ 31 else 0) + e * 2 ^ 23 + m in
  (2 ^ 31 <=? b) = s /\ (b / 2 ^ 23) mod 256 = e /\ b mod 2 ^ 23 = m /\ 0 <= b < 2 ^ 32.
Proof.
  intros He Hm. cbn zeta.
  assert (Hb : (if s then 2 ^ 31 else 0) + e * 2 ^ 23 + m = m + ((if s then 256 else 0) + e) * 2 ^ 23)
    by (destruct s; lia).
  rewrite Hb. split_and!.
  - destruct s; [apply Z.leb_le|apply Z.leb_gt]; lia.
  - rewrite Z.div_add by lia. rewrite Z.div_small by lia. cbn [Z.add].
    destruct s; [|rewrite Z.mod_small; lia].
    replace (0 + (256 + e)) with (e + 1 * 256) by lia. rewrite Z.mod_add by lia.
    rewrite Z.mod_small; lia.
  - rewrite Z.mod_add by lia. apply Z.mod_small. lia.
  - destruct s; lia.
  - destruct s; lia.
Qed.

Lemma canonical_cases m e :
  bounded 24 128 m e = true ->
  (e = -149 /\ Z.pos m < 2 ^ 23) \/ (-149 <= e <= 104 /\ 2 ^ 23 <= Z.pos m < 2 ^ 24).
Proof.
  unfold bounded, canonical_mantissa, fexp, emin. intros H. bool_prop.
  pose proof (digits2_pos_bounds m) as Hd.
  destruct (decide (Z.pos (digits2_pos m) = 24)) as [Hd24|Hd24].
  - right. rewrite Hd24 in Hd. lia.
  - left. assert (Hlt : Z.pos (digits2_pos m) <= 23) by lia. split; [lia|].
    destruct Hd as [_ Hd]. apply Z.lt_le_trans with (1 := Hd). by apply Z.pow_le_mono_r.
Qed.

Lemma f32_bits_round_trip x :
  valid_binary 24 128 x = true -> f32_of_bits (f32_bits x) = x /\ 0 <= f32_bits x < 2 ^ 32.
Proof.
  destruct x as [s|s| |s m e]; cbn [valid_binary]; intros Hv.
  - destruct s; done.
  - destruct s; done.
  - done.
  - unfold f32_bits, f32_of_bits. apply canonical_cases in Hv as [[-> Hm]|[He Hm]].
    + replace (Z.pos m <? 2 ^ 23) with true by lia.
      pose proof (bits_split s 0 (Z.pos m) ltac:(lia) ltac:(lia)) as (H1 & H2 & H3 & H4).
      rewrite Z.mul_0_l, Z.add_0_r in *. by rewrite H1, H2, H3.
    + replace (Z.pos m <? 2 ^ 23) with false by lia.
      pose proof (bits_split s (e + 150) (Z.pos m - 2 ^ 23) ltac:(lia) ltac:(lia)) as (H1 & H2 & H3 & H4).
      rewrite H1, H2, H3. replace (e + 150 =? 0) with false by lia.
      replace (e + 150 =? 255) with false by lia.
      replace (Z.pos m - 2 ^ 23 + 2 ^ 23) with (Z.pos m) by lia.
      split; [f_equal; lia|lia].
Qed.

(** ** The message of a frame *)

Lemma length_point_bytes p : length (point_bytes p) = 16%nat.
Proof. unfold point_bytes. by rewrite !length_app, !length_le_bytes. Qed.

Lemma length_points_bytes pts : length (concat (map point_bytes pts)) = (16 * length pts)%nat.
Proof.
  induction pts as [|p pts IH]; [done|]. cbn [map concat]. rewrite length_app, IH, length_point_bytes.
  cbn [length]. lia.
Qed.

(** The bytes at offset [o] of point [i]. *)
Lemma field_of_point pts i p o n :
  pts !! i = Some p -> 0 <= o -> o + Z.of_nat n <= 16 ->
  field (concat (map point_bytes pts)) (Z.of_nat i * 16 + o) n = field (point_bytes p) o n.
Proof.
  intros Hi Ho Hn. revert i Hi. induction pts as [|q pts IH]; intros [|i] Hi; try done.
  - injection Hi as ->. cbn [map concat]. unfold field. f_equal.
    replace (Z.to_nat (Z.of_nat 0 * 16 + o)) with (Z.to_nat o) by lia.
    rewrite drop_app_le by (rewrite length_point_bytes; lia).
    rewrite take_app_le; [done|]. rewrite length_drop, length_point_bytes. lia.
  - cbn [map concat]. rewrite field_skip by (rewrite length_point_bytes; lia).
    rewrite length_point_bytes, <- (IH i Hi). f_equal. lia.
Qed.

Lemma point_bytes_fields p :
  point_wf p ->
  field (point_bytes p) 0 4 = f32_bits (pt_x p) /\ field (point_bytes p) 4 4 = f32_bits (pt_y p) /\
  field (point_bytes p) 8 4 = f32_bits (pt_z p) /\ field (point_bytes p) 12 4 = rgba p.
Proof.
  intros (Hx & Hy & Hz & Hc). apply f32_bits_round_trip in Hx as [_ Hx], Hy as [_ Hy], Hz as [_ Hz].
  unfold point_bytes. rewrite <- (app_nil_r (le_bytes 4 (rgba p))).
  split_and!; encoded_field; (apply Z.mod_small; done).
Qed.

Lemma read_point_of stamp frame_id f i p :
  fr_points f !! i = Some p -> point_wf p ->
  read_point (cloud_message frame_id stamp f) i = Some (pt_x p, pt_y p, pt_z p, rgba p).
Proof.
  intros Hi Hp. pose proof (point_bytes_fields p Hp) as (H1 & H2 & H3 & H4).
  destruct Hp as (Hx & Hy & Hz & _).
  apply f32_bits_round_trip in Hx as [Hx _], Hy as [Hy _], Hz as [Hz _].
  unfold read_point, read_field.
  change (pc_fields (cloud_message frame_id stamp f)) with point_fields.
  change (pc_point_step (cloud_message frame_id stamp f)) with 16.
  change (pc_data (cloud_message frame_id stamp f)) with (concat (map point_bytes (fr_points f))).
  change (find_field "x" point_fields) with (Some (mkField "x" 0 FLOAT32 1)).
  change (find_field "y" point_fields) with (Some (mkField "y" 4 FLOAT32 1)).
  change (find_field "z" point_fields) with (Some (mkField "z" 8 FLOAT32 1)).
  change (find_field "rgba" point_fields) with (Some (mkField "rgba" 12 UINT32 1)).
  cbn [mbind option_bind pf_offset].
  assert (Hf : forall o, 0 <= o -> o + 4 <= 16 ->
    field (concat (map point_bytes (fr_points f))) (Z.of_nat i * 16 + o) 4 =
    field (point_bytes p) o 4).
  { intros o Ho Ho'. apply field_of_point; [done|done|lia]. }
  rewrite !Hf by lia. by rewrite H1, H2, H3, H4, Hx, Hy, Hz.
Qed.

(** ** Property *)

(** The point cloud message of a frame is consistent and loses nothing: its width
    is the number of points, its rows and its data have the lengths it declares,
    and a subscriber that reads it through its field table gets every point's
    coordinates bit for bit and its first colour word, in order.  Claim C36. *)
Theorem cloud_message_round_trip frame_id stamp f :
  Forall point_wf (fr_points f) -> psize (fr_points f) < 2 ^ 28 ->
  let m := cloud_message frame_id stamp f in
  read_cloud m = map (fun p => Some (pt_x p, pt_y p, pt_z p, rgba p)) (fr_points f) /\
  pc_width m = psize (fr_points f) /\ pc_row_step m = pc_point_step m * pc_width m /\
  psize (pc_data m) = pc_row_step m * pc_height m.
Proof.
  intros Hwf Hn. cbn zeta. unfold psize in *.
  assert (Hw : pc_width (cloud_message frame_id stamp f) = Z.of_nat (length (fr_points f))).
  { cbn. unfold psize. apply wrap_small. lia. }
  split_and!; [| done| |].
  - unfold read_cloud. rewrite Hw, Nat2Z.id. apply list_eq. intros i.
    rewrite !list_lookup_fmap. destruct (fr_points f !! i) as [p|] eqn:Hi.
    + rewrite lookup_seq_lt by (by eapply lookup_lt_Some). cbn [fmap option_fmap option_map].
      f_equal. apply read_point_of; [done|].
      rewrite List.Forall_forall in Hwf. apply Hwf, list_elem_of_In, list_elem_of_lookup. eauto.
    + apply lookup_ge_None in Hi. rewrite lookup_seq_ge by done. done.
  - change (pc_row_step (cloud_message frame_id stamp f)) with
      (wrap 32 (16 * pc_width (cloud_message frame_id stamp f))).
    change (pc_point_step (cloud_message frame_id stamp f)) with 16.
    rewrite Hw. apply wrap_small. lia.
  - change (pc_row_step (cloud_message frame_id stamp f)) with
      (wrap 32 (16 * pc_width (cloud_message frame_id stamp f))).
    change (pc_data (cloud_message frame_id stamp f)) with
      (concat (map point_bytes (fr_points f))).
    change (pc_height (cloud_message frame_id stamp f)) with 1.
    rewrite Hw, wrap_small, length_points_bytes by lia. lia.
Qed.

(** ** Witness *)

Definition sample_point (n : Z) : LidarPoint :=
  mkPoint (f32_of_Z n) (f32_of_f64 (f64_div (f64_of_Z 1) (f64_of_Z (3 + n)))) fzero
    (4278190080 + n) [].

Definition sample_frame : PointCloudFrame := mkFrame 99 2 [sample_point 7; sample_point (-2)].

Lemma cloud_message_round_trip_witness :
  read_cloud (cloud_message "lidar_points" 5 sample_frame) =
    map (fun p => Some (pt_x p, pt_y p, pt_z p, rgba p)) (fr_points sample_frame) /\
  psize (pc_data (cloud_message "lidar_points" 5 sample_frame)) = 32.
Proof.
  destruct (cloud_message_round_trip "lidar_points" 5 sample_frame) as (H1 & H2 & H3 & H4).
  - repeat constructor; vm_compute; done.
  - vm_compute. reflexivity.
  - split; [exact H1|vm_compute; reflexivity].
Defined.
