(* ===== verification/NodeLidar.v ===== *)
(** * NodeLidar: from the LiDAR's sockets to the node's topics

    Both receivers of [LidarDelivery], made from an accepted configuration, and the
    node of [NodeOutputs] together: every row of a published point cloud is the
    decoding of 28 bytes of a datagram of the configured peer, every published
    odometry that of such a datagram. *)

From S2P Require Import Prelude Cxx FloatFacts LidarParse FrameAssembler LidarReceiver LidarDelivery.
From S2P Require Import SdkTypes DeviceClock NodeConfig NodeBridge NodeCloud NodeOutputs NodeCauses NodeLifetime.

(** ** Rows of a cloud *)

Lemma cloud_point_wf data scale p : point_wf (cloud_point data scale p).
Proof.
  pose proof (field_range data (p + 12) 4) as Hc.
  split_and!; try apply f32_of_f64_valid; apply Hc.
Qed.

Lemma read_cloud_lookup stamp frame_id f j q :
  psize (fr_points f) < 2 ^ 28 -> Forall point_wf (fr_points f) ->
  read_cloud (cloud_message frame_id stamp f) !! j = Some q ->
  exists x, fr_points f !! j = Some x /\ q = Some (pt_x x, pt_y x, pt_z x, rgba x).
Proof.
  intros Hn Hwf. unfold read_cloud. rewrite list_lookup_fmap. intros Hq.
  destruct (seq _ _ !! j) as [i|] eqn:Hj; [|done]. injection Hq as <-.
  apply lookup_seq in Hj as [-> Hj]. cbn [pc_width cloud_message] in Hj.
  assert (Hlt : (j < length (fr_points f))%nat).
  { unfold psize in *. unfold wrap in Hj. rewrite Z.mod_small in Hj; lia. }
  destruct (lookup_lt_is_Some_2 _ _ Hlt) as [x Hx]. exists x. split; [done|].
  apply read_point_of; [done|]. rewrite List.Forall_forall in Hwf.
  apply Hwf, list_elem_of_In. by eapply list_elem_of_lookup_2.
Qed.

(** What a subscriber reads for point [o] of a datagram: four bytes each, little
    endian, for x, y, z, as integers scaled once and narrowed, and for the colour. *)
Definition row_of (d : bytes) (L : CloudLayout) (scale : spec_float) (o : nat)
  : option (spec_float * spec_float * spec_float * Z) :=
  let at_ k := cl_pos_at L + kPointBytes * Z.of_nat o + k in
  let coord k := f32_of_f64 (scaled (swrap 32 (field d (at_ k) 4)) scale) in
  Some (coord 0, coord 4, coord 8, field d (at_ 12) 4).

(** The datagram was received from the peer. *)
Definition from_peer (inet_ntop : Z -> string) (expected : string)
    (x : LidarReceiver.system Udp.UdpLidarDatagramSource Udp.reception) (d : bytes) : Prop :=
  exists e, EvReceived e d ∈ events x /\ Udp.from_expected inet_ntop expected e d.

(** A datagram of either layout carries this row for place [j] of a frame. *)
Definition carries (scale : spec_float) (d : bytes) (total : Z) (j : nat)
    (q : option (spec_float * spec_float * spec_float * Z)) : Prop :=
  exists L o, cloud_layout L /\ cloud_format L d = true /\ field d (cl_total_at L) 4 = total /\
    Z.of_nat j = field d (cl_index_at L) 4 + Z.of_nat o /\ Z.of_nat o < field d (cl_posnum_at L) 2 /\
    q = row_of d L scale o.

Lemma parsed_packet_carries config d p j o x :
  config_doubles config = true -> parsed_packet config d = Some p -> pk_points p !! o = Some x ->
  Z.of_nat j = pk_index p + Z.of_nat o ->
  point_wf x /\ carries (point_position_scale config) d (pk_total p) j (Some (pt_x x, pt_y x, pt_z x, rgba x)).
Proof.
  intros Hd Hp Ho Hj. unfold parsed_packet in Hp.
  destruct (ParsePointCloudPacket (buffer_data d) config) as [r|] eqn:Hr; [|done].
  destruct (pk_ok r) eqn:Hok; [|done]. injection Hp as ->.
  destruct (ParsePointCloudPacket_ok _ _ _ Hd Hr Hok) as (d' & L & reason & Hb & HL & Hf & ->).
  assert (d' = d) as -> by (destruct d; [done|]; by injection Hb).
  cbn [pk_points parsed_cloud] in Ho. apply cloud_points_lookup in Ho as [Ho ->].
  pose proof (field_range d (cl_posnum_at L) 2) as Hnum.
  split; [apply cloud_point_wf|]. exists L, o. split_and!; try done; [lia|].
  unfold row_of, cloud_point. cbn [pt_x pt_y pt_z rgba]. by rewrite Z.add_0_r.
Qed.

(** ** The receivers of a node *)

Section Streams.
  Context (valid : string -> bool) (to_string : spec_float -> string).
  Context (inet_pton : string -> option Z) (inet_ntop : Z -> string).
  Context (p : parameters) (r : resolved).
  Context (Hint : Forall in_int32 (integers p)) (Hdoubles : doubles p = true).
  Context (Hvalid : validate_parameters valid to_string p = inr r).

#[local] Instance transport : DatagramSource Udp.UdpLidarDatagramSource Udp.reception :=
  Udp.udp_transport inet_ntop (lp_source_ip (lidar_ r)).

(** A receiver as the node makes it, with any number of other callers. *)
Definition made (w : stream) (o : Udp.opening) (n : nat)
  : LidarReceiver.system Udp.UdpLidarDatagramSource Udp.reception :=
  make_receiver (Udp.open_source inet_pton o (port_of r w) (lp_bind_ip (lidar_ r))
                   (lp_source_ip (lidar_ r))).1 (assembler_config r) n.

Lemma made_ok w o :
  receiver_ok (setup_of r w) (assembler_config r)
    (Udp.open_source inet_pton o (port_of r w) (lp_bind_ip (lidar_ r)) (lp_source_ip (lidar_ r))).1.
Proof.
  pose proof (validated_sound valid to_string p r Hint Hdoubles Hvalid) as Hs.
  split_and!; [apply (so_parser _ _ Hs)|destruct (so_assembler _ _ Hs); lia|].
  destruct (Udp.open_source _ _ _ _ _) as [s opened] eqn:Ho. by apply open_source_spec in Ho as (_ & _ & _ & H).
Qed.

Lemma frame_rows o n x f :
  LidarReceiver.reachable (setup_of r CloudStream) (made CloudStream o n) x ->
  f ∈ frames (events x) ->
  0 < psize (fr_points f) < 2 ^ 28 /\ psize (fr_points f) = fr_total_points f /\
  forall j pt, fr_points f !! j = Some pt -> point_wf pt /\
    exists d, from_peer inet_ntop (lp_source_ip (lidar_ r)) x d /\
      carries (lp_point_position_scale (lidar_ r)) d (fr_total_points f) j
        (Some (pt_x pt, pt_y pt, pt_z pt, rgba pt)).
Proof.
  intros Hr Hf. pose proof (made_ok CloudStream o) as Hok.
  destruct (deliveries_come_from_the_peer inet_ntop (lp_source_ip (lidar_ r)) (setup_of r CloudStream)
    (assembler_config r) _ n x Hok Hr) as [_ Hframes].
  destruct (Hframes f Hf) as [Hsize Hpts].
  pose proof (delivered_frames_fit _ _ _ _ _ f Hok Hr Hf) as Hfit.
  pose proof (validated_sound valid to_string p r Hint Hdoubles Hvalid) as Hs.
  pose proof (so_assembler _ _ Hs) as (Hpar & _). pose proof (so_budget _ _ Hs) as Hbudget.
  split_and!; [lia|nia|done|]. intros j pt Hj.
  destruct (Hpts j pt Hj) as (d & pk & i & Hd & Hpk & _ & <- & Hji & Hi).
  destruct (parsed_packet_carries _ _ _ j _ _ (proj1 Hok) Hpk Hi Hji) as [Hwf Hc].
  split; [done|]. exists d. by split.
Qed.
End Streams.

(** ** Theorem *)

(** From the sockets to the topics: in a node with an accepted configuration, let
    both receivers and the handlers run in any interleaving, the handlers' LiDAR
    inputs being what the receivers delivered.  Every published point cloud has at
    least one row, and a subscriber that reads row [j] through the field table gets,
    bit for bit, the integers at the place for point [j] of a well-formed datagram
    received from the configured peer, scaled and narrowed, where that datagram
    declares a frame of as many points as the message has rows.  Every published
    LiDAR odometry is the pose parsed from a datagram of that peer.  Claim C3. *)
Theorem lidar_topics_come_from_the_peer valid to_string inet_pton inet_ntop p r
    o_cloud o_odom n cloud odom sin cos ls s :
  Forall in_int32 (integers p) -> doubles p = true -> validate_parameters valid to_string p = inr r ->
  let peer := lp_source_ip (lidar_ r) in
  let tr := Udp.udp_transport inet_ntop peer in
  LidarReceiver.reachable (DatagramSource0 := tr) (setup_of r CloudStream)
    (made inet_pton r CloudStream o_cloud n) cloud ->
  LidarReceiver.reachable (DatagramSource0 := tr) (setup_of r OdometryStream)
    (made inet_pton r OdometryStream o_odom n) odom ->
  NodeOutputs.run sin cos p r ls start = Some s ->
  (forall f now, Spawn (OnLidarFrame f now) ∈ ls -> f ∈ frames (events cloud)) ->
  (forall o now, Spawn (OnLidarOdometry o now) ∈ ls -> o ∈ odometries (events odom)) ->
  (forall m, PubPoints m ∈ trace s -> 0 < pc_width m /\
     forall j q, read_cloud m !! j = Some q ->
       exists d, from_peer inet_ntop peer cloud d /\
         carries (lp_point_position_scale (lidar_ r)) d (pc_width m) j q) /\
  (forall m, PubOdomLidar m ∈ trace s ->
     exists d o, from_peer inet_ntop peer odom d /\ parsed_odometry (parse_config r) d = Some o /\
       om_pose m = lidar_pose o (lidar_norm o)).
Proof.
  intros Hint Hdbl Hv peer tr Hcloud Hodom Hnode Hfr Hod.
  destruct (accounted_run sin cos p r ls s Hnode) as [Hcauses _]. split; intros m Hm.
  - destruct (Hcauses _ Hm) as (ev & Hin & f & now & stamp & -> & ->). apply Hfr in Hin.
    destruct (frame_rows valid to_string inet_pton inet_ntop p r Hint Hdbl Hv _ _ _ f Hcloud Hin)
      as (Hn & Hsize & Hrows).
    assert (Hw : pc_width (cloud_message (lp_frame_id (lidar_ r)) stamp f) = psize (fr_points f)).
    { cbn. apply wrap_small. lia. }
    rewrite Hw. split; [lia|]. intros j q Hq.
    apply read_cloud_lookup in Hq as (x & Hx & ->); [|lia|].
    + rewrite Hsize. by apply Hrows.
    + apply List.Forall_forall. intros y Hy%list_elem_of_In.
      apply list_elem_of_lookup in Hy as [i Hi]. by apply (Hrows i y).
  - destruct (Hcauses _ Hm) as (ev & Hin & o & now & -> & ->). apply Hod in Hin.
    pose proof (made_ok valid to_string inet_pton inet_ntop p r Hint Hdbl Hv OdometryStream o_odom) as Hok.
    destruct (deliveries_come_from_the_peer inet_ntop peer (setup_of r OdometryStream)
      (assembler_config r) _ n odom Hok Hodom) as [Hods _].
    destruct (Hods o Hin) as (d & Hd & Hpd). by exists d, o.
Qed.

(** ** A run: two datagrams, one cloud *)

Definition peer_ntop (addr : Z) : string := if addr =? 1 then "10.18.0.100" else "10.0.0.9".
Definition any_pton (address : string) : option Z := Some 0.
Definition bound : Udp.opening := Udp.mkOpening 5 0.

#[local] Instance default_transport : DatagramSource Udp.UdpLidarDatagramSource Udp.reception :=
  Udp.udp_transport peer_ntop (lp_source_ip (lidar_ NodeOutputs.sample_resolved)).

Definition stream_run (w : stream) (ls : list (LidarReceiver.label Udp.reception))
  : LidarReceiver.system Udp.UdpLidarDatagramSource Udp.reception :=
  default (made any_pton NodeOutputs.sample_resolved w bound 2)
    (LidarReceiver.run (setup_of NodeOutputs.sample_resolved w) ls (made any_pton NodeOutputs.sample_resolved w bound 2)).

Lemma stream_run_reachable w ls :
  Forall label_wf ls ->
  LidarReceiver.reachable (setup_of NodeOutputs.sample_resolved w) (made any_pton NodeOutputs.sample_resolved w bound 2) (stream_run w ls).
Proof.
  intros Hls. unfold stream_run.
  destruct (LidarReceiver.run _ ls _) as [s|] eqn:Hr; [|apply LidarReceiver.reach_init].
  eapply run_reachable; [apply LidarReceiver.reach_init|exact Hls|exact Hr].
Qed.

Definition no_frame : PointCloudFrame := mkFrame 0 0 [].

Definition delivered : PointCloudFrame :=
  default no_frame (head (frames (events (stream_run CloudStream sample_session)))).

Definition cloud_inputs : list NodeOutputs.label :=
  [Spawn (OnConstruct 0); Run 0; Run 0; Run 0; Spawn (OnLidarFrame delivered 900); Run 1; Run 1]%nat.

Definition cloud_run : option NodeOutputs.system :=
  NodeOutputs.run same same NodeOutputs.sample_parameters NodeOutputs.sample_resolved cloud_inputs start.

Definition published_cloud : PointCloud2 :=
  cloud_message (lp_frame_id (lidar_ NodeOutputs.sample_resolved)) 900 delivered.

Lemma only_delivered : Forall (fun l => match l with
  | Spawn (OnLidarFrame f _) => f = delivered
  | Spawn (OnLidarOdometry _ _) => False
  | _ => True
  end) cloud_inputs.
Proof. unfold cloud_inputs. repeat (apply List.Forall_cons; [first [exact Logic.I|reflexivity]|]). apply List.Forall_nil. Qed.

Lemma inputs_delivered :
  (forall f now, Spawn (OnLidarFrame f now) ∈ cloud_inputs ->
     f ∈ frames (events (stream_run CloudStream sample_session))) /\
  (forall o now, Spawn (OnLidarOdometry o now) ∈ cloud_inputs ->
     o ∈ odometries (events (stream_run OdometryStream []))).
Proof.
  assert (H0 : delivered ∈ frames (events (stream_run CloudStream sample_session))).
  { apply (list_elem_of_lookup_2 _ 0). vm_compute. reflexivity. }
  assert (H : forall x now, (Spawn (OnLidarFrame x now) ∈ cloud_inputs -> x = delivered)).
  { intros x now Hx. pose proof only_delivered as H. rewrite List.Forall_forall in H.
    apply list_elem_of_In in Hx. exact (H _ Hx). }
  split; intros x now Hx.
  - by rewrite (H x now Hx).
  - pose proof only_delivered as Hall. rewrite List.Forall_forall in Hall.
    apply list_elem_of_In in Hx. destruct (Hall _ Hx).
Qed.

Lemma published_cloud_sent : exists s, cloud_run = Some s /\ PubPoints published_cloud ∈ trace s.
Proof.
  eexists. split; [vm_compute; reflexivity|]. apply (list_elem_of_lookup_2 _ 0). vm_compute. reflexivity.
Qed.

Lemma lidar_topics_come_from_the_peer_witness :
  length (read_cloud published_cloud) = 4%nat /\
  forall j q, read_cloud published_cloud !! j = Some q ->
    exists d, from_peer peer_ntop "10.18.0.100" (stream_run CloudStream sample_session) d /\
      carries (f64_decimal 1 3) d 4 j q.
Proof.
  split; [vm_compute; reflexivity|]. destruct published_cloud_sent as (s & Hrun & Hm).
  refine (proj2 (proj1 (lidar_topics_come_from_the_peer any_address no_text any_pton peer_ntop
    NodeOutputs.sample_parameters NodeOutputs.sample_resolved bound bound 2
    (stream_run CloudStream sample_session) (stream_run OdometryStream []) same same cloud_inputs s
    _ _ _ _ _ _ _ _) published_cloud Hm)).
  - unfold NodeOutputs.sample_parameters, declared_defaults, integers, in_int32. cbn. repeat constructor; lia.
  - vm_compute. reflexivity.
  - vm_compute. reflexivity.
  - apply stream_run_reachable, sample_session_wf.
  - apply stream_run_reachable. constructor.
  - exact Hrun.
  - exact (proj1 inputs_delivered).
  - exact (proj2 inputs_delivered).
Defined.
