(* ===== verification/RuntimeWorker.v ===== *)
(** * RuntimeWorker: the worker thread of [direct_driver_runtime.cpp]

    The worker is a program in a small state monad over [world].  Everything
    the rest of the system does is an arbitrary sequence [oracle] of
    environment steps: the worker takes one whenever another thread may run (a
    lock acquisition, a controller or queue access, a clock reading, a wait,
    and before and during an SDK call), and the step runs any actions of other
    threads, lets time pass, and supplies the answer of the call in progress.
    An SDK call may throw; an exception that leaves [worker_main] ends the
    process.  Loops carry fuel. *)

From S2P Require Import Prelude Cxx ThreadSafeQueue RobotController NetworkPreflight.
From S2P Require Import SdkTypes RuntimeState.

(** ** The monad *)

Inductive outcome (A : Type) :=
  | Ret (a : A)
  | Throw (what : option string)     (* [None]: not a [std::exception] *)
  | Undefined                        (* a null promise is dereferenced *)
  | OutOfFuel.
Arguments Ret {A} _.
Arguments Throw {A} _.
Arguments Undefined {A}.
Arguments OutOfFuel {A}.

Definition M (A : Type) : Type := world -> outcome A * world.

Definition ret {A} (a : A) : M A := fun w => (Ret a, w).

Definition bind {A B} (m : M A) (k : A -> M B) : M B := fun w =>
  match m w with
  | (Ret a, w') => k a w'
  | (Throw what, w') => (Throw what, w')
  | (Undefined, w') => (Undefined, w')
  | (OutOfFuel, w') => (OutOfFuel, w')
  end.

Definition try_catch {A} (m : M A) (handler : option string -> M A) : M A := fun w =>
  match m w with (Throw what, w') => handler what w' | r => r end.

Definition out_of_fuel {A} : M A := fun w => (OutOfFuel, w).
Definition undefined {A} : M A := fun w => (Undefined, w).

(** Worker-private state, no other thread looks at it. *)
Definition gets {A} (f : world -> A) : M A := fun w => (Ret (f w), w).
Definition modify (f : world -> world) : M unit := fun w => (Ret tt, f w).

Declare Scope rt_scope.
Delimit Scope rt_scope with rt.
Notation "x <- m ;; k" := (bind m (fun x => k))
  (at level 100, m at next level, right associativity) : rt_scope.
Notation "m ;; k" := (bind m (fun _ => k))
  (at level 100, right associativity) : rt_scope.
#[local] Open Scope rt_scope.

(** ** The environment *)

Inductive sdk_answer := Answer (r : Result) | Raise (what : option string).

Record env_step := mkStep {
  es_actions : list (Z * action);    (* each after a delay *)
  es_advance : Z;
  es_answer : sdk_answer;
  es_snapshot : SdkSnapshot;
  es_network : NetworkDecision }.

Section Worker.
  Context (config : RuntimeConfig) (observer : option (observer_event -> bool)).
  Context (oracle : nat -> env_step).

Definition advance (d : Z) (w : world) : world := w <| clock := clock w + Z.max 0 d |>.

Definition run_actions (held : bool) (l : list (Z * action)) (w : world) : world :=
  fold_left (fun w da => run_action observer held da.2 (advance da.1 w)) l w.

(** The calls of [stop] that were blocked: they go on once the worker gives the lock back. *)
Definition woken_stops (held : bool) (w : world) : list (Z * action) :=
  if held then [] else replicate (stops_waiting w) (0, ActStop).

Definition next_position (held : bool) (w : world) : world :=
  w <| position := S (position w) |> <| stops_waiting := if held then stops_waiting w else 0%nat |>.

Definition run_step (held : bool) (w : world) : world :=
  let s := oracle (position w) in
  advance (es_advance s) (run_actions held (woken_stops held w ++ es_actions s) (next_position held w)).

Definition yield (held : bool) : M unit := modify (run_step held).

(** One access to shared state, atomic under its own lock. *)
Definition atomic {A} (held : bool) (f : world -> A * world) : M A :=
  yield held ;; (fun w => let '(a, w') := f w in (Ret a, w')).

Definition clock_now : M Z := atomic false (fun w => (clock w, w)).

Definition controller_op (held : bool) (f : Z -> controller -> controller) : M unit :=
  atomic held (fun w => (tt, set_controller (f (clock w)) w)).

Definition mode_transition_pending : M bool :=
  atomic false (fun w => (RobotController.mode_transition_pending (controller_ (rt w)), w)).

Definition try_pop (held : bool) : M (option Command) :=
  atomic held (fun w =>
    let '(c, q) := ThreadSafeQueue.try_pop (command_queue_ (rt w)) in
    (c, set_rt (fun r => r <| command_queue_ := q |>) w)).

(** One call through [sdk_]: other threads may run before it is entered and
    while it runs. *)
Definition sdk_call (c : SdkCall) : M env_step :=
  yield false ;; modify (emit (EvSdk c)) ;;
  (fun w =>
     let s := oracle (position w) in
     let w' := run_step false w in
     match es_answer s with Answer _ => (Ret s, w') | Raise what => (Throw what, w') end).

Definition step_result (s : env_step) : Result :=
  match es_answer s with Answer r => r | Raise _ => failure kSdkResFailed "" end.

Definition sdk (c : SdkCall) : M Result :=
  s <- sdk_call c ;; modify (emit (EvDone c (step_result s))) ;; ret (step_result s).

(** [deinit] is [noexcept]. *)
Definition sdk_deinit : M unit := yield false ;; modify (emit (EvSdk CallDeinit)) ;; yield false.

Definition sdk_snapshot : M SdkSnapshot :=
  s <- sdk_call CallSnapshot ;; modify (emit (EvReported (es_snapshot s))) ;; ret (es_snapshot s).

Definition preflight_check (expected : NetworkExpectation) : M NetworkDecision :=
  yield false ;; modify (emit (EvPreflight expected)) ;;
  (fun w =>
     let s := oracle (position w) in
     let w' := run_step false w in
     match es_answer s with
     | Answer _ => (Ret (es_network s), emit (EvNetwork (es_network s)) w')
     | Raise what => (Throw what, w')
     end).

Definition notify (severity : Z) (message : string) : M unit :=
  modify (notify_event observer severity message).

Definition answer (p : nat) (r : Result) : M unit := modify (set_promise p r).

(** [condition_variable::wait_until] with a predicate, called with the lock
    just taken; it returns with the lock held. *)
Definition wait_until (deadline : Z) (pred : world -> bool) : M bool := fun w =>
  if pred w then (Ret true, w)
  else
    let w := run_step false w in
    if pred w then (Ret true, w)
    else
      let w := w <| clock := Z.max (clock w) deadline |> in
      (Ret (pred w), w).

(** ** Small members *)

Definition stopping : M bool := atomic false (fun w => (stop_requested_ (rt w), w)).

Definition next_backoff (current : Z) : Z :=
  let next := current * 2 in
  let next := if reconnect_max_delay_ms config <? next then reconnect_max_delay_ms config else next in
  Z.max next current.

Definition wait_backoff (current : Z) : M Z :=
  yield false ;;
  start <- gets clock ;;
  _ <- wait_until (start + current) (fun w => stop_requested_ (rt w)) ;;
  ret (next_backoff current).

Definition deactivate_transition : M unit :=
  modify (set_rt (fun r => r <| mode_transition_ := (mode_transition_ r) <| mt_active := false |> |>)).

Definition fail_mode_transition (held : bool) (result : Result) (complete_controller : bool)
  : M unit :=
  t <- gets (fun w => mode_transition_ (rt w)) ;;
  if negb (mt_active t) then ret tt
  else
    deactivate_transition ;;
    (if complete_controller then controller_op held (fun now => complete_mode_transition now false)
     else ret tt) ;;
    answer (mt_promise t) result.

Definition settle_mode_transition_timeout : M unit :=
  t <- gets (fun w => mode_transition_ (rt w)) ;;
  deactivate_transition ;;
  controller_op false (fun now => complete_mode_transition now false) ;;
  answer (mt_promise t) (failure kSdkResTimeout
    "mode transition timed out before reaching the stable sport status").

Definition check_mode_transition (snapshot : SdkSnapshot) (now : Z) : M unit :=
  t <- gets (fun w => mode_transition_ (rt w)) ;;
  if negb (mt_active t) then ret tt
  else
    pending <- mode_transition_pending ;;
    if negb pending then
      fail_mode_transition false
        (failure kSdkResFailed "mode transition aborted by the safety gate") false
    else if sport_status snapshot =? stable_status t then
      deactivate_transition ;;
      controller_op false (fun now => complete_mode_transition now true) ;;
      answer (mt_promise t) (ok "mode transition reached the stable sport status")
    else if mt_deadline t <=? now then settle_mode_transition_timeout
    else ret tt.

Definition send_zero_and_damping : M bool :=
  move_result <- sdk (CallMove Velocity0 (sdk_call_timeout_ms config)) ;;
  (if negb (success move_result) then
     notify kRuntimeEventWarning ("zero-velocity move failed: " +:+ res_message move_result)
   else ret tt) ;;
  mode_result <- sdk (CallSetMode 0xA101 (sdk_call_timeout_ms config)) ;;
  (if negb (success mode_result) then
     notify kRuntimeEventWarning ("damping mode command failed: " +:+ res_message mode_result)
   else ret tt) ;;
  (if success move_result then modify (set_rt (fun r => r <| last_sent_nonzero_ := false |>))
   else ret tt) ;;
  ret (success move_result && success mode_result).

(** Link, authority and no latched drop, read under the lock. *)
Definition actuation_allowed : M bool :=
  atomic false (fun w =>
    (sdk_linked_ (rt w) && control_authority_ (rt w) && negb (link_drop_latched_ (rt w)), w)).

Definition actuate_stop_if_authorized : M unit :=
  allowed <- actuation_allowed ;;
  if negb allowed then ret tt else _ <- send_zero_and_damping ;; ret tt.

(** The loop that empties the command queue and answers every command. *)
Fixpoint drain_commands (fuel : nat) (held : bool) (result : Result) : M unit :=
  match fuel with
  | O => out_of_fuel
  | S fuel' =>
      command <- try_pop held ;;
      match command with
      | None => ret tt
      | Some c =>
          (match kind c with
           | RequestMode => controller_op held (fun now => complete_mode_transition now false)
           | RequestAuthority => ret tt
           end) ;;
          answer (promise c) result ;;
          drain_commands fuel' held result
      end
  end.

Definition handle_estop_if_requested (fuel : nat) : M unit :=
  taken <- atomic false (fun w =>
    if negb (estop_engaged_ (rt w)) then (None, w)
    else (Some (estop_promise_ (rt w)),
          set_rt (fun r => r <| estop_engaged_ := false |> <| estop_promise_ := None |>) w)) ;;
  match taken with
  | None => ret tt
  | Some promise =>
      fail_mode_transition false
        (failure kSdkResFailed "mode transition aborted by the emergency stop") false ;;
      controller_op false (fun now => complete_mode_transition now false) ;;
      drain_commands fuel false
        (failure kSdkResFailed "command aborted by the emergency stop") ;;
      allowed <- actuation_allowed ;;
      result <-
        (if negb allowed then
           ret (failure kSdkResWithoutAuth
             "no SDK link or control authority; emergency stop latched locally only")
         else
           sent <- send_zero_and_damping ;;
           ret (if (sent : bool)
                then ok "emergency stop executed: zero velocity and damping mode"
                else failure kSdkResFailed
                  "emergency stop latched but the zero-velocity or damping command failed")) ;;
      match promise with
      | Some p => answer p result
      | None => undefined
      end
  end.

(** ** Commands *)

Definition execute_authority (command : Command) : M unit :=
  result <- sdk (CallRequestAuthority (authority_sdk command) (sdk_call_timeout_ms config)) ;;
  answer (promise command) result.

(** The zero that precedes a mode switch; [false] ends the command. *)
Definition zero_before_mode (command : Command) : M bool :=
  moving <- gets (fun w => last_sent_nonzero_ (rt w)) ;;
  if negb moving then ret true
  else
    zero_result <- sdk (CallMove Velocity0 (sdk_call_timeout_ms config)) ;;
    if negb (success zero_result) then
      controller_op false (fun now => complete_mode_transition now false) ;;
      answer (promise command) (failure (code zero_result)
        ("zero-velocity before mode switch failed: " +:+ res_message zero_result)) ;;
      ret false
    else
      modify (set_rt (fun r => r <| last_sent_nonzero_ := false |>)) ;; ret true.

Definition execute_mode (command : Command) : M unit :=
  fail_mode_transition false
    (failure kSdkResFailed "mode transition superseded by a newer mode command") false ;;
  go <- zero_before_mode command ;;
  if negb go then ret tt
  else
    set_result <- sdk (CallSetMode (mode command) (sdk_call_timeout_ms config)) ;;
    if negb (success set_result) then
      controller_op false (fun now => complete_mode_transition now false) ;;
      answer (promise command) (failure (code set_result)
        ("set_mode rejected: " +:+ res_message set_result))
    else
      let stable := stable_status_for (mode command) in
      if stable =? 0 then
        controller_op false (fun now => complete_mode_transition now false) ;;
        answer (promise command) (failure kSdkResInvalidParam
          "no stable sport status is mapped for the requested mode")
      else
        now <- clock_now ;;
        modify (set_rt (fun r =>
          r <| mode_transition_ :=
                 mkTransition true stable (now + mode_timeout_ms config) (promise command) |>)).

Definition command_exception (command : Command) (what : option string) : M unit :=
  t <- gets (fun w => mode_transition_ (rt w)) ;;
  (if mt_active t then
     deactivate_transition ;;
     answer (mt_promise t) (failure kSdkResFailed
       "mode transition aborted by a command execution exception")
   else ret tt) ;;
  controller_op false (fun now => complete_mode_transition now false) ;;
  answer (promise command)
    (match what with
     | Some what => failure kSdkResFailed ("command execution failed: " +:+ what)
     | None => failure kSdkResFailed "command execution failed with an unknown exception"
     end).

Definition execute_command (command : Command) : M unit :=
  try_catch
    (match kind command with
     | RequestAuthority => execute_authority command
     | RequestMode => execute_mode command
     end)
    (command_exception command).

(** ** Sessions *)

Definition subscribe_telemetry : M Result :=
  imu <- sdk (CallSubscribeImu (imu_freq config) (sdk_call_timeout_ms config)) ;;
  if negb (success imu) then ret imu
  else
    sport <- sdk (CallSubscribeSport (sport_freq config) (sdk_call_timeout_ms config)) ;;
    if negb (success sport) then ret sport
    else if enable_lidar_stream config && negb (bool_decide (lidar_freq config = Disabled)) then
      lidar <- sdk (CallSubscribeLidar (lidar_freq config) (sdk_call_timeout_ms config)) ;;
      if negb (success lidar) then ret lidar else ret (ok "success")
    else ret (ok "success").

Definition invalidate_session : M unit :=
  modify (set_rt (fun r => r <| driver_ready_armed_ := false |>)) ;;
  atomic false (fun w => (tt, set_rt (fun r =>
    r <| sdk_linked_ := false |> <| control_authority_ := false |>
      <| last_snapshot_sport_status_ := 0 |> <| last_snapshot_error_code_ := 0 |>) w)) ;;
  controller_op false (fun now => update_robot_state now default_status) ;;
  controller_op false invalidate_connection.

(** The caller holds [wake_mutex_]. *)
Definition fail_all_pending_locked (fuel : nat) : M unit :=
  r <- gets rt ;;
  (if estop_engaged_ r then
     modify (set_rt (fun r => r <| estop_engaged_ := false |>)) ;;
     match estop_promise_ r with
     | Some p =>
         answer p (failure kSdkResNotInit
           "connection lost during the emergency stop; the software latch remains set") ;;
         modify (set_rt (fun r => r <| estop_promise_ := None |>))
     | None => ret tt
     end
   else ret tt) ;;
  fail_mode_transition true
    (failure kSdkResNotInit "connection lost during a mode transition") false ;;
  drain_commands fuel true (failure kSdkResNotInit "runtime disconnected; command dropped").

Record loop_state := mkLoop {
  consecutive_heartbeat_failures : Z;
  next_heartbeat : Z; next_state_poll : Z; next_motion_refresh : Z }.

(** The two identical exits of the loop, with the lock held on entry: [true]
    when the session is over. *)
Definition end_if_requested : M bool :=
  r <- gets rt ;;
  if stop_requested_ r || link_drop_latched_ r then
    (if stop_requested_ r then actuate_stop_if_authorized else ret tt) ;; ret true
  else ret false.

Definition wake_predicate (w : world) : bool :=
  let r := rt w in
  stop_requested_ r || link_drop_latched_ r || (0 <? size (command_queue_ r))%nat ||
  estop_engaged_ r || motion_refresh_due_ r ||
  (mt_active (mode_transition_ r) && (mt_deadline (mode_transition_ r) <=? clock w)).

Definition wait_for_work (ls : loop_state) : M bool :=
  yield false ;;
  t <- gets (fun w => mode_transition_ (rt w)) ;;
  let deadline := Z.min (Z.min (next_heartbeat ls) (next_state_poll ls)) (next_motion_refresh ls) in
  let deadline :=
    if mt_active t && (mt_deadline t <? deadline) then mt_deadline t else deadline in
  woke <- wait_until deadline wake_predicate ;;
  if (woke : bool) then end_if_requested else ret false.

(** Settles a transition that the controller has dropped. *)
Definition abort_orphan_transition : M unit :=
  t <- gets (fun w => mode_transition_ (rt w)) ;;
  if mt_active t then
    pending <- mode_transition_pending ;;
    if negb pending then
      fail_mode_transition false
        (failure kSdkResFailed "mode transition aborted by the safety gate") true
    else ret tt
  else ret tt.

Definition take_motion_request : M bool :=
  atomic false (fun w =>
    (motion_refresh_due_ (rt w), set_rt (fun r => r <| motion_refresh_due_ := false |>) w)).

(** [None] ends the session. *)
Definition heartbeat_tick (now : Z) (ls : loop_state) : M (option loop_state) :=
  if next_heartbeat ls <=? now then
    result <- sdk (CallHeartbeat (heartbeat_call_timeout_ms config)) ;;
    let beat f := ret (Some (mkLoop f (now + heartbeat_period config) (next_state_poll ls)
                               (next_motion_refresh ls))) in
    if success result then beat 0
    else
      let failures := consecutive_heartbeat_failures ls + 1 in
      if Z.max 1 (heartbeat_max_failures config) <=? failures then
        notify kRuntimeEventError "sdk heartbeat failed; ending the connection" ;; ret None
      else beat failures
  else ret (Some ls).

Definition nonzero (v : Velocity) : bool :=
  negb (SFeqb (v_vx v) fzero) || negb (SFeqb (v_vy v) fzero) || negb (SFeqb (v_vyaw v) fzero).

Definition read_tick : M VelocityDecision :=
  atomic false (fun w =>
    (velocity_for_tick (clock w) (controller_ (rt w)),
     emit (EvTick (clock w) (controller_ (rt w))) w)).

Definition tick_target (tick : VelocityDecision) : Velocity :=
  if vd_accepted tick
  then mkVel (vx (vd_value tick)) (vy (vd_value tick)) (vyaw (vd_value tick))
  else Velocity0.

Definition motion_tick (requested : bool) (now : Z) (ls : loop_state) : M loop_state :=
  if requested || (next_motion_refresh ls <=? now) then
    tick <- read_tick ;;
    let target := tick_target tick in
    let target_nonzero := nonzero target in
    last_sent <- gets (fun w => last_sent_nonzero_ (rt w)) ;;
    (if target_nonzero || (last_sent : bool) then
       move_result <- sdk (CallMove target (sdk_call_timeout_ms config)) ;;
       if negb (success move_result) then
         notify kRuntimeEventWarning
           ("velocity move rejected by the SDK: " +:+ res_message move_result)
       else modify (set_rt (fun r => r <| last_sent_nonzero_ := target_nonzero |>))
     else ret tt) ;;
    ret (mkLoop (consecutive_heartbeat_failures ls) (next_heartbeat ls) (next_state_poll ls)
           (now + motion_refresh_period config))
  else ret ls.

Definition apply_snapshot (snapshot : SdkSnapshot) : M unit :=
  atomic false (fun w => (tt, set_rt (fun r =>
    r <| last_snapshot_sport_status_ := sport_status snapshot |>
      <| last_snapshot_error_code_ := error_code snapshot |>) w)) ;;
  atomic true (fun w => (tt, set_controller (update_robot_state (clock w)
    (mkStatus (sdk_linked_ (rt w)) (control_authority_ (rt w)) (sport_status snapshot)
       (error_code snapshot))) w)).

Definition arm_readiness (snapshot : SdkSnapshot) : M unit :=
  armed <- gets (fun w => driver_ready_armed_ (rt w)) ;;
  if sn_sdk_linked snapshot && negb armed then
    modify (set_rt (fun r => r <| driver_ready_armed_ := true |>)) ;;
    controller_op false (fun now => set_driver_ready now true)
  else ret tt.

Definition state_poll (now : Z) (ls : loop_state) : M loop_state :=
  if next_state_poll ls <=? now then
    snapshot <- sdk_snapshot ;;
    apply_snapshot snapshot ;;
    abort_orphan_transition ;;
    arm_readiness snapshot ;;
    check_mode_transition snapshot now ;;
    modify (dispatch_observer_safely observer (OnState snapshot)) ;;
    ret (mkLoop (consecutive_heartbeat_failures ls) (next_heartbeat ls)
           (now + state_poll_period config) (next_motion_refresh ls))
  else ret ls.

Definition settle_expired (now : Z) : M unit :=
  t <- gets (fun w => mode_transition_ (rt w)) ;;
  if mt_active t && (mt_deadline t <=? now) then settle_mode_transition_timeout else ret tt.

Definition next_command : M unit :=
  command <- try_pop false ;;
  match command with Some c => execute_command c | None => ret tt end.

(** One iteration of the connected loop; [None] ends the session. *)
Definition loop_body (fuel : nat) (ls : loop_state) : M (option loop_state) :=
  ended <- wait_for_work ls ;;
  if (ended : bool) then ret None
  else
    now <- clock_now ;;
    yield false ;;
    ended <- end_if_requested ;;
    if (ended : bool) then ret None
    else
      handle_estop_if_requested fuel ;;
      abort_orphan_transition ;;
      next_command ;;
      requested <- take_motion_request ;;
      beat <- heartbeat_tick now ls ;;
      match beat with
      | None => ret None
      | Some ls =>
          ls <- motion_tick requested now ls ;;
          settle_expired now ;;
          ls <- state_poll now ls ;;
          ret (Some ls)
      end.

Fixpoint connected_loop (fuel : nat) (ls : loop_state) : M unit :=
  match fuel with
  | O => out_of_fuel
  | S fuel' =>
      next <- loop_body fuel ls ;;
      match next with
      | None => ret tt
      | Some ls => connected_loop fuel' ls
      end
  end.

Definition run_connected_loop (fuel : nat) : M unit :=
  session_start <- clock_now ;;
  modify (set_rt (fun r => r <| last_sent_nonzero_ := false |>)) ;;
  connected_loop fuel
    (mkLoop 0 (session_start + heartbeat_period config)
       (session_start + state_poll_period config)
       (session_start + motion_refresh_period config)).

Definition expectation : NetworkExpectation :=
  mkExpectation (cfg_interface config) (cfg_host_address config) (cfg_robot_address config).

(** A failed attempt: report, tear down, wait. *)
Definition failed_attempt (message : string) (backoff : Z) : M Z :=
  notify kRuntimeEventWarning message ;;
  invalidate_session ;; sdk_deinit ;; wait_backoff backoff.

(** The connected session, from the [connected_] flag to its teardown. *)
Definition session (fuel : nat) : M unit :=
  atomic false (fun w => (tt, set_rt (fun r => r <| connected_ := true |>) w)) ;;
  notify kRuntimeEventInfo "connected" ;;
  run_connected_loop fuel ;;
  atomic false (fun w => (tt, set_rt (fun r => r <| connected_ := false |>) w)) ;;
  fail_all_pending_locked fuel ;;
  invalidate_session ;;
  sdk_deinit.

(** One iteration of [worker_main]'s loop after its [stopping] test; [None]
    returns from [worker_main], otherwise the next backoff. *)
Definition attempt (fuel : nat) (backoff : Z) : M (option Z) :=
  decision <- preflight_check expectation ;;
  if negb (ready decision) then
    b <- failed_attempt ("network preflight failed: " +:+ message decision) backoff ;; ret (Some b)
  else
    stop1 <- stopping ;;
    if (stop1 : bool) then ret None
    else
      atomic false (fun w => (tt, set_rt (fun r => r <| link_drop_latched_ := false |>) w)) ;;
      init_result <- sdk (CallInit (init_timeout_ms config)) ;;
      if negb (success init_result) then
        b <- failed_attempt ("sdk init failed: " +:+ res_message init_result) backoff ;; ret (Some b)
      else
        stop2 <- stopping ;;
        if (stop2 : bool) then sdk_deinit ;; ret None
        else
          subscribe_result <- subscribe_telemetry ;;
          if negb (success subscribe_result) then
            b <- failed_attempt ("sdk subscription failed: " +:+ res_message subscribe_result) backoff ;;
            ret (Some b)
          else
            stop3 <- stopping ;;
            if (stop3 : bool) then sdk_deinit ;; ret None
            else
              session fuel ;;
              stop4 <- stopping ;;
              if (stop4 : bool) then ret None
              else
                notify kRuntimeEventError "connection lost; reconnecting" ;;
                b <- wait_backoff (reconnect_initial_delay_ms config) ;;
                ret (Some b).

Fixpoint worker_loop (fuel : nat) (backoff : Z) : M unit :=
  match fuel with
  | O => out_of_fuel
  | S fuel' =>
      stop <- stopping ;;
      if (stop : bool) then ret tt
      else
        next <- attempt fuel backoff ;;
        match next with
        | None => ret tt
        | Some backoff => worker_loop fuel' backoff
        end
  end.

Definition worker_main (fuel : nat) : M unit :=
  worker_loop fuel (reconnect_initial_delay_ms config).

End Worker.
