(* ===== verification/RuntimeSamples.v ===== *)
(** * RuntimeSamples: concrete environments of the runtime

    The runs the witnesses evaluate: a configuration, the answers of a healthy
    SDK, and scripts of what other threads do at which environment step. *)

From S2P Require Import Prelude Cxx ThreadSafeQueue RobotController NetworkPreflight.
From S2P Require Import SdkTypes RuntimeState RuntimeWorker.

Definition sample_config : RuntimeConfig :=
  default_runtime_config "eth0" "192.168.168.100" "192.168.168.168".

Definition snapshot_in (status : Z) : SdkSnapshot :=
  mkSnapshot true true 0 0 0 status fzero fzero fzero 0 0 (replicate 4 fzero).

Definition network_up : NetworkDecision := mkDecision true "ready".

(** 10 ms pass, every SDK call succeeds, the robot reports [status]. *)
Definition calm (status : Z) (actions : list action) : env_step :=
  mkStep (map (fun a => (0, a)) actions) (milliseconds 10) (Answer (ok "success"))
    (snapshot_in status) network_up.

(** The actions of a script at their positions, the callback that reports link
    and authority at position 5. *)
Definition scripted (status : Z) (script : list (nat * list action)) (n : nat) : env_step :=
  calm status
    ((if decide (n = 5)%nat then [ActStatus true true] else []) ++
     concat (map snd (filter (fun e => e.1 = n) script))).

Definition half : spec_float := S754_finite false 8388608 (-24).
Definition forward : Velocity := mkVel half fzero fzero.

(** Enter Move mode, drive, stop. *)
Definition drive_script : list (nat * list action) :=
  [(150, [ActCall (ApiMode "move"); ActStep 0; ActStep 0; ActStep 0]);
   (260, [ActVelocity forward]); (300, [ActStop])]%nat.

Definition run_from (config : RuntimeConfig) (oracle : nat -> env_step) (fuel : nat)
  : outcome unit * list event :=
  match initial_world config 0 with
  | Some w => let '(o, w') := worker_main config None oracle fuel w in (o, trace w')
  | None => (Undefined, [])
  end.

(** The system at start-up. *)
Definition sample_world : world :=
  mkWorld (mkRuntime
    (mkController (milliseconds 100) default_status zero_velocity 0 false false false false false 0)
    false false false false false 0 0 false false None (mkQueue 16 RejectNew [] false)
    (mkTransition false 0 0 0) false false ImuSample0 SportSample0 0) 0 0 0 ∅ 0 ∅ [].

(** A mode request, and an emergency stop that overtakes an authority request. *)
Definition busy_script : list (nat * list action) :=
  [(200, [ActCall (ApiMode "stand"); ActStep 0; ActStep 0; ActStep 0]);
   (230, [ActCall (ApiAuthority true); ActCall (ApiEstop true); ActStep 1; ActStep 2; ActStep 2])]%nat.

Definition busy_until (n0 n : nat) : env_step :=
  if (n0 <=? n)%nat then calm 0xB102 (if (n =? n0)%nat then [ActStop] else [])
  else scripted 0xB104 busy_script n.

Definition busy_run : outcome unit * world :=
  worker_main sample_config None (busy_until 260) 300 sample_world.

(** A confirmed mode, an authority grant, an emergency stop that overtakes an
    authority request, and its clearing. *)
Definition calls_script : list (nat * list action) :=
  [(150, [ActCall (ApiMode "move"); ActStep 0; ActStep 0; ActStep 0]);
   (250, [ActCall (ApiAuthority true); ActStep 1]);
   (290, [ActCall (ApiAuthority true); ActCall (ApiEstop true); ActStep 2; ActStep 3; ActStep 3]);
   (330, [ActCall (ApiEstop false); ActStep 4])]%nat.

Definition calls_until (n0 n : nat) : env_step :=
  if (n0 <=? n)%nat then calm 0xB104 (if (n =? n0)%nat then [ActStop] else [])
  else scripted 0xB104 calls_script n.

Definition calls_run : outcome unit * world :=
  worker_main sample_config None (calls_until 350) 400 sample_world.
