(* ===== verification/RuntimeSafety.v ===== *)
(** * RuntimeSafety: every actuation of the worker has a cause

    For an arbitrary environment (SDK answers and exceptions, callbacks, calls
    of other threads, in any interleaving): a non-zero velocity only reaches the
    SDK right after the safety gate handed it out, every mode command stems from
    an accepted request or is the damping of a requested stop, and every
    authority command was asked for. *)

From S2P Require Import Prelude Cxx ThreadSafeQueue RobotController NetworkPreflight.
From S2P Require Import SdkTypes RuntimeState RuntimeWorker RuntimeSamples.
#[local] Open Scope rt_scope.

(** ** The specification, over traces (newest event first) *)

Definition stop_wanted (tr : list event) : Prop :=
  EvStop ∈ tr \/ exists id, EvApi id (ApiEstop true) ∈ tr.

Definition moved (tr : list event) : Prop :=
  exists v t, EvSdk (CallMove v t) ∈ tr /\ nonzero v = true.

(** Events of other threads and of the observer. *)
Definition env_event (e : event) : bool :=
  match e with
  | EvApi _ _ | EvStop | EvModeAccepted _ _ | EvVelocity _ _ | EvObserver _ => true
  | _ => false
  end.

Definition to_velocity (v : VelocityPayload) : Velocity := mkVel (vx v) (vy v) (vyaw v).

(** The last thing the worker did was to read a tick of a reachable gate, the
    gate accepted, and the velocity is the clamped value of an accepted command
    that is at most one deadman old. *)
Definition tick_move (deadman : Z) (v : Velocity) (tr : list event) : Prop :=
  exists pre t c post t0 v0, tr = pre ++ EvTick t c :: post /\
    forallb env_event pre = true /\ ctl_reachable deadman c /\
    vd_accepted (velocity_for_tick t c) = true /\
    EvVelocity t0 v0 ∈ post /\ t - t0 <= deadman /\ v = to_velocity (clamp_velocity v0).

(** The request came from a call and the gate accepted it. *)
Definition mode_request (deadman : Z) (id : nat) (m : Z) (tr : list event) : Prop :=
  exists name c now, EvApi id (ApiMode name) ∈ tr /\ ctl_reachable deadman c /\
    md_accepted (request_mode now name c).1 = true /\ md_mode (request_mode now name c).1 = m.

Definition justified (deadman : Z) (e : event) (tr : list event) : Prop :=
  match e with
  | EvSdk (CallMove v _) =>
      if nonzero v then tick_move deadman v tr
      else stop_wanted tr \/ moved tr
  | EvSdk (CallSetMode m _) =>
      (m = 0xA101 /\ stop_wanted tr) \/ exists id, EvModeAccepted id m ∈ tr
  | EvSdk (CallRequestAuthority b _) => exists id, EvApi id (ApiAuthority b) ∈ tr
  | EvModeAccepted id m => mode_request deadman id m tr
  | _ => True
  end.

(** Every event has its cause among the earlier ones. *)
Fixpoint justified_trace (deadman : Z) (tr : list event) : Prop :=
  match tr with
  | [] => True
  | e :: tr' => justified deadman e tr' /\ justified_trace deadman tr'
  end.

(** ** The invariant *)

Definition command_ok (tr : list event) (c : Command) : Prop :=
  match kind c with
  | RequestAuthority => EvApi (promise c) (ApiAuthority (authority_sdk c)) ∈ tr
  | RequestMode => EvModeAccepted (promise c) (mode c) ∈ tr
  end.

Definition call_ok (tr : list event) (id : nat) (c : call) : Prop :=
  match c with
  | InMark | InLatch => EvApi id (ApiEstop true) ∈ tr
  | InAuthority sdk => EvApi id (ApiAuthority sdk) ∈ tr
  | InGate name | InDecide name => EvApi id (ApiMode name) ∈ tr
  | InEnqueue m => EvModeAccepted id m ∈ tr
  | InClear => True
  end.

(** The stored velocity of the gate is an accepted command of the trace. *)
Definition velocity_ok (tr : list event) (c : controller) : Prop :=
  has_velocity_ c = true -> exists v0, EvVelocity (last_velocity_time_ c) v0 ∈ tr /\
    latest_velocity_ c = clamp_velocity v0.

Record safe (deadman : Z) (w : world) : Prop := {
  sf_controller : ctl_reachable deadman (controller_ (rt w));
  sf_velocity : velocity_ok (trace w) (controller_ (rt w));
  sf_queue : Forall (command_ok (trace w)) (items (command_queue_ (rt w)));
  sf_calls : map_Forall (call_ok (trace w)) (calls w);
  sf_estop : estop_engaged_ (rt w) = true -> stop_wanted (trace w);
  sf_stop : stop_requested_ (rt w) = true -> stop_wanted (trace w);
  sf_sent : last_sent_nonzero_ (rt w) = true -> moved (trace w);
  sf_trace : justified_trace deadman (trace w) }.

(** ** Monotonicity in the trace *)

Lemma stop_wanted_cons e tr : stop_wanted tr -> stop_wanted (e :: tr).
Proof. unfold stop_wanted. intros [?|(id & ?)]; [left|right; exists id]; set_solver. Qed.

Lemma moved_cons e tr : moved tr -> moved (e :: tr).
Proof. intros (v & t & ? & ?). exists v, t. set_solver. Qed.

Lemma command_ok_cons e tr c : command_ok tr c -> command_ok (e :: tr) c.
Proof. unfold command_ok. destruct (kind c); set_solver. Qed.

Lemma call_ok_cons e tr id c : call_ok tr id c -> call_ok (e :: tr) id c.
Proof. destruct c; cbn; set_solver. Qed.

Lemma velocity_ok_cons e tr c : velocity_ok tr c -> velocity_ok (e :: tr) c.
Proof. intros H Hv. destruct (H Hv) as (v0 & ? & ?). exists v0. set_solver. Qed.

#[local] Hint Resolve stop_wanted_cons moved_cons command_ok_cons call_ok_cons velocity_ok_cons : core.

Section Preservation.
  Context (d : Z).

Lemma safe_emit e w : safe d w -> justified d e (trace w) -> safe d (emit e w).
Proof.
  intros [] He. split; cbn; auto.
  - eapply List.Forall_impl; [|eassumption]. auto.
  - eapply map_Forall_impl; [eassumption|]. auto.
Qed.

(** Fields no other part of the invariant looks at. *)
Lemma safe_world w w' :
  safe d w -> controller_ (rt w') = controller_ (rt w) ->
  items (command_queue_ (rt w')) = items (command_queue_ (rt w)) ->
  calls w' = calls w -> trace w' = trace w ->
  (estop_engaged_ (rt w') = true -> estop_engaged_ (rt w) = true) ->
  stop_requested_ (rt w') = stop_requested_ (rt w) ->
  (last_sent_nonzero_ (rt w') = true -> last_sent_nonzero_ (rt w) = true) -> safe d w'.
Proof.
  intros [] Hc Hq Hcl Ht He Hs Hn. split; rewrite ?Hc, ?Hq, ?Hcl, ?Ht, ?Hs; auto.
Qed.

(** Every controller operation but an accepted velocity. *)
Lemma velocity_ok_step now o c tr :
  ctl_reachable d c -> velocity_ok tr c -> (forall v, o <> OpVelocity v) ->
  velocity_ok tr (ctl_step now o c).
Proof.
  intros Hr Hv Ho Hn. destruct (ctl_reachable_inv d c Hr) as [Hinv _].
  destruct (ctl_step_has_velocity now o c Hinv Hn) as [(v & -> & _)|(Hh & -> & ->)].
  - by destruct (Ho v).
  - by apply Hv.
Qed.

Lemma safe_controller now o w :
  safe d w -> (forall v, o <> OpVelocity v) -> safe d (set_controller (ctl_step now o) w).
Proof.
  intros [] Ho. split; cbn; auto.
  - by apply ctl_next.
  - by apply velocity_ok_step.
Qed.

Lemma safe_set_promise p r w : safe d w -> safe d (set_promise p r w).
Proof. intros Hs. unfold set_promise. case_match; [done|]. by apply (safe_world w). Qed.

Lemma safe_finish id w : safe d w -> safe d (finish_call id w).
Proof. intros []. split; cbn; auto. by apply map_Forall_delete. Qed.

Lemma safe_next id c w : safe d w -> call_ok (trace w) id c -> safe d (next_step id c w).
Proof. intros [] Hc. split; cbn; auto. by apply map_Forall_insert_2. Qed.

Lemma push_Forall {T} (P : T -> Prop) v (q : queue T) b q' :
  push v q = (b, q') -> Forall P (items q) -> P v -> Forall P (items q').
Proof.
  unfold push. intros H Hq Hv. repeat case_match; simplify_eq; cbn; try done.
  - apply Forall_app. split; [|by constructor]. by destruct Hq.
  - apply Forall_app. split; [done|by constructor].
Qed.

Lemma safe_push c b q w :
  safe d w -> push c (command_queue_ (rt w)) = (b, q) -> command_ok (trace w) c ->
  safe d (set_rt (fun r => r <| command_queue_ := q |>) w).
Proof.
  intros [] Hp Hc. split; cbn; auto. by eapply push_Forall.
Qed.

(** ** The environment *)

Section Environment.
  Context (observer : option (observer_event -> bool)).

Lemma safe_dispatch e w : safe d w -> safe d (dispatch_observer_safely observer e w).
Proof.
  intros Hs. unfold dispatch_observer_safely. destruct observer as [throws|]; [|done].
  assert (safe d (emit (EvObserver e) w)) by by apply safe_emit.
  case_match; [|done]. by eapply safe_world.
Qed.

Lemma safe_submit_velocity v w : safe d w -> safe d (submit_velocity observer v w).
Proof.
  intros Hs. unfold submit_velocity. set (p := mkVelocity _ _ _).
  pose proof (accepted_iff (clock w) p (controller_ (rt w))) as Hacc.
  pose proof (accept_velocity_spec (clock w) p (controller_ (rt w))) as Hspec.
  assert (Hr : ctl_reachable d (accept_velocity (clock w) p (controller_ (rt w))).2).
  { change (ctl_reachable d (ctl_step (clock w) (OpVelocity p) (controller_ (rt w)))).
    apply ctl_next. exact (sf_controller _ _ Hs). }
  destruct (accept_velocity _ _ _) as [dec c]. cbn [fst snd] in *.
  destruct Hs. destruct (vd_accepted dec) eqn:Ed; cbn [negb].
  - split; cbn -[velocity_ok]; auto.
    + intros _. exists p. destruct (proj1 Hacc eq_refl) as [Hf Hm].
      rewrite Hf, Hm in Hspec. cbn [negb] in Hspec. injection Hspec as _ ->. cbn. set_solver.
    + eapply List.Forall_impl; [|eassumption]. auto.
    + eapply map_Forall_impl; [eassumption|]. auto.
  - apply safe_dispatch. split; cbn; auto.
    intros Hh. exfalso. revert Hspec Hh.
    destruct (finite_velocity p) eqn:Ef; cbn [negb]; [|by intros [= _ ->]].
    destruct (movement_ready_locked _) eqn:Em; cbn [negb]; [|by intros [= _ ->]].
    by discriminate (proj2 Hacc (conj eq_refl eq_refl)).
Qed.

Lemma safe_handle_status l a w : safe d w -> safe d (handle_status observer l a w).
Proof.
  intros Hs. unfold handle_status. apply safe_dispatch.
  set (w1 := if negb l then _ else _).
  assert (H1 : safe d w1) by (unfold w1; destruct l; by eapply safe_world).
  eapply safe_world with (w := set_controller (ctl_step (clock w) (OpUpdate _)) w1);
    [apply safe_controller; [done|discriminate]|try done..].
  by unfold w1; destruct l.
Qed.

Lemma safe_step_call id c w : safe d w -> calls w !! id = Some c -> safe d (step_call id c w).
Proof.
  intros Hs Hc. pose proof (sf_calls _ _ Hs _ _ Hc) as Hok. destruct c; cbn in *.
  - apply safe_finish, safe_set_promise. by apply (safe_controller _ OpClearEstop).
  - apply safe_next; [|done]. by apply (safe_controller _ OpTriggerEstop).
  - apply safe_finish.
    set (w1 := match estop_promise_ _ with Some _ => _ | None => _ end).
    assert (H1 : safe d w1 /\ trace w1 = trace w).
    { unfold w1. destruct (estop_promise_ _); [|done]. split; [by apply safe_set_promise|].
      unfold set_promise. by case_match. }
    destruct H1 as [H1 Ht].
    assert (H2 : safe d (set_rt (fun r => r <| estop_engaged_ := true |> <| estop_promise_ := Some id |>) w1)).
    { destruct H1. split; cbn; auto. intros _. rewrite Ht. right. by exists id. }
    case_match; [|done]. apply safe_set_promise. by eapply safe_world.
  - apply safe_finish. case_match; [by apply safe_set_promise|].
    destruct (push _ _) as [b q] eqn:Ep. destruct b; cbn [negb]; [|by apply safe_set_promise].
    by eapply safe_push.
  - unfold request_mode_gate. case_match; [by apply safe_finish, safe_set_promise|].
    by apply safe_next.
  - unfold request_mode_decide. destruct (request_mode _ _ _) as [dec c] eqn:Er.
    assert (H1 : safe d (set_controller (fun _ => c) w)).
    { replace (set_controller _ w) with
        (set_controller (ctl_step (clock w) (OpRequestMode name)) w);
        [by apply safe_controller|]. unfold set_controller, set_rt, over, ctl_step. by rewrite Er. }
    destruct (md_accepted dec) eqn:Ea; cbn [negb]; [|by apply safe_finish, safe_set_promise].
    assert (Hm : mode_request d id (md_mode dec) (trace w)).
    { exists name, (controller_ (rt w)), (clock w). rewrite Er. split_and!; try done. exact (sf_controller _ _ Hs). }
    destruct H1. split; cbn; auto.
    + eapply List.Forall_impl; [|eassumption]. auto.
    + apply map_Forall_insert_2; [cbn; set_solver|]. eapply map_Forall_impl; [eassumption|]. auto.
  - apply safe_finish.
    assert (Hf : safe d (complete_transition false w)) by by apply (safe_controller _ (OpComplete false)).
    case_match; [by apply safe_set_promise|].
    destruct (push _ _) as [b q] eqn:Ep. destruct b; cbn [negb]; [|by apply safe_set_promise].
    by eapply safe_push.
Qed.

Lemma safe_run_action held a w : safe d w -> safe d (run_action observer held a w).
Proof.
  intros Hs. destruct a as [a|id|v|l a|s|s|]; cbn [run_action].
  - unfold begin_call. apply (safe_emit (EvApi (next_id w) a)) in Hs as Hs'; [|done].
    destruct Hs'. split; cbn; auto. apply map_Forall_insert_2; [|done].
    destruct a as [[]|sdk|name]; cbn; set_solver.
  - destruct (calls w !! id) as [c|] eqn:Ec; [|done]. case_match; [done|]. by apply safe_step_call.
  - by apply safe_submit_velocity.
  - case_match; [done|]. by apply safe_handle_status.
  - apply safe_dispatch. by eapply safe_world.
  - apply safe_dispatch. by eapply safe_world.
  - case_match; [by apply (safe_world w)|]. unfold stop.
    apply (safe_emit EvStop) in Hs as Hs'; [|done]. destruct Hs'. split; cbn; auto.
    intros _. left. set_solver.
Qed.

End Environment.
End Preservation.

(** ** What the environment adds to the trace *)

Definition env_extends (w w' : world) : Prop :=
  exists pre, trace w' = pre ++ trace w /\ forallb env_event pre = true.

#[export] Instance env_extends_preorder : PreOrder env_extends.
Proof.
  split.
  - intros w. by exists [].
  - intros w1 w2 w3 (p1 & H1 & E1) (p2 & H2 & E2). exists (p2 ++ p1).
    rewrite H2, H1, forallb_app, E1, E2. by rewrite app_assoc.
Qed.

Ltac env_trace :=
  repeat case_match; cbn;
  first [by exists [] | by eexists [_] | by eexists [_; _]].

Lemma dispatch_extends obs e w : env_extends w (dispatch_observer_safely obs e w).
Proof. unfold dispatch_observer_safely. env_trace. Qed.

Lemma set_promise_extends p r w : env_extends w (set_promise p r w).
Proof. unfold set_promise. env_trace. Qed.

Lemma step_call_extends id c w : env_extends w (step_call id c w).
Proof.
  destruct c; cbn [step_call];
    unfold trigger_estop_clear, trigger_estop_mark, request_authority_step,
      request_mode_gate, request_mode_decide, request_mode_enqueue, complete_transition,
      set_promise; env_trace.
Qed.

Lemma run_action_extends obs held a w : env_extends w (run_action obs held a w).
Proof.
  destruct a; cbn [run_action].
  - by exists [EvApi (next_id w) a].
  - repeat case_match; [by exists []|apply step_call_extends|by exists []].
  - unfold submit_velocity, notify_event, dispatch_observer_safely. env_trace.
  - case_match; [by exists []|]. unfold handle_status, dispatch_observer_safely. env_trace.
  - unfold handle_imu, dispatch_observer_safely. env_trace.
  - unfold handle_sport, dispatch_observer_safely. env_trace.
  - case_match; [by exists []|by exists [EvStop]].
Qed.

(** ** The worker *)

(** A fact of the trace that later events keep. *)
Class Stable (F : list event -> Prop) : Prop := stable : forall e tr, F tr -> F (e :: tr).

#[export] Instance stable_const P : Stable (fun _ => P).
Proof. by intros e tr. Qed.
#[export] Instance stable_and F G : Stable F -> Stable G -> Stable (fun tr => F tr /\ G tr).
Proof. intros HF HG e tr []. split; [by apply HF|by apply HG]. Qed.
#[export] Instance stable_in e : Stable (fun tr => e ∈ tr).
Proof. intros e' tr. set_solver. Qed.
#[export] Instance stable_stop_wanted : Stable stop_wanted.
Proof. intros e tr. apply stop_wanted_cons. Qed.
#[export] Instance stable_moved : Stable moved.
Proof. intros e tr. apply moved_cons. Qed.
#[export] Instance stable_elem e : Stable (fun tr => e ∈ tr).
Proof. intros e' tr. set_solver. Qed.
#[export] Instance stable_command c : Stable (fun tr => command_ok tr c).
Proof. intros e tr. apply command_ok_cons. Qed.

Lemma stable_app F `{!Stable F} pre tr : F tr -> F (pre ++ tr).
Proof. intros H. induction pre as [|e pre IH]; [done|]. by apply stable. Qed.

Section WorkerSafety.
  Context (d : Z) (config : RuntimeConfig) (observer : option (observer_event -> bool)).
  Context (oracle : nat -> env_step).

(** From a safe world with [F], [m] keeps the invariant, only adds to the trace
    and, when it returns a value, establishes [G]. *)
Definition spec {A} (F : list event -> Prop) (m : M A) (G : A -> list event -> Prop) : Prop :=
  forall w, safe d w -> F (trace w) ->
    safe d (m w).2 /\ (exists pre, trace (m w).2 = pre ++ trace w) /\
    forall a, (m w).1 = Ret a -> G a (trace (m w).2).

Definition pres {A} (m : M A) : Prop := spec (fun _ => True) m (fun _ _ => True).

Lemma spec_ret {A} (F : list event -> Prop) (a : A) (G : A -> list event -> Prop) :
  (forall tr, F tr -> G a tr) -> spec F (ret a) G.
Proof. intros H w Hs HF. split_and!; [done|by exists []|]. intros ? [= <-]. by apply H. Qed.

Lemma spec_weaken {A} F F' (m : M A) G G' :
  spec F m G -> (forall tr, F' tr -> F tr) -> (forall a tr, F' tr -> G a tr -> G' a tr) ->
  Stable F' -> spec F' m G'.
Proof.
  intros Hm HF HG Hst w Hs Hw. destruct (Hm w Hs (HF _ Hw)) as (H1 & (pre & H2) & H3).
  split_and!; [done|by exists pre|]. intros a Ha. apply HG; [|by apply H3].
  rewrite H2. by apply stable_app.
Qed.

Lemma spec_bind {A B} F (m : M A) (k : A -> M B) G H :
  Stable F -> spec F m G -> (forall a, spec (fun tr => F tr /\ G a tr) (k a) H) ->
  spec F (bind m k) H.
Proof.
  intros Hst Hm Hk w Hs HF. destruct (Hm w Hs HF) as (H1 & (pre & H2) & H3). unfold bind.
  destruct (m w) as [[a|what| |] w'] eqn:E; cbn [fst snd] in *;
    try (split_and!; [done|by exists pre|discriminate]).
  destruct (Hk a w' H1) as (H1' & (pre' & H2') & H3').
  { split; [|by apply H3]. rewrite H2. by apply stable_app. }
  split_and!; [done| |done]. exists (pre' ++ pre). by rewrite H2', H2, app_assoc.
Qed.

Lemma pres_spec {A} F (m : M A) : pres m -> spec F m (fun _ _ => True).
Proof. intros Hm w Hs _. by apply Hm. Qed.

(** The usual sequence: the first part needs nothing. *)
Lemma spec_seq {A B} F (m : M A) (k : A -> M B) H :
  Stable F -> pres m -> (forall a, spec F (k a) H) -> spec F (bind m k) H.
Proof.
  intros Hst Hm Hk. eapply spec_bind; [done|by apply pres_spec|]. intros a w Hs [HF _].
  by apply Hk.
Qed.

Lemma spec_try {A} F (m : M A) h (G : A -> list event -> Prop) :
  Stable F -> spec F m G -> (forall what, spec F (h what) G) -> spec F (try_catch m h) G.
Proof.
  intros Hst Hm Hh w Hs HF. destruct (Hm w Hs HF) as (H1 & (pre & H2) & H3). unfold try_catch.
  destruct (m w) as [[a|what| |] w'] eqn:E; cbn [fst snd] in *;
    try (split_and!; [done|by exists pre|done]).
  destruct (Hh what w' H1) as (H1' & (pre' & H2') & H3').
  { rewrite H2. by apply stable_app. }
  split_and!; [done| |done]. exists (pre' ++ pre). by rewrite H2', H2, app_assoc.
Qed.

Lemma pres_modify f :
  (forall w, safe d w -> safe d (f w) /\ exists pre, trace (f w) = pre ++ trace w) ->
  pres (modify f).
Proof. intros H w Hs _. destruct (H w Hs). by split_and!. Qed.

Lemma pres_gets {A} (f : world -> A) : pres (gets f).
Proof. intros w Hs _. split_and!; [done|by exists []|done]. Qed.

(** ** Environment steps *)

Lemma run_step_extends held w : env_extends w (run_step observer oracle held w).
Proof.
  unfold run_step. set (s := oracle (position w)).
  assert (H : forall l w1, env_extends w1 (run_actions observer held l w1)).
  { induction l as [|[dt a] l IH]; intros w1; [done|]. cbn [run_actions fold_left fst snd].
    etransitivity; [|apply IH]. etransitivity; [|apply run_action_extends]. by exists []. }
  etransitivity; [|etransitivity; [apply (H (woken_stops held w ++ es_actions s))|by exists []]]. by exists [].
Qed.

Lemma run_step_safe held w :
  safe d w -> safe d (run_step observer oracle held w) /\
  env_extends w (run_step observer oracle held w).
Proof.
  intros Hs. split; [|apply run_step_extends]. unfold run_step. set (s := oracle (position w)).
  assert (H : forall l w1, safe d w1 -> safe d (run_actions observer held l w1)).
  { induction l as [|[dt a] l IH]; intros w1 H1; [done|]. cbn [run_actions fold_left fst snd].
    apply IH, safe_run_action. by apply (safe_world d w1). }
  eapply safe_world; [apply (H (woken_stops held w ++ es_actions s) (next_position held w))|done..].
  by apply (safe_world d w).
Qed.

Lemma pres_yield held : pres (yield observer oracle held).
Proof.
  apply pres_modify. intros w Hs. destruct (run_step_safe held w Hs) as [H (pre & -> & _)].
  split; [done|by exists pre].
Qed.

Lemma spec_atomic {A} F held (f : world -> A * world) G :
  Stable F ->
  (forall w, safe d w -> F (trace w) -> safe d (f w).2 /\
     (exists pre, trace (f w).2 = pre ++ trace w) /\ G (f w).1 (trace (f w).2)) ->
  spec F (atomic observer oracle held f) G.
Proof.
  intros Hst Hf. unfold atomic. apply spec_seq; [done|apply pres_yield|].
  intros _ w Hs HF. destruct (Hf w Hs HF) as (H1 & H2 & H3).
  destruct (f w) as [a w']. cbn in *. split_and!; [done|done|]. by intros ? [= <-].
Qed.

(** A read, or a change of fields the invariant does not see. *)
Lemma pres_atomic {A} held (f : world -> A * world) :
  (forall w, safe d w -> safe d (f w).2 /\ trace (f w).2 = trace w) ->
  pres (atomic observer oracle held f).
Proof.
  intros H. apply spec_atomic; [apply _|]. intros w Hs _. destruct (H w Hs) as [H1 H2].
  split_and!; [done| |done]. by exists [].
Qed.

(** ** The operations of the worker *)

Lemma pres_controller held o :
  (forall v, o <> OpVelocity v) ->
  pres (controller_op observer oracle held (fun now => ctl_step now o)).
Proof.
  intros Ho. apply pres_atomic. intros w Hs. split; [|done]. by apply safe_controller.
Qed.

Lemma pres_complete held b :
  pres (controller_op observer oracle held (fun now => complete_mode_transition now b)).
Proof. by apply (pres_controller held (OpComplete b)). Qed.
Lemma pres_update held s :
  pres (controller_op observer oracle held (fun now => update_robot_state now s)).
Proof. by apply (pres_controller held (OpUpdate s)). Qed.
Lemma pres_invalidate held : pres (controller_op observer oracle held invalidate_connection).
Proof. by apply (pres_controller held OpInvalidate). Qed.
Lemma pres_ready held b :
  pres (controller_op observer oracle held (fun now => set_driver_ready now b)).
Proof. by apply (pres_controller held (OpSetReady b)). Qed.

Lemma pres_read {A} held (f : world -> A) : pres (atomic observer oracle held (fun w => (f w, w))).
Proof. by apply pres_atomic. Qed.

(** Runtime fields outside the invariant. *)
Lemma pres_set_rt f :
  (forall r, controller_ (f r) = controller_ r /\ command_queue_ (f r) = command_queue_ r /\
     (estop_engaged_ (f r) = true -> estop_engaged_ r = true) /\
     stop_requested_ (f r) = stop_requested_ r /\
     (last_sent_nonzero_ (f r) = true -> last_sent_nonzero_ r = true)) ->
  pres (modify (set_rt f)).
Proof.
  intros H. apply pres_modify. intros w Hs. destruct (H (rt w)) as (H1 & H2 & H3 & H4 & H5).
  split; [|by exists []]. apply (safe_world d w); cbn; try done. by rewrite H2.
Qed.

Lemma pres_set_shared held f :
  (forall r, controller_ (f r) = controller_ r /\ command_queue_ (f r) = command_queue_ r /\
     (estop_engaged_ (f r) = true -> estop_engaged_ r = true) /\
     stop_requested_ (f r) = stop_requested_ r /\
     (last_sent_nonzero_ (f r) = true -> last_sent_nonzero_ r = true)) ->
  pres (atomic observer oracle held (fun w => (tt, set_rt f w))).
Proof.
  intros H. apply pres_atomic. intros w Hs. destruct (H (rt w)) as (H1 & H2 & H3 & H4 & H5).
  split; [|done]. apply (safe_world d w); cbn; try done. by rewrite H2.
Qed.

Lemma pres_answer p r : pres (answer p r).
Proof.
  apply pres_modify. intros w Hs. split; [by apply safe_set_promise|].
  destruct (set_promise_extends p r w) as (pre & -> & _). by exists pre.
Qed.

Lemma pres_dispatch e : pres (modify (dispatch_observer_safely observer e)).
Proof.
  apply pres_modify. intros w Hs. split; [by apply safe_dispatch|].
  destruct (dispatch_extends observer e w) as (pre & -> & _). by exists pre.
Qed.

Lemma pres_notify sev m : pres (notify observer sev m).
Proof. apply pres_dispatch. Qed.

Lemma pres_wait_until deadline pred : pres (wait_until observer oracle deadline pred).
Proof.
  intros w Hs _. unfold wait_until. destruct (pred w); [split_and!; [done|by exists []|done]|].
  destruct (run_step_safe false w Hs) as [H (pre & Hpre & _)].
  destruct (pred _); cbn [fst snd]; split_and!; try done; try by exists pre.
  by eapply safe_world.
Qed.

Create HintDb rtsafe.
#[local] Hint Resolve pres_complete pres_update pres_invalidate pres_ready pres_read pres_answer
  pres_notify pres_dispatch pres_wait_until pres_gets pres_yield : rtsafe.
#[local] Hint Extern 1 (pres (modify (set_rt _))) =>
  (apply pres_set_rt; intros []; by split_and!) : rtsafe.
#[local] Hint Extern 1 (pres (atomic _ _ _ (fun w => (tt, set_rt _ w)))) =>
  (apply pres_set_shared; intros []; by split_and!) : rtsafe.

(** Decomposes a program into its operations. *)
Ltac spec_steps :=
  repeat first
    [ progress cbv beta zeta
    | match goal with
      | |- forall _, _ => intro
      | |- spec _ (if ?b then _ else _) _ => destruct b
      | |- pres (if ?b then _ else _) => destruct b
      | |- spec _ (match ?x with _ => _ end) _ => destruct x
      | |- pres (match ?x with _ => _ end) => destruct x
      end
    | solve [auto with rtsafe]
    | solve [apply pres_spec; auto with rtsafe]
    | apply spec_ret; tauto
    | match goal with
      | |- spec _ (bind _ _) _ => apply spec_seq; [apply _ | solve [auto with rtsafe] | ]
      | |- pres (bind ?m _) =>
          unfold pres at 1; apply spec_seq; [apply _ | solve [auto with rtsafe] | ]
      | |- spec _ (bind ?m _) _ =>
          lazymatch m with
          | bind _ _ => idtac
          | if _ then _ else _ => idtac
          | match _ with _ => _ end => idtac
          end; apply spec_seq; [apply _ | unfold pres | ]
      end ].

Lemma pres_fail held r b : pres (fail_mode_transition observer oracle held r b).
Proof. unfold fail_mode_transition, deactivate_transition. spec_steps. Qed.

Lemma pres_settle : pres (settle_mode_transition_timeout observer oracle).
Proof. unfold settle_mode_transition_timeout, deactivate_transition. spec_steps. Qed.
#[local] Hint Resolve pres_fail pres_settle : rtsafe.

Lemma pres_pending : pres (mode_transition_pending observer oracle).
Proof. apply pres_read. Qed.
Lemma pres_clock : pres (clock_now observer oracle).
Proof. apply pres_read. Qed.
Lemma pres_stopping : pres (stopping observer oracle).
Proof. apply pres_read. Qed.
Lemma pres_allowed : pres (actuation_allowed observer oracle).
Proof. apply pres_read. Qed.
Lemma pres_take : pres (take_motion_request observer oracle).
Proof. apply pres_atomic. intros w Hs. split; [|done]. by eapply safe_world. Qed.
#[local] Hint Resolve pres_pending pres_clock pres_stopping pres_allowed pres_take : rtsafe.

Lemma pres_check snapshot now : pres (check_mode_transition observer oracle snapshot now).
Proof. unfold check_mode_transition, deactivate_transition. spec_steps. Qed.
#[local] Hint Resolve pres_check : rtsafe.


(** *** SDK calls *)

Lemma spec_sdk_call F c :
  (forall pre tr, F tr -> forallb env_event pre = true -> justified d (EvSdk c) (pre ++ tr)) ->
  spec F (sdk_call observer oracle c) (fun _ tr => EvSdk c ∈ tr).
Proof.
  intros Hj w Hs HF. unfold sdk_call, bind, yield, modify.
  destruct (run_step_safe false w Hs) as [H1 (pre & Hpre & Henv)].
  set (w1 := run_step observer oracle false w) in *.
  assert (H2 : safe d (emit (EvSdk c) w1)).
  { apply safe_emit; [done|]. rewrite Hpre. by apply Hj. }
  destruct (run_step_safe false _ H2) as [H3 (pre' & Hpre' & _)].
  change (trace (emit (EvSdk c) w1)) with (EvSdk c :: trace w1) in Hpre'.
  assert (Hin : EvSdk c ∈ trace (run_step observer oracle false (emit (EvSdk c) w1))).
  { rewrite Hpre'. set_solver. }
  assert (Hext : exists p, trace (run_step observer oracle false (emit (EvSdk c) w1)) = p ++ trace w).
  { exists (pre' ++ EvSdk c :: pre). by rewrite Hpre', Hpre, <- app_assoc. }
  destruct (es_answer _); cbn [fst snd]; by split_and!.
Qed.

(** The premise may depend on where the worker stands: [F] need not survive the
    call. *)
Lemma spec_bind_here {A B} F (m : M A) (k : A -> M B) G H :
  spec F m G -> (forall a, spec (G a) (k a) H) -> spec F (bind m k) H.
Proof.
  intros Hm Hk w Hs HF. destruct (Hm w Hs HF) as (H1 & (pre & H2) & H3). unfold bind.
  destruct (m w) as [[a|what| |] w'] eqn:E; cbn [fst snd] in *;
    try (split_and!; [done|by exists pre|discriminate]).
  destruct (Hk a w' H1 (H3 a eq_refl)) as (H1' & (pre' & H2') & H3').
  split_and!; [done| |done]. exists (pre' ++ pre). by rewrite H2', H2, app_assoc.
Qed.

Lemma spec_emit (F : list event -> Prop) e :
  Stable F -> (forall tr, justified d e tr) -> spec F (modify (emit e)) (fun _ => F).
Proof.
  intros Hst He w Hs HF. split_and!; [by apply safe_emit|by exists [e]|].
  intros _ _. by apply stable.
Qed.

Lemma spec_sdk_here F c :
  (forall pre tr, F tr -> forallb env_event pre = true -> justified d (EvSdk c) (pre ++ tr)) ->
  spec F (sdk observer oracle c) (fun _ tr => EvSdk c ∈ tr).
Proof.
  intros Hj. unfold sdk. eapply spec_bind_here; [by apply spec_sdk_call|].
  intros a. eapply spec_bind_here; [|intros b; apply spec_ret; intros tr H; exact H].
  apply spec_emit; [apply _|done].
Qed.

Lemma spec_sdk F c :
  Stable F -> (forall tr, F tr -> justified d (EvSdk c) tr) ->
  spec F (sdk observer oracle c) (fun _ _ => True).
Proof.
  intros Hst Hj. apply spec_weaken with (F := F) (G := fun _ tr => EvSdk c ∈ tr); try done.
  apply spec_sdk_here. intros pre tr HF _. by apply Hj, stable_app.
Qed.

(** Calls that move nothing. *)
Definition passive (c : SdkCall) : bool :=
  match c with CallMove _ _ | CallSetMode _ _ | CallRequestAuthority _ _ => false | _ => true end.

Lemma pres_sdk c : passive c = true -> pres (sdk observer oracle c).
Proof. intros Hc. apply spec_sdk; [apply _|]. intros tr _. by destruct c. Qed.

Lemma pres_snapshot : pres (sdk_snapshot observer oracle).
Proof.
  unfold sdk_snapshot. eapply spec_bind_here; [by apply spec_sdk_call|].
  intros a. eapply spec_bind_here; [by apply spec_emit; [apply _|]|].
  intros b. by apply spec_ret.
Qed.

Lemma pres_emit e : (forall tr, justified d e tr) -> pres (modify (emit e)).
Proof. intros He. apply pres_modify. intros w Hs. split; [by apply safe_emit|by exists [e]]. Qed.

Lemma pres_deinit : pres (sdk_deinit observer oracle).
Proof.
  unfold sdk_deinit. apply spec_seq; [apply _|apply pres_yield|]. intros _.
  apply spec_seq; [apply _|by apply pres_emit|]. intros _. apply pres_yield.
Qed.

Lemma pres_preflight e : pres (preflight_check observer oracle e).
Proof.
  unfold preflight_check. apply spec_seq; [apply _|apply pres_yield|]. intros _.
  apply spec_seq; [apply _|by apply pres_emit|].
  intros _ w Hs _. destruct (run_step_safe false w Hs) as [H (pre & Hpre & _)].
  destruct (es_answer _); cbn [fst snd]; split_and!; try done; [by apply safe_emit| |by exists pre].
  exists (EvNetwork (es_network (oracle (position w))) :: pre).
  exact (f_equal (cons _) Hpre).
Qed.
#[local] Hint Resolve pres_snapshot pres_deinit pres_preflight : rtsafe.
#[local] Hint Extern 1 (pres (sdk _ _ _)) => (apply pres_sdk; reflexivity) : rtsafe.

(** *** Actuation *)

Lemma spec_zero_move F t :
  Stable F -> (forall tr, F tr -> stop_wanted tr \/ moved tr) ->
  spec F (sdk observer oracle (CallMove Velocity0 t)) (fun _ _ => True).
Proof. intros Hst HF. by apply spec_sdk. Qed.

Lemma spec_send_zero F :
  Stable F -> (forall tr, F tr -> stop_wanted tr) ->
  spec F (send_zero_and_damping config observer oracle) (fun _ _ => True).
Proof.
  intros Hst HF. unfold send_zero_and_damping.
  eapply spec_bind; [done|by apply spec_zero_move; auto|]. intros move_result.
  spec_steps.
  eapply spec_bind; [apply _|apply spec_sdk; [apply _|]|].
  { intros tr [Htr _]. left. auto. }
  spec_steps.
Qed.

Lemma spec_actuate_stop F :
  Stable F -> (forall tr, F tr -> stop_wanted tr) ->
  spec F (actuate_stop_if_authorized config observer oracle) (fun _ _ => True).
Proof.
  intros Hst HF. unfold actuate_stop_if_authorized. spec_steps.
  eapply spec_bind; [done|by apply spec_send_zero|]. spec_steps.
Qed.

(** *** Commands *)

Lemma spec_try_pop F held :
  Stable F ->
  spec F (try_pop observer oracle held) (fun oc tr => forall c, oc = Some c -> command_ok tr c).
Proof.
  intros Hst. apply spec_atomic; [done|]. intros w Hs HF.
  unfold ThreadSafeQueue.try_pop, pop_locked.
  destruct (items (command_queue_ (rt w))) as [|c rest] eqn:E; cbn [fst snd].
  - split_and!; [by eapply safe_world|by exists []|done].
  - pose proof (sf_queue _ _ Hs) as Hq. rewrite E in Hq. apply Forall_cons_iff in Hq as [Hc Hr].
    split_and!; [|by exists []|by intros ? [= <-]].
    destruct Hs. by split.
Qed.

Lemma pres_try_pop held : pres (try_pop observer oracle held).
Proof. eapply spec_weaken; [by apply (spec_try_pop (fun _ => True))|done|done|apply _]. Qed.
#[local] Hint Resolve pres_try_pop : rtsafe.

Lemma pres_drain fuel held r : pres (drain_commands observer oracle fuel held r).
Proof.
  induction fuel as [|fuel IH]; cbn [drain_commands].
  { intros w Hs _. split_and!; [done|by exists []|done]. }
  spec_steps.
Qed.
#[local] Hint Resolve pres_drain : rtsafe.

Lemma pres_handle_estop fuel : pres (handle_estop_if_requested config observer oracle fuel).
Proof.
  unfold handle_estop_if_requested.
  eapply (spec_bind _ _ _ (fun taken tr => taken <> None -> stop_wanted tr)); [apply _| |].
  - apply spec_atomic; [apply _|]. intros w Hs _. destruct (estop_engaged_ (rt w)) eqn:E; cbn [negb].
    + cbn [fst snd]. split_and!; [by eapply safe_world|by exists []|]. intros _. by apply (sf_estop _ _ Hs).
    + cbn [fst snd]. split_and!; [done|by exists []|done].
  - intros [promise|]; [|by apply spec_ret].
    assert (Hw : spec stop_wanted
      (fail_mode_transition observer oracle false
         (failure kSdkResFailed "mode transition aborted by the emergency stop") false ;;
       controller_op observer oracle false (fun now => complete_mode_transition now false) ;;
       drain_commands observer oracle fuel false
         (failure kSdkResFailed "command aborted by the emergency stop") ;;
       allowed <- actuation_allowed observer oracle ;;
       result <-
        (if negb allowed then
           ret (failure kSdkResWithoutAuth
             "no SDK link or control authority; emergency stop latched locally only")
         else
           sent <- send_zero_and_damping config observer oracle ;;
           ret (if (sent : bool)
                then ok "emergency stop executed: zero velocity and damping mode"
                else failure kSdkResFailed
                  "emergency stop latched but the zero-velocity or damping command failed")) ;;
       match promise with
       | Some p => answer p result
       | None => undefined
       end)%rt (fun _ _ => True)).
    { do 4 (apply spec_seq; [apply _|auto with rtsafe|intros ?]).
      eapply (spec_bind _ _ _ (fun _ _ => True)); [apply _| |].
      - destruct (negb _); [by apply spec_ret|].
        eapply spec_bind; [apply _|by apply spec_send_zero; [apply _|]|]. intros ?. by apply spec_ret.
      - intros r. destruct promise; [apply pres_spec; auto with rtsafe|].
        intros w Hs _. split_and!; [done|by exists []|done]. }
    eapply spec_weaken; [exact Hw| |done|].
    + intros tr [_ H]. by apply H.
    + intros e tr [_ H]. split; [done|]. intros Hp. apply stop_wanted_cons, H, Hp.
Qed.
#[local] Hint Resolve pres_handle_estop : rtsafe.

Lemma spec_read_sent F :
  Stable F -> spec F (gets (fun w => last_sent_nonzero_ (rt w))) (fun b tr => b = true -> moved tr).
Proof.
  intros Hst w Hs HF. split_and!; [done|by exists []|]. intros b [= <-]. by apply (sf_sent _ _ Hs).
Qed.

Lemma pres_zero_before c : pres (zero_before_mode config observer oracle c).
Proof.
  unfold zero_before_mode. eapply spec_bind; [apply _|by apply spec_read_sent|].
  intros []; cbn [negb]; [|by apply spec_ret].
  apply spec_weaken with (F := moved) (G := fun _ _ => True); [|by intros tr [_ H]; apply H|done|].
  2: { intros e tr [_ H]. split; [done|]. intros Hb. by apply moved_cons, H. }
  eapply spec_bind; [apply _|apply spec_zero_move; [apply _|by right]|]. spec_steps.
Qed.
#[local] Hint Resolve pres_zero_before : rtsafe.

Lemma pres_set_transition t :
  pres (modify (set_rt (fun r => r <| mode_transition_ := t |>))).
Proof. apply pres_set_rt. by intros []. Qed.
#[local] Hint Resolve pres_set_transition : rtsafe.

Lemma spec_execute c : spec (fun tr => command_ok tr c) (execute_command config observer oracle c) (fun _ _ => True).
Proof.
  unfold execute_command. apply spec_try; [apply _| |].
  - destruct (kind c) eqn:Ek.
    + unfold execute_authority. eapply spec_bind; [apply _|apply spec_sdk; [apply _|]|spec_steps].
      intros tr Hc. unfold command_ok in Hc. rewrite Ek in Hc. by exists (promise c).
    + unfold execute_mode. spec_steps.
      eapply spec_bind; [apply _|apply spec_sdk; [apply _|]|spec_steps].
      intros tr Hc. unfold command_ok in Hc. rewrite Ek in Hc. right. by exists (promise c).
  - intros what. apply pres_spec. unfold command_exception, deactivate_transition. spec_steps.
Qed.

Lemma pres_next_command : pres (next_command config observer oracle).
Proof.
  unfold next_command. eapply spec_bind; [apply _|by apply spec_try_pop|].
  intros [c|]; [|by apply spec_ret]. intros w Hs [_ Hc].
  apply spec_execute; [done|]. by apply Hc.
Qed.
#[local] Hint Resolve pres_next_command : rtsafe.

(** *** Motion *)

Definition tick_ready (tick : VelocityDecision) (tr : list event) : Prop :=
  vd_accepted tick = true -> tick_move d (tick_target tick) tr.

Lemma tick_move_env v pre tr :
  forallb env_event pre = true -> tick_move d v tr -> tick_move d v (pre ++ tr).
Proof.
  intros Hp (p & t & c & post & t0 & v0 & -> & Hp' & H). exists (pre ++ p), t, c, post, t0, v0.
  split; [by rewrite <- app_assoc|]. split; [by rewrite forallb_app, Hp, Hp'|exact H].
Qed.

Lemma spec_read_tick F : Stable F -> spec F (read_tick observer oracle) tick_ready.
Proof.
  intros Hst. apply spec_atomic; [done|]. intros w Hs _. cbn [fst snd].
  split_and!; [by apply safe_emit|by exists [EvTick (clock w) (controller_ (rt w))]|].
  intros Ha. pose proof (tick_value (clock w) (controller_ (rt w))) as Hv. rewrite Ha in Hv.
  unfold tick_target. rewrite Ha, Hv.
  pose proof Ha as (_ & Hh & Ht)%tick_accepted_iff.
  destruct (ctl_reachable_inv d _ (sf_controller _ _ Hs)) as [_ Hd]. rewrite Hd in Ht.
  destruct (sf_velocity _ _ Hs Hh) as (v0 & Hin & Hl).
  exists [], (clock w), (controller_ (rt w)), (trace w), (last_velocity_time_ (controller_ (rt w))), v0.
  rewrite Hl. split_and!; try done. exact (sf_controller _ _ Hs).
Qed.

Lemma nonzero_zero : nonzero Velocity0 = false.
Proof. vm_compute. reflexivity. Qed.

Lemma spec_set_sent b :
  spec (fun tr => b = true -> moved tr)
    (modify (set_rt (fun r => r <| last_sent_nonzero_ := b |>))) (fun _ _ => True).
Proof.
  intros w Hs HF. split_and!; [|by exists []|done]. destruct Hs. by split.
Qed.

(** The move of a tick, given the two facts read just before. *)
Lemma spec_move tick (last : bool) :
  nonzero (tick_target tick) || last = true ->
  spec (fun tr => tick_ready tick tr /\ (last = true -> moved tr))
    (move_result <- sdk observer oracle (CallMove (tick_target tick) (sdk_call_timeout_ms config)) ;;
     if negb (success move_result) then
       notify observer kRuntimeEventWarning
         ("velocity move rejected by the SDK: " +:+ res_message move_result)
     else modify (set_rt (fun r => r <| last_sent_nonzero_ := nonzero (tick_target tick) |>)))
    (fun _ _ => True).
Proof.
  intros Hor. eapply spec_bind_here.
  - apply spec_sdk_here. intros pre tr [Ht Hl] Hpre. cbn [justified].
    destruct (nonzero (tick_target tick)) eqn:En.
    + apply tick_move_env; [done|]. apply Ht.
      unfold tick_target in En. destruct (vd_accepted tick); [done|]. by rewrite nonzero_zero in En.
    + right. apply stable_app; [apply _|]. by apply Hl.
  - intros r. destruct (success r); cbn [negb]; [|apply pres_spec; auto with rtsafe].
    intros w Hs Hin. apply spec_set_sent; [done|]. intros Hn. by eexists _, _.
Qed.

Lemma pres_motion requested now ls : pres (motion_tick config observer oracle requested now ls).
Proof.
  unfold motion_tick. destruct (_ || _); [|by apply spec_ret].
  eapply spec_bind_here; [by apply spec_read_tick|]. intros tick. cbv zeta.
  eapply (spec_bind_here _ _ _ (fun last tr => tick_ready tick tr /\ (last = true -> moved tr))).
  { intros w Hs Ht. split_and!; [done|by exists []|]. intros last [= <-].
    split; [done|]. by apply (sf_sent _ _ Hs). }
  intros last. eapply spec_bind_here; [|intros []; apply spec_ret; done].
  destruct (nonzero _ || last) eqn:En; [by apply spec_move|by apply spec_ret].
Qed.
#[local] Hint Resolve pres_motion : rtsafe.

(** *** The loops *)

Lemma pres_apply_snapshot s : pres (apply_snapshot observer oracle s).
Proof.
  unfold apply_snapshot. apply spec_seq; [apply _|auto with rtsafe|]. intros _.
  apply pres_atomic. intros w Hs. split; [|done].
  by apply (safe_controller _ _ (OpUpdate _)).
Qed.

Lemma pres_orphan : pres (abort_orphan_transition observer oracle).
Proof. unfold abort_orphan_transition. spec_steps. Qed.

Lemma pres_arm s : pres (arm_readiness observer oracle s).
Proof. unfold arm_readiness. spec_steps. Qed.

Lemma pres_settle_expired now : pres (settle_expired observer oracle now).
Proof. unfold settle_expired. spec_steps. Qed.
#[local] Hint Resolve pres_apply_snapshot pres_orphan pres_arm pres_settle_expired : rtsafe.

Lemma pres_heartbeat now ls : pres (heartbeat_tick config observer oracle now ls).
Proof. unfold heartbeat_tick. spec_steps. Qed.

Lemma pres_state_poll now ls : pres (state_poll config observer oracle now ls).
Proof. unfold state_poll. spec_steps. Qed.

Lemma pres_end : pres (end_if_requested config observer oracle).
Proof.
  unfold end_if_requested.
  eapply (spec_bind_here _ _ _ (fun r tr => stop_requested_ r = true -> stop_wanted tr)).
  { intros w Hs _. split_and!; [done|by exists []|]. intros r [= <-]. apply (sf_stop _ _ Hs). }
  intros r. destruct (stop_requested_ r || _) eqn:E; [|by apply spec_ret].
  destruct (stop_requested_ r); [|apply spec_seq; [|by apply spec_ret|intros []; by apply spec_ret]].
  - apply spec_weaken with (F := stop_wanted) (G := fun _ _ => True); [|by auto|done|].
    + eapply spec_bind; [apply _|by apply spec_actuate_stop; [apply _|]|]. intros []. by apply spec_ret.
    + intros e tr H _. by apply stop_wanted_cons, H.
  - by intros e tr H.
Qed.
#[local] Hint Resolve pres_heartbeat pres_state_poll pres_end : rtsafe.

Lemma pres_wait_for_work ls : pres (wait_for_work config observer oracle ls).
Proof. unfold wait_for_work. spec_steps. Qed.
#[local] Hint Resolve pres_wait_for_work pres_next_command : rtsafe.

Lemma pres_loop_body fuel ls : pres (loop_body config observer oracle fuel ls).
Proof. unfold loop_body. spec_steps. Qed.
#[local] Hint Resolve pres_loop_body : rtsafe.

Lemma pres_out_of_fuel {A} : pres (@out_of_fuel A).
Proof. intros w Hs _. split_and!; [done|by exists []|done]. Qed.
#[local] Hint Resolve pres_out_of_fuel : rtsafe.

Lemma pres_connected_loop fuel : forall ls, pres (connected_loop config observer oracle fuel ls).
Proof. induction fuel; intros ls; cbn [connected_loop]; spec_steps. Qed.
#[local] Hint Resolve pres_connected_loop : rtsafe.

Lemma pres_run_connected fuel : pres (run_connected_loop config observer oracle fuel).
Proof. unfold run_connected_loop. spec_steps. Qed.

Lemma pres_fail_all fuel : pres (fail_all_pending_locked observer oracle fuel).
Proof. unfold fail_all_pending_locked. spec_steps. Qed.

Lemma pres_invalidate_session : pres (invalidate_session observer oracle).
Proof. unfold invalidate_session. spec_steps. Qed.

Lemma pres_subscribe : pres (subscribe_telemetry config observer oracle).
Proof. unfold subscribe_telemetry. spec_steps. Qed.

Lemma pres_backoff b : pres (wait_backoff config observer oracle b).
Proof. unfold wait_backoff. spec_steps. Qed.
#[local] Hint Resolve pres_run_connected pres_fail_all pres_invalidate_session pres_subscribe
  pres_backoff : rtsafe.

Lemma pres_failed_attempt m b : pres (failed_attempt config observer oracle m b).
Proof. unfold failed_attempt. spec_steps. Qed.

Lemma pres_session fuel : pres (session config observer oracle fuel).
Proof. unfold session. spec_steps. Qed.
#[local] Hint Resolve pres_failed_attempt pres_session : rtsafe.

Lemma pres_attempt fuel b : pres (attempt config observer oracle fuel b).
Proof. unfold attempt. spec_steps. Qed.
#[local] Hint Resolve pres_attempt : rtsafe.

Lemma pres_worker_loop fuel : forall b, pres (worker_loop config observer oracle fuel b).
Proof. induction fuel; intros b; cbn [worker_loop]; spec_steps. Qed.

Lemma pres_worker_main fuel : pres (worker_main config observer oracle fuel).
Proof. apply pres_worker_loop. Qed.

End WorkerSafety.

(** ** Results *)

Lemma initial_safe config now w :
  initial_world config now = Some w -> safe (deadman_ms config) w /\ trace w = [].
Proof.
  unfold initial_world, make_runtime, make_queue. destruct (make_controller _) as [c|] eqn:Ec; [|done].
  destruct (decide _); [done|]. intros [= <-]. split; [|done].
  assert (Hc : ctl_reachable (deadman_ms config) c) by by apply ctl_init.
  split; cbn; try done.
  unfold make_controller in Ec. destruct (_ <=? 0); [done|]. injection Ec as <-. done.
Qed.

Definition user_event (e : event) : bool :=
  match e with EvApi _ _ | EvStop | EvVelocity _ _ => true | _ => false end.

Lemma stop_wanted_user tr : stop_wanted tr -> exists e, e ∈ tr /\ user_event e = true.
Proof. intros [?|(id & ?)]; eauto. Qed.

(** An actuation, and a nonzero move before it, go back to a call. *)
Lemma actuation_user deadman tr :
  justified_trace deadman tr ->
  (forall c, passive c = false -> justified deadman (EvSdk c) tr ->
     exists e, e ∈ tr /\ user_event e = true) /\
  (forall id m, EvModeAccepted id m ∈ tr -> exists e, e ∈ tr /\ user_event e = true) /\
  (forall c, EvSdk c ∈ tr -> passive c = false -> exists e, e ∈ tr /\ user_event e = true).
Proof.
  assert (Hj : forall tr,
    (forall id m, EvModeAccepted id m ∈ tr -> exists e, e ∈ tr /\ user_event e = true) ->
    (forall c, EvSdk c ∈ tr -> passive c = false -> exists e, e ∈ tr /\ user_event e = true) ->
    forall c, passive c = false -> justified deadman (EvSdk c) tr ->
      exists e, e ∈ tr /\ user_event e = true).
  { clear tr. intros tr Hm Hs c Hc. destruct c; try done; cbn [justified].
    - intros [id ?]. eauto.
    - destruct (nonzero v).
      + intros (pre & t & c & post & t0 & v0 & -> & _ & _ & _ & Hin & _).
        exists (EvVelocity t0 v0). set_solver.
      + intros [?%stop_wanted_user|(v1 & t1 & ? & _)]; [done|]. by eapply Hs.
    - intros [[_ ?%stop_wanted_user]|[id ?]]; [done|]. by eapply Hm. }
  induction tr as [|e tr IH]; intros Ht.
  { split_and!; [|set_solver..]. apply Hj; set_solver. }
  destruct Ht as [He Ht]. destruct (IH Ht) as (H1 & H2 & H3).
  assert (Hup : (exists e, e ∈ tr /\ user_event e = true) ->
    exists e', e' ∈ e :: tr /\ user_event e' = true).
  { intros (e' & ? & ?). exists e'. set_solver. }
  assert (Hm : forall id m, EvModeAccepted id m ∈ e :: tr ->
    exists e', e' ∈ e :: tr /\ user_event e' = true).
  { intros id m [<-|?]%elem_of_cons; [|by apply Hup, (H2 id m)].
    destruct He as (name & c & now & Hin & _). apply Hup. by exists (EvApi id (ApiMode name)). }
  assert (Hs : forall c, EvSdk c ∈ e :: tr -> passive c = false ->
    exists e', e' ∈ e :: tr /\ user_event e' = true).
  { intros c [<-|?]%elem_of_cons Hc; apply Hup; [by apply (H1 c)|by apply (H3 c)]. }
  split_and!; [|done..]. by apply Hj.
Qed.

Lemma justified_suffix deadman l tr : justified_trace deadman (l ++ tr) -> justified_trace deadman tr.
Proof. induction l as [|e l IH]; [done|]. intros [_ H]. by apply IH. Qed.

Lemma run_justified config observer oracle fuel now w :
  initial_world config now = Some w ->
  justified_trace (deadman_ms config) (trace (worker_main config observer oracle fuel w).2).
Proof.
  intros [Hs _]%initial_safe.
  exact (sf_trace _ _ (proj1 (pres_worker_main _ config observer oracle fuel w Hs I))).
Qed.

(** Actuation safety of the driver: whatever the SDK answers or throws, whatever
    callbacks and calls of other threads arrive and however they interleave with
    the worker, every event of a run has its cause earlier in the run. A
    non-zero move carries the clamped value of an accepted velocity command no
    older than the deadman, handed out by the safety gate in the worker's
    preceding step; a zero move follows a stop, an emergency stop or a non-zero
    move; a mode command is the damping of a stop or the mode of a request the
    gate accepted; an authority command was requested. Claim C1. *)
Theorem every_actuation_has_a_cause config observer oracle fuel now w :
  initial_world config now = Some w ->
  justified_trace (deadman_ms config) (trace (worker_main config observer oracle fuel w).2).
Proof. apply run_justified. Qed.

(** The driver does not actuate by itself: connecting, subscribing, polling,
    reconnecting and failing never move the robot, change its mode or take
    control; before any such SDK call some caller has asked for something
    (a velocity, an emergency stop, a mode, authority, or the final stop). *)
Theorem no_actuation_before_a_call config observer oracle fuel now w l c tr :
  initial_world config now = Some w ->
  trace (worker_main config observer oracle fuel w).2 = l ++ EvSdk c :: tr ->
  passive c = false ->
  exists e, e ∈ tr /\ user_event e = true.
Proof.
  intros Hw Ht Hc. pose proof (run_justified config observer oracle fuel now w Hw) as Hj.
  rewrite Ht in Hj. apply justified_suffix in Hj as [He Hj].
  by apply (proj1 (actuation_user _ _ Hj) c).
Qed.

(** ** Witnesses *)

Definition driving_run : outcome unit * world :=
  worker_main sample_config None (scripted 0xB104 drive_script) 1000 sample_world.

Lemma every_actuation_has_a_cause_witness :
  initial_world sample_config 0 = Some sample_world /\
  existsb (fun e => match e with EvSdk (CallMove v _) => nonzero v | _ => false end)
    (trace driving_run.2) = true /\
  justified_trace (milliseconds 100) (trace driving_run.2).
Proof.
  split; [reflexivity|]. split; [vm_compute; reflexivity|].
  apply (every_actuation_has_a_cause sample_config None (scripted 0xB104 drive_script) 1000 0).
  reflexivity.
Defined.

(** The mode command of the sample run. *)
Lemma no_actuation_before_a_call_witness :
  exists e, e ∈ skipn 56 (trace driving_run.2) /\ user_event e = true.
Proof.
  apply (no_actuation_before_a_call sample_config None (scripted 0xB104 drive_script) 1000 0
    sample_world (firstn 55 (trace driving_run.2)) (CallSetMode 0xA104 5000)).
  - reflexivity.
  - vm_compute. reflexivity.
  - reflexivity.
Defined.
