(* ===== verification/RuntimeInputs.v ===== *)
(** * RuntimeInputs: whatever was asked of the runtime was asked by its environment

    The calls and velocities a run records are actions of the environment: nothing
    in the worker makes them up.  [kept] is the closure condition of assertions that
    only an action of the environment can break, [holds_through] says that a member
    of the worker does not break them. *)

From S2P Require Import Prelude Cxx ThreadSafeQueue RobotController NetworkPreflight.
From S2P Require Import SdkTypes RuntimeState RuntimeWorker RuntimeSafety.
#[local] Open Scope rt_scope.

(** What a caller did. *)
Definition input_event (e : event) : bool :=
  match e with EvApi _ _ | EvVelocity _ _ | EvStop => true | _ => false end.

(** The trace grows by events that are not inputs, and nothing is blocked. *)
Definition no_input (w w' : world) : Prop :=
  exists pre, trace w' = pre ++ trace w /\ forallb (fun e => negb (input_event e)) pre = true /\
    stops_waiting w' = stops_waiting w.

#[export] Instance no_input_preorder : PreOrder no_input.
Proof.
  split.
  - intros w. by exists [].
  - intros w1 w2 w3 (p1 & H1 & E1 & S1) (p2 & H2 & E2 & S2). exists (p2 ++ p1).
    rewrite H2, H1, S2, S1, forallb_app, E1, E2. by rewrite app_assoc.
Qed.

Section Inputs.
  Context (config : RuntimeConfig) (observer : option (observer_event -> bool)).
  Context (oracle : nat -> env_step).

(** Some step of the environment takes the action. *)
Definition taken (a : action) : Prop := exists n d, (d, a) ∈ es_actions (oracle n).

(** The action behind an input. *)
Definition given (e : event) : Prop :=
  match e with
  | EvApi _ a => taken (ActCall a)
  | EvVelocity _ p => exists v, taken (ActVelocity v) /\ p = mkVelocity (v_vx v) (v_vy v) (v_vyaw v)
  | EvStop => taken ActStop
  | _ => True
  end.

Definition inputs_given (w : world) : Prop :=
  (forall e, e ∈ trace w -> given e) /\ ((0 < stops_waiting w)%nat -> taken ActStop).

Lemma no_input_given w w' : no_input w w' -> inputs_given w -> inputs_given w'.
Proof.
  intros (pre & E & Hp & Hw) [H Hs]. split; [|by rewrite Hw].
  intros e He. rewrite E in He. apply elem_of_app in He as [He|He]; [|by apply H].
  rewrite forallb_forall in Hp. apply list_elem_of_In in He. specialize (Hp e He). by destruct e.
Qed.

(** ** The environment *)

Lemma no_input_dispatch e w : no_input w (dispatch_observer_safely observer e w).
Proof. unfold dispatch_observer_safely. env_trace. Qed.

Lemma no_input_promise p r w : no_input w (set_promise p r w).
Proof. unfold set_promise. env_trace. Qed.

Lemma no_input_step_call id c w : no_input w (step_call id c w).
Proof.
  destruct c; cbn [step_call];
    unfold trigger_estop_clear, trigger_estop_mark, request_authority_step,
      request_mode_gate, request_mode_decide, request_mode_enqueue, complete_transition,
      set_promise; env_trace.
Qed.

Lemma emit_given e w : given e -> inputs_given w -> inputs_given (emit e w).
Proof. intros He [H Hs]. split; [|done]. intros e'. cbn. rewrite elem_of_cons. intros [->|]; [done|by apply H]. Qed.

Lemma same_trace_given w w' :
  trace w' = trace w -> stops_waiting w' = stops_waiting w -> inputs_given w -> inputs_given w'.
Proof. unfold inputs_given. by intros -> ->. Qed.

Lemma run_action_given held a w : taken a -> inputs_given w -> inputs_given (run_action observer held a w).
Proof.
  intros Ha H. destruct a as [c|id|v|l au|s|s|]; cbn [run_action].
  - by apply emit_given.
  - repeat case_match; try done. by eapply no_input_given; [apply no_input_step_call|].
  - unfold submit_velocity. destruct (accept_velocity _ _ _) as [d c]. destruct (vd_accepted d); cbn [negb].
    + apply emit_given; [by exists v|]. done.
    + eapply no_input_given; [apply no_input_dispatch|]. done.
  - case_match; [done|]. unfold handle_status. eapply no_input_given; [apply no_input_dispatch|]. by case_match.
  - by eapply no_input_given; [apply no_input_dispatch|].
  - by eapply no_input_given; [apply no_input_dispatch|].
  - case_match; [|by apply emit_given]. split; [apply H|done].
Qed.

Lemma run_step_given held w : inputs_given w -> inputs_given (run_step observer oracle held w).
Proof.
  intros H. unfold run_step. set (s := oracle (position w)).
  assert (Hl : forall l w, (forall a, a ∈ l -> taken a.2) -> inputs_given w -> inputs_given (run_actions observer held l w)).
  { induction l as [|[dt a] l IH]; intros w1 Ha Hw; [done|]. cbn [run_actions fold_left fst snd].
    apply IH; [intros b Hb; apply Ha; by right|]. apply run_action_given; [|done].
    apply (Ha (dt, a)). by left. }
  refine (Hl _ _ _ _).
  - intros [d a] [Ha|Ha]%elem_of_app; [|by exists (position w), d].
    unfold woken_stops in Ha. destruct held; [by apply elem_of_nil in Ha|].
    apply elem_of_replicate in Ha as [[= -> ->] Hn]. apply H. lia.
  - split; [apply H|]. cbn. destruct held; [apply H|lia].
Qed.

(** ** The worker *)

Definition holds_through {A} (m : M A) : Prop := forall w, inputs_given w -> inputs_given (m w).2.

Lemma through_bind {A B} (m : M A) (k : A -> M B) :
  holds_through m -> (forall a, holds_through (k a)) -> holds_through (bind m k).
Proof.
  intros Hm Hk w Hw. specialize (Hm w Hw). unfold bind.
  destruct (m w) as [[a|what| |] w']; try done. by apply Hk.
Qed.

Lemma through_try {A} (m : M A) h :
  holds_through m -> (forall what, holds_through (h what)) -> holds_through (try_catch m h).
Proof.
  intros Hm Hh w Hw. specialize (Hm w Hw). unfold try_catch.
  destruct (m w) as [[a|what| |] w']; try done. by apply Hh.
Qed.

Lemma through_ret {A} (a : A) : holds_through (ret a).
Proof. by intros w. Qed.

Lemma through_gets {A} (f : world -> A) : holds_through (gets f).
Proof. by intros w. Qed.

Lemma through_modify f : (forall w, no_input w (f w)) -> holds_through (modify f).
Proof. intros Hf w. apply no_input_given, Hf. Qed.

Lemma through_yield held : holds_through (yield observer oracle held).
Proof. intros w. apply run_step_given. Qed.

Lemma through_atomic {A} held (f : world -> A * world) :
  (forall w, no_input w (f w).2) -> holds_through (atomic observer oracle held f).
Proof.
  intros Hf. apply through_bind; [apply through_yield|]. intros _ w Hw.
  pose proof (no_input_given w (f w).2 (Hf w) Hw). by destruct (f w).
Qed.

Lemma through_emit e : input_event e = false -> holds_through (modify (emit e)).
Proof. intros He. apply through_modify. intros w. exists [e]. cbn. by rewrite He. Qed.

Lemma through_wait deadline pred : holds_through (wait_until observer oracle deadline pred).
Proof.
  intros w Hw. unfold wait_until. destruct (pred w); [done|].
  pose proof (run_step_given false w Hw) as H1. by destruct (pred _).
Qed.

(** A step of the environment whose answer is used. *)
Lemma through_answered {A} (g : env_step -> world -> outcome A * world) :
  (forall s w, no_input w (g s w).2) ->
  holds_through (fun w => g (oracle (position w)) (run_step observer oracle false w)).
Proof. intros Hg w Hw. eapply no_input_given; [apply Hg|]. by apply run_step_given. Qed.

Lemma through_sdk_call c : holds_through (sdk_call observer oracle c).
Proof.
  apply through_bind; [apply through_yield|]. intros _. apply through_bind; [by apply through_emit|]. intros _.
  apply (through_answered (fun s w' => match es_answer s with Answer _ => (Ret s, w') | Raise what => (Throw what, w') end)).
  intros s w. by destruct (es_answer s).
Qed.

Lemma through_preflight e : holds_through (preflight_check observer oracle e).
Proof.
  apply through_bind; [apply through_yield|]. intros _. apply through_bind; [by apply through_emit|]. intros _.
  apply (through_answered (fun s w' => match es_answer s with
    | Answer _ => (Ret (es_network s), emit (EvNetwork (es_network s)) w')
    | Raise what => (Throw what, w') end)).
  intros s w. destruct (es_answer s); [|done]. by exists [EvNetwork (es_network s)].
Qed.

Lemma through_dispatch e : holds_through (modify (dispatch_observer_safely observer e)).
Proof. apply through_modify, no_input_dispatch. Qed.

Lemma through_answer p r : holds_through (answer p r).
Proof. apply through_modify, no_input_promise. Qed.
End Inputs.

Create HintDb inputs.
#[export] Hint Resolve through_yield through_wait through_dispatch through_answer through_ret
  through_gets through_sdk_call through_preflight : inputs.
#[export] Hint Extern 1 (holds_through _ (atomic _ _ _ _)) =>
  (apply through_atomic; intros ?; cbn; repeat case_match; env_trace) : inputs.
#[export] Hint Extern 1 (holds_through _ (modify (set_rt _))) => (apply through_modify; intros ?; by exists []) : inputs.
#[export] Hint Extern 1 (holds_through _ (modify (emit _))) => (apply through_emit; done) : inputs.
#[export] Hint Extern 1 (holds_through _ out_of_fuel) => (intros ? ?; assumption) : inputs.
#[export] Hint Extern 1 (holds_through _ undefined) => (intros ? ?; assumption) : inputs.

(** Takes a member of the worker apart. *)
Ltac input_steps :=
  repeat first
    [ progress cbv beta zeta
    | match goal with
      | |- forall _, _ => intro
      | |- holds_through _ (if ?b then _ else _) => destruct b
      | |- holds_through _ (match ?x with _ => _ end) => destruct x
      end
    | solve [eauto 2 with inputs]
    | match goal with
      | |- holds_through _ (bind _ _) => apply through_bind
      | |- holds_through _ (try_catch _ _) => apply through_try
      end ].

Section Members.
  Context (config : RuntimeConfig) (observer : option (observer_event -> bool)).
  Context (oracle : nat -> env_step).
  #[local] Abbreviation holds_through := (holds_through oracle).

Lemma through_sdk c : holds_through (sdk observer oracle c).
Proof. unfold sdk. input_steps. Qed.

Lemma through_snapshot : holds_through (sdk_snapshot observer oracle).
Proof. unfold sdk_snapshot. input_steps. Qed.

Lemma through_deinit : holds_through (sdk_deinit observer oracle).
Proof. unfold sdk_deinit. input_steps. Qed.

Lemma through_notify severity message : holds_through (notify observer severity message).
Proof. unfold notify. apply through_dispatch. Qed.
#[local] Hint Resolve through_sdk through_snapshot through_deinit through_notify : inputs.

Lemma through_drain fuel held r : holds_through (drain_commands observer oracle fuel held r).
Proof. induction fuel; cbn [drain_commands]; unfold try_pop, controller_op; input_steps. Qed.

Lemma through_fail held r b : holds_through (fail_mode_transition observer oracle held r b).
Proof. unfold fail_mode_transition, deactivate_transition, controller_op. input_steps. Qed.

Lemma through_settle : holds_through (settle_mode_transition_timeout observer oracle).
Proof. unfold settle_mode_transition_timeout, deactivate_transition, controller_op. input_steps. Qed.

Lemma through_send_zero : holds_through (send_zero_and_damping config observer oracle).
Proof. unfold send_zero_and_damping. input_steps. Qed.

Lemma through_invalidate : holds_through (invalidate_session observer oracle).
Proof. unfold invalidate_session, controller_op. input_steps. Qed.

Lemma through_backoff b : holds_through (wait_backoff config observer oracle b).
Proof. unfold wait_backoff. input_steps. Qed.

Lemma through_stopping : holds_through (stopping observer oracle).
Proof. unfold stopping. input_steps. Qed.
#[local] Hint Resolve through_drain through_fail through_settle through_send_zero through_invalidate
  through_backoff through_stopping : inputs.

Lemma through_orphan : holds_through (abort_orphan_transition observer oracle).
Proof. unfold abort_orphan_transition, mode_transition_pending. input_steps. Qed.

Lemma through_check s now : holds_through (check_mode_transition observer oracle s now).
Proof.
  unfold check_mode_transition, mode_transition_pending, deactivate_transition, controller_op. input_steps.
Qed.

Lemma through_fail_all fuel : holds_through (fail_all_pending_locked observer oracle fuel).
Proof. unfold fail_all_pending_locked. input_steps. Qed.

Lemma through_estop fuel : holds_through (handle_estop_if_requested config observer oracle fuel).
Proof. unfold handle_estop_if_requested, controller_op, actuation_allowed. input_steps. Qed.

Lemma through_command c : holds_through (execute_command config observer oracle c).
Proof.
  unfold execute_command, execute_authority, execute_mode, zero_before_mode, command_exception,
    deactivate_transition, clock_now, controller_op. input_steps.
Qed.

Lemma through_end : holds_through (end_if_requested config observer oracle).
Proof. unfold end_if_requested, actuate_stop_if_authorized, actuation_allowed. input_steps. Qed.
#[local] Hint Resolve through_orphan through_check through_fail_all through_estop through_command through_end : inputs.

Lemma through_read_tick : holds_through (read_tick observer oracle).
Proof. apply through_atomic. intros w. by eexists [_]. Qed.
#[local] Hint Resolve through_read_tick : inputs.

Lemma through_loop_body fuel ls : holds_through (loop_body config observer oracle fuel ls).
Proof.
  unfold loop_body, wait_for_work, clock_now, next_command, try_pop, take_motion_request,
    heartbeat_tick, motion_tick, settle_expired, state_poll, apply_snapshot, arm_readiness,
    controller_op. input_steps.
Qed.
#[local] Hint Resolve through_loop_body : inputs.

Lemma through_connected fuel ls : holds_through (connected_loop config observer oracle fuel ls).
Proof. revert ls. induction fuel; intros ls; cbn [connected_loop]; input_steps. Qed.
#[local] Hint Resolve through_connected : inputs.

Lemma through_session fuel : holds_through (session config observer oracle fuel).
Proof. unfold session, run_connected_loop, clock_now. input_steps. Qed.
#[local] Hint Resolve through_session : inputs.

Lemma through_attempt fuel backoff : holds_through (attempt config observer oracle fuel backoff).
Proof. unfold attempt, failed_attempt, subscribe_telemetry. input_steps. Qed.
#[local] Hint Resolve through_attempt : inputs.

Lemma through_worker_loop fuel backoff : holds_through (worker_loop config observer oracle fuel backoff).
Proof. revert backoff. induction fuel; intros backoff; cbn [worker_loop]; input_steps. Qed.

(** Every call, velocity and stop of a run is an action of its environment. *)
Lemma run_inputs_given fuel now w :
  initial_world config now = Some w ->
  inputs_given oracle (worker_main config observer oracle fuel w).2.
Proof.
  intros Hw. apply through_worker_loop. unfold initial_world in Hw. case_match; simplify_eq.
  split; [|cbn; lia]. intros e He. cbn in He. by apply elem_of_nil in He.
Qed.
End Members.
