(* ===== verification/NodeDrive.v ===== *)
(** * NodeDrive: from the node's topics and services to the robot

    The node of [NodeOutputs] and the runtime together: the outputs of the node have
    their inputs ([NodeCauses]), the runtime's environment does what the node tells
    it, and so whatever moves the robot, switches its mode or takes its control
    was received on a topic or by a service. *)

From S2P Require Import Prelude Cxx LidarParse FrameAssembler DeviceClock NodeConfig NodeBridge NodeOutputs.
From S2P Require Import ThreadSafeQueue RobotController NetworkPreflight.
From S2P Require Import SdkTypes RuntimeState RuntimeWorker RuntimeSamples RuntimeSafety RuntimeInputs NodeCauses.

(** ** The runtime behind the node *)

(** The environment of the runtime asks for what the node told it to. *)
Definition driven_by (outputs : list effect) (oracle : nat -> env_step) : Prop :=
  forall a, taken oracle a ->
    match a with
    | ActVelocity v => SubmitVelocity v ∈ outputs
    | ActCall (ApiMode name) => CallRequestMode name ∈ outputs
    | ActCall (ApiEstop b) => CallTriggerEstop b ∈ outputs
    | ActCall (ApiAuthority b) => NodeBridge.CallRequestAuthority b ∈ outputs
    | _ => True
    end.

(** A twist with this velocity was received on the velocity topic. *)
Definition twist_received (ins : NodeOutputs.event -> Prop) (v : Velocity) : Prop :=
  exists x y z, ins (OnCmdVel x y z) /\ forallb isfinite [x; y; z] = true /\
    v = mkVel (clamp_unit (f32_of_f64 x)) (clamp_unit (f32_of_f64 y)) (clamp_unit (f32_of_f64 z)).

Definition mode_received (ins : NodeOutputs.event -> Prop) (m : Z) : Prop :=
  exists data, ins (OnRobotMode data) /\ find_mode kModes (normalized_mode (trimmed_lower data)) = Some m.

Definition estop_received (ins : NodeOutputs.event -> Prop) : Prop :=
  exists answer now, ins (OnEmergencyStop true answer now).

Definition authority_received (ins : NodeOutputs.event -> Prop) (b : bool) : Prop :=
  exists answer now, ins (OnControlAuthority b answer now).

(** What an actuating call of the SDK goes back to. *)
Definition ordered_by (ins : NodeOutputs.event -> Prop) (oracle : nat -> env_step) (c : SdkCall) : Prop :=
  match c with
  | CallMove v _ => if nonzero v then twist_received ins v else
      taken oracle ActStop \/ estop_received ins \/ exists u, nonzero u = true /\ twist_received ins u
  | CallSetMode m _ => mode_received ins m \/ m = 0xA101 /\ (taken oracle ActStop \/ estop_received ins)
  | CallRequestAuthority b _ => authority_received ins b
  | _ => True
  end.

Section Drive.
  Context (r : resolved) (ins : NodeOutputs.event -> Prop) (outputs : list effect) (oracle : nat -> env_step).
  Context (Hcauses : forall e, e ∈ outputs -> exists ev, ins ev /\ caused_by r ev e).
  Context (Hdriven : driven_by outputs oracle).

Lemma velocity_ordered v : taken oracle (ActVelocity v) -> twist_received ins v.
Proof.
  intros Ht. destruct (Hcauses _ (Hdriven _ Ht)) as (ev & Hin & x & y & z & -> & Hf & Hv). by exists x, y, z.
Qed.

Lemma estop_ordered : taken oracle (ActCall (ApiEstop true)) -> estop_received ins.
Proof.
  intros Ht. destruct (Hcauses _ (Hdriven _ Ht)) as (ev & Hin & answer & now & ->). by exists answer, now.
Qed.

Lemma authority_ordered b : taken oracle (ActCall (ApiAuthority b)) -> authority_received ins b.
Proof.
  intros Ht. destruct (Hcauses _ (Hdriven _ Ht)) as (ev & Hin & answer & now & ->). by exists answer, now.
Qed.

(** The gate does not change a clamped velocity. *)
Lemma twist_unclamped v :
  twist_received ins v ->
  to_velocity (clamp_velocity (mkVelocity (v_vx v) (v_vy v) (v_vyaw v))) = v.
Proof.
  intros (x & y & z & _ & Hf & ->). cbn in Hf. bool_prop.
  destruct (clamped_velocity_ok x y z) as (_ & _ & Hclamp); [done..|]. by rewrite Hclamp.
Qed.

Section Trace.
  Context (deadman : Z) (tr : list event).
  Context (Hjust : justified_trace deadman tr) (Hgiven : forall e, e ∈ tr -> given oracle e).

Lemma stop_ordered : stop_wanted tr -> taken oracle ActStop \/ estop_received ins.
Proof. intros [H|[id H]]; apply Hgiven in H; [by left|right; by apply estop_ordered]. Qed.

Lemma move_ordered v tr' : (forall e, e ∈ tr' -> e ∈ tr) -> tick_move deadman v tr' -> twist_received ins v.
Proof.
  intros Hsub (pre & t & c & post & t0 & v0 & -> & _ & _ & _ & Hin & _ & ->).
  destruct (Hgiven (EvVelocity t0 v0)) as (u & Ht & ->).
  { apply Hsub. apply elem_of_app. right. by right. }
  pose proof (velocity_ordered u Ht) as Hu. by rewrite (twist_unclamped u Hu).
Qed.

Lemma mode_ordered id m : EvModeAccepted id m ∈ tr -> mode_received ins m.
Proof.
  intros Hin. apply list_elem_of_split in Hin as (l1 & l2 & ->).
  pose proof (justified_suffix _ _ _ Hjust) as [(name & c & now & Hapi & _ & Hacc & Hm) _].
  assert (Ht : given oracle (EvApi id (ApiMode name))).
  { apply Hgiven, elem_of_app. right. by right. }
  destruct (Hcauses _ (Hdriven _ Ht)) as (ev & Hev & data & -> & ->). exists data. split; [done|].
  revert Hacc Hm. unfold request_mode. destruct (find_mode kModes _) as [m'|]; [|done].
  repeat case_match; cbn; try done; by intros _ ->.
Qed.
End Trace.

Lemma actuation_ordered deadman tr c :
  justified_trace deadman tr -> (forall e, e ∈ tr -> given oracle e) ->
  EvSdk c ∈ tr -> ordered_by ins oracle c.
Proof.
  intros Hj Hg Hc. apply list_elem_of_split in Hc as (l1 & l2 & ->).
  pose proof (justified_suffix _ _ _ Hj) as [He Hj'].
  assert (Hg' : forall e, e ∈ l2 -> given oracle e).
  { intros e Hin. apply Hg, elem_of_app. right. by right. }
  destruct c as [| |t|b t|f t|f t|f t|v t|m t|]; try exact Logic.I; cbn in He |- *.
  - destruct He as [id Hid]. by apply authority_ordered, (Hg' (EvApi id (ApiAuthority b))).
  - destruct (nonzero v) eqn:Hv; [by apply (move_ordered deadman l2 Hg' v l2)|].
    destruct He as [He|(u & t' & Hin & Hu)].
    + destruct (stop_ordered l2 Hg' He); auto.
    + right. right. exists u. split; [done|].
      apply list_elem_of_split in Hin as (l3 & l4 & ->).
      pose proof (justified_suffix _ _ _ Hj') as [He _]. cbn in He. rewrite Hu in He.
      apply (move_ordered deadman (l3 ++ EvSdk (CallMove u t') :: l4) Hg' u l4); [|done].
      intros e Hin. apply elem_of_app. right. by right.
  - destruct He as [[-> He]|[id He]]; [right; split; [done|by apply (stop_ordered l2)]|left].
    by apply (mode_ordered deadman l2 Hj' Hg' id).
Qed.
End Drive.

(** ** Theorem *)

(** From the topics to the wheels: let the node handle any inputs in any
    interleaving, and let the runtime's environment, whatever else it does, submit
    only velocities and make only calls that the node told it to.  Then in every run
    of the worker every nonzero move sent to the SDK is the narrowed and clamped value of a
    finite twist received on the velocity topic, every mode command is that of a
    name received on the mode topic, or the damping of an emergency stop received by
    the service or of the final stop, every authority command was received by its
    service, and a zero move follows such a stop or such a twist.  Claim C2. *)
Theorem robot_obeys_the_topics sin cos p r ls s config observer oracle fuel now w :
  NodeOutputs.run sin cos p r ls start = Some s ->
  driven_by (NodeOutputs.trace s) oracle ->
  initial_world config now = Some w ->
  forall c, EvSdk c ∈ trace (worker_main config observer oracle fuel w).2 ->
    ordered_by (fun ev => Spawn ev ∈ ls) oracle c.
Proof.
  intros Hnode Hdr Hw c Hc. destruct (accounted_run sin cos p r ls s Hnode) as [Hcauses _].
  apply (actuation_ordered r _ (NodeOutputs.trace s) oracle Hcauses Hdr (deadman_ms config)
    (trace (worker_main config observer oracle fuel w).2)); [|by apply (run_inputs_given config observer oracle fuel now w)|done].
  by apply run_justified with (now := now).
Qed.

(** ** A run: a mode name and a twist *)

Definition topic_inputs : list NodeOutputs.label :=
  [Spawn (OnConstruct 0); Run 0; Run 0; Run 0; Spawn (OnRobotMode " Move"); Run 1; Run 1;
   Spawn (OnCmdVel (f64_decimal 5 1) fzero fzero); Run 2; Run 2]%nat.

Definition topic_run : option NodeOutputs.system :=
  NodeOutputs.run same same sample_parameters sample_resolved topic_inputs start.

Lemma scripted_taken status script a :
  taken (scripted status script) a -> a = ActStatus true true \/ exists n l, (n, l) ∈ script /\ a ∈ l.
Proof.
  intros (n & d & Ha). unfold scripted, calm in Ha. cbn [es_actions] in Ha.
  apply list_elem_of_fmap in Ha as (b & [= -> ->] & Hb). apply elem_of_app in Hb as [Hb|Hb].
  - left. destruct (decide _); [by apply list_elem_of_singleton in Hb|by apply elem_of_nil in Hb].
  - right. apply list_elem_of_In, in_concat in Hb as (l & Hl & Hin).
    apply in_map_iff in Hl as ([n' l'] & <- & Hl). apply list_elem_of_In, list_elem_of_filter in Hl as [_ Hl].
    exists n', l'. split; [done|]. by apply list_elem_of_In.
Qed.

(** The node's outputs allow the actions of a script. *)
Definition allowed (outputs : list effect) (a : action) : bool :=
  match a with
  | ActVelocity v => existsb (fun e => match e with SubmitVelocity u => bool_decide (u = v) | _ => false end) outputs
  | ActCall (ApiMode name) => existsb (fun e => match e with CallRequestMode n => bool_decide (n = name) | _ => false end) outputs
  | ActCall _ => false
  | _ => true
  end.

Lemma scripted_driven status script outputs :
  forallb (fun e => forallb (allowed outputs) e.2) script = true -> driven_by outputs (scripted status script).
Proof.
  intros H a Ha. apply scripted_taken in Ha as [->|(n & l & Hin & Hl)]; [done|].
  rewrite forallb_forall in H. apply list_elem_of_In in Hin. specialize (H _ Hin). cbn in H.
  rewrite forallb_forall in H. apply list_elem_of_In in Hl. specialize (H _ Hl).
  destruct a as [[| |name]| |v| | | |]; try done; cbn in H; apply existsb_exists in H as (e & He & Hx);
    destruct e; try done; apply bool_decide_eq_true in Hx; subst; by apply list_elem_of_In.
Qed.

Lemma robot_obeys_the_topics_witness :
  existsb (fun e => match e with EvSdk (CallMove v _) => nonzero v | _ => false end) (trace driving_run.2) = true /\
  forall c, EvSdk c ∈ trace driving_run.2 ->
    ordered_by (fun ev => Spawn ev ∈ topic_inputs) (scripted 0xB104 drive_script) c.
Proof.
  assert (H : exists s, topic_run = Some s /\
    forallb (fun e => forallb (allowed (NodeOutputs.trace s)) e.2) drive_script = true).
  { eexists. split; vm_compute; reflexivity. }
  destruct H as (s & Hrun & Hscript). split; [vm_compute; reflexivity|]. unfold driving_run.
  apply (robot_obeys_the_topics same same sample_parameters sample_resolved topic_inputs s sample_config
    None (scripted 0xB104 drive_script) 1000 0 sample_world).
  - exact Hrun.
  - exact (scripted_driven _ _ _ Hscript).
  - reflexivity.
Defined.
