(* ===== verification/RuntimeLogic.v ===== *)
(** * RuntimeLogic: a program logic for the worker

    Total-correctness triples over [world] for the worker's monad, and the class
    of assertions the environment and the worker's private bookkeeping keep, so
    that most operations of the worker need one line each. *)

From S2P Require Import Prelude Cxx ThreadSafeQueue RobotController NetworkPreflight.
From S2P Require Import SdkTypes RuntimeState RuntimeWorker.
#[local] Open Scope rt_scope.

(** What an operation may change without touching the bookkeeping of promises:
    [q], [t] and [a] say whether the queue, the mode transition and the answers
    are kept; the trace only grows. *)
Record sim (q t a : bool) (w w' : world) : Prop := {
  sim_position : (position w <= position w')%nat;
  sim_stop : stop_requested_ (rt w') = stop_requested_ (rt w);
  sim_connected : connected_ (rt w') = connected_ (rt w);
  sim_engaged : estop_engaged_ (rt w') = estop_engaged_ (rt w);
  sim_estop : estop_promise_ (rt w') = estop_promise_ (rt w);
  sim_queue : q = true -> command_queue_ (rt w') = command_queue_ (rt w);
  sim_transition : t = true -> mode_transition_ (rt w') = mode_transition_ (rt w);
  sim_calls : calls w' = calls w;
  sim_next : next_id w' = next_id w;
  sim_promises : promises w ⊆ promises w';
  sim_answers : a = true -> promises w' = promises w;
  sim_trace : exists pre, trace w' = pre ++ trace w }.

(** The environment has taken no step in between. *)
Definition still (q t a : bool) (w w' : world) : Prop :=
  sim q t a w w' /\ position w' = position w /\ stops_waiting w' = stops_waiting w.

Ltac solve_sim :=
  match goal with |- still _ _ _ _ _ => split; [|by split] | _ => idtac end;
  split; cbn; auto; first [done | by exists [] | by eexists [_] | by eexists [_; _]].

Section Logic.
  Context (config : RuntimeConfig) (observer : option (observer_event -> bool)).
  Context (oracle : nat -> env_step).

(** An assertion other threads and unrelated changes of the worker keep. *)
Class Keeps (q t a : bool) (P : world -> Prop) : Prop := {
  keeps_step : forall held w, P w -> P (run_step observer oracle held w);
  keeps_still : forall w w', still q t a w w' -> P w -> P w' }.

Lemma run_actions_keeps (P : world -> Prop) held l w :
  (forall held a w, P w -> P (run_action observer held a w)) -> (forall d w, P w -> P (advance d w)) ->
  P w -> P (run_actions observer held l w).
Proof.
  intros He Ha. revert w. unfold run_actions. induction l as [|[dt a] l IH]; intros w H; [done|].
  cbn [fold_left]. by apply IH, He, Ha.
Qed.

(** An assertion that every action of another thread keeps and that does not depend on
    how late it is. *)
Lemma keeps_actions q t a (P : world -> Prop) :
  (forall held a w, P w -> P (run_action observer held a w)) ->
  (forall w w', sim q t a w w' -> P w -> P w') -> Keeps q t a P.
Proof.
  intros He Hs. split; [|intros w w' [H _]; by apply Hs].
  intros held w H. unfold run_step. apply (Hs (run_actions observer held (woken_stops held w ++ es_actions (oracle (position w))) (next_position held w))); [solve_sim|].
  apply run_actions_keeps; [done|intros d w1; apply Hs; solve_sim|]. revert H. apply Hs. solve_sim.
Qed.

#[local] Abbreviation Neutral := (Keeps true true true).

Lemma sim_weaken q t a q' t' a' w w' :
  sim q t a w w' -> (q' = true -> q = true) -> (t' = true -> t = true) ->
  (a' = true -> a = true) -> sim q' t' a' w w'.
Proof. intros [] ???. split; auto. Qed.

Lemma keeps_weaken q t a q' t' a' P :
  Keeps q t a P -> (q = true -> q' = true) -> (t = true -> t' = true) ->
  (a = true -> a' = true) -> Keeps q' t' a' P.
Proof.
  intros [He Hs] Hq Ht Ha. split; [done|]. intros w w' [H1 H2]. apply Hs. split; [|done]. by eapply sim_weaken.
Qed.

#[export] Instance keeps_and q t a P Q :
  Keeps q t a P -> Keeps q t a Q -> Keeps q t a (fun w => P w /\ Q w).
Proof.
  intros [] []. split; [|intros w w' Hs]; intros; (split; [naive_solver|]); destruct_and?; eauto.
Qed.
#[export] Instance keeps_True q t a : Keeps q t a (fun _ => True).
Proof. by split. Qed.

(** ** Triples *)

(** What holds when a loop runs out of fuel: [False] for total correctness, an
    assertion on the state reached so far otherwise. *)
Context (fuel_ok : world -> Prop).

Definition triple {A} (P : world -> Prop) (m : M A) (Q : A -> world -> Prop)
  (E : world -> Prop) : Prop :=
  forall w, P w ->
    match m w with
    | (Ret a, w') => Q a w'
    | (Throw _, w') => E w'
    | (Undefined, _) => False
    | (OutOfFuel, w') => fuel_ok w'
    end.

(** The usual case: the assertion is kept, exceptions included. *)
Definition keeps {A} (P : world -> Prop) (m : M A) : Prop := triple P m (fun _ => P) P.

Lemma triple_ret {A} (P : world -> Prop) (a : A) (Q : A -> world -> Prop) E :
  (forall w, P w -> Q a w) -> triple P (ret a) Q E.
Proof. intros H w. apply H. Qed.

Lemma triple_bind {A B} P (m : M A) (k : A -> M B) R (Q : B -> world -> Prop) E :
  triple P m R E -> (forall a, triple (R a) (k a) Q E) -> triple P (bind m k) Q E.
Proof.
  intros Hm Hk w Hw. specialize (Hm w Hw). unfold bind.
  destruct (m w) as [[a|what| |] w']; try done. exact (Hk a w' Hm).
Qed.

Lemma triple_weaken {A} P P' (m : M A) (Q Q' : A -> world -> Prop) (E E' : world -> Prop) :
  triple P m Q E -> (forall w, P' w -> P w) -> (forall a w, Q a w -> Q' a w) ->
  (forall w, E w -> E' w) -> triple P' m Q' E'.
Proof.
  intros Hm HP HQ HE w Hw. specialize (Hm w (HP w Hw)).
  destruct (m w) as [[a|what| |] w']; auto.
Qed.

Lemma triple_try {A} P (m : M A) h (Q : A -> world -> Prop) R E :
  triple P m Q R -> (forall what, triple R (h what) Q E) -> triple P (try_catch m h) Q E.
Proof.
  intros Hm Hh w Hw. specialize (Hm w Hw). unfold try_catch.
  destruct (m w) as [[a|what| |] w']; try done. exact (Hh what w' Hm).
Qed.

Lemma triple_pre {A} P P' (m : M A) (Q : A -> world -> Prop) E :
  triple P m Q E -> (forall w, P' w -> P w) -> triple P' m Q E.
Proof. intros H HP. by eapply triple_weaken. Qed.

Lemma triple_keep {A} P (m : M A) (E : world -> Prop) :
  keeps P m -> (forall w, P w -> E w) -> triple P m (fun _ => P) E.
Proof. intros H HE. by eapply triple_weaken. Qed.

(** The kept part first: [bind] of an operation that keeps the precondition. *)
Lemma triple_seq {A B} P (m : M A) (k : A -> M B) (Q : B -> world -> Prop) (E : world -> Prop) :
  keeps P m -> (forall w, P w -> E w) -> (forall a, triple P (k a) Q E) ->
  triple P (bind m k) Q E.
Proof. intros Hm HE Hk. eapply triple_bind; [by apply triple_keep|done]. Qed.

(** The result of the first part does not matter for the assertion. *)
Lemma triple_then {A B} P (m : M A) (k : A -> M B) (R : world -> Prop) (Q : B -> world -> Prop) E :
  triple P m (fun _ => R) E -> (forall a, triple R (k a) Q E) -> triple P (bind m k) Q E.
Proof. intros Hm Hk. by eapply triple_bind. Qed.

Lemma triple_modify P f (Q : world -> Prop) E :
  (forall w, P w -> Q (f w)) -> triple P (modify f) (fun _ => Q) E.
Proof. intros H w. apply H. Qed.

Lemma triple_gets {A} P (f : world -> A) (Q : A -> world -> Prop) E :
  (forall w, P w -> Q (f w) w) -> triple P (gets f) Q E.
Proof. intros H w. apply H. Qed.

(** Reading private state: what was read is still there. *)
Lemma triple_gets_bind {A B} P (f : world -> A) (k : A -> M B) (Q : B -> world -> Prop) E :
  (forall a, triple (fun w => P w /\ f w = a) (k a) Q E) -> triple P (bind (gets f) k) Q E.
Proof.
  intros H. eapply triple_bind; [apply (triple_gets _ _ (fun a w => P w /\ f w = a)); auto|done].
Qed.

Lemma triple_if {A} P (b : bool) (m1 m2 : M A) (Q : A -> world -> Prop) E :
  (b = true -> triple P m1 Q E) -> (b = false -> triple P m2 Q E) ->
  triple P (if b then m1 else m2) Q E.
Proof. destruct b; auto. Qed.

(** ** Neutral operations *)

Section NeutralOps.
  Context (P : world -> Prop) {HP : Neutral P}.

Lemma sim_keeps w w' : still true true true w w' -> P w -> P w'.
Proof. apply keeps_still. Qed.

Lemma run_step_keeps held w : P w -> P (run_step observer oracle held w).
Proof. apply keeps_step. Qed.

Lemma neutral_yield held : keeps P (yield observer oracle held).
Proof. intros w H. by apply run_step_keeps. Qed.

Lemma neutral_modify f : (forall w, still true true true w (f w)) -> keeps P (modify f).
Proof. intros Hf w H. by apply (sim_keeps w). Qed.

Lemma neutral_gets {A} (f : world -> A) : keeps P (gets f).
Proof. by intros w. Qed.

Lemma triple_atomic {A} held (f : world -> A * world) (Q : A -> world -> Prop) E :
  (forall w, P w -> Q (f w).1 (f w).2) -> triple P (atomic observer oracle held f) Q E.
Proof.
  intros H w Hw. unfold atomic, bind, yield, modify.
  pose proof (H _ (run_step_keeps held w Hw)) as H'. by destruct (f _).
Qed.

Lemma neutral_atomic {A} held (f : world -> A * world) :
  (forall w, still true true true w (f w).2) -> keeps P (atomic observer oracle held f).
Proof. intros Hf. apply triple_atomic. intros w H. by apply (sim_keeps w). Qed.

Lemma sim_dispatch e w : sim true true true w (dispatch_observer_safely observer e w).
Proof. unfold dispatch_observer_safely. repeat case_match; solve_sim. Qed.

Lemma sim_set_promise p r w : sim true true false w (set_promise p r w).
Proof.
  unfold set_promise. case_match; split; cbn; try done; try (by exists []).
  by apply insert_subseteq.
Qed.

Lemma neutral_dispatch e : keeps P (modify (dispatch_observer_safely observer e)).
Proof.
  apply neutral_modify. intros w. split; [apply sim_dispatch|].
  unfold dispatch_observer_safely. by repeat case_match.
Qed.

Lemma still_set_promise p r w : still true true false w (set_promise p r w).
Proof. split; [apply sim_set_promise|]. unfold set_promise. by case_match. Qed.

Lemma neutral_notify s m : keeps P (notify observer s m).
Proof. apply neutral_dispatch. Qed.

Lemma neutral_answer {HPa : Keeps true true false P} p r : keeps P (answer p r).
Proof.
  intros w H. unfold answer, modify. exact (keeps_still w _ (still_set_promise p r w) H).
Qed.

Lemma sim_controller f w : sim true true true w (set_controller f w).
Proof. solve_sim. Qed.

Lemma still_controller f w : still true true true w (set_controller f w).
Proof. solve_sim. Qed.

Lemma neutral_controller held f : keeps P (controller_op observer oracle held f).
Proof. apply neutral_atomic. intros w. apply still_controller. Qed.

Lemma neutral_read {A} held (f : world -> A) : keeps P (atomic observer oracle held (fun w => (f w, w))).
Proof. apply neutral_atomic. intros w. solve_sim. Qed.

Lemma neutral_wait_until deadline pred : keeps P (wait_until observer oracle deadline pred).
Proof.
  intros w H. unfold wait_until. destruct (pred w); [done|].
  pose proof (run_step_keeps false w H) as H1. destruct (pred _); [done|].
  revert H1. apply sim_keeps. solve_sim.
Qed.

Lemma keeps_bind {A B} (m : M A) (k : A -> M B) :
  keeps P m -> (forall a, keeps P (k a)) -> keeps P (bind m k).
Proof. intros Hm Hk. by eapply triple_bind. Qed.

Lemma keeps_ret {A} (a : A) : keeps P (ret a).
Proof. by apply triple_ret. Qed.

(** Reading the environment's answer while the call runs. *)
Lemma neutral_answered {A} (value : env_step -> A) :
  keeps P (fun w =>
    match es_answer (oracle (position w)) with
    | Answer _ => (Ret (value (oracle (position w))), run_step observer oracle false w)
    | Raise what => (Throw what, run_step observer oracle false w)
    end).
Proof. intros w H. destruct (es_answer _); by apply run_step_keeps. Qed.

Lemma sim_emit e w : still true true true w (emit e w).
Proof. solve_sim. Qed.

Lemma neutral_emit e : keeps P (modify (emit e)).
Proof. apply neutral_modify. apply sim_emit. Qed.

Lemma neutral_sdk_call c : keeps P (sdk_call observer oracle c).
Proof.
  apply keeps_bind; [apply neutral_yield|]. intros _. apply keeps_bind; [apply neutral_emit|]. intros _.
  exact (neutral_answered (fun s => s)).
Qed.

Lemma neutral_sdk c : keeps P (sdk observer oracle c).
Proof.
  apply keeps_bind; [apply neutral_sdk_call|]. intros s.
  apply keeps_bind; [apply neutral_emit|]. intros _. apply keeps_ret.
Qed.

Lemma neutral_snapshot : keeps P (sdk_snapshot observer oracle).
Proof.
  apply keeps_bind; [apply neutral_sdk_call|]. intros s.
  apply keeps_bind; [apply neutral_emit|]. intros _. apply keeps_ret.
Qed.

Lemma neutral_deinit : keeps P (sdk_deinit observer oracle).
Proof.
  apply keeps_bind; [apply neutral_yield|]. intros _.
  apply keeps_bind; [apply neutral_emit|]. intros _. apply neutral_yield.
Qed.

Lemma neutral_preflight e : keeps P (preflight_check observer oracle e).
Proof.
  apply keeps_bind; [apply neutral_yield|]. intros _. apply keeps_bind; [apply neutral_emit|]. intros _.
  intros w H. pose proof (run_step_keeps false w H) as H1.
  cbv zeta. destruct (es_answer (oracle (position w))); [|exact H1]. exact (sim_keeps _ _ (sim_emit _ _) H1).
Qed.

End NeutralOps.

Lemma triple_frame {A} P R (m : M A) (Q : A -> world -> Prop) (E : world -> Prop) :
  triple P m Q E -> keeps R m -> triple (fun w => P w /\ R w) m (fun a w => Q a w /\ R w) E.
Proof.
  intros H1 H2 w [Hw Hr]. specialize (H1 w Hw). specialize (H2 w Hr).
  destruct (m w) as [[a|what| |] w']; try done. 
Qed.

End Logic.

(** An assertion with stronger closure properties has the weaker ones. *)
#[export] Hint Extern 3 (Keeps _ _ _ _ _ ?P) =>
  is_var P; match goal with H : Keeps _ _ _ _ _ P |- _ => eapply keeps_weaken; [exact H|done|done|done] end
  : typeclass_instances.

Create HintDb neutral.
#[export] Hint Resolve neutral_yield neutral_gets neutral_dispatch neutral_notify neutral_answer
  neutral_controller neutral_read neutral_wait_until keeps_ret neutral_sdk neutral_snapshot
  neutral_deinit neutral_preflight : neutral.
#[export] Hint Extern 1 (keeps _ _ (modify (set_rt _))) =>
  (eapply neutral_modify; try apply _; intros ?; solve_sim) : neutral.
#[export] Hint Extern 1 (keeps _ _ (atomic _ _ _ _)) =>
  (eapply neutral_atomic; try apply _; intros ?; solve_sim) : neutral.

(** Decomposes an operation every step of which is neutral. *)
Ltac neutral_steps :=
  repeat first
    [ progress cbv beta zeta
    | match goal with
      | |- forall _, _ => intro
      | |- keeps _ _ (if ?b then _ else _) => destruct b
      | |- keeps _ _ (match ?x with _ => _ end) => destruct x
      end
    | solve [eauto 3 with neutral typeclass_instances]
    | match goal with |- keeps _ _ (bind _ _) => apply keeps_bind end ].

Section Operations.
  Context (config : RuntimeConfig) (observer : option (observer_event -> bool)).
  Context (oracle : nat -> env_step) (fuel_ok : world -> Prop).
  Context (P : world -> Prop) {HP : Keeps observer oracle true true true P}.
  #[local] Abbreviation keeps := (keeps fuel_ok P).

(** ** Neutral members of the worker *)

Lemma neutral_stopping : keeps (stopping observer oracle).
Proof. unfold stopping. neutral_steps. Qed.
Lemma neutral_clock : keeps (clock_now observer oracle).
Proof. unfold clock_now. neutral_steps. Qed.
Lemma neutral_pending : keeps (mode_transition_pending observer oracle).
Proof. unfold mode_transition_pending. neutral_steps. Qed.
Lemma neutral_allowed : keeps (actuation_allowed observer oracle).
Proof. unfold actuation_allowed. neutral_steps. Qed.
#[local] Hint Resolve neutral_stopping neutral_clock neutral_pending neutral_allowed : neutral.

Lemma neutral_backoff b : keeps (wait_backoff config observer oracle b).
Proof. unfold wait_backoff. neutral_steps. Qed.

Lemma neutral_send_zero : keeps (send_zero_and_damping config observer oracle).
Proof. unfold send_zero_and_damping. neutral_steps. Qed.
#[local] Hint Resolve neutral_backoff neutral_send_zero : neutral.

Lemma neutral_actuate_stop : keeps (actuate_stop_if_authorized config observer oracle).
Proof. unfold actuate_stop_if_authorized. neutral_steps. Qed.

Lemma neutral_subscribe : keeps (subscribe_telemetry config observer oracle).
Proof. unfold subscribe_telemetry. neutral_steps. Qed.

Lemma neutral_invalidate : keeps (invalidate_session observer oracle).
Proof. unfold invalidate_session. neutral_steps. Qed.
#[local] Hint Resolve neutral_actuate_stop neutral_subscribe neutral_invalidate : neutral.

Lemma neutral_failed_attempt m b : keeps (failed_attempt config observer oracle m b).
Proof. unfold failed_attempt. neutral_steps. Qed.

Lemma neutral_end : keeps (end_if_requested config observer oracle).
Proof. unfold end_if_requested. neutral_steps. Qed.
#[local] Hint Resolve neutral_end : neutral.

Lemma neutral_wait_for_work ls : keeps (wait_for_work config observer oracle ls).
Proof. unfold wait_for_work. neutral_steps. Qed.

Lemma neutral_take : keeps (take_motion_request observer oracle).
Proof. unfold take_motion_request. neutral_steps. Qed.

Lemma neutral_heartbeat now ls : keeps (heartbeat_tick config observer oracle now ls).
Proof. unfold heartbeat_tick. neutral_steps. Qed.

Lemma neutral_read_tick : keeps (read_tick observer oracle).
Proof. unfold read_tick. neutral_steps. Qed.
#[local] Hint Resolve neutral_read_tick : neutral.

Lemma neutral_motion requested now ls : keeps (motion_tick config observer oracle requested now ls).
Proof. unfold motion_tick. neutral_steps. Qed.

Lemma neutral_apply s : keeps (apply_snapshot observer oracle s).
Proof. unfold apply_snapshot. neutral_steps. Qed.

Lemma neutral_arm s : keeps (arm_readiness observer oracle s).
Proof. unfold arm_readiness. neutral_steps. Qed.

End Operations.

#[export] Hint Resolve neutral_stopping neutral_clock neutral_pending neutral_allowed neutral_backoff
  neutral_send_zero neutral_actuate_stop neutral_subscribe neutral_invalidate
  neutral_failed_attempt neutral_end neutral_wait_for_work neutral_take neutral_heartbeat
  neutral_motion neutral_apply neutral_arm : neutral.

(** ** Exceptions

    Only the SDK and the preflight throw. *)

Section Exceptions.
  Context (config : RuntimeConfig) (observer : option (observer_event -> bool)).
  Context (oracle : nat -> env_step).

Definition raised : Prop := exists n what, es_answer (oracle n) = Raise what.

Definition throws {A} (m : M A) : Prop :=
  forall w, match m w with (Throw _, _) => raised | _ => True end.

Lemma throws_bind {A B} (m : M A) (k : A -> M B) :
  throws m -> (forall a, throws (k a)) -> throws (bind m k).
Proof.
  intros Hm Hk w. specialize (Hm w). unfold bind.
  destruct (m w) as [[a|what| |] w']; try done. apply Hk.
Qed.

Lemma throws_try {A} (m : M A) h : (forall what, throws (h what)) -> throws (try_catch m h).
Proof.
  intros Hh w. unfold try_catch. destruct (m w) as [[a|what| |] w']; try done. apply Hh.
Qed.

Lemma throws_atomic {A} held (f : world -> A * world) : throws (atomic observer oracle held f).
Proof. intros w. unfold atomic, bind, yield, modify. by destruct (f _). Qed.

Lemma throws_answer_of {A} (value : env_step -> A) :
  throws (fun w =>
    match es_answer (oracle (position w)) with
    | Answer _ => (Ret (value (oracle (position w))), run_step observer oracle false w)
    | Raise what => (Throw what, run_step observer oracle false w)
    end).
Proof. intros w. destruct (es_answer _) eqn:E; [done|]. by exists (position w), what. Qed.

Lemma throws_wait deadline pred : throws (wait_until observer oracle deadline pred).
Proof. intros w. unfold wait_until. by repeat case_match. Qed.

Lemma throws_sdk_call c : throws (sdk_call observer oracle c).
Proof.
  apply throws_bind; [done|]. intros _. apply throws_bind; [done|]. intros _.
  exact (throws_answer_of (fun s => s)).
Qed.

Lemma throws_preflight e : throws (preflight_check observer oracle e).
Proof.
  apply throws_bind; [done|]. intros _. apply throws_bind; [done|]. intros _ w.
  cbv zeta. destruct (es_answer (oracle (position w))) eqn:E; [done|]. by exists (position w), what.
Qed.

Create HintDb throwing.
#[local] Hint Resolve throws_atomic throws_wait throws_sdk_call throws_preflight : throwing.

Ltac throwing_steps :=
  repeat first
    [ progress cbv beta zeta
    | match goal with
      | |- forall _, throws _ => intro
      | |- throws (if ?b then _ else _) => destruct b
      | |- throws (match ?x with _ => _ end) => destruct x
      | |- throws (bind _ _) => apply throws_bind
      | |- throws (try_catch _ _) => apply throws_try
      end
    | solve [auto 2 with throwing]
    | solve [intros ?; exact I] ].

Lemma throws_drain f held r : throws (drain_commands observer oracle f held r).
Proof. induction f; cbn [drain_commands]; unfold try_pop, controller_op; throwing_steps. Qed.

Lemma throws_fail held r b : throws (fail_mode_transition observer oracle held r b).
Proof. unfold fail_mode_transition, controller_op. throwing_steps. Qed.
#[local] Hint Resolve throws_drain throws_fail : throwing.

Lemma throws_orphan : throws (abort_orphan_transition observer oracle).
Proof. unfold abort_orphan_transition, mode_transition_pending. throwing_steps. Qed.

Lemma throws_settle : throws (settle_mode_transition_timeout observer oracle).
Proof. unfold settle_mode_transition_timeout, controller_op. throwing_steps. Qed.

Lemma throws_send_zero : throws (send_zero_and_damping config observer oracle).
Proof. unfold send_zero_and_damping, sdk. throwing_steps. Qed.
#[local] Hint Resolve throws_orphan throws_settle throws_send_zero : throwing.

Lemma throws_check s now : throws (check_mode_transition observer oracle s now).
Proof. unfold check_mode_transition, mode_transition_pending, controller_op. throwing_steps. Qed.

Lemma throws_estop f : throws (handle_estop_if_requested config observer oracle f).
Proof. unfold handle_estop_if_requested, controller_op, actuation_allowed. throwing_steps. Qed.

Lemma throws_command c : throws (execute_command config observer oracle c).
Proof. unfold execute_command, command_exception, controller_op. throwing_steps. Qed.

Lemma throws_end : throws (end_if_requested config observer oracle).
Proof. unfold end_if_requested, actuate_stop_if_authorized, actuation_allowed. throwing_steps. Qed.
#[local] Hint Resolve throws_check throws_estop throws_command throws_end : throwing.

Lemma throws_loop_body f ls : throws (loop_body config observer oracle f ls).
Proof.
  unfold loop_body, wait_for_work, clock_now, next_command, try_pop, take_motion_request,
    heartbeat_tick, motion_tick, read_tick, settle_expired, state_poll, sdk, sdk_snapshot,
    apply_snapshot, arm_readiness, controller_op. throwing_steps.
Qed.
#[local] Hint Resolve throws_loop_body : throwing.

Lemma throws_connected_loop f : forall ls, throws (connected_loop config observer oracle f ls).
Proof. induction f; intros ls; cbn [connected_loop]; throwing_steps. Qed.
#[local] Hint Resolve throws_connected_loop : throwing.

Lemma throws_invalidate : throws (invalidate_session observer oracle).
Proof. unfold invalidate_session, controller_op. throwing_steps. Qed.

Lemma throws_backoff b : throws (wait_backoff config observer oracle b).
Proof. unfold wait_backoff. throwing_steps. Qed.
#[local] Hint Resolve throws_invalidate throws_backoff : throwing.

Lemma throws_session f : throws (session config observer oracle f).
Proof.
  unfold session, run_connected_loop, clock_now, fail_all_pending_locked, sdk_deinit.
  throwing_steps.
Qed.
#[local] Hint Resolve throws_session : throwing.

Lemma throws_attempt f b : throws (attempt config observer oracle f b).
Proof.
  unfold attempt, failed_attempt, stopping, subscribe_telemetry, sdk, sdk_deinit.
  throwing_steps.
Qed.
#[local] Hint Resolve throws_attempt : throwing.

Lemma throws_worker_loop f : forall b, throws (worker_loop config observer oracle f b).
Proof. induction f; intros b; cbn [worker_loop]; unfold stopping; throwing_steps. Qed.

End Exceptions.
