(* ===== verification/RuntimeOwnership.v ===== *)
(** * RuntimeOwnership: who owes an answer to whom

    Every future a caller holds is answered or owned by a call in progress, a
    queued command, the emergency stop, the armed mode transition, or the
    worker's hands.  The environment keeps this accounting; the moves of the
    worker between owners are the lemmas the worker's proofs use. *)

From S2P Require Import Prelude Cxx ThreadSafeQueue RobotController NetworkPreflight.
From S2P Require Import SdkTypes RuntimeState RuntimeWorker RuntimeLogic.
#[local] Open Scope rt_scope.

(** ** The accounting of promises *)

Definition answered (w : world) (id : nat) : Prop := is_Some (promises w !! id).

Definition in_transition (r : runtime) (id : nat) : Prop :=
  mt_active (mode_transition_ r) = true /\ mt_promise (mode_transition_ r) = id.

(** [hand]: promises the worker holds in local variables. *)
Definition owned (hand : list nat) (w : world) (id : nat) : Prop :=
  answered w id \/ is_Some (calls w !! id) \/ id ∈ promise <$> items (command_queue_ (rt w)) \/
  estop_promise_ (rt w) = Some id \/ in_transition (rt w) id \/ id ∈ hand.

Record sys (cap : nat) (hand : list nat) (w : world) : Prop := {
  sys_owned : forall id, (id < next_id w)%nat -> owned hand w id;
  sys_estop : estop_engaged_ (rt w) = true <-> is_Some (estop_promise_ (rt w));
  sys_capacity : capacity (command_queue_ (rt w)) = cap;
  sys_queue : queue_wf (command_queue_ (rt w));
  sys_policy : policy (command_queue_ (rt w)) = RejectNew }.

(** Nothing is pending outside a session. *)
Definition idle (w : world) : Prop :=
  connected_ (rt w) = false /\ items (command_queue_ (rt w)) = [] /\
  estop_engaged_ (rt w) = false /\ mt_active (mode_transition_ (rt w)) = false.

Section Environment.
  Context (observer : option (observer_event -> bool)) (cap : nat).

(** From [w] to [w'] every owner is kept. *)
Lemma sys_step hand hand' w w' :
  sys cap hand w ->
  (forall id, (id < next_id w')%nat -> (id < next_id w)%nat \/ owned hand' w' id) ->
  (forall id, owned hand w id -> owned hand' w' id) ->
  (estop_engaged_ (rt w') = true <-> is_Some (estop_promise_ (rt w'))) ->
  capacity (command_queue_ (rt w')) = cap ->
  queue_wf (command_queue_ (rt w')) ->
  policy (command_queue_ (rt w')) = RejectNew -> sys cap hand' w'.
Proof.
  intros [] Hn Ho ????. split; auto. intros id Hid. destruct (Hn id Hid); auto.
Qed.

Lemma owned_hand hand hand' w id : hand ⊆ hand' -> owned hand w id -> owned hand' w id.
Proof. unfold owned. set_solver. Qed.

Lemma sys_hand hand hand' w : hand ⊆ hand' -> sys cap hand w -> sys cap hand' w.
Proof.
  intros Hh Hs. pose proof Hs as []. apply (sys_step hand hand' w w Hs); auto.
  intros id. by apply owned_hand.
Qed.

Lemma answered_set p r w : answered (set_promise p r w) p.
Proof.
  unfold answered, set_promise. case_match eqn:E; [by exists r0|]. cbn. rewrite lookup_insert_eq. eauto.
Qed.

Lemma owned_sim a hand w w' id : sim true true a w w' -> owned hand w id -> owned hand w' id.
Proof.
  intros [] H. unfold owned, answered, in_transition in *.
  rewrite sim_calls, (sim_queue eq_refl), sim_estop, (sim_transition eq_refl).
  destruct H as [[r Hr]|H]; [left|by right]. exists r. by eapply lookup_weaken.
Qed.

Lemma sys_sim {a} hand w w' : sim true true a w w' -> sys cap hand w -> sys cap hand w'.
Proof.
  intros Hsim Hs. pose proof Hs as [_ He Hc Hq Hp]. pose proof Hsim as [].
  apply (sys_step hand hand w w' Hs).
  - intros id. rewrite sim_next. auto.
  - intros id. by apply (owned_sim a).
  - by rewrite sim_engaged, sim_estop.
  - by rewrite sim_queue.
  - by rewrite sim_queue.
  - by rewrite sim_queue.
Qed.

Lemma sys_finish hand id w :
  sys cap hand w -> owned hand (finish_call id w) id -> sys cap hand (finish_call id w).
Proof.
  intros Hs Hid. pose proof Hs as []. apply (sys_step hand hand w _ Hs); auto.
  intros id' H. destruct (decide (id' = id)) as [->|Hne]; [done|].
  unfold owned, answered in *. cbn. by rewrite lookup_delete_ne.
Qed.

Lemma sys_answer_finish hand id r w :
  sys cap hand w -> sys cap hand (finish_call id (set_promise id r w)).
Proof.
  intros Hs. apply sys_finish.
  - eapply sys_sim; [by apply sim_set_promise|done].
  - left. apply answered_set.
Qed.

Lemma sys_next hand id c w :
  sys cap hand w -> is_Some (calls w !! id) -> sys cap hand (next_step id c w).
Proof.
  intros Hs Hid. pose proof Hs as []. apply (sys_step hand hand w _ Hs); auto.
  intros id' H. unfold owned, answered in *. cbn.
  destruct (decide (id' = id)) as [->|Hne].
  - rewrite lookup_insert_eq. eauto.
  - by rewrite lookup_insert_ne.
Qed.

Lemma sys_push hand c q w :
  sys cap hand w -> push c (command_queue_ (rt w)) = (true, q) ->
  sys cap hand (set_rt (fun r => r <| command_queue_ := q |>) w) /\
  promise c ∈ promise <$> items q.
Proof.
  intros Hs Hp. pose proof Hs as []. pose proof (push_accepted _ _ _ (sys_policy _ _ _ Hs) Hp) as Hi.
  split; [|rewrite Hi, fmap_app; set_solver].
  apply (sys_step hand hand w _ Hs); cbn; auto.
  - intros id. unfold owned. cbn. rewrite Hi, fmap_app. set_solver.
  - by rewrite (push_capacity _ _ _ _ Hp).
  - by eapply push_wf.
  - by rewrite (push_policy _ _ _ _ Hp).
Qed.

Lemma sys_supersede hand id w :
  sys cap hand w ->
  sys cap hand (set_rt (fun r => r <| estop_engaged_ := true |> <| estop_promise_ := Some id |>)
    (match estop_promise_ (rt w) with
     | Some old => set_promise old (failure kSdkResFailed "emergency stop request superseded") w
     | None => w
     end)).
Proof.
  intros Hs. set (w1 := match estop_promise_ _ with Some _ => _ | None => _ end).
  assert (Hsim : sim true true false w w1).
  { unfold w1. case_match; [apply sim_set_promise|solve_sim]. }
  assert (Hold : forall old, estop_promise_ (rt w) = Some old -> answered w1 old).
  { intros old H. unfold w1. rewrite H. apply answered_set. }
  clearbody w1. pose proof (sys_sim hand w w1 Hsim Hs) as Hs1. pose proof Hs1 as [].
  apply (sys_step hand hand w1 _ Hs1); cbn; auto.
  - intros id'. unfold owned. cbn. intros [H|[H|[H|[H|H]]]]; auto.
    left. apply Hold. by rewrite <- (sim_estop _ _ _ _ _ Hsim).
  - split; eauto.
Qed.

Lemma sys_unmark hand id r w :
  sys cap hand w -> estop_promise_ (rt w) = Some id ->
  sys cap hand (set_promise id r
    (set_rt (fun r => r <| estop_engaged_ := false |> <| estop_promise_ := None |>) w)).
Proof.
  intros Hs He. pose proof Hs as [].
  assert (H1 : sys cap (id :: hand)
    (set_rt (fun r => r <| estop_engaged_ := false |> <| estop_promise_ := None |>) w)).
  { apply (sys_step hand _ w _ Hs); cbn; auto.
    - intros id'. unfold owned. cbn. rewrite He. set_solver.
    - by split; [|intros []]. }
  apply (sys_sim _ _ _ (sim_set_promise id r _)) in H1. pose proof H1 as [].
  apply (sys_step (id :: hand) hand _ _ H1); auto.
  intros id' [H|[H|[H|[H|[H|H]]]]]; unfold owned; auto 6.
  apply elem_of_cons in H as [->|H]; [left; apply answered_set|auto 6].
Qed.
Lemma sys_step_call hand id c w :
  sys cap hand w -> calls w !! id = Some c -> sys cap hand (step_call id c w).
Proof.
  intros Hs Hid. destruct c; cbn [step_call].
  - apply sys_answer_finish. by eapply sys_sim; [apply sim_controller|].
  - apply sys_next; [by eapply sys_sim; [apply sim_controller|]|]. cbn. eauto.
  - unfold trigger_estop_mark. pose proof (sys_supersede hand id w Hs) as H1.
    set (w1 := set_rt _ _) in *.
    assert (He : estop_promise_ (rt w1) = Some id) by done. clearbody w1. case_match.
    + pose proof (sys_unmark hand id (failure kSdkResNotInit
        "runtime is disconnected; emergency stop latched locally") w1 H1 He) as H2.
      apply sys_finish; [done|]. left. apply answered_set.
    + apply sys_finish; [done|]. unfold owned. auto.
  - unfold request_authority_step. case_match; [by apply sys_answer_finish|].
    destruct (push _ _) as [[] q] eqn:Ep; cbn [negb]; [|by apply sys_answer_finish].
    destruct (sys_push hand _ _ _ Hs Ep) as [H1 H2]. apply sys_finish; [done|].
    unfold owned. auto.
  - unfold request_mode_gate. case_match; [by apply sys_answer_finish|].
    apply sys_next; eauto.
  - unfold request_mode_decide. destruct (request_mode _ _ _) as [dec c].
    assert (H1 : sys cap hand (set_controller (fun _ => c) w))
      by by eapply sys_sim; [apply sim_controller|].
    case_match; [by apply sys_answer_finish|].
    eapply (sys_sim (a := true)); [|apply sys_next; [exact H1|by eauto]]. solve_sim.
  - unfold request_mode_enqueue, complete_transition.
    assert (H1 : forall f, sys cap hand (set_controller f w))
      by by intros f; eapply sys_sim; [apply sim_controller|].
    case_match; [by apply sys_answer_finish|].
    destruct (push _ _) as [[] q] eqn:Ep; cbn [negb]; [|by apply sys_answer_finish].
    destruct (sys_push hand _ _ _ Hs Ep) as [H2 H3]. apply sys_finish; [done|].
    unfold owned. auto.
Qed.

Lemma sys_begin hand a w : sys cap hand w -> sys cap hand (begin_call a w).
Proof.
  intros Hs. pose proof Hs as []. apply (sys_step hand hand w _ Hs); cbn; auto.
  - intros id Hid. destruct (decide (id = next_id w)) as [->|Hne]; [|left; lia].
    right. right. left. cbn. rewrite lookup_insert_eq. eauto.
  - intros id [H|[H|H]]; unfold owned, answered; cbn; auto.
    right. left. destruct (decide (id = next_id w)) as [->|Hne].
    + rewrite lookup_insert_eq. eauto.
    + by rewrite lookup_insert_ne.
Qed.

(** Actions that touch none of the bookkeeping. *)
Lemma sim_submit_velocity v w : sim true true true w (submit_velocity observer v w).
Proof.
  unfold submit_velocity, notify_event, dispatch_observer_safely.
  destruct (accept_velocity _ _ _). repeat case_match; solve_sim.
Qed.

Lemma sim_handle_status l a w : sim true true true w (handle_status observer l a w).
Proof. unfold handle_status, dispatch_observer_safely. repeat case_match; solve_sim. Qed.

#[export] Instance keeps_sys oracle hand an : Keeps observer oracle true true an (sys cap hand).
Proof.
  apply keeps_actions; [|intros w w'; apply sys_sim].
  intros held a w Hs. destruct a; cbn [run_action].
  - by apply sys_begin.
  - repeat case_match; try done. by apply sys_step_call.
  - eapply sys_sim; [apply sim_submit_velocity|done].
  - case_match; [done|]. eapply sys_sim; [apply sim_handle_status|done].
  - eapply (sys_sim (a := true)); [|exact Hs]. unfold handle_imu, dispatch_observer_safely.
    repeat case_match; solve_sim.
  - eapply (sys_sim (a := true)); [|exact Hs]. unfold handle_sport, dispatch_observer_safely.
    repeat case_match; solve_sim.
  - case_match; pose proof Hs as []; by apply (sys_step hand hand w _ Hs); auto.
Qed.

(** ** Facts the environment keeps *)

(** What an action never does to the flags and, without a session, the queue. *)
Record calm_action (w w' : world) : Prop := {
  calm_position : position w' = position w;
  calm_connected : connected_ (rt w') = connected_ (rt w);
  calm_transition : mode_transition_ (rt w') = mode_transition_ (rt w);
  calm_stop : stop_requested_ (rt w) = true -> stop_requested_ (rt w') = true;
  calm_closed : connected_ (rt w) = false \/ stop_requested_ (rt w) = true ->
    command_queue_ (rt w') = command_queue_ (rt w) /\
    (estop_engaged_ (rt w) = false -> estop_engaged_ (rt w') = false) }.

Lemma no_session_closed r : connected_ r = false \/ stop_requested_ r = true -> no_session r = true.
Proof. unfold no_session. intros [->| ->]; [by rewrite orb_true_r|done]. Qed.

Lemma set_promise_rt p r w :
  rt (set_promise p r w) = rt w /\ position (set_promise p r w) = position w.
Proof. unfold set_promise. by case_match. Qed.

Ltac calm :=
  split; cbn; rewrite ?(fun p r w => proj1 (set_promise_rt p r w)),
    ?(fun p r w => proj2 (set_promise_rt p r w)); cbn; auto.

Lemma sim_calm w w' :
  sim true true true w w' -> position w' = position w -> calm_action w w'.
Proof.
  intros H Hp. split; [done|by apply (sim_connected _ _ _ _ _ H)|by apply (sim_transition _ _ _ _ _ H)| |].
  - by rewrite (sim_stop _ _ _ _ _ H).
  - intros _. split; [by apply (sim_queue _ _ _ _ _ H)|]. by rewrite (sim_engaged _ _ _ _ _ H).
Qed.

Lemma step_call_calm id c w : calm_action w (step_call id c w).
Proof.
  destruct c; cbn [step_call].
  - calm.
  - calm.
  - unfold trigger_estop_mark.
    set (w1 := match estop_promise_ _ with Some _ => _ | None => _ end).
    assert (H1 : rt w1 = rt w /\ position w1 = position w).
    { unfold w1. case_match; [apply set_promise_rt|done]. }
    destruct H1 as [H1 H2]. clearbody w1. case_match eqn:E.
    + split; cbn; rewrite ?(proj1 (set_promise_rt _ _ _)), ?(proj2 (set_promise_rt _ _ _));
        cbn; rewrite ?H1; auto.
    + split; cbn; rewrite ?H1; auto. intros H%no_session_closed. revert E. cbn. rewrite H1.
      unfold no_session in *. cbn. by rewrite H.
  - unfold request_authority_step. case_match eqn:E; [calm|].
    destruct (push _ _) as [[] q]; cbn [negb]; [|calm].
    split; cbn; auto. intros H%no_session_closed. congruence.
  - unfold request_mode_gate. case_match; calm.
  - unfold request_mode_decide. destruct (request_mode _ _ _) as [dec c]. case_match; calm.
  - unfold request_mode_enqueue, complete_transition. case_match eqn:E; [calm|].
    destruct (push _ _) as [[] q]; cbn [negb]; [|calm].
    split; cbn; auto. intros H%no_session_closed. congruence.
Qed.

Lemma run_action_calm held a w : calm_action w (run_action observer held a w).
Proof.
  destruct a; cbn [run_action].
  - by split.
  - repeat case_match; [by split|apply step_call_calm|by split].
  - apply sim_calm; [apply sim_submit_velocity|]. unfold submit_velocity, notify_event,
      dispatch_observer_safely. destruct (accept_velocity _ _ _). by repeat case_match.
  - case_match; [by split|]. apply sim_calm; [apply sim_handle_status|].
    unfold handle_status, dispatch_observer_safely. by repeat case_match.
  - unfold handle_imu, dispatch_observer_safely. repeat case_match; by split.
  - unfold handle_sport, dispatch_observer_safely. repeat case_match; by split.
  - case_match; by split.
Qed.

(** No action takes a blocked [stop] back. *)
Lemma run_action_waiting held a w : (stops_waiting w <= stops_waiting (run_action observer held a w))%nat.
Proof.
  assert (Hd : forall e w, stops_waiting (dispatch_observer_safely observer e w) = stops_waiting w).
  { intros e w1. unfold dispatch_observer_safely. by repeat case_match. }
  assert (Hp : forall p r w, stops_waiting (set_promise p r w) = stops_waiting w).
  { intros p r w1. unfold set_promise. by case_match. }
  destruct a as [a|id|v|l au|s|s|]; cbn [run_action].
  - done.
  - destruct (calls w !! id) as [c|]; [|done]. case_match; [done|].
    destruct c; cbn [step_call]; unfold trigger_estop_clear, trigger_estop_mark, request_authority_step,
      request_mode_gate, request_mode_decide, request_mode_enqueue, complete_transition;
      repeat case_match; cbn; rewrite ?Hp; cbn; rewrite ?Hp; done.
  - unfold submit_velocity, notify_event. destruct (accept_velocity _ _ _). by case_match; rewrite ?Hd.
  - case_match; [done|]. unfold handle_status. by rewrite Hd; case_match.
  - unfold handle_imu. by rewrite Hd.
  - unfold handle_sport. by rewrite Hd.
  - case_match; cbn; [lia|done].
Qed.
End Environment.

(** ** Ownership moves *)

Section Moves.
  Context (cap : nat).

Lemma sys_answer hand p r w : sys cap (p :: hand) w -> sys cap hand (set_promise p r w).
Proof.
  intros Hs. pose proof (sys_sim _ _ _ _ (sim_set_promise p r w) Hs) as H1. pose proof H1 as [].
  apply (sys_step cap (p :: hand) hand _ _ H1); auto.
  intros id' [H|[H|[H|[H|[H|H]]]]]; unfold owned; auto 6.
  apply elem_of_cons in H as [->|H]; [left; apply answered_set|auto 6].
Qed.

Lemma sys_take_transition hand p w :
  sys cap hand w -> mt_promise (mode_transition_ (rt w)) = p ->
  sys cap (p :: hand)
    (set_rt (fun r => r <| mode_transition_ := (mode_transition_ r) <| mt_active := false |> |>) w).
Proof.
  intros Hs Hp. pose proof Hs as []. apply (sys_step cap hand _ w _ Hs); auto.
  intros id [H|[H|[H|[H|[[_ H]|H]]]]]; unfold owned; cbn; auto 6.
  - rewrite <- H, Hp. do 5 right. set_solver.
  - do 5 right. set_solver.
Qed.

Lemma sys_arm hand p s d w :
  sys cap (p :: hand) w -> mt_active (mode_transition_ (rt w)) = false ->
  sys cap hand (set_rt (fun r => r <| mode_transition_ := mkTransition true s d p |>) w).
Proof.
  intros Hs Hn. pose proof Hs as []. apply (sys_step cap (p :: hand) _ w _ Hs); auto.
  intros id [H|[H|[H|[H|[[H _]|H]]]]]; unfold owned; cbn; auto 6; [congruence|].
  apply elem_of_cons in H as [->|H]; [|auto 6]. do 4 right. by left.
Qed.

Lemma sys_pop hand c q w :
  sys cap hand w -> ThreadSafeQueue.try_pop (command_queue_ (rt w)) = (Some c, q) ->
  sys cap (promise c :: hand) (set_rt (fun r => r <| command_queue_ := q |>) w) /\
  S (length (items q)) = length (items (command_queue_ (rt w))).
Proof.
  intros Hs Hq. pose proof Hs as [Ho He Hc Hwf Hp]. unfold ThreadSafeQueue.try_pop, pop_locked in Hq.
  destruct (items _) as [|c' rest] eqn:Ei; [done|]. injection Hq as -> <-. split; [|done].
  apply (sys_step cap hand _ w _ Hs); auto.
  - intros id. unfold owned. cbn. rewrite Ei. cbn. set_solver.
  - destruct Hwf as [H1 H2]. split; cbn; [done|]. rewrite Ei in H2. cbn in H2. lia.
Qed.

Lemma sys_pop_none hand q w :
  sys cap hand w -> ThreadSafeQueue.try_pop (command_queue_ (rt w)) = (None, q) ->
  q = command_queue_ (rt w) /\ items (command_queue_ (rt w)) = [].
Proof.
  intros _. unfold ThreadSafeQueue.try_pop, pop_locked. destruct (items _); [|done].
  by intros [= <-].
Qed.

Lemma sys_take_estop hand w :
  sys cap hand w -> estop_engaged_ (rt w) = true ->
  exists p, estop_promise_ (rt w) = Some p /\
    sys cap (p :: hand)
      (set_rt (fun r => r <| estop_engaged_ := false |> <| estop_promise_ := None |>) w).
Proof.
  intros Hs He. pose proof Hs as []. destruct (proj1 sys_estop0 He) as [p Hp]. exists p. split; [done|].
  apply (sys_step cap hand _ w _ Hs); auto.
  - intros id. unfold owned. cbn. rewrite Hp. set_solver.
  - by split; [|intros []].
Qed.
End Moves.

(** ** Facts that last *)

#[export] Instance keeps_connected observer oracle q t an b :
  Keeps observer oracle q t an (fun w => connected_ (rt w) = b).
Proof.
  apply keeps_actions; intros.
  - by rewrite (calm_connected _ _ (run_action_calm observer held a w)).
  - by rewrite (sim_connected _ _ _ _ _ H).
Qed.

Definition inactive (w : world) : Prop := mt_active (mode_transition_ (rt w)) = false.

#[export] Instance keeps_inactive observer oracle q an : Keeps observer oracle q true an inactive.
Proof.
  unfold inactive. apply keeps_actions; intros.
  - by rewrite (calm_transition _ _ (run_action_calm observer held a w)).
  - by rewrite (sim_transition _ _ _ _ _ H).
Qed.

(** Without a session nobody engages the emergency stop or fills the queue. *)
Definition released (w : world) : Prop :=
  connected_ (rt w) = false /\ estop_engaged_ (rt w) = false.

#[export] Instance keeps_released observer oracle q t an : Keeps observer oracle q t an released.
Proof.
  unfold released. apply keeps_actions; intros.
  - pose proof (run_action_calm observer held a w) as [_ Hc _ _ Hq]. destruct H as [H1 H2].
    rewrite Hc. split; [done|]. apply Hq; auto.
  - by rewrite (sim_connected _ _ _ _ _ H), (sim_engaged _ _ _ _ _ H).
Qed.

#[export] Instance keeps_idle observer oracle an : Keeps observer oracle true true an idle.
Proof.
  unfold idle. apply keeps_actions; intros.
  - pose proof (run_action_calm observer held a w) as [_ Hc Ht _ Hq]. destruct H as (H1 & H2 & H3 & H4).
    destruct Hq as [Hq He]; [auto|]. rewrite Hc, Ht, Hq. auto.
  - by rewrite (sim_connected _ _ _ _ _ H), (sim_engaged _ _ _ _ _ H), (sim_queue _ _ _ _ _ H),
      (sim_transition _ _ _ _ _ H).
Qed.

#[export] Instance keeps_transition observer oracle q an t :
  Keeps observer oracle q true an (fun w => mode_transition_ (rt w) = t).
Proof.
  apply keeps_actions; intros.
  - by rewrite (calm_transition _ _ (run_action_calm observer held a w)).
  - by rewrite (sim_transition _ _ _ _ _ H).
Qed.
