(* ===== verification/RuntimePromises.v ===== *)
(** * RuntimePromises: no caller is left waiting, and shutdown ends

    When the worker returns, every future is answered; the worker never
    dereferences a null promise; and after one call of [stop] the worker's loops
    end.  One pass over the worker proves the three. *)

From S2P Require Import Prelude Cxx ThreadSafeQueue RobotController NetworkPreflight.
From S2P Require Import SdkTypes RuntimeState RuntimeWorker RuntimeSamples RuntimeLogic.
From S2P Require Import RuntimeOwnership.
#[local] Open Scope rt_scope.

(** ** The worker *)

Section Worker.
  Context (config : RuntimeConfig) (observer : option (observer_event -> bool)).
  Context (oracle : nat -> env_step) (cap : nat).
  (** Either the fuel may run out, or some thread calls [stop] in environment step [n0]. *)
  Context (fuel_ok : Prop) (n0 : nat).
  Context (Hstop : fuel_ok \/ ActStop ∈ map snd (es_actions (oracle n0))).
  #[local] Abbreviation sys := (sys cap).
  #[local] Abbreviation triple := (triple (fun _ => fuel_ok)).
  #[local] Abbreviation keeps := (keeps (fun _ => fuel_ok)).

(** *** Fuel *)

Definition stopped (w : world) : Prop := stop_requested_ (rt w) = true.

(** The stop is still to come, was made, or is blocked. *)
Definition heard (w : world) : Prop :=
  fuel_ok \/ (position w <= n0)%nat \/ stopped w \/ (0 < stops_waiting w)%nat.

Lemma run_actions_mono held l w :
  position (run_actions observer held l w) = position w /\
  (stopped w -> stopped (run_actions observer held l w)) /\
  (stops_waiting w <= stops_waiting (run_actions observer held l w))%nat.
Proof.
  revert w. induction l as [|[dt a] l IH]; intros w; [done|]. cbn [run_actions fold_left].
  destruct (IH (run_action observer held a (advance dt w))) as (H1 & H2 & H3).
  destruct (run_action_calm observer held a (advance dt w)) as [Hp _ _ Hs _].
  split_and!; [exact (eq_trans H1 Hp)|intros H; by apply H2, Hs|].
  etransitivity; [|exact H3]. exact (run_action_waiting observer held a (advance dt w)).
Qed.

(** A call of [stop] is made or blocked. *)
Lemma run_actions_stop held l w :
  ActStop ∈ map snd l ->
  let w' := run_actions observer held l w in
  if held then (0 < stops_waiting w')%nat else stopped w'.
Proof.
  revert w. induction l as [|[dt a] l IH]; intros w; [cbn; set_solver|]. cbn [map snd].
  intros [<-|H]%elem_of_cons; cbn [run_actions fold_left]; [|by apply IH].
  destruct (run_actions_mono held l (run_action observer held ActStop (advance dt w))) as (_ & H2 & H3).
  cbn [fst snd]. destruct held; [|by apply H2]. cbn in H3. unfold run_actions in *. cbn. lia.
Qed.

Lemma run_step_position held w : position (run_step observer oracle held w) = S (position w).
Proof. exact (proj1 (run_actions_mono held _ (next_position held w))). Qed.

Lemma run_step_stopped held w : stopped w -> stopped (run_step observer oracle held w).
Proof. intros H. by apply (run_actions_mono held _ (next_position held w)). Qed.

Lemma run_step_stop held w :
  ActStop ∈ map snd (woken_stops held w ++ es_actions (oracle (position w))) ->
  if held then (0 < stops_waiting (run_step observer oracle held w))%nat
  else stopped (run_step observer oracle held w).
Proof. exact (run_actions_stop held _ (next_position held w)). Qed.

Lemma woken_stop w : (0 < stops_waiting w)%nat -> ActStop ∈ map snd (woken_stops false w).
Proof. intros H. unfold woken_stops. destruct (stops_waiting w); [lia|]. by left. Qed.

(** One step of the environment: a late step of a free lock sees the stop. *)
Lemma step_stops w :
  heard w -> fuel_ok \/ stopped (run_step observer oracle false w) \/ (position w < n0)%nat.
Proof.
  intros Hh. pose proof Hstop as [?|Hst]; [by left|].
  destruct Hh as [?|[Hle|[Hs|Hw]]]; [by left| |right; left; by apply run_step_stopped|].
  - destruct (decide (position w = n0)) as [E|Hne]; [|right; right; lia].
    right. left. apply (run_step_stop false). rewrite map_app, elem_of_app, E. by right.
  - right. left. apply (run_step_stop false). rewrite map_app, elem_of_app. left. by apply woken_stop.
Qed.

(** A stop is not lost, also not while it is blocked. *)
Lemma heard_step held w : heard w -> heard (run_step observer oracle held w).
Proof.
  intros Hh. destruct held.
  2: { unfold heard. rewrite run_step_position. destruct (step_stops w Hh) as [?|[?|?]]; auto. }
  pose proof Hstop as [?|Hst]; [by left|].
  destruct (run_actions_mono true (woken_stops true w ++ es_actions (oracle (position w))) (next_position true w))
    as (_ & _ & Hw).
  unfold heard. rewrite run_step_position. destruct Hh as [?|[Hle|[Hs|Hw']]]; [by left| | |].
  - destruct (decide (position w = n0)) as [E|Hne]; [|right; left; lia].
    right. right. right. apply (run_step_stop true). rewrite E. exact Hst.
  - right. right. left. by apply run_step_stopped.
  - right. right. right. eapply Nat.lt_le_trans; [exact Hw'|exact Hw].
Qed.

Definition later (w w' : world) : Prop :=
  (position w <= position w')%nat /\ (stopped w -> stopped w') /\ (heard w -> heard w').

(** Facts about how late it is: later worlds have them too. *)
Class Timed (X : world -> Prop) : Prop := timed : forall w w', later w w' -> X w -> X w'.

Lemma later_step held w : later w (run_step observer oracle held w).
Proof. split_and!; [rewrite run_step_position; lia|apply run_step_stopped|apply heard_step]. Qed.

Lemma later_still w w' :
  position w' = position w -> stops_waiting w' = stops_waiting w ->
  stop_requested_ (rt w') = stop_requested_ (rt w) -> later w w'.
Proof. intros Hp Hw Hs. unfold later, heard, stopped. rewrite Hp, Hw, Hs. auto. Qed.

#[export] Instance timed_keeps q t an X : Timed X -> Keeps observer oracle q t an X.
Proof.
  intros HX. split; [intros held w; apply HX, later_step|].
  intros w w' (H & Hp & Hw). apply HX, later_still; [done..|]. by destruct H.
Qed.

#[export] Instance timed_and X Y : Timed X -> Timed Y -> Timed (fun w => X w /\ Y w).
Proof. intros HX HY w w' H [??]. split; [by eapply HX|by eapply HY]. Qed.

#[export] Instance timed_or X Y : Timed X -> Timed Y -> Timed (fun w => X w \/ Y w).
Proof. intros HX HY w w' H [?|?]; [left; by eapply HX|right; by eapply HY]. Qed.

#[export] Instance timed_stopped : Timed stopped.
Proof. intros w w' (_ & Hs & _). exact Hs. Qed.

(** Enough fuel is left once [k] more units are taken off. *)
Definition late (f : nat) (w : world) : Prop :=
  fuel_ok \/ (cap + 2 <= f /\ n0 + cap + 2 <= position w + f)%nat /\ heard w.

Definition budget (f : nat) (w : world) : Prop :=
  late f w \/ (stopped w /\ cap + 2 <= f)%nat.

#[export] Instance timed_late f : Timed (late f).
Proof. intros w w' (Hp & _ & Hh) [?|[[? ?] ?]]; [by left|right]. split; [lia|auto]. Qed.

#[export] Instance timed_budget f : Timed (budget f).
Proof.
  intros w w' H [?|[? ?]]; [left; by eapply (timed_late f)|right].
  split; [by apply H|done].
Qed.

Lemma late_budget f w : late f w -> budget (S f) w.
Proof. intros [?|[? ?]]; left; [by left|right; split; [lia|done]]. Qed.

Lemma budget_O w : budget 0 w -> fuel_ok.
Proof. intros [[?|?]|?]; [done|lia..]. Qed.

Lemma step_late f w :
  budget (S f) w ->
  stopped (run_step observer oracle false w) \/ late f (run_step observer oracle false w).
Proof.
  intros [[?|[[H1 H2] Hh]]|[? _]]; [right; by left| |left; by apply run_step_stopped].
  destruct (step_stops w Hh) as [?|[?|?]]; [right; by left|by left|right; right].
  split; [rewrite run_step_position; lia|by apply heard_step].
Qed.

Lemma spec_first_yield f (E : world -> Prop) :
  triple (budget (S f)) (yield observer oracle false) (fun _ w => stopped w \/ late f w) E.
Proof. intros w. apply step_late. Qed.

(** *** Transitions *)

(** [X] also holds of worlds that differ in the mode transition. *)
#[local] Abbreviation KeepsT := (Keeps observer oracle true false false).

Lemma kept {q t a} X {HX : Keeps observer oracle q t a X} w w' : still q t a w w' -> X w -> X w'.
Proof. exact (keeps_still observer oracle w w'). Qed.

Lemma spec_controller P held f E :
  Keeps observer oracle true true false P -> triple P (controller_op observer oracle held f) (fun _ => P) E.
Proof. intros HP. apply triple_atomic; [apply _|]. intros w H. apply (kept P w); [solve_sim|done]. Qed.

Lemma spec_answer (X : world -> Prop) hand p r E :
  Keeps observer oracle true true false X ->
  triple (fun w => X w /\ sys (p :: hand) w) (answer p r) (fun _ w => X w /\ sys hand w) E.
Proof.
  intros HX. apply triple_modify. intros w [H1 H2]. split; [|by apply sys_answer].
  apply (kept X w); [apply still_set_promise|done].
Qed.

Lemma spec_fail (X : world -> Prop) hand held r b E :
  KeepsT X ->
  triple (fun w => X w /\ sys hand w) (fail_mode_transition observer oracle held r b)
    (fun _ w => (X w /\ inactive w) /\ sys hand w) E.
Proof.
  intros HX. unfold fail_mode_transition. apply triple_gets_bind. intros t. apply triple_if; intros Ht.
  - apply triple_ret. intros w [[H1 H2] <-]. bool_prop. auto.
  - eapply triple_bind with (R := fun _ w => (X w /\ inactive w) /\ sys (mt_promise t :: hand) w).
    + apply triple_modify. intros w [[H1 H2] <-]. split; [split|by apply sys_take_transition]; [|done].
      apply (kept X w); [solve_sim|done].
    + intros _. eapply triple_bind with (R := fun _ w => (X w /\ inactive w) /\ sys (mt_promise t :: hand) w).
      * destruct b; [apply spec_controller, _|by apply triple_ret].
      * intros _. apply spec_answer, _.
Qed.

(** Settling the transition: out of the slot, into the hand, answered. *)
Lemma spec_release (X : world -> Prop) hand t f r E :
  KeepsT X ->
  triple (fun w => (X w /\ sys hand w) /\ mode_transition_ (rt w) = t)
    (deactivate_transition ;; controller_op observer oracle false f ;; answer (mt_promise t) r)
    (fun _ w => X w /\ sys hand w) E.
Proof.
  intros HX. eapply triple_bind with (R := fun _ w => X w /\ sys (mt_promise t :: hand) w).
  - apply triple_modify. intros w [[H1 H2] <-]. split; [|by apply sys_take_transition].
    apply (kept X w); [solve_sim|done].
  - intros _. eapply triple_bind with (R := fun _ w => X w /\ sys (mt_promise t :: hand) w);
      [apply spec_controller, _|]. intros _. apply spec_answer, _.
Qed.

Lemma spec_settle (X : world -> Prop) hand E :
  KeepsT X ->
  triple (fun w => X w /\ sys hand w) (settle_mode_transition_timeout observer oracle)
    (fun _ w => X w /\ sys hand w) E.
Proof.
  intros HX. unfold settle_mode_transition_timeout. apply triple_gets_bind. intros t.
  by apply spec_release.
Qed.

(** What the loop keeps; a later exception ends the process. *)
Definition holds (X : world -> Prop) (w : world) : Prop := X w /\ sys [] w.

#[export] Instance keeps_holds an X :
  Keeps observer oracle true true an X -> Keeps observer oracle true true an (holds X).
Proof. intros HX. apply keeps_and; apply _. Qed.

#[local] Notation loop_keeps X m := (triple (holds X) m (fun _ => holds X) (fun _ => True)).

Lemma loop_neutral {A} X (m : M A) :
  keeps (holds X) m -> loop_keeps X m.
Proof. intros H. by apply triple_keep. Qed.

Lemma loop_fail X held r b :
  KeepsT X -> loop_keeps X (fail_mode_transition observer oracle held r b).
Proof.
  intros HX. eapply triple_weaken; [by apply (spec_fail X [] held r b (fun _ => True))|done| |done].
  intros _ w [[??]?]. by split.
Qed.

Lemma loop_check X snapshot now :
  Timed X -> loop_keeps X (check_mode_transition observer oracle snapshot now).
Proof.
  intros HX. unfold check_mode_transition. apply triple_gets_bind. intros t.
  apply triple_if; intros Ht; [by apply triple_ret; intros w [??]|].
  eapply triple_bind; [apply triple_keep; [apply neutral_pending, _|done]|]. intros pending.
  apply triple_if; intros Hp.
  { eapply triple_pre; [apply loop_fail, _|by intros w [??]]. }
  apply triple_if; intros Hs; [by apply spec_release, _|].
  apply triple_if; intros Hd; [|by apply triple_ret; intros w [??]].
  eapply triple_pre; [apply spec_settle, _|by intros w [??]].
Qed.

Lemma loop_orphan X : Timed X -> loop_keeps X (abort_orphan_transition observer oracle).
Proof.
  intros HX. unfold abort_orphan_transition. apply triple_gets_bind. intros t.
  apply triple_if; intros Ht; [|by apply triple_ret; intros w [??]].
  eapply triple_bind; [apply triple_keep; [apply neutral_pending, _|done]|]. intros pending.
  apply triple_if; intros Hp; [|by apply triple_ret; intros w [??]].
  eapply triple_pre; [apply loop_fail, _|by intros w [??]].
Qed.

Lemma loop_settle_expired X now : Timed X -> loop_keeps X (settle_expired observer oracle now).
Proof.
  intros HX. unfold settle_expired. apply triple_gets_bind. intros t.
  apply triple_if; intros Ht; [|by apply triple_ret; intros w [??]].
  eapply triple_pre; [apply spec_settle, _|by intros w [??]].
Qed.

(** *** Draining the queue *)

(** Nobody pushes any more. *)
Definition quiet (w : world) : Prop := connected_ (rt w) = false \/ stopped w.

Definition drain_budget (held : bool) (f : nat) (w : world) : Prop :=
  fuel_ok \/ (quiet w /\ length (items (command_queue_ (rt w))) < f)%nat \/
  (held = false /\ cap < f /\ n0 + cap < position w + f)%nat /\ heard w.

#[export] Instance keeps_quiet an g :
  Keeps observer oracle true true an (fun w => quiet w /\ length (items (command_queue_ (rt w))) < g)%nat.
Proof.
  unfold quiet, stopped. apply keeps_actions.
  - intros h a w [Hw Hl]. pose proof (run_action_calm observer h a w) as [_ Hc _ Hs Hq].
    destruct (Hq Hw) as [-> _]. rewrite Hc. naive_solver.
  - intros w w' Hsim H. by rewrite (sim_connected _ _ _ _ _ Hsim), (sim_stop _ _ _ _ _ Hsim),
      (sim_queue _ _ _ _ _ Hsim).
Qed.

#[export] Instance keeps_drain_budget an held f : Keeps observer oracle true true an (drain_budget held f).
Proof.
  destruct (keeps_quiet an f) as [He Hs]. unfold drain_budget. split.
  - intros h w [?|[H|[(? & ? & ?) Hh]]]; [by left|right; left; by apply He|].
    right. right. split; [|by apply heard_step]. rewrite run_step_position. split_and!; [done|lia..].
  - intros w w' H [?|[Hq|[? Hh]]]; [by left|right; left; by eapply Hs|].
    right. right. destruct H as (Hsim & Hp & Hw). rewrite Hp. split; [done|].
    by eapply later_still; [done|done|destruct Hsim|].
Qed.

Lemma late_drain f w : late f w -> drain_budget false (S f) w.
Proof. intros [?|[? ?]]; [by left|right; right]. split; [split_and!; [done|lia..]|done]. Qed.

(** The step before a pop sees the stop or consumes time. *)
Lemma drain_step held f hand w :
  sys hand w -> drain_budget held (S f) w ->
  let w' := run_step observer oracle held w in
  fuel_ok \/ (quiet w' /\ length (items (command_queue_ (rt w'))) < S f)%nat \/
  (held = false /\ cap < f /\ n0 + cap < position w' + f)%nat /\ heard w'.
Proof.
  intros Hs Hb w'. pose proof (run_step_keeps observer oracle (sys hand) held w Hs) as Hs'.
  pose proof (run_step_position held w) as Hp.
  destruct Hb as [?|[Hq|[(-> & H1 & H2) Hh]]]; [by left|right; left|].
  { exact (run_step_keeps observer oracle _ held w Hq). }
  destruct (step_stops w Hh) as [?|[?|?]]; [by left|right; left|right; right].
  - split; [by right|]. destruct Hs' as [_ _ Hc [_ Hl] _]. unfold w'. lia.
  - split; [unfold w'; split_and!; [done|lia..]|by apply heard_step].
Qed.

Lemma spec_drain_pop X held f hand E :
  Keeps observer oracle false true false X ->
  triple (fun w => (X w /\ drain_budget held (S f) w) /\ sys hand w) (try_pop observer oracle held)
    (fun o w => X w /\
       match o with
       | None => sys hand w /\ items (command_queue_ (rt w)) = []
       | Some c => drain_budget held f w /\ sys (promise c :: hand) w
       end) E.
Proof.
  intros HX w [[Hx Hb] Hs]. unfold try_pop, atomic, bind, yield, modify.
  pose proof (run_step_keeps observer oracle X held w Hx) as Hx'.
  pose proof (run_step_keeps observer oracle (sys hand) held w Hs) as Hs'.
  pose proof (drain_step held f hand w Hs Hb) as Hb'. cbn zeta in Hb'.
  set (w' := run_step observer oracle held w) in *. clearbody w'.
  destruct (ThreadSafeQueue.try_pop _) as [[c|] q] eqn:Eq.
  - destruct (sys_pop cap hand c q w' Hs' Eq) as [H1 H2].
    split; [by apply (kept (q:=false) (t:=true) (a:=false) X w'); [solve_sim|]|split; [|done]].
    destruct Hb' as [?|[[Hq Hl]|?]]; [by left|right; left|right; right; done].
    split; [done|]. cbn. lia.
  - destruct (sys_pop_none cap hand q w' Hs' Eq) as [-> H2].
    split; [by apply (kept (q:=false) (t:=true) (a:=false) X w'); [solve_sim|]|].
    split; [|done]. eapply (sys_sim cap (a:=true)); [|exact Hs']. solve_sim.
Qed.

Lemma spec_drain X held r hand f E :
  Keeps observer oracle false true false X ->
  triple (fun w => (X w /\ drain_budget held f w) /\ sys hand w)
    (drain_commands observer oracle f held r)
    (fun _ w => X w /\ sys hand w /\ items (command_queue_ (rt w)) = []) E.
Proof.
  intros HX. induction f as [|f IH]; cbn [drain_commands].
  { intros w [[_ [?|[[_ ?]|[(?&?&?) _]]]] _]; [done|lia..]. }
  eapply triple_bind; [by apply spec_drain_pop|]. intros [c|]; [|by apply triple_ret].
  eapply triple_bind with (R := fun _ w => (X w /\ drain_budget held f w) /\ sys (promise c :: hand) w).
  - destruct (kind c).
    + apply triple_ret. by intros w (?&?&?).
    + eapply triple_pre.
      * apply (spec_controller (fun w => (X w /\ drain_budget held f w) /\ sys (promise c :: hand) w)), _.
      * by intros w (?&?&?).
  - intros _. eapply triple_bind with (R := fun _ w => (X w /\ drain_budget held f w) /\ sys hand w);
      [|intros _; exact IH].
    apply (spec_answer (fun w => X w /\ drain_budget held f w)), _.
Qed.

(** *** The emergency stop *)

Lemma loop_handle_estop X f :
  Timed X -> (forall w, X w -> late f w) ->
  loop_keeps X (handle_estop_if_requested config observer oracle (S f)).
Proof.
  intros HX Hf. unfold handle_estop_if_requested.
  eapply triple_bind with (R := fun taken w =>
    match taken with
    | None => holds X w
    | Some o => exists p, o = Some p /\ X w /\ sys [p] w
    end).
  { apply triple_atomic; [apply _|]. intros w [Hx Hs].
    destruct (estop_engaged_ (rt w)) eqn:E; [|by split]. cbn [negb fst snd].
    destruct (sys_take_estop cap [] w Hs E) as (p & -> & H). exists p. split; [done|].
    split; [|done]. revert Hx. by apply HX. }
  intros [o|]; [|by apply triple_ret].
  intros w (p & -> & Hw). revert w Hw.
  apply triple_then with (R := fun w => X w /\ sys [p] w).
  { eapply triple_weaken; [apply (spec_fail X [p] _ _ _ (fun _ => True)), _|done| |done].
    by intros _ w [[??]?]. }
  intros _. eapply triple_then; [apply (spec_controller (fun w => X w /\ sys [p] w)), _|].
  intros _. apply triple_then with (R := fun w => X w /\ sys [p] w).
  { eapply triple_weaken; [apply (spec_drain X false _ [p] (S f) (fun _ => True)), _| | |done].
    - intros w [Hx Hs]. split; [|done]. split; [done|]. by apply late_drain, Hf.
    - by intros _ w (Hx & Hs & _). }
  intros _. eapply triple_then; [apply triple_keep; [apply neutral_allowed, _|done]|].
  intros allowed. eapply triple_bind with (R := fun _ w => X w /\ sys [p] w).
  - apply triple_if; intros _; [by apply triple_ret|].
    eapply triple_then; [apply triple_keep; [apply neutral_send_zero, _|done]|].
    intros sent. by apply triple_ret.
  - intros result. apply spec_answer, _.
Qed.

(** *** Commands *)

Lemma spec_zero_before X c :
  Timed X ->
  triple (fun w => (X w /\ inactive w) /\ sys [promise c] w)
    (zero_before_mode config observer oracle c)
    (fun go w => (X w /\ inactive w) /\ sys (if go then [promise c] else []) w)
    (fun w => X w /\ sys [promise c] w).
Proof.
  intros HX. unfold zero_before_mode.
  apply triple_seq; [by intros w|by intros w [[??]?]|]. intros moving.
  apply triple_if; intros _; [by apply triple_ret|].
  apply triple_seq; [apply neutral_sdk, _|by intros w [[??]?]|]. intros r.
  apply triple_if; intros _.
  - eapply triple_then; [apply (spec_controller (fun w => (X w /\ inactive w) /\ sys [promise c] w)), _|].
    intros _. eapply triple_then; [apply (spec_answer (fun w => X w /\ inactive w)), _|].
    intros _. by apply triple_ret.
  - eapply triple_bind with (R := fun _ w => (X w /\ inactive w) /\ sys [promise c] w);
      [|intros _; by apply triple_ret].
    apply triple_modify. intros w [[H1 H2] H3]. split; [split|]; [..|eapply (sys_sim cap (a:=true)); [|exact H3]; solve_sim].
    + revert H1. by apply HX.
    + exact H2.
Qed.

(** The end of a command the SDK refused. *)
Lemma spec_refuse X p f r E :
  Keeps observer oracle true true false X ->
  triple (fun w => X w /\ sys [p] w)
    (controller_op observer oracle false f ;; answer p r) (fun _ w => X w /\ sys [] w) E.
Proof.
  intros HX. eapply triple_then; [apply (spec_controller (fun w => X w /\ sys [p] w)), _|].
  intros _. apply spec_answer, _.
Qed.

Lemma spec_execute_mode X c :
  Timed X ->
  triple (fun w => X w /\ sys [promise c] w) (execute_mode config observer oracle c)
    (fun _ => holds X) (fun w => X w /\ sys [promise c] w).
Proof.
  intros HX. unfold execute_mode. eapply triple_then; [apply spec_fail, _|]. intros _.
  eapply triple_bind; [by apply spec_zero_before|]. intros []; cbn [negb].
  2: { apply triple_ret. by intros w [[??]?]. }
  apply triple_seq; [apply neutral_sdk, _|by intros w [[??]?]|]. intros r.
  apply triple_if; intros _.
  { eapply triple_pre; [apply spec_refuse, _|]. by intros w [[??]?]. }
  cbv zeta. apply triple_if; intros _.
  { eapply triple_pre; [apply spec_refuse, _|]. by intros w [[??]?]. }
  apply triple_seq; [apply neutral_clock, _|by intros w [[??]?]|]. intros now.
  apply triple_modify. intros w [[H1 H2] H3]. split; [|by apply sys_arm].
  revert H1. by apply HX.
Qed.

Lemma spec_command_exception X c what :
  Timed X ->
  triple (fun w => X w /\ sys [promise c] w) (command_exception observer oracle c what)
    (fun _ => holds X) (fun _ => True).
Proof.
  intros HX. unfold command_exception. apply triple_gets_bind. intros t.
  apply triple_then with (R := fun w => X w /\ sys [promise c] w).
  - apply triple_if; intros Ht; [|by apply triple_ret; intros w [??]].
    apply triple_then with (R := fun w => X w /\ sys (mt_promise t :: [promise c]) w).
    + apply triple_modify. intros w [[H1 H2] <-]. split; [|by apply sys_take_transition].
      revert H1. by apply HX.
    + intros _. apply spec_answer, _.
  - intros _. apply spec_refuse, _.
Qed.

Lemma loop_next_command X : Timed X -> loop_keeps X (next_command config observer oracle).
Proof.
  intros HX. unfold next_command.
  eapply triple_bind with (R := fun o w =>
    match o with None => holds X w | Some c => X w /\ sys [promise c] w end).
  - apply triple_atomic; [apply _|]. intros w [Hx Hs].
    destruct (ThreadSafeQueue.try_pop _) as [[c|] q] eqn:Eq; cbn [fst snd].
    + destruct (sys_pop cap [] c q w Hs Eq) as [H _]. split; [|done]. revert Hx. by apply HX.
    + destruct (sys_pop_none cap [] q w Hs Eq) as [-> _].
      split; [|eapply (sys_sim cap (a:=true)); [|exact Hs]; solve_sim]. revert Hx. by apply HX.
  - intros [c|]; [|by apply triple_ret].
    eapply triple_try; [|intros what; by apply spec_command_exception].
    destruct (kind c); [|by apply spec_execute_mode].
    unfold execute_authority. apply triple_seq; [apply neutral_sdk, _|done|].
    intros r. apply spec_answer, _.
Qed.

Lemma loop_state_poll X now ls :
  Timed X -> loop_keeps X (state_poll config observer oracle now ls).
Proof.
  intros HX. unfold state_poll. apply triple_if; intros _; [|by apply triple_ret].
  apply triple_seq; [apply neutral_snapshot, _|done|]. intros s.
  apply triple_seq; [apply neutral_apply, _|done|]. intros _.
  eapply triple_then; [by apply loop_orphan|]. intros _.
  apply triple_seq; [apply neutral_arm, _|done|]. intros _.
  eapply triple_then; [by apply loop_check|]. intros _.
  apply triple_seq; [eapply (neutral_dispatch observer oracle); apply _|done|]. intros _. by apply triple_ret.
Qed.

(** *** The connected loop *)

(** The second look at the stop flag: if the loop goes on, it is early. *)
Lemma spec_end X f :
  Timed X ->
  triple (holds (fun w => X w /\ (stopped w \/ late f w))) (end_if_requested config observer oracle)
    (fun ended => holds (fun w => X w /\ (ended = false -> late f w))) (fun _ => True).
Proof.
  intros HX. unfold end_if_requested. apply triple_gets_bind. intros r.
  apply triple_if; intros Hr.
  - apply triple_then with (R := holds X).
    + eapply triple_pre; [|by intros w [[[H1 _] H2] _]; exact (conj H1 H2)].
      apply loop_neutral. destruct (stop_requested_ r); [apply neutral_actuate_stop, _|].
      by apply triple_ret.
    + intros _. apply triple_ret. by intros w [??].
  - apply triple_ret. intros w [[[H1 H2] H3] <-]. bool_prop.
    split; [split; [done|]|done]. intros _. destruct H2 as [H2|H2]; [|done].
    unfold stopped in H2. congruence.
Qed.

#[export] Instance timed_impl (A : Prop) X : Timed X -> Timed (fun w => A -> X w).
Proof. intros HX w w' Hl H Ha. by eapply HX, H. Qed.

Lemma loop_body_spec X f ls :
  Timed X ->
  triple (holds (fun w => X w /\ budget (S f) w)) (loop_body config observer oracle (S f) ls)
    (fun next => holds (fun w => X w /\ (next <> None -> late f w))) (fun _ => True).
Proof.
  intros HX. unfold loop_body.
  assert (Hnone : forall w, holds X w ->
    holds (fun w => X w /\ (@None loop_state <> None -> late f w)) w).
  { intros w [??]. by split. }
  apply triple_then with (R := holds (fun w => X w /\ (stopped w \/ late f w))).
  { unfold wait_for_work. apply triple_then with (R := holds (fun w => X w /\ (stopped w \/ late f w))).
    - intros w [[H1 H2] H3]. split; [split|].
      + by apply (run_step_keeps observer oracle X false w).
      + by apply step_late.
      + by apply (run_step_keeps observer oracle (sys []) false w).
    - intros _. apply loop_neutral.
      assert (HK : Keeps observer oracle true true true (holds (fun w => X w /\ (stopped w \/ late f w))))
        by apply _. neutral_steps. }
  intros [].
  { apply triple_ret. intros w [[H1 _] H2]. by apply Hnone. }
  apply triple_seq; [apply neutral_clock, _|done|]. intros now.
  apply triple_seq; [apply neutral_yield, _|done|]. intros _.
  eapply triple_bind; [by apply spec_end|]. intros [].
  { apply triple_ret. intros w [[H1 _] H2]. by apply Hnone. }
  apply triple_pre with (P := holds (fun w => X w /\ late f w));
    [|by intros w [[H1 H2] H3]; split; [split; [|apply H2]|]].
  eapply triple_then; [apply (loop_handle_estop (fun w => X w /\ late f w)); [apply _|by intros w [??]]|].
  intros _. eapply triple_then; [apply loop_orphan, _|].
  intros _. eapply triple_then; [apply loop_next_command, _|].
  intros _. apply triple_seq; [apply neutral_take, _|done|]. intros requested.
  apply triple_seq; [apply neutral_heartbeat, _|done|]. intros [ls'|].
  2: { apply triple_ret. intros w [[H1 _] H2]. by apply Hnone. }
  apply triple_seq; [apply neutral_motion, _|done|]. intros ls2.
  eapply triple_then; [apply loop_settle_expired, _|].
  intros _. eapply triple_then; [apply loop_state_poll, _|].
  intros ls3. apply triple_ret. by intros w [[H1 H2] H3].
Qed.

Lemma connected_loop_spec X f ls :
  Timed X ->
  triple (holds (fun w => X w /\ budget f w)) (connected_loop config observer oracle f ls)
    (fun _ => holds X) (fun _ => True).
Proof.
  intros HX. revert ls. induction f as [|f IH]; intros ls; cbn [connected_loop].
  { intros w [[_ H] _]. by apply budget_O in H. }
  eapply triple_bind; [by apply loop_body_spec|]. intros [ls'|].
  - eapply triple_pre; [apply IH|]. intros w [[H1 H2] H3]. split; [split; [done|]|done].
    left. by apply H2.
  - apply triple_ret. by intros w [[H1 _] H2].
Qed.

(** *** Sessions *)

(** Answering the pending emergency stop at the end of a session. *)
Lemma spec_drop_estop X m r E :
  Timed X ->
  triple (fun w => holds (fun w => X w /\ connected_ (rt w) = false) w /\ rt w = r)
    (if estop_engaged_ r then
       modify (set_rt (fun r => r <| estop_engaged_ := false |>)) ;;
       match estop_promise_ r with
       | Some p =>
           answer p m ;; modify (set_rt (fun r => r <| estop_promise_ := None |>))
       | None => ret tt
       end
     else ret tt)
    (fun _ => holds (fun w => X w /\ released w)) E.
Proof.
  intros HX w [[[Hx Hc] Hs] <-].
  destruct (estop_engaged_ (rt w)) eqn:He; [|by split; [split; [|split]|]].
  destruct (sys_take_estop cap [] w Hs He) as (p & Hp & _). rewrite Hp.
  pose proof (sys_unmark cap [] p m w Hs Hp) as H.
  set (w2 := set_promise p m _) in H.
  assert (Heq : set_rt (fun r => r <| estop_promise_ := None |>)
    (set_promise p m (set_rt (fun r => r <| estop_engaged_ := false |>) w)) = w2).
  { unfold w2, set_promise. cbn. by case_match. }
  change (holds (fun w => X w /\ released w) (set_rt (fun r => r <| estop_promise_ := None |>)
    (set_promise p m (set_rt (fun r => r <| estop_engaged_ := false |>) w)))).
  rewrite Heq. clear Heq. split; [|exact H].
  unfold w2, released, set_promise. cbn. split; [|by case_match].
  case_match; (eapply HX; [|exact Hx]); by apply later_still.
Qed.

Lemma spec_fail_all X f :
  Timed X -> (forall w, X w -> late f w) ->
  triple (holds (fun w => X w /\ connected_ (rt w) = false))
    (fail_all_pending_locked observer oracle (S f))
    (fun _ => holds (fun w => X w /\ idle w)) (fun _ => True).
Proof.
  intros HX Hf. unfold fail_all_pending_locked. apply triple_gets_bind. intros r.
  eapply triple_then; [by apply spec_drop_estop|]. intros _.
  eapply triple_then; [apply (spec_fail (fun w => X w /\ released w)), _|]. intros _.
  eapply triple_weaken;
    [apply (spec_drain (fun w => (X w /\ released w) /\ inactive w) true _ [] (S f) (fun _ => True)), _
    | | |done].
  - intros w [[[Hx Hr] Hi] Hs]. split; [|done]. split; [done|].
    destruct (Hf w Hx) as [?|[[Hf' _] _]]; [by left|right; left]. destruct Hr as [Hc _].
    split; [by left|]. destruct Hs as [_ _ Hcap [_ Hl] _]. lia.
  - intros _ w ([[Hx [Hc He]] Hi] & Hs & Hq). by split.
Qed.

Lemma sys_set_connected b w : sys [] w -> sys [] (set_rt (fun r => r <| connected_ := b |>) w).
Proof. intros Hs. pose proof Hs as []. by apply (sys_step cap [] [] w _ Hs); auto. Qed.

Lemma spec_session X f :
  Timed X -> (forall w, X w -> late f w) ->
  triple (holds (fun w => X w /\ idle w)) (session config observer oracle (S f))
    (fun _ => holds (fun w => X w /\ idle w)) (fun _ => True).
Proof.
  intros HX Hf. unfold session. apply triple_then with (R := holds X).
  { apply triple_atomic; [apply _|]. intros w [[Hx _] Hs]. cbn [snd].
    split; [|by apply sys_set_connected]. revert Hx. by apply HX. }
  intros _. apply triple_seq; [eapply (neutral_notify observer oracle); apply _|done|]. intros _.
  apply triple_then with (R := holds X).
  { unfold run_connected_loop. apply triple_seq; [apply neutral_clock, _|done|]. intros start.
    apply triple_seq; [|done|].
    { intros w [Hx Hs]. split; [|eapply (sys_sim cap (a:=true)); [|exact Hs]; solve_sim]. revert Hx. by apply HX. }
    intros _. eapply triple_pre; [by apply connected_loop_spec|]. intros w [Hx Hs].
    split; [split; [done|]|done]. by apply late_budget, Hf. }
  intros _. apply triple_then with (R := holds (fun w => X w /\ connected_ (rt w) = false)).
  { apply triple_atomic; [apply _|]. intros w [Hx Hs]. cbn [snd].
    split; [|by apply sys_set_connected]. split; [|done]. revert Hx. by apply HX. }
  intros _. eapply triple_then; [by apply spec_fail_all|]. intros _.
  apply triple_seq; [apply neutral_invalidate, _|done|]. intros _.
  apply triple_keep; [apply neutral_deinit, _|done].
Qed.

(** A neutral operation, or a branch that ends the attempt. *)
Ltac attempt_step :=
  first
    [ apply triple_if; intros _; [solve [apply loop_neutral; neutral_steps]|]
    | apply triple_seq; [solve [neutral_steps]|done|intros ?] ].

Lemma spec_attempt X f b :
  Timed X -> (forall w, X w -> late f w) ->
  triple (holds (fun w => X w /\ idle w)) (attempt config observer oracle (S f) b)
    (fun _ => holds (fun w => X w /\ idle w)) (fun _ => True).
Proof.
  intros HX Hf. unfold attempt.
  assert (HK : Keeps observer oracle true true true (holds (fun w => X w /\ idle w))) by apply _.
  repeat attempt_step.
  eapply triple_then; [by apply spec_session|]. intros _.
  apply loop_neutral. neutral_steps.
Qed.

Lemma worker_loop_spec f b :
  triple (holds (fun w => budget f w /\ idle w)) (worker_loop config observer oracle f b)
    (fun _ => holds idle) (fun _ => True).
Proof.
  revert b. induction f as [|f IH]; intros b; cbn [worker_loop].
  { intros w [[H _] _]. by apply budget_O in H. }
  apply triple_bind with (R := fun (stop : bool) w =>
    holds (fun w => (stop = false -> late f w) /\ idle w) w).
  { intros w [[Hb Hi] Hs]. unfold stopping, atomic, bind, yield, modify. split; [split|].
    - intros Hst. destruct (step_late f w Hb) as [H|H]; [|done].
      unfold stopped in H. congruence.
    - by apply (run_step_keeps observer oracle idle false w).
    - by apply (run_step_keeps observer oracle (sys []) false w). }
  intros []; [apply triple_ret; intros w [[_ ?] ?]; by split|].
  apply triple_pre with (P := holds (fun w => late f w /\ idle w));
    [|by intros w [[H1 H2] H3]; split; [split; [by apply H1|]|]].
  eapply triple_then; [apply (spec_attempt (late f)); [apply _|auto]|]. intros [b'|].
  - eapply triple_pre; [apply IH|]. intros w [[H1 H2] H3]. split; [split; [by left|]|]; done.
  - apply triple_ret; intros w [[_ ?] ?]; by split.
Qed.

End Worker.

(** ** Results *)

Lemma initial_holds config now w :
  initial_world config now = Some w ->
  sys (queue_capacity config) [] w /\ idle w /\ position w = 0%nat.
Proof.
  unfold initial_world, make_runtime. destruct (make_controller _) as [c|]; [|done].
  destruct (make_queue _ _) as [q|] eqn:Eq; [|done]. intros [= <-].
  unfold make_queue in Eq. case_decide as Hc; [done|]. injection Eq as <-.
  split; [|by split; [repeat split|]]. split; cbn; try done.
  - intros id. lia.
  - split; cbn; lia.
Qed.

(** No caller is left waiting: in every environment, the worker never
    dereferences a missing promise, and when it has returned the queue, the
    emergency stop and the mode transition hold no request any more: every
    future handed out has its answer, except those of calls that are themselves
    still running on their caller's thread. Claim C5. *)
Theorem worker_answers_every_call config observer oracle fuel now w :
  initial_world config now = Some w ->
  match worker_main config observer oracle fuel w with
  | (Ret _, w') =>
      idle w' /\
      forall id, (id < next_id w')%nat -> calls w' !! id = None -> is_Some (promises w' !! id)
  | (Undefined, _) => False
  | _ => True
  end.
Proof.
  intros Hw. destruct (initial_holds _ _ _ Hw) as (Hs & Hi & _).
  pose proof (worker_loop_spec config observer oracle (queue_capacity config) True 0
    (or_introl I) fuel (reconnect_initial_delay_ms config) w) as H.
  fold (worker_main config observer oracle fuel) in H.
  assert (H0 : holds (queue_capacity config) (fun w => budget (queue_capacity config) True 0 fuel w /\ idle w) w).
  { split; [split; [by left; left|done]|done]. }
  specialize (H H0). destruct (worker_main _ _ _ _ w) as [[a|what| |] w']; try done.
  destruct H as [Hid Hs']. split; [done|]. intros id Hlt Hc.
  destruct Hid as (_ & Hq & He & Ht).
  destruct (sys_owned _ _ _ Hs' id Hlt) as [?|[[c Hcl]|[Hin|[Hes|[[Hmt _]|Hin]]]]].
  - done.
  - by rewrite Hcl in Hc.
  - rewrite Hq in Hin. set_solver.
  - pose proof (proj2 (sys_estop _ _ _ Hs')) as Hen. rewrite Hes in Hen.
    rewrite Hen in He by eauto. done.
  - by rewrite Ht in Hmt.
  - set_solver.
Qed.

(** Shutdown ends: after one call of [stop], in any environment step [n0], the worker
    runs out of its loops within [n0 + queue_capacity + 2] iterations, whatever the
    SDK, the network and the other callers do; nobody has to repeat the call, and a
    call that finds [wake_mutex_] taken gets it when the worker gives it back.  The
    worker then returns with nothing pending, or ends with an exception, which only
    an SDK or network call that throws can cause.  It neither uses up its fuel nor
    dereferences a null promise.  Claim C6. *)
Theorem stop_ends_the_worker config observer oracle fuel now w n0 :
  initial_world config now = Some w ->
  ActStop ∈ map snd (es_actions (oracle n0)) ->
  (n0 + queue_capacity config + 2 <= fuel)%nat ->
  match worker_main config observer oracle fuel w with
  | (Ret _, w') => idle w'
  | (Throw _, _) => raised oracle
  | _ => False
  end.
Proof.
  intros Hw Hst Hf. destruct (initial_holds _ _ _ Hw) as (Hs & Hi & Hp).
  pose proof (worker_loop_spec config observer oracle (queue_capacity config) False n0
    (or_intror Hst) fuel (reconnect_initial_delay_ms config) w) as H.
  pose proof (throws_worker_loop config observer oracle fuel (reconnect_initial_delay_ms config) w) as Ht.
  fold (worker_main config observer oracle fuel) in H, Ht.
  assert (H0 : holds (queue_capacity config) (fun w => budget (queue_capacity config) False n0 fuel w /\ idle w) w).
  { split; [split; [|done]|done]. left. right. rewrite Hp. split; [lia|right; left; lia]. }
  specialize (H H0). destruct (worker_main _ _ _ _ w) as [[a|what| |] w']; try done.
  by destruct H.
Qed.

(** ** Witnesses *)

(** The three calls of the sample run. *)
Lemma worker_answers_every_call_witness :
  busy_run.1 = Ret tt /\ next_id busy_run.2 = 3%nat /\
  match busy_run with
  | (Ret _, w') =>
      idle w' /\
      forall id, (id < next_id w')%nat -> calls w' !! id = None -> is_Some (promises w' !! id)
  | (Undefined, _) => False
  | _ => True
  end.
Proof.
  split; [vm_compute; reflexivity|]. split; [vm_compute; reflexivity|].
  apply (worker_answers_every_call sample_config None (busy_until 260) 300 0). reflexivity.
Defined.

Lemma stop_ends_the_worker_witness :
  match busy_run with
  | (Ret _, w') => idle w'
  | (Throw _, _) => raised (busy_until 260)
  | _ => False
  end.
Proof.
  apply (stop_ends_the_worker sample_config None (busy_until 260) 300 0 sample_world 260).
  - reflexivity.
  - vm_compute. left.
  - cbn. lia.
Defined.
