(* ===== verification/RuntimeAnswers.v ===== *)
(** * RuntimeAnswers: a success answer was earned

    The runtime tells a caller "success" only when it is true: the SDK calls the
    request stands for were made after the request and returned success, and a
    mode was confirmed by a later snapshot.  Events of the trace are compared by
    their order, as sublists (newest first). *)

From S2P Require Import Prelude Cxx ThreadSafeQueue RobotController NetworkPreflight.
From S2P Require Import SdkTypes RuntimeState RuntimeWorker RuntimeSamples RuntimeSafety.
From S2P Require Import RuntimeLogic RuntimeOwnership.
#[local] Open Scope rt_scope.

(** ** The specification *)

(** The gate accepted mode [m] for the request [id]. *)
Definition asked_mode (id : nat) (m : Z) (tr : list event) : Prop :=
  exists name, [EvModeAccepted id m; EvApi id (ApiMode name)] `sublist_of` tr.

(** The mode was commanded after that and the SDK acknowledged; [st] is the
    status that confirms it. *)
Definition sent_mode (id : nat) (st : Z) (tr : list event) : Prop :=
  exists m t r name, success r = true /\ st = stable_status_for m /\
    [EvDone (CallSetMode m t) r; EvModeAccepted id m; EvApi id (ApiMode name)] `sublist_of` tr.

(** ... and a later snapshot shows the status. *)
Definition confirmed_mode (id : nat) (tr : list event) : Prop :=
  exists m t r name s, success r = true /\ sport_status s = stable_status_for m /\
    [EvReported s; EvDone (CallSetMode m t) r; EvModeAccepted id m; EvApi id (ApiMode name)]
      `sublist_of` tr.

Definition executed_estop (id : nat) (tr : list event) : Prop :=
  exists t r1 r2, success r1 = true /\ success r2 = true /\
    [EvDone (CallSetMode 0xA101 t) r2; EvDone (CallMove Velocity0 t) r1; EvApi id (ApiEstop true)]
      `sublist_of` tr.

Definition granted_authority (id : nat) (tr : list event) : Prop :=
  exists b t r, success r = true /\
    [EvDone (CallRequestAuthority b t) r; EvApi id (ApiAuthority b)] `sublist_of` tr.

Definition earned (id : nat) (tr : list event) : Prop :=
  EvApi id (ApiEstop false) ∈ tr \/ executed_estop id tr \/ granted_authority id tr \/
  confirmed_mode id tr.

(** ** The invariant *)

Definition call_honest (tr : list event) (id : nat) (c : call) : Prop :=
  match c with
  | InClear => EvApi id (ApiEstop false) ∈ tr
  | InLatch | InMark => EvApi id (ApiEstop true) ∈ tr
  | InAuthority b => EvApi id (ApiAuthority b) ∈ tr
  | InGate name | InDecide name => EvApi id (ApiMode name) ∈ tr
  | InEnqueue m => asked_mode id m tr
  end.

Definition command_honest (tr : list event) (c : Command) : Prop :=
  match kind c with
  | RequestAuthority => EvApi (promise c) (ApiAuthority (authority_sdk c)) ∈ tr
  | RequestMode => asked_mode (promise c) (mode c) tr
  end.

Definition answer_honest (tr : list event) (id : nat) (r : Result) : Prop :=
  success r = true -> earned id tr.

Definition transition_honest (tr : list event) (t : ModeTransition) : Prop :=
  mt_active t = true -> sent_mode (mt_promise t) (stable_status t) tr.

Record honest (w : world) : Prop := {
  hn_answers : map_Forall (answer_honest (trace w)) (promises w);
  hn_calls : map_Forall (call_honest (trace w)) (calls w);
  hn_queue : Forall (command_honest (trace w)) (items (command_queue_ (rt w)));
  hn_engaged : estop_engaged_ (rt w) = true -> is_Some (estop_promise_ (rt w));
  hn_estop : forall p, estop_promise_ (rt w) = Some p -> EvApi p (ApiEstop true) ∈ trace w;
  hn_transition : transition_honest (trace w) (mode_transition_ (rt w)) }.

(** ** Growing traces *)

Definition grows (w w' : world) : Prop := exists pre, trace w' = pre ++ trace w.

Lemma sublist_grow (l pre tr : list event) : l `sublist_of` tr -> l `sublist_of` pre ++ tr.
Proof. intros H. by apply sublist_inserts_l. Qed.

Lemma asked_grow id m pre tr : asked_mode id m tr -> asked_mode id m (pre ++ tr).
Proof. intros (name & H). exists name. by apply sublist_grow. Qed.

Lemma sent_grow id st pre tr : sent_mode id st tr -> sent_mode id st (pre ++ tr).
Proof. intros (m & t & r & name & ? & ? & H). exists m, t, r, name. eauto using sublist_grow. Qed.

Lemma earned_grow id pre tr : earned id tr -> earned id (pre ++ tr).
Proof.
  intros [H|[(t & r1 & r2 & ? & ? & H)|[(b & t & r & ? & H)|(m & t & r & n & s & ? & ? & H)]]].
  - left. set_solver.
  - right. left. exists t, r1, r2. eauto using sublist_grow.
  - right. right. left. exists b, t, r. eauto using sublist_grow.
  - do 3 right. exists m, t, r, n, s. eauto using sublist_grow.
Qed.

Lemma call_honest_grow id c pre tr : call_honest tr id c -> call_honest (pre ++ tr) id c.
Proof. destruct c; cbn; try set_solver. apply asked_grow. Qed.

Lemma command_honest_grow c pre tr : command_honest tr c -> command_honest (pre ++ tr) c.
Proof. unfold command_honest. destruct (kind c); [set_solver|apply asked_grow]. Qed.

(** From [w] to [w'] every new entry brings its own justification. *)
Lemma honest_step w w' :
  honest w -> grows w w' ->
  (forall id r, promises w' !! id = Some r ->
     promises w !! id = Some r \/ answer_honest (trace w') id r) ->
  (forall id c, calls w' !! id = Some c ->
     calls w !! id = Some c \/ call_honest (trace w') id c) ->
  (forall c, c ∈ items (command_queue_ (rt w')) ->
     c ∈ items (command_queue_ (rt w)) \/ command_honest (trace w') c) ->
  (estop_engaged_ (rt w') = true ->
     is_Some (estop_promise_ (rt w')) \/
     estop_engaged_ (rt w) = true /\ estop_promise_ (rt w') = estop_promise_ (rt w)) ->
  (forall p, estop_promise_ (rt w') = Some p ->
     estop_promise_ (rt w) = Some p \/ EvApi p (ApiEstop true) ∈ trace w') ->
  (mode_transition_ (rt w') = mode_transition_ (rt w) \/
     transition_honest (trace w') (mode_transition_ (rt w'))) ->
  honest w'.
Proof.
  intros [Ha Hc Hq He Hp Ht] [pre Htr] Ha' Hc' Hq' He' Hp' Ht'. split.
  - intros id r Hr. destruct (Ha' id r Hr) as [H|H]; [|done].
    intros Hs. rewrite Htr. apply earned_grow, (Ha id r H Hs).
  - intros id c Hi. destruct (Hc' id c Hi) as [H|H]; [|done].
    rewrite Htr. apply call_honest_grow, (Hc id c H).
  - apply Forall_forall. intros c Hi%list_elem_of_In. destruct (Hq' c Hi) as [H|H]; [|done].
    rewrite Htr. apply command_honest_grow. rewrite Forall_forall in Hq. by apply Hq, list_elem_of_In.
  - intros H. destruct (He' H) as [?|[H1 ->]]; [done|by apply He].
  - intros p H. destruct (Hp' p H) as [H1|H1]; [|done]. rewrite Htr. set_solver.
  - destruct Ht' as [H|H]; [|done]. rewrite H. intros Hac. rewrite Htr. by apply sent_grow, Ht.
Qed.

(** ** The environment *)

Section Environment.
  Context (observer : option (observer_event -> bool)).

Lemma set_promise_lookup p r w id r' :
  promises (set_promise p r w) !! id = Some r' ->
  promises w !! id = Some r' \/ (id = p /\ r' = r).
Proof.
  unfold set_promise. case_match; [by left|]. cbn. destruct (decide (id = p)) as [->|Hne].
  - rewrite lookup_insert_eq. intros [= <-]. auto.
  - rewrite lookup_insert_ne by done. by left.
Qed.

Lemma set_promise_trace p r w : trace (set_promise p r w) = trace w.
Proof. unfold set_promise. by case_match. Qed.

Lemma set_promise_calls p r w : calls (set_promise p r w) = calls w.
Proof. unfold set_promise. by case_match. Qed.

(** Changes outside the bookkeeping. *)
Lemma honest_sim w w' : sim true true true w w' -> honest w -> honest w'.
Proof.
  intros [] Hh. apply (honest_step w); try done.
  - intros id r. rewrite sim_answers by done. auto.
  - intros id c. rewrite sim_calls. auto.
  - intros c. rewrite sim_queue by done. auto.
  - rewrite sim_engaged, sim_estop. auto.
  - intros p. rewrite sim_estop. auto.
  - left. auto.
Qed.

Lemma honest_answer p r w :
  honest w -> answer_honest (trace w) p r -> honest (set_promise p r w).
Proof.
  intros Hh Hr. apply (honest_step w); rewrite ?(proj1 (set_promise_rt p r w)),
    ?set_promise_trace, ?set_promise_calls; auto.
  - exists []. by rewrite set_promise_trace.
  - intros id r' [?|[-> ->]]%set_promise_lookup; auto.
Qed.

Lemma failure_honest tr p r : success r = false -> answer_honest tr p r.
Proof. intros H H'. congruence. Qed.

Lemma honest_finish id w : honest w -> honest (finish_call id w).
Proof.
  intros Hh. apply (honest_step w); cbn; auto; [by exists []|].
  intros id' c. rewrite lookup_delete_Some. naive_solver.
Qed.

Lemma honest_next id c w : honest w -> call_honest (trace w) id c -> honest (next_step id c w).
Proof.
  intros Hh Hc. apply (honest_step w); cbn; auto; [by exists []|].
  intros id' c' [[<- <-]|[_ H]]%lookup_insert_Some; auto.
Qed.

Lemma honest_push c b q w :
  honest w -> push c (command_queue_ (rt w)) = (b, q) -> command_honest (trace w) c ->
  honest (set_rt (fun r => r <| command_queue_ := q |>) w).
Proof.
  intros Hh Hp Hc. apply (honest_step w); cbn; auto; [by exists []|].
  intros c' Hin. right. pose proof (push_Forall _ _ _ _ _ Hp (hn_queue _ Hh) Hc) as H.
  rewrite Forall_forall in H. by apply H, list_elem_of_In.
Qed.

Lemma honest_flags w f :
  honest w ->
  (forall r, command_queue_ (f r) = command_queue_ r /\ mode_transition_ (f r) = mode_transition_ r) ->
  estop_engaged_ (f (rt w)) = false -> estop_promise_ (f (rt w)) = None ->
  honest (set_rt f w).
Proof.
  intros Hh Hf He Hp. apply (honest_step w); cbn; auto.
  - by exists [].
  - intros c. rewrite (proj1 (Hf _)). auto.
  - congruence.
  - congruence.
  - left. apply Hf.
Qed.

Lemma honest_step_call id c w :
  honest w -> calls w !! id = Some c -> honest (step_call id c w).
Proof.
  intros Hh Hi. pose proof (hn_calls _ Hh _ _ Hi) as Hc.
  destruct c; cbn [step_call call_honest] in *.
  - apply honest_finish, honest_answer; [by apply (honest_sim w), Hh; solve_sim|].
    intros _. by left.
  - apply honest_next; [by apply (honest_sim w), Hh; solve_sim|done].
  - unfold trigger_estop_mark. apply honest_finish.
    set (w1 := match estop_promise_ _ with Some _ => _ | None => _ end).
    assert (H1 : honest w1 /\ trace w1 = trace w).
    { unfold w1. destruct (estop_promise_ _); [|done].
      split; [by apply honest_answer, failure_honest|apply set_promise_trace]. }
    destruct H1 as [H1 Ht1]. clearbody w1.
    set (w2 := set_rt (fun r => r <| estop_engaged_ := true |> <| estop_promise_ := Some id |>) w1).
    assert (H2 : honest w2).
    { apply (honest_step w1); cbn; auto; [by exists []|].
      intros p [= <-]. right. by rewrite Ht1. }
    case_match; [|done]. apply honest_answer; [|by apply failure_honest].
    by apply honest_flags.
  - unfold request_authority_step. apply honest_finish.
    case_match; [by apply honest_answer, failure_honest|].
    destruct (push _ _) as [[] q] eqn:Ep; cbn [negb]; [by eapply honest_push|].
    by apply honest_answer, failure_honest.
  - unfold request_mode_gate. case_match; [by apply honest_finish, honest_answer, failure_honest|].
    by apply honest_next.
  - unfold request_mode_decide. destruct (request_mode _ _ _) as [dec c].
    assert (H1 : honest (set_controller (fun _ => c) w)) by (apply (honest_sim w), Hh; solve_sim).
    case_match.
    + apply honest_finish, honest_answer; [done|]. apply failure_honest.
      unfold map_mode_rejection. by repeat case_match.
    + set (w1 := set_controller (fun _ => c) w) in *.
      assert (Ht : trace w1 = trace w) by done. clearbody w1.
      assert (Ha : asked_mode id (md_mode dec) (EvModeAccepted id (md_mode dec) :: trace w1)).
      { exists name. apply sublist_skip. rewrite Ht. by apply singleton_sublist_l. }
      apply (honest_step w1); cbn; auto.
      * by exists [EvModeAccepted id (md_mode dec)].
      * intros id' c' [[<- <-]|[_ Hl]]%lookup_insert_Some; auto.
  - unfold request_mode_enqueue, complete_transition. apply honest_finish.
    assert (H1 : forall f, honest (set_controller f w)) by (intros f; apply (honest_sim w), Hh; solve_sim).
    case_match; [by apply honest_answer, failure_honest|].
    destruct (push _ _) as [[] q] eqn:Ep; cbn [negb]; [by eapply honest_push|].
    by apply honest_answer, failure_honest.
Qed.

#[export] Instance keeps_honest oracle : Keeps observer oracle true true true honest.
Proof.
  apply keeps_actions; [|intros w w'; apply honest_sim].
  intros held a w Hh. destruct a; cbn [run_action].
  - apply (honest_step w); cbn; auto; [by exists [EvApi (next_id w) a]|].
    intros id c [[<- <-]|[_ H]]%lookup_insert_Some; auto.
    right. destruct a as [[]| |]; cbn; set_solver.
  - repeat case_match; try done. by apply honest_step_call.
  - eapply honest_sim; [apply sim_submit_velocity|done].
  - case_match; [done|]. eapply honest_sim; [apply sim_handle_status|done].
  - eapply honest_sim; [|exact Hh]. unfold handle_imu, dispatch_observer_safely.
    repeat case_match; solve_sim.
  - eapply honest_sim; [|exact Hh]. unfold handle_sport, dispatch_observer_safely.
    repeat case_match; solve_sim.
  - case_match; apply (honest_step w); cbn; auto; [by exists []|by exists [EvStop]].
Qed.

(** Facts of the trace so far: later worlds have them too. *)
Class Traced (X : world -> Prop) : Prop := traced : forall w w', grows w w' -> X w -> X w'.

#[export] Instance traced_keeps oracle q t an X : Traced X -> Keeps observer oracle q t an X.
Proof.
  intros HX. apply keeps_actions.
  - intros held a w. apply HX. destruct (run_action_extends observer held a w) as (pre & H & _).
    by exists pre.
  - intros w w' Hs. apply HX. by destruct Hs.
Qed.

#[export] Instance traced_and X Y : Traced X -> Traced Y -> Traced (fun w => X w /\ Y w).
Proof. intros HX HY w w' H [??]. split; [by eapply HX|by eapply HY]. Qed.
#[export] Instance traced_True : Traced (fun _ => True).
Proof. done. Qed.
#[export] Instance traced_sublist l : Traced (fun w => l `sublist_of` trace w).
Proof. intros w w' [pre Hp] H. rewrite Hp. by apply sublist_grow. Qed.
#[export] Instance traced_command c : Traced (fun w => command_honest (trace w) c).
Proof. intros w w' [pre Hp] H. rewrite Hp. by apply command_honest_grow. Qed.
#[export] Instance traced_earned id : Traced (fun w => earned id (trace w)).
Proof. intros w w' [pre Hp] H. rewrite Hp. by apply earned_grow. Qed.

End Environment.

(** ** The worker

    Every state the worker reaches is honest, also where it stops (an exception,
    no fuel left); [X] carries the facts a step needs. *)

Section Worker.
  Context (config : RuntimeConfig) (observer : option (observer_event -> bool)).
  Context (oracle : nat -> env_step).
  #[local] Abbreviation run X m Q :=
    (triple honest (fun w => X w /\ honest w) m (fun a w => Q a w /\ honest w) honest).
  #[local] Abbreviation kept X m := (run X m (fun _ => X)).
  #[local] Abbreviation neutral X m := (keeps honest (fun w => X w /\ honest w) m).

Lemma run_then {A B} (X R : world -> Prop) (m : M A) (k : A -> M B) (Q : B -> world -> Prop) :
  run X m (fun _ => R) -> (forall a, run R (k a) Q) -> run X (bind m k) Q.
Proof. intros Hm Hk. by eapply triple_bind; [exact Hm|]. Qed.

Lemma run_neutral {A} (X : world -> Prop) (m : M A) : neutral X m -> kept X m.
Proof. intros H. eapply triple_keep; [exact H|]. by intros w [_ ?]. Qed.

#[local] Ltac run_steps :=
  apply run_neutral;
  match goal with
  | |- RuntimeLogic.keeps _ ?P _ => assert (Keeps observer oracle true true true P) by apply _; neutral_steps
  end.

Lemma run_pre {A} (X Y : world -> Prop) (m : M A) (Q : A -> world -> Prop) :
  run Y m Q -> (forall w, honest w -> X w -> Y w) -> run X m Q.
Proof. intros H HX. eapply triple_pre; [exact H|]. intros w [??]. auto. Qed.

Lemma run_post {A} (X : world -> Prop) (m : M A) (Q R : A -> world -> Prop) :
  run X m Q -> (forall a w, Q a w -> R a w) -> run X m R.
Proof. intros H HX. eapply triple_weaken; [exact H|done| |done]. intros a w [??]. auto. Qed.

Lemma run_ret {A} (X : world -> Prop) (a : A) (Q : A -> world -> Prop) :
  (forall w, X w -> Q a w) -> run X (ret a) Q.
Proof. intros H. apply triple_ret. intros w [??]. auto. Qed.

Lemma run_gets {A B} (X : world -> Prop) (f : world -> A) (k : A -> M B) (Q : B -> world -> Prop) :
  (forall a, run (fun w => X w /\ f w = a) (k a) Q) -> run X (bind (gets f) k) Q.
Proof.
  intros H. apply triple_gets_bind. intros a. eapply triple_pre; [apply H|].
  by intros w [[??]?].
Qed.

(** A call and what it returned. *)
Lemma run_sdk (X : world -> Prop) c l :
  Traced X ->
  run (fun w => X w /\ l `sublist_of` trace w) (sdk observer oracle c)
    (fun r w => X w /\ EvDone c r :: l `sublist_of` trace w).
Proof.
  intros HX. unfold sdk.
  apply run_then with (R := fun w => X w /\ l `sublist_of` trace w);
    [apply run_neutral, neutral_sdk_call, _|].
  intros s w [[H1 H2] H3]. split; [|by apply (honest_sim w); [solve_sim|]].
  split; [apply (HX w); [by exists [EvDone c (step_result s)]|done]|]. by apply sublist_skip.
Qed.

Lemma run_answer (X : world -> Prop) p r :
  Traced X -> (forall w, X w -> answer_honest (trace w) p r) -> kept X (answer p r).
Proof.
  intros HX Hr w [H1 H2]. unfold answer, modify. split; [|by apply honest_answer, Hr].
  apply (HX w); [|done]. exists []. by rewrite set_promise_trace.
Qed.

Lemma run_refuse (X : world -> Prop) p r : Traced X -> success r = false -> kept X (answer p r).
Proof. intros HX Hr. apply run_answer; [done|]. intros w _. by apply failure_honest. Qed.

Lemma honest_deactivate w :
  honest w ->
  honest (set_rt (fun r => r <| mode_transition_ := (mode_transition_ r) <| mt_active := false |> |>) w).
Proof. intros H. apply (honest_step w); cbn; auto; [by exists []|]. right. done. Qed.

Lemma run_deactivate (X : world -> Prop) :
  Traced X -> run X deactivate_transition (fun _ w => X w /\ inactive w).
Proof.
  intros HX w [H1 H2]. unfold deactivate_transition, modify. split; [|by apply honest_deactivate].
  split; [|done]. apply (HX w); [by exists []|done].
Qed.

Lemma run_fail (X : world -> Prop) held r b :
  Traced X -> success r = false ->
  run X (fail_mode_transition observer oracle held r b) (fun _ w => X w /\ inactive w).
Proof.
  intros HX Hr. unfold fail_mode_transition. apply run_gets. intros t. apply triple_if; intros Ht.
  { apply run_ret. intros w [H1 <-]. bool_prop. auto. }
  apply run_then with (R := fun w => X w /\ inactive w).
  { eapply run_pre; [by apply run_deactivate|]. by intros w _ [??]. }
  intros _. apply run_then with (R := fun w => X w /\ inactive w).
  { destruct b; [apply run_neutral, neutral_controller, _|by apply run_ret]. }
  intros _ w [[H1 H2] H3]. unfold answer, modify.
  split; [split|by apply honest_answer, failure_honest].
  - apply (HX w); [|done]. exists []. by rewrite set_promise_trace.
  - unfold inactive. by rewrite (proj1 (set_promise_rt _ _ _)).
Qed.

(** The end of a transition whose answer is justified. *)
Lemma run_release (X : world -> Prop) t f r :
  Traced X -> (forall w, X w -> answer_honest (trace w) (mt_promise t) r) ->
  kept X (deactivate_transition ;; controller_op observer oracle false f ;; answer (mt_promise t) r).
Proof.
  intros HX Hr. apply run_then with (R := X).
  { eapply run_post; [by apply run_deactivate|]. by intros _ w [??]. }
  intros _. apply run_then with (R := X); [apply run_neutral, neutral_controller, _|].
  intros _. by apply run_answer.
Qed.

Lemma run_settle (X : world -> Prop) :
  Traced X -> kept X (settle_mode_transition_timeout observer oracle).
Proof.
  intros HX. unfold settle_mode_transition_timeout. apply run_gets. intros t.
  eapply run_pre; [apply run_release; [done|]|by intros w _ [? _]].
  intros w _. by apply failure_honest.
Qed.

(** *** Emergency stop *)

Lemma run_try_pop (X : world -> Prop) held :
  Traced X ->
  run X (try_pop observer oracle held)
    (fun o w => X w /\ match o with Some c => command_honest (trace w) c | None => True end).
Proof.
  intros HX. apply triple_atomic; [apply _|]. intros w [H1 H2].
  destruct (ThreadSafeQueue.try_pop _) as [o q] eqn:E. cbn [fst snd].
  pose proof (try_pop_items _ _ _ E) as Hq. pose proof (hn_queue _ H2) as Hc.
  rewrite Hq in Hc. apply Forall_app in Hc as [Hc _]. split; [split|].
  - apply (HX w); [by exists []|done].
  - destruct o as [c|]; [|done]. by inversion Hc.
  - apply (honest_step w); cbn; auto; [by exists []|]. intros c. rewrite Hq, elem_of_app. auto.
Qed.

(** The environment's moves and the trace so far leave the popped command's
    justification. *)
Lemma run_drain (X : world -> Prop) held r f :
  Traced X -> success r = false -> kept X (drain_commands observer oracle f held r).
Proof.
  intros HX Hr. induction f as [|f IH]; cbn [drain_commands]; [by intros w [_ ?]|].
  eapply triple_bind; [by apply run_try_pop|]. intros [c|]; [|by apply run_ret; intros w [??]].
  apply run_then with (R := X).
  { apply run_pre with (Y := X); [|by intros w _ [??]].
    destruct (kind c); [by apply run_ret|apply run_neutral, neutral_controller, _]. }
  intros _. apply run_then with (R := X); [by apply run_refuse|]. intros _. apply IH.
Qed.

(** Both commands succeeded, in order, after [l]. *)
Definition zero_then_damping (l tr : list event) : Prop :=
  exists t r1 r2, success r1 = true /\ success r2 = true /\
    EvDone (CallSetMode 0xA101 t) r2 :: EvDone (CallMove Velocity0 t) r1 :: l `sublist_of` tr.

Lemma run_send_zero (X : world -> Prop) l :
  Traced X ->
  run (fun w => X w /\ l `sublist_of` trace w) (send_zero_and_damping config observer oracle)
    (fun b w => X w /\ (b = true -> zero_then_damping l (trace w))).
Proof.
  intros HX. unfold send_zero_and_damping. set (t := sdk_call_timeout_ms config).
  eapply triple_bind; [by apply run_sdk|]. intros r1.
  set (l1 := EvDone (CallMove Velocity0 t) r1 :: l).
  eapply run_then with (R := fun w => X w /\ l1 `sublist_of` trace w).
  { run_steps. }
  intros _. eapply triple_bind; [by apply (run_sdk X _ l1)|]. intros r2.
  set (l2 := EvDone (CallSetMode 0xA101 t) r2 :: l1).
  eapply run_then with (R := fun w => X w /\ l2 `sublist_of` trace w).
  { run_steps. }
  intros _. eapply run_then with (R := fun w => X w /\ l2 `sublist_of` trace w).
  { run_steps. }
  intros _. apply run_ret. intros w [Hx Hl]. split; [done|].
  intros [H1 H2]%andb_true_iff. by exists t, r1, r2.
Qed.

Lemma run_handle_estop (X : world -> Prop) f :
  Traced X -> kept X (handle_estop_if_requested config observer oracle f).
Proof.
  intros HX. unfold handle_estop_if_requested.
  eapply triple_bind with (R := fun o w => (X w /\
    match o with
    | Some p => exists id, p = Some id /\ [EvApi id (ApiEstop true)] `sublist_of` trace w
    | None => True
    end) /\ honest w).
  { apply triple_atomic; [apply _|]. intros w [H1 H2].
    destruct (estop_engaged_ (rt w)) eqn:E; cbn [negb fst snd]; [|done].
    destruct (hn_engaged _ H2 E) as [p Hp]. split; [split|].
    - apply (HX w); [by exists []|done].
    - exists p. split; [done|]. apply singleton_sublist_l, (hn_estop _ H2 p Hp).
    - by apply honest_flags. }
  intros [o|]; [|by apply run_ret; intros w [??]].
  intros w [[Hx (p & -> & Hp)] Hh]. revert w Hx Hp Hh.
  set (l := [EvApi p (ApiEstop true)]).
  enough (H : run (fun w => X w /\ l `sublist_of` trace w) _ (fun _ => X))
    by (intros w Hx Hp Hh; exact (H w (conj (conj Hx Hp) Hh))).
  eapply run_then with (R := fun w => X w /\ l `sublist_of` trace w).
  { eapply run_post; [by apply run_fail; [apply _|]|]. by intros _ w [??]. }
  intros _. eapply run_then; [apply run_neutral, neutral_controller, _|].
  intros _. eapply run_then; [apply run_drain; [apply _|done]|].
  intros _. eapply run_then; [apply run_neutral, neutral_allowed, _|]. intros allowed.
  eapply triple_bind with
    (R := fun r w => (X w /\ (success r = true -> zero_then_damping l (trace w))) /\ honest w).
  { apply triple_if; intros _; [by apply run_ret; intros w [??]|].
    eapply triple_bind; [by apply run_send_zero|]. intros [];
      apply run_ret; intros w [??]; split; auto; done. }
  intros r w [[Hx Hr] Hh]. unfold answer, modify. split.
  - apply (HX w); [|done]. exists []. by rewrite set_promise_trace.
  - apply honest_answer; [done|]. intros Hs. right. left. exact (Hr Hs).
Qed.

(** *** Commands *)

#[local] Abbreviation safe m := (run (fun _ => True) m (fun _ _ => True)).

Lemma run_safe {A} (X : world -> Prop) (m : M A) : safe m -> run X m (fun _ _ => True).
Proof. intros H. eapply run_pre; [exact H|done]. Qed.

Lemma run_drop {A} (X : world -> Prop) (m : M A) : kept X m -> run X m (fun _ _ => True).
Proof. intros H. by eapply run_post. Qed.

Lemma safe_neutral {A} (m : M A) : keeps honest (fun w => True /\ honest w) m -> safe m.
Proof. apply run_neutral. Qed.

Lemma run_authority c :
  kind c = RequestAuthority ->
  run (fun w => command_honest (trace w) c) (execute_authority config observer oracle c)
    (fun _ _ => True).
Proof.
  intros Hk. unfold execute_authority.
  set (l := [EvApi (promise c) (ApiAuthority (authority_sdk c))]).
  apply run_pre with (Y := fun w => True /\ l `sublist_of` trace w).
  2: { intros w _ Hc. split; [done|]. unfold command_honest in Hc. rewrite Hk in Hc.
       by apply singleton_sublist_l. }
  eapply triple_bind; [by apply run_sdk|]. intros r.
  apply run_drop, run_answer; [apply _|]. intros w [_ Hl] Hs.
  right. right. left. by eexists _, _, r.
Qed.

(** The zero that precedes a mode switch. *)
Lemma run_zero_before (X : world -> Prop) c :
  Traced X -> kept X (zero_before_mode config observer oracle c).
Proof.
  intros HX. unfold zero_before_mode. apply run_gets. intros moving.
  apply run_pre with (Y := X); [|by intros w _ [??]].
  apply triple_if; intros _; [by apply run_ret|].
  apply run_then with (R := X); [run_steps|]. intros r. apply triple_if; intros Hr.
  - apply run_then with (R := X); [run_steps|]. intros _.
    apply run_then with (R := X); [|intros _; by apply run_ret].
    apply run_refuse; [done|]. bool_prop. exact Hr.
  - run_steps.
Qed.

(** The transition is armed for a command the SDK has acknowledged. *)
Lemma honest_arm p st d w :
  honest w -> sent_mode p st (trace w) ->
  honest (set_rt (fun r => r <| mode_transition_ := mkTransition true st d p |>) w).
Proof. intros H Hs. apply (honest_step w); cbn; auto; [by exists []|]. right. by intros _. Qed.

Lemma run_mode c :
  kind c = RequestMode ->
  run (fun w => command_honest (trace w) c) (execute_mode config observer oracle c) (fun _ _ => True).
Proof.
  intros Hk. unfold execute_mode. intros w [Hc Hh]. pose proof Hc as Hc'.
  unfold command_honest in Hc'. rewrite Hk in Hc'. destruct Hc' as [name Hl]. clear Hc.
  set (l := [EvModeAccepted (promise c) (mode c); EvApi (promise c) (ApiMode name)]) in Hl.
  revert w Hl Hh. enough (H : run (fun w => True /\ l `sublist_of` trace w) _ (fun _ _ => True))
    by (intros w Hl Hh; exact (H w (conj (conj I Hl) Hh))).
  apply run_then with (R := fun w => True /\ l `sublist_of` trace w).
  { eapply run_post; [by apply run_fail; [apply _|]|]. by intros _ w [??]. }
  intros _. eapply run_then; [apply run_zero_before, _|]. intros go.
  apply triple_if; intros _; [by apply run_ret|].
  eapply triple_bind; [apply run_sdk, _|]. intros r.
  set (l1 := EvDone (CallSetMode (mode c) (sdk_call_timeout_ms config)) r :: l). apply triple_if; intros Hr.
  - apply run_safe. apply run_then with (R := fun _ => True); [run_steps|]. intros _.
    apply run_refuse; [done|]. bool_prop. exact Hr.
  - cbv zeta. apply triple_if; intros Hst.
    { apply run_safe. apply run_then with (R := fun _ => True); [run_steps|]. intros _.
      by apply run_refuse. }
    apply run_then with (R := fun w => True /\ l1 `sublist_of` trace w); [run_steps|].
    intros now w [[_ Hl] Hh]. unfold modify. split; [done|]. apply honest_arm; [done|].
    bool_prop. by eexists _, _, r, name.
Qed.

Lemma safe_then {A B} (m : M A) (k : A -> M B) : safe m -> (forall a, safe (k a)) -> safe (bind m k).
Proof. intros Hm Hk. by apply run_then with (R := fun _ => True). Qed.

#[local] Ltac safe_steps := run_steps.

Lemma safe_exception c what : safe (command_exception observer oracle c what).
Proof.
  unfold command_exception. apply run_gets. intros t. apply run_safe. apply safe_then.
  - apply triple_if; intros _; [|by apply run_ret]. apply safe_then; [|intros _; by apply run_refuse].
    eapply run_post; [by apply run_deactivate|done].
  - intros _. apply safe_then; [safe_steps|]. intros _. apply run_refuse; [done|]. by destruct what.
Qed.

Lemma safe_next_command : safe (next_command config observer oracle).
Proof.
  unfold next_command. eapply triple_bind; [apply run_try_pop, _|]. intros [c|]; [|by apply run_ret].
  apply run_pre with (Y := fun w => command_honest (trace w) c); [|by intros w _ [_ ?]].
  apply triple_try with (R := honest).
  - destruct (kind c) eqn:Hk; [by apply run_authority|by apply run_mode].
  - intros what. eapply triple_pre; [apply safe_exception|done].
Qed.

(** *** Confirmation by a snapshot *)

(** If a transition is active, it was commanded before [s] was reported. *)
Definition confirmed (s : SdkSnapshot) (w : world) : Prop :=
  let t := mode_transition_ (rt w) in
  mt_active t = true ->
  exists m d r name, success r = true /\ stable_status t = stable_status_for m /\
    [EvReported s; EvDone (CallSetMode m d) r; EvModeAccepted (mt_promise t) m;
     EvApi (mt_promise t) (ApiMode name)] `sublist_of` trace w.

#[export] Instance keeps_confirmed q an s : Keeps observer oracle q true an (confirmed s).
Proof.
  assert (Hg : forall w w', grows w w' -> mode_transition_ (rt w') = mode_transition_ (rt w) ->
    confirmed s w -> confirmed s w').
  { unfold confirmed. intros w w' [pre Hp] -> H Ha.
    destruct (H Ha) as (m & d & r & name & H1 & H2 & H3). exists m, d, r, name.
    rewrite Hp. eauto using sublist_grow. }
  apply keeps_actions.
  - intros held a w. apply Hg; [|by apply run_action_calm].
    destruct (run_action_extends observer held a w) as (pre & H & _). by exists pre.
  - intros w w' Hs. apply Hg; [by destruct Hs|]. by apply Hs.
Qed.

Lemma run_snapshot :
  run (fun _ => True) (sdk_snapshot observer oracle) (fun s w => confirmed s w).
Proof.
  unfold sdk_snapshot. apply run_then with (R := fun _ => True); [apply run_neutral, neutral_sdk_call, _|].
  intros s w [_ Hh]. unfold modify, ret, bind. split; [|by apply (honest_sim w); [solve_sim|]].
  intros Ha. destruct (hn_transition _ Hh Ha) as (m & d & r & name & H1 & H2 & H3).
  exists m, d, r, name. split_and!; [done|done|]. by apply sublist_skip.
Qed.

Lemma inactive_confirmed s w : inactive w -> confirmed s w.
Proof. unfold inactive, confirmed. congruence. Qed.

Lemma run_orphan s :
  run (confirmed s) (abort_orphan_transition observer oracle) (fun _ => confirmed s).
Proof.
  unfold abort_orphan_transition. apply run_gets. intros t.
  apply run_pre with (Y := confirmed s); [|by intros w _ [??]].
  apply triple_if; intros _; [|by apply run_ret].
  apply run_then with (R := confirmed s); [run_steps|]. intros pending.
  apply triple_if; intros _; [|by apply run_ret]. eapply run_pre with (Y := fun _ => True); [|done].
  eapply run_post; [by apply run_fail|]. intros _ w [_ ?]. by apply inactive_confirmed.
Qed.

Lemma safe_orphan : safe (abort_orphan_transition observer oracle).
Proof.
  unfold abort_orphan_transition. apply run_gets. intros t. apply run_safe.
  apply triple_if; intros _; [|by apply run_ret]. apply safe_then; [safe_steps|]. intros pending.
  apply triple_if; intros _; [|by apply run_ret]. eapply run_post; [by apply run_fail|done].
Qed.

Lemma run_check s now :
  run (confirmed s) (check_mode_transition observer oracle s now) (fun _ _ => True).
Proof.
  unfold check_mode_transition. apply run_gets. intros t.
  apply triple_if; intros Ht; [by apply run_ret|]. bool_prop.
  apply run_then with (R := fun w => confirmed s w /\ mode_transition_ (rt w) = t); [run_steps|].
  intros pending. apply triple_if; intros _.
  { apply run_safe. eapply run_post; [by apply run_fail|done]. }
  apply triple_if; intros Hs; bool_prop.
  { apply run_pre with (Y := fun w => earned (mt_promise t) (trace w)).
    - apply run_drop, run_release; [apply _|]. by intros w ? _.
    - intros w _ [Hc <-]. destruct (Hc Ht) as (m & d & r & name & H1 & H2 & H3).
      do 3 right. exists m, d, r, name, s. split_and!; [done|congruence|done]. }
  apply run_safe. apply triple_if; intros _; [|by apply run_ret]. by apply run_settle.
Qed.

Lemma safe_state_poll now ls : safe (state_poll config observer oracle now ls).
Proof.
  unfold state_poll. apply triple_if; intros _; [|by apply run_ret].
  eapply triple_bind; [apply run_snapshot|]. intros s.
  apply run_then with (R := confirmed s); [run_steps|]. intros _.
  eapply run_then; [apply run_orphan|]. intros _.
  apply run_then with (R := confirmed s); [run_steps|]. intros _.
  eapply run_then; [apply run_check|]. intros _. safe_steps.
Qed.

(** *** The loop and the sessions *)

Lemma safe_settle_expired now : safe (settle_expired observer oracle now).
Proof.
  unfold settle_expired. apply run_gets. intros t. apply run_safe.
  apply triple_if; intros _; [by apply run_settle|by apply run_ret].
Qed.

Lemma safe_handle_estop f : safe (handle_estop_if_requested config observer oracle f).
Proof. by apply run_handle_estop. Qed.

#[local] Hint Resolve safe_handle_estop safe_settle_expired safe_state_poll safe_next_command safe_orphan : safe.

(** One bind of an operation listed above or neutral. *)
#[local] Ltac loop_step :=
  first [ solve [safe_steps]
        | apply safe_then; [solve [eauto with safe | safe_steps]|intros ?]
        | apply triple_if; intros _; [solve [safe_steps]|]
        | match goal with
          | |- triple _ _ (match ?x with _ => _ end) _ _ => destruct x; [|solve [safe_steps]]
          end
        | solve [by apply run_ret] ].

Lemma safe_loop_body f ls : safe (loop_body config observer oracle f ls).
Proof. unfold loop_body. repeat loop_step. Qed.

Lemma safe_connected_loop f ls : safe (connected_loop config observer oracle f ls).
Proof.
  revert ls. induction f as [|f IH]; intros ls; cbn [connected_loop]; [by intros w [_ ?]|].
  apply safe_then; [apply safe_loop_body|]. intros [ls'|]; [apply IH|by apply run_ret].
Qed.

(** Answering the pending emergency stop with a failure. *)
Lemma honest_drop_estop p r w :
  honest w -> success r = false ->
  honest (set_rt (fun r => r <| estop_promise_ := None |>)
    (set_promise p r (set_rt (fun r => r <| estop_engaged_ := false |>) w))).
Proof.
  intros Hh Hr. set (w1 := set_rt (fun r => r <| estop_engaged_ := false |>) w).
  assert (H1 : honest w1) by (apply (honest_step w); cbn; auto; [by exists []|done]).
  apply honest_flags; [by apply honest_answer, failure_honest|done| |done].
  cbn. by rewrite (proj1 (set_promise_rt _ _ _)).
Qed.

Lemma safe_fail_all f : safe (fail_all_pending_locked observer oracle f).
Proof.
  unfold fail_all_pending_locked. apply run_gets. intros r.
  apply run_then with (R := fun _ => True).
  - intros w [[_ <-] Hh]. destruct (estop_engaged_ (rt w)) eqn:E; [|by split].
    destruct (hn_engaged _ Hh E) as [p Hp]. unfold bind, modify, answer. rewrite Hp.
    split; [done|]. by apply honest_drop_estop.
  - intros _. apply run_safe. apply safe_then; [eapply run_post; [by apply run_fail|done]|].
    intros _. by apply run_drain.
Qed.

Lemma safe_connected b :
  safe (atomic observer oracle false (fun w => (tt, set_rt (fun r => r <| connected_ := b |>) w))).
Proof.
  apply triple_atomic; [apply _|]. intros w [_ Hh]. split; [done|].
  apply (honest_step w); cbn; auto. by exists [].
Qed.

#[local] Hint Resolve safe_connected safe_fail_all safe_connected_loop : safe.

Lemma safe_session f : safe (session config observer oracle f).
Proof.
  unfold session.
  assert (safe (run_connected_loop config observer oracle f)).
  { unfold run_connected_loop. repeat loop_step. apply safe_connected_loop. }
  repeat loop_step.
Qed.
#[local] Hint Resolve safe_session : safe.

Lemma safe_attempt f b : safe (attempt config observer oracle f b).
Proof. unfold attempt. repeat loop_step. Qed.

Lemma safe_worker_loop f b : safe (worker_loop config observer oracle f b).
Proof.
  revert b. induction f as [|f IH]; intros b; cbn [worker_loop]; [by intros w [_ ?]|].
  apply safe_then; [safe_steps|]. intros []; [by apply run_ret|].
  apply safe_then; [apply safe_attempt|]. intros [b'|]; [apply IH|by apply run_ret].
Qed.

End Worker.

Lemma initial_honest config now w : initial_world config now = Some w -> honest w.
Proof.
  unfold initial_world, make_runtime. destruct (make_controller _) as [c|]; [|done].
  destruct (make_queue _ _) as [q|] eqn:Eq; [|done]. intros [= <-].
  unfold make_queue in Eq. case_decide; [done|]. injection Eq as <-.
  split; cbn; try done; by intros ? ?.
Qed.

(** A success is never reported for nothing.  In every environment, a promise
    that holds a success belongs to a call that cleared the stop, or to an
    emergency stop after which the zero velocity and then the damping mode were
    acknowledged by the SDK, or to an authority request the SDK acknowledged
    after it was made, or to a mode request that the gate accepted, whose mode
    the SDK then acknowledged, and whose stable status a later snapshot
    reported. Claim C4. *)
Theorem success_answers_are_earned config observer oracle fuel now w id r :
  initial_world config now = Some w ->
  promises (worker_main config observer oracle fuel w).2 !! id = Some r ->
  success r = true ->
  earned id (trace (worker_main config observer oracle fuel w).2).
Proof.
  intros Hw Hr Hs.
  pose proof (safe_worker_loop config observer oracle fuel (reconnect_initial_delay_ms config) w
    (conj I (initial_honest _ _ _ Hw))) as H.
  fold (worker_main config observer oracle fuel) in H.
  destruct (worker_main config observer oracle fuel w) as [[a|what| |] w'] eqn:E; cbn [snd] in *;
    [destruct H as [_ H]| |done|]; exact (hn_answers _ H _ _ Hr Hs).
Qed.

(** All requests of the sample run succeed but the one the stop overtakes. *)
Lemma success_answers_are_earned_witness :
  (forall id, id ∈ [0; 1; 3; 4]%nat -> earned id (trace calls_run.2)) /\
  (success <$> promises calls_run.2 !! 2%nat) = Some false.
Proof.
  assert (H : forall id, success <$> promises calls_run.2 !! id = Some true ->
    earned id (trace calls_run.2)).
  { unfold calls_run. intros id Hid. destruct (promises _ !! id) as [r|] eqn:E; [|done].
    injection Hid as Hid.
    exact (success_answers_are_earned sample_config None (calls_until 350) 400 0 sample_world id r
      eq_refl E Hid). }
  split; [intros id Hid%list_elem_of_In; apply H; cbn in Hid; destruct_or!; subst|];
    vm_compute; done.
Defined.
