(* ===== verification/RuntimeSessions.v ===== *)
(** * RuntimeSessions: the worker as a client of the SDK

    A session protocol for the calls the worker makes: [init] only after a preflight
    that was ready, the subscriptions in order, commands only when all are made, and
    [deinit] at the end of every attempt that got past the preflight.  Every run of
    the worker follows it, in every environment. *)

From S2P Require Import Prelude Cxx ThreadSafeQueue RobotController NetworkPreflight.
From S2P Require Import SdkTypes RuntimeState RuntimeWorker RuntimeSamples RuntimeSafety.
#[local] Open Scope rt_scope.

(** ** The protocol *)

Inductive phase :=
  | Down                             (* no session *)
  | Probing                          (* the preflight runs *)
  | Cleared                          (* it was ready *)
  | Opening                          (* [init] runs *)
  | Ending                           (* a failed attempt: only [deinit] is left *)
  | NeedImu | NeedSport | NeedLidar  (* [init] succeeded, subscriptions are missing *)
  | Ready.

Section Protocol.
  Context (want_lidar : bool).

(** The next step of the session once IMU and sport telemetry are subscribed. *)
Definition after_sport : phase := if want_lidar then NeedLidar else Ready.

(** A call is made in a phase; [None] breaks the protocol. *)
Definition enter (c : SdkCall) (ph : phase) : option phase :=
  match c, ph with
  | CallInit _, Cleared => Some Opening
  | CallDeinit, (Ending | NeedImu | NeedSport | NeedLidar | Ready) => Some Down
  | CallSubscribeImu _ _, NeedImu | CallSubscribeSport _ _, NeedSport
  | CallSubscribeLidar _ _, NeedLidar => Some ph
  | (CallHeartbeat _ | CallRequestAuthority _ _ | CallMove _ _ | CallSetMode _ _ | CallSnapshot), Ready =>
      Some Ready
  | _, _ => None
  end.

(** A call has answered. *)
Definition leave (c : SdkCall) (r : Result) (ph : phase) : option phase :=
  match c, ph with
  | CallInit _, Opening => Some (if success r then NeedImu else Ending)
  | CallSubscribeImu _ _, NeedImu => Some (if success r then NeedSport else Ending)
  | CallSubscribeSport _ _, NeedSport => Some (if success r then after_sport else Ending)
  | CallSubscribeLidar _ _, NeedLidar => Some (if success r then Ready else Ending)
  | (CallHeartbeat _ | CallRequestAuthority _ _ | CallMove _ _ | CallSetMode _ _), Ready => Some Ready
  | _, _ => None
  end.

Definition advance_phase (e : event) (ph : phase) : option phase :=
  match e with
  | EvPreflight _ => match ph with Down => Some Probing | _ => None end
  | EvNetwork d => match ph with Probing => Some (if ready d then Cleared else Ending) | _ => None end
  | EvSdk c => enter c ph
  | EvDone c r => leave c r ph
  | EvReported _ => match ph with Ready => Some Ready | _ => None end
  | _ => Some ph
  end.

(** The phase after a trace, newest event first. *)
Fixpoint phase_of (tr : list event) : option phase :=
  match tr with
  | [] => Some Down
  | e :: tr => ph ← phase_of tr; advance_phase e ph
  end.

(** ** Operations that keep the phase *)

Definition at_phase (ph : phase) (w : world) : Prop := phase_of (trace w) = Some ph.

(** However [m] ends, it ends in the phase it began in. *)
Definition stays {A} (ph : phase) (m : M A) : Prop := forall w, at_phase ph w -> at_phase ph (m w).2.

Definition calm_op {A} (m : M A) : Prop := forall ph, stays ph m.

Lemma env_keeps_phase w w' ph : env_extends w w' -> at_phase ph w -> at_phase ph w'.
Proof.
  unfold at_phase. intros (pre & -> & Hp) Hw. induction pre as [|e pre IH]; [done|].
  cbn in Hp |- *. apply andb_true_iff in Hp as [He Hp]. rewrite (IH Hp). by destruct e.
Qed.

Lemma same_trace_keeps w w' ph : trace w' = trace w -> at_phase ph w -> at_phase ph w'.
Proof. unfold at_phase. by intros ->. Qed.

Lemma emit_phase ph ph' e w : advance_phase e ph = Some ph' -> at_phase ph w -> at_phase ph' (emit e w).
Proof. intros He Hw. unfold at_phase in *. change (trace (emit e w)) with (e :: trace w). cbn [phase_of]. by rewrite Hw. Qed.

Lemma stays_bind {A B} ph (m : M A) (k : A -> M B) :
  stays ph m -> (forall a, stays ph (k a)) -> stays ph (bind m k).
Proof.
  intros Hm Hk w Hw. specialize (Hm w Hw). unfold bind.
  destruct (m w) as [[a|what| |] w']; try done. by apply Hk.
Qed.

Lemma stays_try {A} ph (m : M A) h : stays ph m -> (forall what, stays ph (h what)) -> stays ph (try_catch m h).
Proof.
  intros Hm Hh w Hw. specialize (Hm w Hw). unfold try_catch.
  destruct (m w) as [[a|what| |] w']; try done. by apply Hh.
Qed.

Lemma stays_ret {A} ph (a : A) : stays ph (ret a).
Proof. by intros w. Qed.

Lemma stays_gets {A} ph (f : world -> A) : stays ph (gets f).
Proof. by intros w. Qed.

Lemma stays_modify ph f : (forall w, env_extends w (f w)) -> stays ph (modify f).
Proof. intros Hf w. apply env_keeps_phase, Hf. Qed.
End Protocol.

Section Operations.
  Context (config : RuntimeConfig) (observer : option (observer_event -> bool)).
  Context (oracle : nat -> env_step) (want_lidar : bool).
  #[local] Abbreviation stays := (stays want_lidar).

Lemma stays_yield ph held : stays ph (yield observer oracle held).
Proof. apply stays_modify. intros w. apply run_step_extends. Qed.

Lemma stays_atomic {A} ph held (f : world -> A * world) :
  (forall w, trace (f w).2 = trace w) -> stays ph (atomic observer oracle held f).
Proof.
  intros Hf. apply stays_bind; [apply stays_yield|]. intros _ w Hw.
  pose proof (same_trace_keeps want_lidar w (f w).2 ph (Hf w) Hw). by destruct (f w).
Qed.

Lemma stays_quiet ph f : (forall w, trace (f w) = trace w) -> stays ph (modify f).
Proof. intros Hf w Hw. exact (same_trace_keeps _ w (f w) ph (Hf w) Hw). Qed.

Lemma stays_wait ph deadline pred : stays ph (wait_until observer oracle deadline pred).
Proof.
  intros w Hw. unfold wait_until. destruct (pred w); [done|].
  assert (H1 : at_phase want_lidar ph (run_step observer oracle false w)).
  { eapply env_keeps_phase; [apply run_step_extends|done]. }
  destruct (pred _); [done|]. by apply (same_trace_keeps _ (run_step observer oracle false w)).
Qed.

Lemma stays_dispatch ph e : stays ph (modify (dispatch_observer_safely observer e)).
Proof. apply stays_modify. apply dispatch_extends. Qed.

Lemma stays_notify ph severity message : stays ph (notify observer severity message).
Proof. apply stays_dispatch. Qed.

Lemma stays_answer ph p r : stays ph (answer p r).
Proof. apply stays_modify. apply set_promise_extends. Qed.

(** A call in a phase that allows it, and that it does not change. *)
Lemma stays_sdk_call ph c :
  enter c ph = Some ph -> stays ph (sdk_call observer oracle c).
Proof.
  intros He. apply stays_bind; [apply stays_yield|]. intros _. apply stays_bind.
  - intros w Hw. by apply (emit_phase _ ph).
  - intros _ w Hw. cbv zeta. destruct (es_answer _); cbn [snd];
      (eapply env_keeps_phase; [apply run_step_extends|done]).
Qed.

Lemma stays_emit ph e : advance_phase want_lidar e ph = Some ph -> stays ph (modify (emit e)).
Proof. intros He w Hw. by apply (emit_phase _ ph). Qed.

(** The calls of a session that is up. *)
Definition session_call (c : SdkCall) : bool :=
  match c with
  | CallHeartbeat _ | CallRequestAuthority _ _ | CallMove _ _ | CallSetMode _ _ => true
  | _ => false
  end.

Lemma stays_session_sdk c : session_call c = true -> stays Ready (sdk observer oracle c).
Proof.
  intros Hc. apply stays_bind; [apply stays_sdk_call; by destruct c|]. intros s.
  apply stays_bind; [|intros _; apply stays_ret]. apply stays_emit. by destruct c.
Qed.

Lemma stays_snapshot : stays Ready (sdk_snapshot observer oracle).
Proof.
  apply stays_bind; [by apply stays_sdk_call|]. intros s.
  apply stays_bind; [by apply stays_emit|]. intros _. apply stays_ret.
Qed.
End Operations.

Create HintDb phases.
#[export] Hint Resolve stays_yield stays_wait stays_dispatch stays_notify stays_answer
  stays_ret stays_gets stays_snapshot : phases.
#[export] Hint Extern 1 (stays _ _ (atomic _ _ _ _)) => (apply stays_atomic; intros ?; cbn; repeat case_match; done) : phases.
#[export] Hint Extern 1 (stays _ _ (modify (set_rt _))) => (apply stays_quiet; done) : phases.
#[export] Hint Extern 1 (stays _ Ready (sdk _ _ _)) => (apply stays_session_sdk; done) : phases.
#[export] Hint Extern 1 (stays _ _ out_of_fuel) => (intros ? ?; assumption) : phases.
#[export] Hint Extern 1 (stays _ _ undefined) => (intros ? ?; assumption) : phases.

(** Decomposes an operation every step of which keeps the phase. *)
Ltac phase_steps :=
  repeat first
    [ progress cbv beta zeta
    | match goal with
      | |- forall _, _ => intro
      | |- stays _ _ (if ?b then _ else _) => destruct b
      | |- stays _ _ (match ?x with _ => _ end) => destruct x
      end
    | solve [eauto 2 with phases]
    | match goal with
      | |- stays _ _ (bind _ _) => apply stays_bind
      | |- stays _ _ (try_catch _ _) => apply stays_try
      end ].

Section Members.
  Context (config : RuntimeConfig) (observer : option (observer_event -> bool)).
  Context (oracle : nat -> env_step) (want_lidar : bool).
  #[local] Abbreviation stays := (stays want_lidar).

(** ** Members that call no SDK: in every phase *)

Lemma stays_drain ph fuel held r : stays ph (drain_commands observer oracle fuel held r).
Proof. induction fuel; cbn [drain_commands]; unfold try_pop, controller_op; phase_steps. Qed.

Lemma stays_fail ph held r b : stays ph (fail_mode_transition observer oracle held r b).
Proof. unfold fail_mode_transition, deactivate_transition, controller_op. phase_steps. Qed.

Lemma stays_orphan ph : stays ph (abort_orphan_transition observer oracle).
Proof. unfold abort_orphan_transition, mode_transition_pending. pose proof stays_fail. phase_steps. Qed.

Lemma stays_settle ph : stays ph (settle_mode_transition_timeout observer oracle).
Proof. unfold settle_mode_transition_timeout, deactivate_transition, controller_op. phase_steps. Qed.

Lemma stays_check ph s now : stays ph (check_mode_transition observer oracle s now).
Proof.
  pose proof stays_fail. pose proof stays_settle.
  unfold check_mode_transition, mode_transition_pending, deactivate_transition, controller_op. phase_steps.
Qed.

Lemma stays_invalidate ph : stays ph (invalidate_session observer oracle).
Proof. unfold invalidate_session, controller_op. phase_steps. Qed.

Lemma stays_fail_all ph fuel : stays ph (fail_all_pending_locked observer oracle fuel).
Proof. pose proof stays_fail. pose proof stays_drain. unfold fail_all_pending_locked. phase_steps. Qed.

Lemma stays_backoff ph b : stays ph (wait_backoff config observer oracle b).
Proof. unfold wait_backoff. phase_steps. Qed.

Lemma stays_stopping ph : stays ph (stopping observer oracle).
Proof. unfold stopping. phase_steps. Qed.
#[local] Hint Resolve stays_drain stays_fail stays_orphan stays_settle stays_check stays_backoff : phases.

(** ** Members of a session that is up *)

Lemma stays_send_zero : stays Ready (send_zero_and_damping config observer oracle).
Proof. unfold send_zero_and_damping. phase_steps. Qed.
#[local] Hint Resolve stays_send_zero : phases.

Lemma stays_estop fuel : stays Ready (handle_estop_if_requested config observer oracle fuel).
Proof. unfold handle_estop_if_requested, controller_op, actuation_allowed. phase_steps. Qed.

Lemma stays_command c : stays Ready (execute_command config observer oracle c).
Proof.
  unfold execute_command, execute_authority, execute_mode, zero_before_mode, command_exception,
    deactivate_transition, clock_now, controller_op. phase_steps.
Qed.

Lemma stays_end : stays Ready (end_if_requested config observer oracle).
Proof. unfold end_if_requested, actuate_stop_if_authorized, actuation_allowed. phase_steps. Qed.

Lemma stays_read_tick ph : stays ph (read_tick observer oracle).
Proof.
  apply stays_bind; [apply stays_yield|]. intros _ w Hw. unfold at_phase in *. cbn. by rewrite Hw.
Qed.
#[local] Hint Resolve stays_estop stays_command stays_end stays_read_tick : phases.

Lemma stays_loop_body fuel ls : stays Ready (loop_body config observer oracle fuel ls).
Proof.
  unfold loop_body, wait_for_work, clock_now, next_command, try_pop, take_motion_request,
    heartbeat_tick, motion_tick, settle_expired, state_poll, apply_snapshot, arm_readiness,
    controller_op. phase_steps.
Qed.
#[local] Hint Resolve stays_loop_body : phases.

Lemma stays_connected fuel ls : stays Ready (connected_loop config observer oracle fuel ls).
Proof. revert ls. induction fuel; intros ls; cbn [connected_loop]; phase_steps. Qed.

End Members.

(** ** Attempts and sessions *)

Definition wants_lidar (config : RuntimeConfig) : bool :=
  enable_lidar_stream config && negb (bool_decide (lidar_freq config = Disabled)).

Section Worker.
  Context (config : RuntimeConfig) (observer : option (observer_event -> bool)).
  Context (oracle : nat -> env_step).
  #[local] Abbreviation want := (wants_lidar config).

(** From [ph], [m] returns in a phase that [Q] allows; if it does not return, the
    protocol was still followed. *)
Definition leads {A} (ph : phase) (m : M A) (Q : A -> phase -> Prop) : Prop :=
  forall w, at_phase want ph w ->
    exists ph', at_phase want ph' (m w).2 /\ match (m w).1 with Ret a => Q a ph' | _ => True end.

Lemma leads_bind {A B} ph (m : M A) (k : A -> M B) Q R :
  leads ph m Q -> (forall a ph', Q a ph' -> leads ph' (k a) R) -> leads ph (bind m k) R.
Proof.
  intros Hm Hk w Hw. destruct (Hm w Hw) as (ph' & H' & HQ). unfold bind.
  destruct (m w) as [[a|what| |] w']; cbn in *; [by apply (Hk a ph')|by exists ph'..].
Qed.

Lemma leads_stays {A} ph (m : M A) : stays want ph m -> leads ph m (fun _ ph' => ph' = ph).
Proof. intros Hm w Hw. exists ph. split; [by apply Hm|by destruct (m w).1]. Qed.

Lemma leads_skip {A B} ph (m : M A) (k : A -> M B) R :
  stays want ph m -> (forall a, leads ph (k a) R) -> leads ph (bind m k) R.
Proof. intros Hm Hk. eapply leads_bind; [by apply leads_stays|]. by intros a ? ->. Qed.

Lemma leads_ret {A} ph (a : A) (Q : A -> phase -> Prop) : Q a ph -> leads ph (ret a) Q.
Proof. intros H w Hw. by exists ph. Qed.

Lemma leads_emit ph e ph' (Q : unit -> phase -> Prop) :
  advance_phase want e ph = Some ph' -> Q tt ph' -> leads ph (modify (emit e)) Q.
Proof. intros He HQ w Hw. exists ph'. split; [by apply (emit_phase _ ph)|done]. Qed.

Lemma leads_sdk ph c ph' (next : Result -> phase) :
  enter c ph = Some ph' -> (forall r, leave want c r ph' = Some (next r)) ->
  leads ph (sdk observer oracle c) (fun r ph => ph = next r).
Proof.
  intros He Hl. unfold sdk, sdk_call.
  eapply (leads_bind _ _ _ (fun _ q => q = ph')).
  - apply leads_skip; [apply stays_yield|]. intros _.
    eapply (leads_bind _ _ _ (fun _ q => q = ph')); [by eapply leads_emit|]. intros _ ? ->.
    intros w Hw. exists ph'. cbv zeta. destruct (es_answer _); cbn;
      (split; [eapply env_keeps_phase; [apply run_step_extends|done]|done]).
  - intros s ? ->. eapply leads_bind; [eapply (leads_emit _ _ _ (fun _ q => q = next (step_result s))); [apply Hl|done]|].
    intros [] ? ->. by apply leads_ret.
Qed.

Lemma leads_deinit ph :
  enter CallDeinit ph = Some Down -> leads ph (sdk_deinit observer oracle) (fun _ ph => ph = Down).
Proof.
  intros He. unfold sdk_deinit. apply leads_skip; [apply stays_yield|]. intros _.
  eapply (leads_bind _ _ _ (fun _ q => q = Down)); [by eapply leads_emit|]. intros _ ? ->.
  apply leads_stays, stays_yield.
Qed.

Lemma leads_preflight e :
  leads Down (preflight_check observer oracle e) (fun d ph => ph = if ready d then Cleared else Ending).
Proof.
  unfold preflight_check. apply leads_skip; [apply stays_yield|]. intros _.
  eapply (leads_bind _ _ _ (fun _ q => q = Probing)); [by eapply leads_emit|]. intros _ ? ->.
  intros w Hw. cbv zeta.
  assert (H1 : at_phase want Probing (run_step observer oracle false w)).
  { eapply env_keeps_phase; [apply run_step_extends|done]. }
  destruct (es_answer _); cbn; [|by exists Probing].
  eexists. split; [by apply (emit_phase _ Probing)|done].
Qed.

Lemma leads_subscribe :
  leads NeedImu (subscribe_telemetry config observer oracle)
    (fun r ph => ph = if success r then Ready else Ending).
Proof.
  unfold subscribe_telemetry.
  eapply leads_bind; [apply (leads_sdk _ _ NeedImu (fun r => if success r then NeedSport else Ending)); done|].
  intros imu ? ->. destruct (success imu) eqn:E1; cbn [negb]; [|apply leads_ret; by rewrite E1].
  eapply leads_bind; [by apply (leads_sdk _ _ NeedSport (fun r => if success r then after_sport want else Ending))|].
  intros sport ? ->. destruct (success sport) eqn:E2; cbn [negb]; [|apply leads_ret; by rewrite E2].
  fold (wants_lidar config). unfold after_sport. destruct want eqn:Ew; [|by apply leads_ret].
  eapply leads_bind; [by apply (leads_sdk _ _ NeedLidar (fun r => if success r then Ready else Ending))|].
  intros lidar ? ->. destruct (success lidar) eqn:E3; cbn [negb]; apply leads_ret; [done|by rewrite E3].
Qed.

Lemma leads_failed_attempt message backoff :
  leads Ending (failed_attempt config observer oracle message backoff) (fun _ ph => ph = Down).
Proof.
  unfold failed_attempt. apply leads_skip; [apply stays_notify|]. intros _.
  apply leads_skip; [apply stays_invalidate|]. intros _.
  eapply leads_bind; [by apply leads_deinit|]. intros _ ? ->. apply leads_stays, stays_backoff.
Qed.

Lemma leads_session fuel :
  leads Ready (session config observer oracle fuel) (fun _ ph => ph = Down).
Proof.
  unfold session, run_connected_loop, clock_now.
  apply leads_skip; [by auto with phases|]. intros _. apply leads_skip; [apply stays_notify|]. intros _.
  apply leads_skip.
  { pose proof (stays_connected config observer oracle want). phase_steps. }
  intros _. apply leads_skip; [by auto with phases|]. intros _.
  apply leads_skip; [apply stays_fail_all|]. intros _. apply leads_skip; [apply stays_invalidate|]. intros _.
  by apply leads_deinit.
Qed.

(** No session is open: nothing was initialised, or it was deinitialised. *)
Definition no_session_open (ph : phase) : Prop := ph = Down \/ ph = Cleared.

Definition after_attempt (next : option Z) (ph : phase) : Prop :=
  match next with None => no_session_open ph | Some _ => ph = Down end.

(** A failed step: the attempt ends with its teardown. *)
Lemma leads_failure message backoff :
  leads Ending (b <- failed_attempt config observer oracle message backoff ;; ret (Some b)) after_attempt.
Proof. eapply leads_bind; [apply leads_failed_attempt|]. intros b ? ->. by apply leads_ret. Qed.

(** A stop between two steps of an attempt. *)
Lemma leads_stop ph (k : M (option Z)) :
  enter CallDeinit ph = Some Down -> leads ph k after_attempt ->
  leads ph (stop <- stopping observer oracle ;;
    if (stop : bool) then sdk_deinit observer oracle ;; ret None else k) after_attempt.
Proof.
  intros He Hk. apply leads_skip; [apply stays_stopping|]. intros []; [|done].
  eapply leads_bind; [by apply leads_deinit|]. intros _ ? ->. apply leads_ret. by left.
Qed.

Lemma leads_attempt fuel backoff :
  leads Down (attempt config observer oracle fuel backoff) after_attempt.
Proof.
  unfold attempt. eapply leads_bind; [apply leads_preflight|]. intros d ? ->.
  destruct (ready d); cbn [negb]; [|apply leads_failure].
  apply leads_skip; [apply stays_stopping|]. intros []; [apply leads_ret; by right|].
  apply leads_skip; [by auto with phases|]. intros _.
  eapply leads_bind; [by apply (leads_sdk _ _ Opening (fun r => if success r then NeedImu else Ending))|].
  intros r ? ->. destruct (success r); cbn [negb]; [|apply leads_failure].
  apply leads_stop; [done|]. eapply leads_bind; [apply leads_subscribe|].
  intros r' ? ->. destruct (success r'); cbn [negb]; [|apply leads_failure].
  apply leads_stop; [done|]. eapply leads_bind; [apply leads_session|]. intros _ ? ->.
  apply leads_skip; [apply stays_stopping|]. intros []; [apply leads_ret; by left|].
  apply leads_skip; [apply stays_notify|]. intros _.
  eapply leads_bind; [apply leads_stays, stays_backoff|]. intros b ? ->. by apply leads_ret.
Qed.

Lemma leads_worker_loop fuel backoff :
  leads Down (worker_loop config observer oracle fuel backoff) (fun _ => no_session_open).
Proof.
  revert backoff. induction fuel as [|fuel IH]; intros backoff; cbn [worker_loop].
  { intros w Hw. by exists Down. }
  apply leads_skip; [apply stays_stopping|]. intros []; [apply leads_ret; by left|].
  eapply leads_bind; [apply leads_attempt|]. intros [b|] ph Hph; cbn in Hph.
  - subst ph. apply IH.
  - by apply leads_ret.
Qed.
End Worker.

(** ** Theorem *)

Lemma worker_main_phase config observer oracle fuel now w o w' :
  initial_world config now = Some w -> worker_main config observer oracle fuel w = (o, w') ->
  exists ph, phase_of (wants_lidar config) (trace w') = Some ph /\
    match o with Ret _ => no_session_open ph | _ => True end.
Proof.
  intros Hw. assert (H0 : at_phase (wants_lidar config) Down w).
  { unfold initial_world in Hw. by case_match; simplify_eq. }
  destruct (leads_worker_loop config observer oracle fuel (reconnect_initial_delay_ms config) w H0)
    as (ph & Hph & Hr).
  unfold worker_main. intros E. rewrite E in *. exists ph. split; [exact Hph|]. by destruct o.
Qed.

(** The worker is a client that follows the session protocol, in every environment
    and however it ends: [init] is called only after a preflight that was ready and
    never while a session is open, the subscriptions come in order and each only
    after the success of the one before, no heartbeat, authority, motion, mode or
    snapshot call is made outside a session that is fully subscribed, and a session
    is closed by [deinit], also after a failure.  When the worker has returned no
    session is open.  Claim C8. *)
Theorem worker_follows_session_protocol config observer oracle fuel now w :
  initial_world config now = Some w ->
  let '(o, w') := worker_main config observer oracle fuel w in
  exists ph, phase_of (wants_lidar config) (trace w') = Some ph /\
    match o with Ret _ => no_session_open ph | _ => True end.
Proof.
  intros Hw. destruct (worker_main _ _ _ _ _) as [o w'] eqn:E. by eapply worker_main_phase.
Qed.

Lemma worker_follows_session_protocol_witness :
  exists ph, phase_of true (trace calls_run.2) = Some ph /\ no_session_open ph.
Proof.
  pose proof (worker_follows_session_protocol sample_config None (calls_until 350) 400 0 sample_world
    ltac:(vm_compute; reflexivity)) as H.
  replace (wants_lidar sample_config) with true in H by (vm_compute; reflexivity).
  unfold calls_run. assert (Ho : (worker_main sample_config None (calls_until 350) 400 sample_world).1 = Ret tt)
    by (vm_compute; reflexivity).
  destruct (worker_main sample_config None (calls_until 350) 400 sample_world) as [o w'].
  cbn in Ho |- *. subst o. exact H.
Defined.
