(* ===== verification/RuntimeVendor.v ===== *)
(** * RuntimeVendor: the worker and the adapter together

    The runtime's worker is one thread of the adapter's transition system; the other
    threads are the vendor's and deliver callbacks, which do not call the SDK.  A joint
    execution interleaves the worker's trace with the adapter's steps: a call of the
    worker enters the adapter, the adapter's return is the answer in the trace. *)

From S2P Require Import Prelude Cxx SdkTypes SdkAdapter.
From S2P Require Import ThreadSafeQueue RobotController NetworkPreflight.
From S2P Require Import RuntimeState RuntimeWorker RuntimeSamples RuntimeSafety RuntimeSessions.
#[local] Open Scope rt_scope.

(** ** Joint executions *)

(** What the worker hears of the adapter's events; it is the adapter's thread 0. *)
Definition heard (e : SdkAdapter.event) : list event :=
  match e with
  | EvReturn 0 c (RResult r) => [EvDone c r]
  | EvReturn 0 _ (RSnapshot s) => [EvReported s]
  | _ => []
  end.

(** Events of the worker that the adapter has no part in. *)
Definition own_event (e : event) : bool :=
  match e with EvSdk _ | EvDone _ _ | EvReported _ => false | _ => true end.

(** The callbacks the worker registers: its status, IMU and sport handlers. *)
Definition handler_of (c : SdkCall) : callback :=
  match c with
  | CallInit _ => Some 1%nat
  | CallSubscribeImu _ _ => Some 2%nat
  | CallSubscribeSport _ _ => Some 3%nat
  | _ => None
  end.

Inductive joint_move :=
  | Calls (c : SdkCall)                        (* the worker calls *)
  | Runs (t : nat) (l : label)                 (* the adapter or the vendor runs *)
  | Notes (e : event).                         (* the worker goes on by itself *)

Section Joint.
  Context (bound : VendorFn -> bool).

Definition joint_step (m : joint_move) (tr : list event) (w : system) : option (list event * system) :=
  match m with
  | Calls c =>
      match threads w !! 0%nat with
      | Some [] => w' ← SdkAdapter.step bound 0 (LCall c (handler_of c)) w; Some (EvSdk c :: tr, w')
      | _ => None
      end
  | Runs t l =>
      match l with
      | LCall _ _ => None
      | _ =>
          s ← threads w !! t;
          '(i, s', ev) ← thread_step bound l t s (im w);
          w' ← SdkAdapter.step bound t l w;
          Some (concat (map heard ev) ++ tr, w')
      end
  | Notes e => if own_event e then Some (e :: tr, w) else None
  end.

Fixpoint joint_run (ms : list joint_move) (tr : list event) (w : system) : option (list event * system) :=
  match ms with
  | [] => Some (tr, w)
  | m :: ms => '(tr, w) ← joint_step m tr w; joint_run ms tr w
  end.

(** ** Agreement *)

(** A frame of the vendor, or of a callback. *)
Definition passive (f : frame) : bool :=
  match f with FDeliver _ _ | FOtherVendor | FOtherCallback => true | _ => false end.

(** Where the worker is in the adapter: outside, in a call, in [deinit]. *)
Definition fits (want : bool) (ph : phase) (bottom : list frame) (st : AdapterState) : Prop :=
  match bottom with
  | [] =>
      match ph with
      | Down | Probing | Cleared => st = Uninitialized
      | Opening => True                        (* [init] threw: the process ends *)
      | Ending => st = Uninitialized \/ st = Initialized
      | NeedImu | NeedSport | NeedLidar | Ready => st = Initialized
      end
  | [FCall (CallInit t) _ p] =>
      ph = Opening /\
      match p with
      | AtLock | AtGate => st = Uninitialized
      | AtTable _ | InVendor _ | AtCheckpoint _ _ | AtEnd _ _ => st = Initializing
      | InTail _ _ _ => False
      end
  | [FCall c _ p] =>
      enter c ph = Some ph /\ st = Initialized /\ match p with InTail _ _ _ => False | _ => True end
  | [FDeinit td] => ph = Down \/ ph = Probing \/ ph = Cleared \/ ph = Ending
  | _ => False
  end.

Record agree (want : bool) (ph : phase) (w : system) : Prop := mkAgree {
  ag_deferred : deferred_teardown (im w) = false;
  ag_worker : exists above bottom, threads w !! 0%nat = Some (above ++ bottom) /\
    Forall passive above /\ fits want ph bottom (state (im w));
  ag_others : forall t s, t <> 0%nat -> threads w !! t = Some s -> Forall passive s }.

Lemma agree_initial want n : agree want Down (initial (S n)).
Proof.
  split; [done| |].
  - by exists [], [].
  - intros t s Ht Hs. cbn in Hs. apply lookup_cons_Some in Hs as [[-> _]|[_ Hs]]; [done|].
    apply lookup_replicate in Hs as [-> _]. constructor.
Qed.

(** ** Steps of the adapter *)

(** Steps of the frame the worker is in; the other labels come from outside. *)
Definition inner (l : label) : bool :=
  match l with LStep | LAnswer _ | LThrow => true | _ => false end.

Definition is_call (l : label) : bool := match l with LCall _ _ => true | _ => false end.

Lemma deliver_passive t d s i i' s' ev :
  deliver t d s i = (i', s', ev) ->
  (s' = s \/ exists f, passive f = true /\ s' = f :: s) /\
  state i' = state i /\ deferred_teardown i' = deferred_teardown i /\ concat (map heard ev) = [].
Proof.
  assert (Hg : forall d note member,
    state (note i) = state i /\ deferred_teardown (note i) = deferred_teardown i ->
    through_gate t d note member s i = (i', s', ev) ->
    (s' = s \/ exists f, passive f = true /\ s' = f :: s) /\
    state i' = state i /\ deferred_teardown i' = deferred_teardown i /\ concat (map heard ev) = []).
  { intros d' note member [H1 H2]. unfold through_gate. destruct (gate_open (state i)); cbn; intros [= <- <- <-].
    - split; [right; by exists (FDeliver d' (member (note i)))|]. by repeat split.
    - by split; [left|]. }
  destruct d; cbn; apply Hg; by destruct i.
Qed.

Lemma pop_passive P (f : frame) s above bottom :
  f :: s = above ++ bottom -> passive f = true -> Forall passive above ->
  Forall (fun f => passive f = false) bottom -> P f s ->
  exists above', s = above' ++ bottom /\ Forall passive above'.
Proof.
  destruct above as [|g above]; cbn; intros E Hf Ha Hb HP.
  - subst bottom. apply Forall_inv in Hb. by rewrite Hf in Hb.
  - simplify_eq. apply Forall_inv_tail in Ha. by exists above.
Qed.

(** A step from outside only changes what lies above the worker's own frame. *)
Lemma outer_step t l above bottom i i' s' ev :
  inner l = false -> is_call l = false ->
  Forall passive above -> Forall (fun f => passive f = false) bottom ->
  thread_step bound l t (above ++ bottom) i = Some (i', s', ev) ->
  (exists above', s' = above' ++ bottom /\ Forall passive above') /\
  state i' = state i /\ deferred_teardown i' = deferred_teardown i /\ concat (map heard ev) = [].
Proof.
  intros Hl Hc Ha Hb H. destruct l as [| | | |d| | | |]; try done; cbn in H.
  - destruct (in_vendor_code _); [|done]. simplify_eq. destruct (deliver t d (above ++ bottom) i) as [[j u] e] eqn:E.
    simplify_eq. destruct (deliver_passive _ _ _ _ _ _ _ E) as [[->|(f & Hf & ->)] H]; (split; [|exact H]).
    + by exists above.
    + exists (f :: above). split; [done|]. constructor; [by rewrite Hf|done].
  - destruct (above ++ bottom) as [|[] s] eqn:E; try done. simplify_eq.
    split; [|by destruct i]. by eapply (pop_passive (fun _ _ => True)).
  - destruct (in_project_code _); [|done]. simplify_eq. split; [|done].
    exists (FOtherVendor :: above). split; [done|]. by constructor.
  - destruct (in_vendor_code _); [|done]. simplify_eq. split; [|done].
    exists (FOtherCallback :: above). split; [done|]. by constructor.
  - destruct (above ++ bottom) as [|[] s] eqn:E; try done; simplify_eq;
      (split; [|done]); by eapply (pop_passive (fun _ _ => True)).
Qed.

(** The vendor's threads make no step of a call. *)
Lemma passive_step t l s i i' s' ev :
  is_call l = false -> Forall passive s -> thread_step bound l t s i = Some (i', s', ev) ->
  Forall passive s' /\ state i' = state i /\ deferred_teardown i' = deferred_teardown i /\
  concat (map heard ev) = [].
Proof.
  intros Hc Hs H. destruct (inner l) eqn:Hl.
  - destruct l; try done; destruct s as [|[] ?]; cbn in H; try done;
      by apply Forall_inv in Hs.
  - rewrite <- (app_nil_r s) in H.
    destruct (outer_step t l s [] i i' s' ev Hl Hc Hs ltac:(constructor) H) as [(a & -> & Ha) ?].
    by rewrite app_nil_r.
Qed.

(** What a step of the worker's frame leaves: no answer and the same phase, or one
    answer that the protocol knows. *)
Definition answered (want : bool) (ph : phase) (s' : list frame) (st : AdapterState)
  (heard : list event) : Prop :=
  (heard = [] /\ fits want ph s' st) \/
  (exists e ph', heard = [e] /\ advance_phase want e ph = Some ph' /\ fits want ph' s' st).

Lemma close_gate_deferred i : deferred_teardown (close_gate bound i).1.1 = false.
Proof. unfold close_gate. destruct i as [? ? [] ? ? ? ? ? ? ? [] ?]; done. Qed.

Lemma deinit_steps want ph td l i i' s' ev :
  fits want ph [FDeinit td] (state i) -> deferred_teardown i = false ->
  inner l = true -> thread_step bound l 0 [FDeinit td] i = Some (i', s', ev) ->
  deferred_teardown i' = false /\ answered want ph s' (state i') (concat (map heard ev)).
Proof.
  intros Hph Hd Hl H. destruct l; try done. cbn in H. unfold deinit_step in H.
  assert (Hu : fits want ph [] Uninitialized).
  { destruct Hph as [->|[->|[->| ->]]]; try done. by left. }
  pose proof (close_gate_deferred i) as Hg.
  destruct td; cbn in H; repeat case_match; simplify_eq; cbn in Hg;
    try (split; [done || by destruct i|left; by split]).
  bool_prop. split; [by destruct i|]. left. split; [done|].
  by replace (state (_ : impl)) with Uninitialized by (destruct i; done).
Qed.

Lemma success_mapped k : success (map_vendor_result k) = (k =? ASTRALL_RES_SUCCESSED).
Proof.
  unfold map_vendor_result, success. destruct (k =? ASTRALL_RES_SUCCESSED) eqn:E; [done|exact E].
Qed.

(** [init]: from [Cleared] to a session, or to a failed attempt. *)
Lemma init_steps want ph timeout cb p l i i' s' ev :
  fits want ph [FCall (CallInit timeout) cb p] (state i) -> deferred_teardown i = false ->
  inner l = true -> thread_step bound l 0 [FCall (CallInit timeout) cb p] i = Some (i', s', ev) ->
  deferred_teardown i' = false /\ answered want ph s' (state i') (concat (map heard ev)).
Proof.
  intros [-> Hp] Hd Hl H.
  assert (Hr : forall r st, (if success r then st = Initialized else st = Uninitialized) ->
    answered want Opening [] st [EvDone (CallInit timeout) r]).
  { intros r st Hst. right. exists (EvDone (CallInit timeout) r), (if success r then NeedImu else Ending).
    split; [done|]. split; [done|]. destruct (success r); cbn; auto. }
  destruct l; try done; destruct p; try done; cbn in H.
  - destruct (lifecycle_mutex i); simplify_eq. split; [done|]. by left.
  - rewrite Hp in H. simplify_eq. split; [done|]. by left.
  - destruct (bound FnInit); simplify_eq; (split; [done|]); [by left|by apply Hr].
  - unfold finish_with_deferred_teardown in H. cbn in H. rewrite Hd in H. simplify_eq. split; [done|]. by left.
  - destruct (code_of a =? ASTRALL_RES_SUCCESSED) eqn:E; simplify_eq; (split; [done|]).
    + by apply Hr.
    + apply Hr. by rewrite success_mapped, E.
  - destruct a; simplify_eq. split; [done|]. by left.
  - simplify_eq. split; [done|]. by left.
Qed.

(** What a call of an open session answers keeps the session. *)
Lemma session_answer want ph c r :
  enter c ph = Some ph -> c <> CallSnapshot ->
  answered want ph [] Initialized [EvDone c r].
Proof.
  intros He Hc. right. exists (EvDone c r). destruct c, ph; try done; cbn; eexists; (split; [done|]);
    (split; [reflexivity|]); try done; destruct (success r), want; cbn; auto.
Qed.

(** The state and the deferred request of the adapter. *)
Definition keeps (i i' : impl) : Prop :=
  state i' = state i /\ deferred_teardown i' = deferred_teardown i.

(** A call of an open session does not change the adapter's state. *)
Lemma session_method ph c cb i l a :
  enter c ph = Some ph ->
  refuse_in (method_of bound c) Initialized = None /\
  keeps i (installs (method_of bound c) cb i).2 /\ keeps i (undo (method_of bound c) l i) /\
  keeps i (ends (method_of bound c) l a i).2.
Proof.
  intros He. destruct c, ph; try done; (split; [done|]); (split; [by split|]); (split; [by split|]);
    cbn; repeat case_match; by split.
Qed.

Lemma fits_call want ph c cb p st :
  enter c ph = Some ph ->
  fits want ph [FCall c cb p] st <-> st = Initialized /\ match p with InTail _ _ _ => False | _ => True end.
Proof. intros He. destruct c; destruct ph; try done; cbn; intuition. Qed.

Lemma snapshot_or_not c : c = CallSnapshot \/ c <> CallSnapshot.
Proof. destruct c; auto. Qed.

(** The answer of the last gate section. *)
Lemma session_ends want ph c l a i :
  enter c ph = Some ph ->
  answered want ph [] Initialized (heard (EvReturn 0 c (ends (method_of bound c) l a i).1)).
Proof.
  intros He. destruct (snapshot_or_not c) as [->|Hc].
  - destruct ph; try done. cbn. right. eexists _, Ready. by split.
  - assert (exists r, (ends (method_of bound c) l a i).1 = RResult r) as [r ->].
    { destruct c; try done; cbn; repeat case_match; eexists; reflexivity. }
    by apply session_answer.
Qed.

Lemma session_steps want ph c cb p l i i' s' ev :
  enter c ph = Some ph -> fits want ph [FCall c cb p] (state i) -> deferred_teardown i = false ->
  inner l = true -> thread_step bound l 0 [FCall c cb p] i = Some (i', s', ev) ->
  deferred_teardown i' = false /\ answered want ph s' (state i') (concat (map heard ev)).
Proof.
  intros He Hf Hd Hl H. apply fits_call in Hf as [Hi Hp]; [|done].
  assert (Hsilent : forall p' j, keeps i j -> match p' with InTail _ _ _ => False | _ => True end ->
    deferred_teardown j = false /\ answered want ph [FCall c cb p'] (state j) []).
  { intros p' j [H1 H2] Hp'. rewrite H1, H2. split; [done|]. left. split; [done|]. by apply fits_call. }
  assert (Hout : forall j es, keeps i j -> answered want ph [] Initialized es ->
    deferred_teardown (unlock j) = false /\ answered want ph [] (state (unlock j)) es).
  { intros j es [H1 H2] Ha. cbn. rewrite H1, H2, Hi. by split. }
  destruct l; try done; cbn [thread_step] in H; destruct p; try done; cbn [call_step] in H.
  - destruct (lifecycle_mutex i); simplify_eq. by apply Hsilent.
  - destruct (session_method ph c cb i no_locals (Code 0) He) as (Hr & Hk & _). rewrite Hi, Hr in H.
    destruct (installs _ _ _) as [lo j]. simplify_eq. by apply Hsilent.
  - destruct (session_method ph c cb i l (Code 0) He) as (_ & _ & Hk & _).
    destruct (match entry _ with Some fn => _ | None => true end) eqn:Eb; simplify_eq; [by apply Hsilent|].
    apply Hout; [done|]. apply session_answer; [done|]. by intros ->.
  - unfold finish_with_deferred_teardown in H. cbn in H. rewrite Hd in H. simplify_eq. by apply Hsilent.
  - destruct (session_method ph c cb i l a He) as (_ & _ & _ & Hk).
    pose proof (session_ends want ph c l a i He) as Ha.
    destruct (ends _ _ _ _) as [r j]. simplify_eq. apply Hout; [done|]. by rewrite <- (app_nil_r (heard _)) in Ha.
  - destruct (answers c a); simplify_eq. by apply Hsilent.
  - simplify_eq. apply Hout; [done|]. left. split; [done|]. by destruct c, ph.
Qed.

(** ** Joint steps *)

Lemma fits_active want ph bottom st :
  fits want ph bottom st -> Forall (fun f => passive f = false) bottom.
Proof. destruct bottom as [|[] [|]]; try done; repeat constructor; try by destruct c. Qed.

Lemma worker_steps want ph bottom l i i' s' ev :
  fits want ph bottom (state i) -> deferred_teardown i = false -> inner l = true ->
  thread_step bound l 0 bottom i = Some (i', s', ev) ->
  deferred_teardown i' = false /\ answered want ph s' (state i') (concat (map heard ev)).
Proof.
  intros Hf Hd Hl H. destruct bottom as [|f [|]]; [by destruct l| |by destruct f as [[] | | | |]].
  destruct f as [c cb p|td| | |]; try done.
  - assert (Hc : (exists t, c = CallInit t) \/ enter c ph = Some ph) by (destruct c; eauto; right; apply Hf).
    destruct Hc as [[t ->]|He]; [by eapply init_steps|by eapply session_steps].
  - by eapply deinit_steps.
Qed.

Lemma inner_on_top above bottom l t i x :
  inner l = true -> Forall passive above -> thread_step bound l t (above ++ bottom) i = Some x -> above = [].
Proof.
  intros Hl Ha. destruct above as [|f above]; [done|]. apply Forall_inv in Ha. by destruct l, f.
Qed.

Lemma phase_of_app want es tr ph :
  phase_of want (es ++ tr) = Some ph -> exists ph0, phase_of want tr = Some ph0.
Proof.
  revert ph. induction es as [|e es IH]; intros ph; cbn; [by exists ph|].
  destruct (phase_of want (es ++ tr)) as [q|] eqn:E; [|done]. intros _. by eapply IH.
Qed.

(** A step of the adapter or of the vendor. *)
Lemma agree_runs want t l w s i s' ev tr ph ph' :
  is_call l = false -> threads w !! t = Some s -> thread_step bound l t s (im w) = Some (i, s', ev) ->
  agree want ph w -> phase_of want tr = Some ph ->
  phase_of want (concat (map heard ev) ++ tr) = Some ph' ->
  forall evs, agree want ph' (mkSystem i (<[t:=s']> (threads w)) evs).
Proof.
  intros Hc Hs H [Hd (above & bottom & Hw & Ha & Hf) Ho] Hph Hph' evs.
  assert (Ht : (t < length (threads w))%nat) by by eapply lookup_lt_Some.
  destruct (decide (t = 0%nat)) as [->|Hne].
  - rewrite Hs in Hw. simplify_eq.
    assert (Hothers : forall u s, u <> 0%nat -> <[0%nat:=s']> (threads w) !! u = Some s -> Forall passive s).
    { intros u s Hu. rewrite list_lookup_insert_ne by done. by apply Ho. }
    destruct (inner l) eqn:Hl.
    + pose proof (inner_on_top _ _ _ _ _ _ Hl Ha H) as ->.
      destruct (worker_steps want ph bottom l (im w) i s' ev Hf Hd Hl H) as [Hd' [[E Hf']|(e & q & E & Hq & Hf')]];
        rewrite E in Hph'; cbn in Hph'; rewrite Hph in Hph'; cbn in Hph'.
      all: split; [done| |done]; exists [], s'; cbn; rewrite list_lookup_insert_eq by done;
        (split; [done|]); (split; [constructor|]); congruence.
    + destruct (outer_step _ _ _ _ _ _ _ _ Hl Hc Ha (fits_active _ _ _ _ Hf) H) as [(above' & -> & Ha') (H1 & H2 & H3)].
      rewrite H3 in Hph'. cbn in Hph'. rewrite Hph in Hph'. simplify_eq.
      split; [cbn; congruence| |done]. exists above', bottom. cbn. rewrite list_lookup_insert_eq by done.
      split; [done|]. split; [done|]. by rewrite H1.
  - destruct (passive_step _ _ _ _ _ _ _ Hc (Ho t s Hne Hs) H) as (Hp & H1 & H2 & H3).
    rewrite H3 in Hph'. cbn in Hph'. rewrite Hph in Hph'. simplify_eq. split; cbn.
    + congruence.
    + exists above, bottom. rewrite list_lookup_insert_ne by done. by rewrite H1.
    + intros u s2 Hu. destruct (decide (u = t)) as [->|Hut].
      * rewrite list_lookup_insert_eq by done. by intros [= <-].
      * rewrite list_lookup_insert_ne by done. by apply Ho.
Qed.

(** The worker calls. *)
Lemma agree_calls want c w w' ph ph' :
  threads w !! 0%nat = Some [] -> SdkAdapter.step bound 0 (LCall c (handler_of c)) w = Some w' ->
  agree want ph w -> enter c ph = Some ph' -> agree want ph' w'.
Proof.
  intros Hs H [Hd (above & bottom & Hw & Ha & Hf) Ho] He.
  rewrite Hs in Hw. symmetry in Hw. injection Hw as Hw. apply app_nil in Hw as [-> ->].
  assert (Ht : (0 < length (threads w))%nat) by by eapply lookup_lt_Some.
  set (f := match c with CallDeinit => FDeinit TdQueue | _ => FCall c (handler_of c) AtLock end).
  assert (Hstep : w' = mkSystem (im w) (<[0%nat:=[f]]> (threads w)) (events w')).
  { unfold SdkAdapter.step in H. rewrite Hs in H. unfold f. by destruct c; cbn in H; simplify_eq. }
  rewrite Hstep. split; cbn; [done| |].
  - exists [], [f]. rewrite list_lookup_insert_eq by done. split; [done|]. split; [constructor|].
    unfold f. destruct c, ph; try done; cbn in He |- *; simplify_eq; auto.
  - intros u s Hu. rewrite list_lookup_insert_ne by done. by apply Ho.
Qed.

(** The worker goes on by itself: only the preflight moves the protocol. *)
Lemma agree_notes want e w ph ph' :
  own_event e = true -> agree want ph w -> advance_phase want e ph = Some ph' -> agree want ph' w.
Proof.
  intros He [Hd (above & bottom & Hw & Ha & Hf) Ho] Hph. split; [done| |done].
  exists above, bottom. split; [done|]. split; [done|].
  destruct e; try done; cbn in Hph; simplify_eq; try done; destruct ph; try done; simplify_eq;
    destruct bottom as [|[[]| | | |] []]; cbn in Hf |- *; try done; try (by destruct Hf); auto.
  - destruct (ready d); auto.
  - destruct (ready d); auto.
Qed.

Lemma agree_step want m tr w tr' w' ph ph' :
  joint_step m tr w = Some (tr', w') -> agree want ph w ->
  phase_of want tr = Some ph -> phase_of want tr' = Some ph' -> agree want ph' w'.
Proof.
  intros H Hag Hph Hph'. destruct m as [c|t l|e]; cbn in H.
  - destruct (threads w !! 0%nat) as [[|]|] eqn:Hs; try done.
    destruct (SdkAdapter.step _ _ _ _) as [w2|] eqn:E; [|done]. cbn in H. simplify_eq.
    cbn in Hph'. rewrite Hph in Hph'. by eapply agree_calls.
  - destruct (is_call l) eqn:Hc; [by destruct l|].
    assert (H' : (s ← threads w !! t; '(i, s', ev) ← thread_step bound l t s (im w);
      w' ← SdkAdapter.step bound t l w; Some (concat (map heard ev) ++ tr, w')) = Some (tr', w')) by (by destruct l).
    clear H. destruct (threads w !! t) as [s|] eqn:Hs; [|done]. cbn in H'.
    destruct (thread_step bound l t s (im w)) as [[[i s'] ev]|] eqn:E; [|done]. cbn in H'.
    unfold SdkAdapter.step in H'. rewrite Hs, E in H'. cbn in H'. simplify_eq.
    by eapply agree_runs.
  - destruct (own_event e) eqn:He; [|done]. simplify_eq. cbn in Hph'. rewrite Hph in Hph'.
    by eapply agree_notes.
Qed.

Lemma joint_step_grows m tr w tr' w' :
  joint_step m tr w = Some (tr', w') -> exists es, tr' = es ++ tr.
Proof.
  intros H. destruct m as [c|t l|e]; cbn in H.
  - repeat case_match; try done. destruct (SdkAdapter.step _ _ _ _); [|done]. cbn in H. simplify_eq.
    by exists [EvSdk c].
  - destruct (threads w !! t) as [s|]; [|by destruct l]. cbn in H.
    destruct (thread_step bound l t s (im w)) as [[[i s'] ev]|]; [|by destruct l].
    destruct (SdkAdapter.step bound t l w) as [w2|]; [|by destruct l].
    exists (concat (map heard ev)). by destruct l; cbn in H; simplify_eq.
  - destruct (own_event e); [|done]. simplify_eq. by exists [e].
Qed.

Lemma joint_run_grows ms tr w tr' w' :
  joint_run ms tr w = Some (tr', w') -> exists es, tr' = es ++ tr.
Proof.
  revert tr w. induction ms as [|m ms IH]; intros tr w H; cbn in H.
  { simplify_eq. by exists []. }
  destruct (joint_step m tr w) as [[tr1 w1]|] eqn:E; [|done]. cbn in H.
  apply joint_step_grows in E as [es1 ->]. destruct (IH _ _ H) as [es ->].
  exists (es ++ es1). by rewrite app_assoc.
Qed.

Lemma agree_run want ms tr w tr' w' ph ph' :
  joint_run ms tr w = Some (tr', w') -> agree want ph w ->
  phase_of want tr = Some ph -> phase_of want tr' = Some ph' -> agree want ph' w'.
Proof.
  revert tr w ph. induction ms as [|m ms IH]; intros tr w ph H Hag Hph Hph'; cbn in H.
  { simplify_eq. congruence. }
  destruct (joint_step m tr w) as [[tr1 w1]|] eqn:E; [|done]. cbn in H.
  destruct (joint_run_grows _ _ _ _ _ H) as [es ->].
  destruct (phase_of_app want es tr1 ph' Hph') as [ph1 Hph1].
  eapply IH; [exact H| |exact Hph1|exact Hph']. by eapply agree_step.
Qed.
End Joint.

(** ** Theorem *)

(** The worker and the adapter fit together: in every joint execution of a run of
    the worker, however the vendor answers, throws and delivers callbacks, the gate
    of the adapter accepts every call the worker makes (no call fails because of the
    adapter's own state, and none is a re-entry), no deinit is left deferred, and when the
    worker has returned and its last call is over the adapter is [Uninitialized].
    [tr] is any moment of the run.  Claim C7. *)
Theorem worker_is_never_refused config observer oracle fuel now w0 o w' bound n ms tr w :
  initial_world config now = Some w0 ->
  worker_main config observer oracle fuel w0 = (o, w') ->
  (exists rest, trace w' = rest ++ tr) ->
  joint_run bound ms [] (initial (S n)) = Some (tr, w) ->
  deferred_teardown (im w) = false /\
  (forall c cb s, threads w !! 0%nat = Some (FCall c cb AtGate :: s) ->
     refuse_in (method_of bound c) (state (im w)) = None) /\
  (o = Ret tt -> tr = trace w' -> threads w !! 0%nat = Some [] -> state (im w) = Uninitialized).
Proof.
  intros Hw0 Hrun [rest Hrest] Hjoint.
  destruct (worker_main_phase config observer oracle fuel now w0 o w' Hw0 Hrun) as (ph & Hph & Hend).
  rewrite Hrest in Hph. destruct (phase_of_app _ _ _ _ Hph) as [ph' Hph'].
  destruct (agree_run bound _ _ _ _ _ _ _ _ Hjoint (agree_initial _ n) eq_refl Hph')
    as [Hd (above & bottom & Hw & Ha & Hf) _].
  split; [done|]. split.
  - intros c cb s Hs. rewrite Hs in Hw. apply (inj Some) in Hw.
    destruct above as [|f above]; [|cbn in Hw; simplify_eq; by apply Forall_inv in Ha].
    cbn in Hw. subst bottom. destruct s; [|by destruct c].
    destruct c; cbn in Hf |- *; destruct Hf as [He Hst]; rewrite ?Hst; try done;
      destruct Hst as [-> _]; done.
  - intros -> Htr Hs. rewrite Hs in Hw. symmetry in Hw. injection Hw as Hw.
    apply app_nil in Hw as [-> ->].
    assert (ph' = ph) as -> by (subst tr; rewrite <- Hrest in Hph; congruence).
    by destruct Hend as [-> | ->].
Qed.

(** A joint execution of a trace in which every call succeeds: the status callback
    reports link and authority once [init] has succeeded. *)
Definition full_table : VendorFn -> bool := fun _ => true.

Definition steps_of (n : nat) : list joint_move := replicate n (Runs 0 LStep).

Definition sample_getters : SdkAdapter.answer :=
  Getters (ASTRALL_RES_SUCCESSED, mkRawSystem 0 0 0) (ASTRALL_RES_SUCCESSED, mkRawPower fzero fzero fzero 0 0) 0xB104.

Definition sample_moves (e : event) : list joint_move :=
  match e with
  | EvSdk CallDeinit => Calls CallDeinit :: steps_of 8
  | EvSdk c => [Calls c]
  | EvDone c _ =>
      steps_of 3 ++ [Runs 0 (LAnswer (Code ASTRALL_RES_SUCCESSED))] ++ steps_of 2 ++
      match c with CallInit _ => [Runs 1 (LDeliver (DStatus true true)); Runs 1 LEnd] | _ => [] end
  | EvReported _ => steps_of 3 ++ [Runs 0 (LAnswer sample_getters)] ++ steps_of 2
  | _ => [Notes e]
  end.

Definition sample_joint (tr : list event) : option (list event * system) :=
  joint_run full_table (concat (map sample_moves (rev tr))) [] (initial 2).

(** A whole session: preflight, [init], the subscriptions, heartbeats and a poll,
    [deinit]. *)
#[local] Abbreviation session_run :=
  (worker_main sample_config None (calls_until 110) 200 sample_world).

Definition session_end : system := default (initial 2) (snd <$> sample_joint (trace session_run.2)).

Lemma worker_is_never_refused_witness :
  sample_joint (trace session_run.2) = Some (trace session_run.2, session_end) /\
  state (im session_end) = Uninitialized.
Proof.
  assert (Hj : sample_joint (trace session_run.2) = Some (trace session_run.2, session_end))
    by (vm_compute; reflexivity).
  assert (Ho : session_run.1 = Ret tt) by (vm_compute; reflexivity).
  assert (Hs : threads session_end !! 0%nat = Some []) by (vm_compute; reflexivity).
  assert (Hw : initial_world sample_config 0 = Some sample_world) by (vm_compute; reflexivity).
  split; [exact Hj|]. revert Hs Hj. generalize session_end. revert Ho.
  destruct session_run as [o w'] eqn:E. cbn [fst snd]. intros Ho w Hs Hj.
  destruct (worker_is_never_refused sample_config None (calls_until 110) 200 0 sample_world o w'
    full_table 1 _ (trace w') w Hw E (ex_intro _ [] (eq_sym (app_nil_l _))) Hj) as (_ & _ & H).
  exact (H Ho eq_refl Hs).
Defined.
