(* ===== verification/RuntimeSteps.v ===== *)
(** * RuntimeSteps: functional facts of single members of the runtime

    The reconnect delays, the mode tables, and the shutdown sequence. *)

From S2P Require Import Prelude Cxx ThreadSafeQueue RobotController NetworkPreflight.
From S2P Require Import SdkTypes RuntimeState RuntimeWorker RuntimeSamples RuntimeSafety.
From S2P Require Import RuntimeLogic RuntimeOwnership RuntimePromises.
#[local] Open Scope rt_scope.

(** ** Reconnect delays *)

(** The delay after [n] consecutive failed attempts. *)
Fixpoint delay_after (config : RuntimeConfig) (n : nat) : Z :=
  match n with
  | O => reconnect_initial_delay_ms config
  | S n' => next_backoff config (delay_after config n')
  end.

Lemma next_backoff_max config d :
  next_backoff config d = Z.max d (Z.min (d * 2) (reconnect_max_delay_ms config)).
Proof. unfold next_backoff. destruct (_ <? _) eqn:E; bool_prop; lia. Qed.

(** Exponential backoff: the delay doubles from the initial one and is capped
    at the maximum; an initial delay above the maximum is kept. It never
    shrinks. *)
Theorem backoff_doubles_up_to_the_maximum config n :
  0 <= reconnect_initial_delay_ms config ->
  delay_after config n =
    Z.max (reconnect_initial_delay_ms config)
      (Z.min (reconnect_initial_delay_ms config * 2 ^ Z.of_nat n) (reconnect_max_delay_ms config)) /\
  delay_after config n <= delay_after config (S n).
Proof.
  intros H0. split; [|cbn; rewrite next_backoff_max; lia].
  induction n as [|n IH]; [cbn; lia|]. cbn [delay_after]. rewrite next_backoff_max, IH.
  replace (Z.of_nat (S n)) with (Z.of_nat n + 1) by lia.
  rewrite Z.pow_add_r, Z.pow_1_r by lia.
  assert (Hp : 0 < 2 ^ Z.of_nat n) by (apply Z.pow_pos_nonneg; lia).
  assert (Hi : reconnect_initial_delay_ms config <= reconnect_initial_delay_ms config * 2 ^ Z.of_nat n) by nia.
  set (p := reconnect_initial_delay_ms config * 2 ^ Z.of_nat n) in *.
  replace (reconnect_initial_delay_ms config * (2 ^ Z.of_nat n * 2)) with (p * 2) by (unfold p; ring).
  lia.
Qed.

(** ** Modes *)

Lemma accepted_mode_known now name c :
  md_accepted (request_mode now name c).1 = true ->
  md_mode (request_mode now name c).1 ∈ known_modes.
Proof.
  unfold request_mode. destruct (find_mode _ _) as [m|] eqn:E; [|done].
  apply find_mode_known in E. by repeat case_match.
Qed.

Definition mode_statuses : list Z := map stable_status_for known_modes.

Lemma stable_status_injective m m' :
  m ∈ known_modes -> m' ∈ known_modes -> stable_status_for m = stable_status_for m' -> m = m'.
Proof.
  unfold known_modes. set_unfold. intros H H'. destruct_or?; subst; (done || discriminate).
Qed.

(** Every mode the gate accepts has a stable status that confirms it, and two
    different modes have different ones: the branch that has no status to wait
    for is dead, and one mode's status never confirms another. *)
Theorem accepted_modes_are_confirmable now name c :
  md_accepted (request_mode now name c).1 = true ->
  let m := md_mode (request_mode now name c).1 in
  stable_status_for m <> 0 /\
  forall m', m' ∈ known_modes -> stable_status_for m' = stable_status_for m -> m' = m.
Proof.
  intros Hm%accepted_mode_known m. split.
  - revert Hm. fold m. unfold known_modes. set_unfold. clearbody m. intros H.
    destruct_or?; subst; discriminate.
  - intros m' H' He. by apply stable_status_injective.
Qed.

(** ** Shutdown *)

Definition sdk_calls (tr : list event) : list SdkCall :=
  flat_map (fun e => match e with EvSdk c => [c] | _ => [] end) tr.

Lemma sdk_calls_env w w' : env_extends w w' -> sdk_calls (trace w') = sdk_calls (trace w).
Proof.
  intros (pre & -> & Hp). unfold sdk_calls. rewrite flat_map_app.
  induction pre as [|e pre IH]; [done|]. cbn in *. apply andb_true_iff in Hp as [He Hp].
  destruct e; try done; by apply IH.
Qed.

Section Shutdown.
  Context (config : RuntimeConfig) (observer : option (observer_event -> bool)).
  Context (oracle : nat -> env_step).

(** Nobody but the worker touches its record of what was sent. *)
Lemma dispatch_sent e w :
  last_sent_nonzero_ (rt (dispatch_observer_safely observer e w)) = last_sent_nonzero_ (rt w).
Proof. unfold dispatch_observer_safely. by repeat case_match. Qed.

Lemma set_promise_sent p r w :
  last_sent_nonzero_ (rt (set_promise p r w)) = last_sent_nonzero_ (rt w).
Proof. by rewrite (proj1 (set_promise_rt p r w)). Qed.

Lemma run_action_sent held a w :
  last_sent_nonzero_ (rt (run_action observer held a w)) = last_sent_nonzero_ (rt w).
Proof.
  destruct a as [a|id|v|l a|i|i|]; cbn [run_action]; try done.
  - case_match; [|done]. case_match; [done|].
    destruct c; cbn [step_call];
      unfold trigger_estop_clear, trigger_estop_mark, request_authority_step, request_mode_gate,
        request_mode_decide, request_mode_enqueue, complete_transition;
      repeat case_match; cbn; rewrite ?set_promise_sent; cbn; rewrite ?set_promise_sent; done.
  - unfold submit_velocity, notify_event. destruct (accept_velocity _ _ _).
    case_match; [by rewrite dispatch_sent|done].
  - case_match; [done|]. unfold handle_status. rewrite dispatch_sent. cbn. by case_match.
  - unfold handle_imu. by rewrite dispatch_sent.
  - unfold handle_sport. by rewrite dispatch_sent.
  - by case_match.
Qed.

Lemma run_step_sent held w :
  last_sent_nonzero_ (rt (run_step observer oracle held w)) = last_sent_nonzero_ (rt w).
Proof.
  unfold run_step. set (w1 := next_position held w).
  change (last_sent_nonzero_ (rt w)) with (last_sent_nonzero_ (rt w1)). generalize w1.
  unfold run_actions. induction (woken_stops held w ++ es_actions (oracle (position w))) as [|[dt a] l IH];
    intros w2; [done|]. cbn [fold_left fst snd].
  etransitivity; [apply IH|]. by rewrite run_action_sent.
Qed.

(** One SDK call that returns: two environment steps, one call in the trace, the
    answer of the second step; the worker's flag stays. *)
Lemma sdk_returns c w r w' :
  sdk observer oracle c w = (Ret r, w') ->
  position w' = S (S (position w)) /\ sdk_calls (trace w') = c :: sdk_calls (trace w) /\
  es_answer (oracle (S (position w))) = Answer r /\
  last_sent_nonzero_ (rt w') = last_sent_nonzero_ (rt w).
Proof.
  unfold sdk, sdk_call, bind, yield, modify, ret, step_result.
  set (w1 := run_step observer oracle false w).
  assert (Hp : position (emit (EvSdk c) w1) = S (position w)) by apply run_step_position.
  rewrite Hp. destruct (es_answer _) as [r0|] eqn:Ea; [|done]. intros [= <- <-].
  set (w2 := run_step observer oracle false (emit (EvSdk c) w1)).
  assert (Hp2 : position w2 = S (S (position w))) by (unfold w2; by rewrite run_step_position, Hp).
  assert (Hs2 : last_sent_nonzero_ (rt w2) = last_sent_nonzero_ (rt w)).
  { unfold w2. rewrite run_step_sent. apply run_step_sent. }
  assert (Hc2 : sdk_calls (trace w2) = c :: sdk_calls (trace w)).
  { unfold w2. rewrite (sdk_calls_env _ _ (run_step_extends _ _ _ _)).
    change (sdk_calls (trace (emit (EvSdk c) w1))) with (c :: sdk_calls (trace w1)). f_equal.
    apply sdk_calls_env, run_step_extends. }
  clearbody w2. rewrite Ea. by split_and!.
Qed.

Lemma bind_returns {A B} (m : M A) (k : A -> M B) w b w' :
  bind m k w = (Ret b, w') -> exists a w1, m w = (Ret a, w1) /\ k a w1 = (Ret b, w').
Proof. unfold bind. destruct (m w) as [[a|what| |] w1]; try done. eauto. Qed.

(** A warning if the call failed: no call, no change of the flag. *)
Lemma warning_returns (b : bool) m w u w' :
  (if b then notify observer kRuntimeEventWarning m else ret tt) w = (Ret u, w') ->
  sdk_calls (trace w') = sdk_calls (trace w) /\
  last_sent_nonzero_ (rt w') = last_sent_nonzero_ (rt w).
Proof.
  destruct b; [|by intros [= <- <-]]. unfold notify, modify. intros [= <- <-].
  split; [apply sdk_calls_env, dispatch_extends|apply dispatch_sent].
Qed.

Lemma send_zero_sequence w b w' :
  send_zero_and_damping config observer oracle w = (Ret b, w') ->
  sdk_calls (trace w') =
    CallSetMode 0xA101 (sdk_call_timeout_ms config) ::
    CallMove Velocity0 (sdk_call_timeout_ms config) :: sdk_calls (trace w) /\
  exists zero, es_answer (oracle (S (position w))) = Answer zero /\
    last_sent_nonzero_ (rt w') = negb (success zero) && last_sent_nonzero_ (rt w).
Proof.
  unfold send_zero_and_damping.
  intros (zero & w1 & (Hp1 & Hc1 & Ha1 & Hs1)%sdk_returns & H)%bind_returns.
  apply bind_returns in H as (u1 & w2 & [Hc2 Hs2]%warning_returns & H).
  apply bind_returns in H as (r & w3 & (_ & Hc3 & _ & Hs3)%sdk_returns & H).
  apply bind_returns in H as (u2 & w4 & [Hc4 Hs4]%warning_returns & H).
  apply bind_returns in H as (u3 & w5 & H5 & [= _ <-]).
  assert (Hc5 : sdk_calls (trace w5) = sdk_calls (trace w4) /\
    last_sent_nonzero_ (rt w5) = negb (success zero) && last_sent_nonzero_ (rt w4)).
  { destruct (success zero); injection H5 as _ <-; done. }
  destruct Hc5 as [-> ->]. rewrite Hc4, Hc3, Hc2, Hc1, Hs4, Hs3, Hs2, Hs1. eauto.
Qed.

(** The shutdown actuation: when the link, the authority and no latched drop
    are seen under the lock, exactly a zero move and then the damping mode are
    sent, in this order and whatever the first answer is, and the memory of a
    moving robot is cleared only by an acknowledged zero; otherwise no SDK call
    is made. *)
Theorem stop_actuation_sequence w w' :
  actuate_stop_if_authorized config observer oracle w = (Ret tt, w') ->
  let w1 := run_step observer oracle false w in
  if sdk_linked_ (rt w1) && control_authority_ (rt w1) && negb (link_drop_latched_ (rt w1)) then
    sdk_calls (trace w') =
      CallSetMode 0xA101 (sdk_call_timeout_ms config) ::
      CallMove Velocity0 (sdk_call_timeout_ms config) :: sdk_calls (trace w) /\
    exists zero, es_answer (oracle (S (S (position w)))) = Answer zero /\
      last_sent_nonzero_ (rt w') = negb (success zero) && last_sent_nonzero_ (rt w)
  else sdk_calls (trace w') = sdk_calls (trace w).
Proof.
  intros H w1. unfold actuate_stop_if_authorized in H.
  apply bind_returns in H as (allowed & w2 & Ha & H).
  unfold actuation_allowed, atomic, bind, yield, modify in Ha. fold w1 in Ha.
  injection Ha as <- <-.
  assert (Hc : sdk_calls (trace w1) = sdk_calls (trace w)) by apply sdk_calls_env, run_step_extends.
  destruct (_ && _ && _); cbn [negb] in H; [|by injection H as <-].
  apply bind_returns in H as (b & w3 & H & [= <-]). apply send_zero_sequence in H as [H1 H2].
  rewrite Hc in H1. split; [done|]. unfold w1 in H2. by rewrite run_step_position, run_step_sent in H2.
Qed.

End Shutdown.

(** ** Witnesses *)

Lemma backoff_doubles_up_to_the_maximum_witness :
  delay_after sample_config 7 = milliseconds 30000 /\
  delay_after sample_config 3 =
    Z.max (milliseconds 1000) (Z.min (milliseconds 1000 * 2 ^ 3) (milliseconds 30000)).
Proof.
  split; [vm_compute; reflexivity|].
  apply (backoff_doubles_up_to_the_maximum sample_config 3). vm_compute. discriminate.
Defined.

(** A gate that accepts the "Stand" request of the sample. *)
Definition open_gate : controller :=
  set_driver_ready 0 true (mkController (milliseconds 100) (mkStatus true true 0xB102 0) zero_velocity
    0 false false false false false 0).

Lemma accepted_modes_are_confirmable_witness :
  stable_status_for (md_mode (request_mode 0 " Stand" open_gate).1) <> 0.
Proof. apply (accepted_modes_are_confirmable 0 " Stand" open_gate). vm_compute. reflexivity. Defined.

(** Link and authority are up, the robot was moving, the SDK acknowledges. *)
Definition live_world : world :=
  set_rt (fun r => r <| sdk_linked_ := true |> <| control_authority_ := true |>
    <| last_sent_nonzero_ := true |>) sample_world.

Definition stop_run : outcome unit * world :=
  actuate_stop_if_authorized sample_config None (fun _ => calm 0xB104 []) live_world.

Lemma stop_actuation_sequence_witness :
  sdk_calls (trace stop_run.2) = [CallSetMode 0xA101 5000; CallMove Velocity0 5000].
Proof.
  apply (stop_actuation_sequence sample_config None (fun _ => calm 0xB104 []) live_world stop_run.2).
  vm_compute. reflexivity.
Defined.
