(* ===== verification/RuntimeFindings.v ===== *)
(** * RuntimeFindings: runs the code does not intend

    Concrete interleavings, evaluated in the model, in which the runtime does
    something its comments exclude. *)

From S2P Require Import Prelude Cxx ThreadSafeQueue RobotController NetworkPreflight.
From S2P Require Import SdkTypes RuntimeState RuntimeWorker RuntimeSamples.

Definition run (observer : option (observer_event -> bool)) (status : Z)
  (script : list (nat * list action)) : world :=
  (worker_main sample_config observer (scripted status script) 1000 sample_world).2.

(** The mode calls of a run, oldest first. *)
Definition modes_of (w : world) : list Z :=
  rev (flat_map (fun e => match e with EvSdk (CallSetMode m _) => [m] | _ => [] end) (trace w)).

(** A mode request the gate accepted just before the emergency stop and that
    gets the lock after the worker drained the queue: Stand is commanded after
    the damping of the stop, with the latch still set. *)
Definition late_enqueue_script : list (nat * list action) :=
  [(200, [ActCall (ApiMode "stand"); ActStep 0; ActStep 0;
          ActCall (ApiEstop true); ActStep 1; ActStep 1]);
   (230, [ActStep 0])]%nat ++ [(300, [ActStop])]%nat.

(** The emergency stop does not stop a mode request that is between its
    acceptance and its enqueueing: the run commands damping (0xA101), then Stand
    (0xA102) with the latch set. *)
Theorem mode_command_survives_estop :
  let w := run None 0xB104 late_enqueue_script in
  estop_latched_ (controller_ (rt w)) = true /\ modes_of w = [0xA101; 0xA102; 0xA101].
Proof. vm_compute. auto. Qed.

(** Authority flaps between two mode requests: the stable status of the first
    completes the gate's pending transition of the second, whose caller is told
    that it was aborted although its command was sent and accepted. *)
Definition flap_script : list (nat * list action) :=
  [(170, [ActCall (ApiMode "stand"); ActStep 0; ActStep 0; ActStep 0;
          ActStatus true false; ActStatus true true;
          ActCall (ApiMode "move"); ActStep 1; ActStep 1; ActStep 1]);
   (300, [ActStop])]%nat.

(** The first request is confirmed, the second is commanded and yet reported as
    aborted. *)
Theorem stale_status_completes_newer_mode :
  let w := run None 0xB102 flap_script in
  modes_of w = [0xA102; 0xA104; 0xA101] /\
  promises w !! 0%nat = Some (ok "mode transition reached the stable sport status") /\
  promises w !! 1%nat = Some (failure kSdkResFailed "mode transition aborted by the safety gate").
Proof. vm_compute. auto. Qed.

(** A status callback between the invalidation of a dropped session and
    [deinit]: the next session accepts and executes an authority command
    although no status callback reported a link in it. *)
Definition stale_link_script : list (nat * list action) :=
  [(100, [ActStatus false false]); (106, [ActStatus true true]);
   (200, [ActCall (ApiAuthority true); ActStep 0]); (300, [ActStop])]%nat.

(** Inits, deinits, authority calls and status reports, oldest first. *)
Inductive link_event := LInit | LDeinit | LAuthority | LStatus (linked : bool).

Definition link_history (w : world) : list link_event :=
  rev (flat_map (fun e =>
    match e with
    | EvSdk (CallInit _) => [LInit]
    | EvSdk CallDeinit => [LDeinit]
    | EvSdk (CallRequestAuthority _ _) => [LAuthority]
    | EvObserver (OnStatus l _) => [LStatus l]
    | _ => []
    end) (trace w)).

(** The authority command runs in the second session, in which no status
    callback has arrived. *)
Theorem stale_link_enters_next_session :
  link_history (run (Some (fun _ => false)) 0xB104 stale_link_script) =
    [LStatus true; LInit; LStatus false; LStatus true; LDeinit; LInit; LAuthority; LDeinit].
Proof. vm_compute. reflexivity. Qed.

(** An unknown mode name that contains "pending" is reported as busy. *)
Lemma unknown_mode_reported_running now c :
  md_error (request_mode now "suspending" c).1 = InvalidCommand /\
  code (map_mode_rejection (request_mode now "suspending" c).1) = kSdkResRunning.
Proof. split; vm_compute; reflexivity. Qed.
