(* ===== verification/RuntimeLifecycle.v ===== *)
(** * RuntimeLifecycle: [start], [stop] and the destructor of [DirectDriverRuntime]

    Any number of threads call [start] and [stop], one may destroy the runtime, and
    observer callbacks are dispatched on any of them, nested as the SDK likes.  A
    thread is the stack of what it is inside of.  [worker_main] is kept as the bottom
    of the worker's stack: it makes SDK calls, dispatches callbacks, and returns once
    a stop is requested ([RuntimePromises] shows that it does).  [wake_mutex_] is held
    only inside the steps, [stop_mutex_] across them. *)

From S2P Require Import Prelude.

(** ** Threads *)

(** [d]: the call of [stop] is the destructor's. *)
Inductive frame :=
  | Worker                             (* [worker_main] *)
  | Ended                              (* [worker_main] has returned *)
  | InSdk                              (* an SDK call of the worker *)
  | InCallback (previous : bool)       (* the guard of [dispatch_observer_safely] *)
  | AtStart                            (* [start]: waits for [stop_mutex_], *)
  | AtCreate                           (* has it *)
  | AtStop (d : bool)                  (* [stop]: the request, *)
  | AtTest (d : bool)                  (* the test of [t_in_observer_callback], *)
  | AtStopMutex (d : bool)             (* waits for [stop_mutex_], *)
  | Joining (d : bool) (w : nat)       (* has it and waits for the worker *)
  | Deinit.                            (* the destructor: [sdk_->deinit()] *)

#[export] Instance frame_eq_dec : EqDecision frame.
Proof. solve_decision. Defined.

Record thread := mkThread {
  t_in_observer_callback : bool;       (* thread_local *)
  stack : list frame }.                (* innermost first *)

#[export] Instance thread_eq_dec : EqDecision thread.
Proof. solve_decision. Defined.

Record system := mkSystem {
  worker_ : option nat;                (* joinable, with the thread's id *)
  stop_requested_ : bool;
  stop_mutex_ : option nat;            (* its owner *)
  destroyed : bool;
  threads : list thread }.

#[export] Instance eta_system : Eta system := fun s =>
  mkSystem (worker_ s) (stop_requested_ s) (stop_mutex_ s) (destroyed s) (threads s).

Definition is_call (f : frame) : bool :=
  match f with
  | AtStart | AtCreate | AtStop _ | AtTest _ | AtStopMutex _ | Joining _ _ | Deinit => true
  | _ => false
  end.

(** The code of the user runs on the thread: it is idle or in an observer callback. *)
Definition user_code (t : thread) : bool :=
  match stack t with [] | InCallback _ :: _ => true | _ => false end.

(** An observer callback can be dispatched. *)
Definition dispatches (t : thread) : bool :=
  match stack t with [] | InCallback _ :: _ | Worker :: _ | InSdk :: _ => true | _ => false end.

(** [ObserverCallbackGuard]: the constructor and the destructor. *)
Definition guard_enter (t : thread) : thread :=
  mkThread true (InCallback (t_in_observer_callback t) :: stack t).

Definition guard_leave (t : thread) : option thread :=
  match stack t with
  | InCallback previous_ :: rest => Some (mkThread previous_ rest)
  | _ => None
  end.

Definition set_stack (k : nat) (l : list frame) (s : system) : system :=
  match threads s !! k with
  | Some t => s <| threads := <[k := mkThread (t_in_observer_callback t) l]> (threads s) |>
  | None => s
  end.

(** [stop] returns; the destructor goes on. *)
Definition stop_returns (d : bool) (rest : list frame) : list frame := if d then Deinit :: rest else rest.

(** ** The calls *)

(** [start] with both mutexes; [created]: [std::thread] does not throw. *)
Definition start (created : bool) (k : nat) (rest : list frame) (s : system) : system :=
  let s := set_stack k rest s <| stop_mutex_ := None |> in
  if bool_decide (is_Some (worker_ s)) || stop_requested_ s then s
  else if negb created then s
  else s <| worker_ := Some (length (threads s)) |> <| threads := threads s ++ [mkThread false [Worker]] |>.

Definition stop_request (d : bool) (k : nat) (rest : list frame) (s : system) : system :=
  set_stack k (AtTest d :: rest) s <| stop_requested_ := true |>.

Definition stop_test (d : bool) (k : nat) (t : thread) (rest : list frame) (s : system) : system :=
  if t_in_observer_callback t then set_stack k (stop_returns d rest) s
  else set_stack k (AtStopMutex d :: rest) s.

(** [stop_mutex_] is free: it is taken, and given back at once when there is nothing to join. *)
Definition stop_lock (d : bool) (k : nat) (rest : list frame) (s : system) : system :=
  match worker_ s with
  | Some w =>
      if bool_decide (w = k) then set_stack k (stop_returns d rest) s
      else set_stack k (Joining d w :: rest) s <| stop_mutex_ := Some k |>
  | None => set_stack k (stop_returns d rest) s
  end.

Definition stop_join (d : bool) (w k : nat) (rest : list frame) (s : system) : option system :=
  t ← threads s !! w;
  if bool_decide (stack t = [Ended])
  then Some (set_stack k (stop_returns d rest) s <| worker_ := None |> <| stop_mutex_ := None |>)
  else None.

(** One step inside a call. *)
Definition call_step (created : bool) (k : nat) (t : thread) (s : system) : option system :=
  match stack t with
  | AtStart :: rest =>
      if bool_decide (is_Some (stop_mutex_ s)) then None
      else Some (set_stack k (AtCreate :: rest) s <| stop_mutex_ := Some k |>)
  | AtCreate :: rest => Some (start created k rest s)
  | AtStop d :: rest => Some (stop_request d k rest s)
  | AtTest d :: rest => Some (stop_test d k t rest s)
  | AtStopMutex d :: rest => if bool_decide (is_Some (stop_mutex_ s)) then None else Some (stop_lock d k rest s)
  | Joining d w :: rest => stop_join d w k rest s
  | Deinit :: rest => Some (set_stack k rest s <| destroyed := true |>)
  | _ => None
  end.

Inductive label :=
  | LStart (k : nat) | LStop (k : nat) | LDestroy (k : nat)
  | LCall (k : nat) (created : bool)
  | LCallback (k : nat) | LCallbackEnd (k : nat)
  | LSdk (k : nat) | LSdkEnd (k : nat)
  | LWorkerEnd (k : nat).

Definition thread_of (l : label) : nat :=
  match l with
  | LStart k | LStop k | LDestroy k | LCall k _ | LCallback k | LCallbackEnd k | LSdk k | LSdkEnd k
  | LWorkerEnd k => k
  end.

Definition step (l : label) (s : system) : option system :=
  let k := thread_of l in
  t ← threads s !! k;
  let push f := Some (set_stack k (f :: stack t) s) in
  match l with
  | LStart _ => if user_code t then push AtStart else None
  | LStop _ => if user_code t then push (AtStop false) else None
  | LDestroy _ => if user_code t then push (AtStop true) else None
  | LCall _ created => call_step created k t s
  | LCallback _ => if dispatches t then Some (s <| threads := <[k := guard_enter t]> (threads s) |>) else None
  | LCallbackEnd _ => t' ← guard_leave t; Some (s <| threads := <[k := t']> (threads s) |>)
  | LSdk _ => match stack t with Worker :: _ => push InSdk | _ => None end
  | LSdkEnd _ => match stack t with InSdk :: rest => Some (set_stack k rest s) | _ => None end
  | LWorkerEnd _ =>
      if bool_decide (stack t = [Worker]) && stop_requested_ s then Some (set_stack k [Ended] s) else None
  end.

Fixpoint run (ls : list label) (s : system) : option system :=
  match ls with [] => Some s | l :: ls => s' ← step l s; run ls s' end.

Definition newborn (n : nat) : system := mkSystem None false None false (replicate n (mkThread false [])).

(** Nobody calls [start] inside an observer callback. *)
Definition starts_outside (s : system) (l : label) : Prop :=
  match l with LStart k => forall t, threads s !! k = Some t -> t_in_observer_callback t = false | _ => True end.

Inductive reachable (P : system -> label -> Prop) (n : nat) : system -> Prop :=
  | reach_newborn : reachable P n (newborn n)
  | reach_step l s s' : reachable P n s -> P s l -> step l s = Some s' -> reachable P n s'.

Definition anything (s : system) (l : label) : Prop := True.

(** ** The invariant *)

(** A callback is in progress on a thread with this stack. *)
Definition in_callback (l : list frame) : bool :=
  existsb (fun f => match f with InCallback _ => true | _ => false end) l.

(** The thread is or was the worker. *)
Definition is_worker (l : list frame) : bool :=
  existsb (fun f => match f with Worker | Ended => true | _ => false end) l.

Definition holds (l : list frame) : bool :=
  match l with AtCreate :: _ | Joining _ _ :: _ => true | _ => false end.

(** Guards restore what they found, SDK calls are made outside callbacks, calls are
    innermost, [worker_main] is outermost and makes no call itself. *)
Fixpoint well_nested (l : list frame) : Prop :=
  match l with
  | [] => True
  | f :: rest =>
      match f with InCallback previous => previous = in_callback rest | InSdk => in_callback rest = false | _ => True end /\
      existsb is_call rest = false /\
      match f with Worker | Ended => rest = [] | _ => True end /\
      (is_call f = true -> is_worker rest = true -> in_callback rest = true) /\ well_nested rest
  end.

(** What the members say about the call a thread is in. *)
Definition call_ok (w : option nat) (requested : bool) (k : nat) (l : list frame) : Prop :=
  match l with
  | AtTest _ :: _ => requested = true
  | AtStopMutex _ :: rest => requested = true /\ in_callback rest = false
  | Joining _ v :: rest => requested = true /\ in_callback rest = false /\ w = Some v /\ v <> k
  | Deinit :: rest => in_callback rest = false -> requested = true /\ w = None
  | _ => True
  end.

Definition worker_ok (w : option nat) (requested : bool) (k : nat) (l : list frame) : Prop :=
  (is_worker l = true -> w = Some k \/ w = None /\ requested = true /\ l = [Ended]) /\
  (w = Some k -> is_worker l = true).

Record fits (s : system) (k : nat) (t : thread) : Prop := {
  ft_flag : t_in_observer_callback t = in_callback (stack t);
  ft_nested : well_nested (stack t);
  ft_mutex : holds (stack t) = true <-> stop_mutex_ s = Some k;
  ft_call : call_ok (worker_ s) (stop_requested_ s) k (stack t);
  ft_worker : worker_ok (worker_ s) (stop_requested_ s) k (stack t) }.

Record good (s : system) : Prop := {
  gd_threads : forall k t, threads s !! k = Some t -> fits s k t;
  gd_one : forall j k tj tk, threads s !! j = Some tj -> threads s !! k = Some tk ->
    is_worker (stack tj) = true -> is_worker (stack tk) = true -> j = k;
  gd_worker : forall w, worker_ s = Some w -> (w < length (threads s))%nat;
  gd_mutex : forall k, stop_mutex_ s = Some k -> (k < length (threads s))%nat }.

(** A thread that does not move keeps its place when the members change like this. *)
Definition undisturbed (s s' : system) (j : nat) : Prop :=
  worker_ s' = worker_ s /\ (stop_requested_ s = true -> stop_requested_ s' = true) /\
  (stop_mutex_ s' = Some j <-> stop_mutex_ s = Some j).

Lemma fits_undisturbed s s' j t : undisturbed s s' j -> fits s j t -> fits s' j t.
Proof.
  intros (Hw & Hr & Hm) [H1 H2 H3 H4 H5]. split; try done; rewrite ?Hw.
  - by rewrite H3, Hm.
  - unfold call_ok in *. destruct (stack t) as [|[] rest]; naive_solver.
  - destruct H5 as [H5 H6]. split; [|done]. naive_solver.
Qed.

(** A step of one thread that leaves [worker_] alone. *)
Lemma good_update s s' k t t' :
  good s -> threads s !! k = Some t -> threads s' = <[k := t']> (threads s) ->
  (forall j, j <> k -> undisturbed s s' j) -> fits s' k t' ->
  is_worker (stack t') = is_worker (stack t) ->
  (forall m, stop_mutex_ s' = Some m -> m = k \/ stop_mutex_ s = Some m) ->
  (forall w, worker_ s' = Some w -> worker_ s = Some w) -> good s'.
Proof.
  intros [H1 H2 H3 H4] Hk Ht Hu Hf Hw Hm Hv.
  pose proof (lookup_lt_Some _ _ _ Hk) as Hlt. split; rewrite Ht.
  - intros j tj Hj. apply lookup_insert_cases in Hj as [(-> & -> & _)|[Hne Hj]]; [done|].
    eapply fits_undisturbed; [by apply Hu; congruence|by apply H1].
  - assert (Hold : forall j tj, <[k:=t']> (threads s) !! j = Some tj ->
      exists t0, threads s !! j = Some t0 /\ is_worker (stack tj) = is_worker (stack t0)).
    { intros j tj Hj. apply lookup_insert_cases in Hj as [(-> & -> & _)|[_ Hj]]; eauto. }
    intros j i tj ti (t1 & ? & E1)%Hold (t2 & ? & E2)%Hold. rewrite E1, E2. by eapply H2.
  - intros w Hw'. rewrite length_insert. by apply H3, Hv.
  - intros m [->|Hm']%Hm; rewrite length_insert; [done|by apply H4].
Qed.

Lemma set_stack_at k t l s :
  threads s !! k = Some t ->
  set_stack k l s = s <| threads := <[k := mkThread (t_in_observer_callback t) l]> (threads s) |>.
Proof. intros Hk. unfold set_stack. by rewrite Hk. Qed.

(** The members are left alone, but for a request. *)
Lemma good_stack s k t t' r :
  good s -> threads s !! k = Some t -> (stop_requested_ s = true -> r = true) ->
  let s' := s <| stop_requested_ := r |> <| threads := <[k := t']> (threads s) |> in
  t_in_observer_callback t' = in_callback (stack t') -> well_nested (stack t') ->
  holds (stack t') = holds (stack t) -> is_worker (stack t') = is_worker (stack t) ->
  call_ok (worker_ s) r k (stack t') ->
  (stack t = stack t' \/ stack t <> [Ended] \/ stack t' = [Ended]) -> good s'.
Proof.
  intros Hg Hk Hr s' Hf Hn Hh Hw Hc He.
  destruct (gd_threads _ Hg _ _ Hk) as [F1 F2 F3 F4 F5].
  apply (good_update s s' k t t'); try done; [|by right].
  split; try done; [by rewrite Hh|]. destruct F5 as [F5 F6]. split; rewrite Hw; [|done].
  intros Hx. destruct (F5 Hx) as [?|(E1 & E2 & E3)]; [by left|]. right. split_and!; [done|by apply Hr|].
    by destruct He as [<-|[He|He]].
Qed.

Lemma good_newborn n : good (newborn n).
Proof.
  split; cbn; try done.
  - intros k t [-> _]%lookup_replicate. by split.
  - intros j k tj tk [-> _]%lookup_replicate. done.
Qed.

(** The user's code, or the SDK, pushes a frame that holds and means nothing. *)
Lemma push_good s k t f :
  good s -> threads s !! k = Some t -> existsb is_call (stack t) = false ->
  (f = AtStart \/ f = AtStop false \/ f = AtStop true \/ f = InSdk) -> is_worker [f] = false ->
  (is_call f = true -> is_worker (stack t) = true -> in_callback (stack t) = true) ->
  (f = InSdk -> in_callback (stack t) = false) ->
  stack t <> [Ended] -> good (set_stack k (f :: stack t) s).
Proof.
  intros Hg Hk Hc Hf Hw Hu Hi He. rewrite (set_stack_at _ _ _ _ Hk).
  destruct (gd_threads _ Hg _ _ Hk) as [F1 F2 _ _ _].
  assert (Hh : holds (stack t) = false) by (destruct (stack t) as [|[] ?]; done).
  apply (good_stack s k t _ (stop_requested_ s)); try done; cbn [stack t_in_observer_callback].
  - rewrite F1. by destruct Hf as [->|[->|[->| ->]]].
  - split_and!; try done; destruct Hf as [->|[->|[->| ->]]]; auto.
  - rewrite Hh. by destruct Hf as [->|[->|[->| ->]]].
  - by destruct Hf as [->|[->|[->| ->]]].
  - by destruct Hf as [->|[->|[->| ->]]].
  - by right; left.
Qed.

Lemma user_code_no_call s k t :
  good s -> threads s !! k = Some t -> user_code t = true \/ dispatches t = true ->
  existsb is_call (stack t) = false /\ stack t <> [Ended] /\
  (user_code t = true -> is_worker (stack t) = true -> in_callback (stack t) = true).
Proof.
  intros Hg Hk Hu. pose proof (ft_nested _ _ _ (gd_threads _ Hg _ _ Hk)) as Hn.
  unfold user_code, dispatches in *. destruct (stack t) as [|[] rest]; cbn in Hu, Hn |- *; destruct Hu; try done;
    destruct_and?; by split_and!.
Qed.

Lemma callback_good s k t :
  good s -> threads s !! k = Some t -> dispatches t = true ->
  good (s <| threads := <[k := guard_enter t]> (threads s) |>).
Proof.
  intros Hg Hk Hd. destruct (user_code_no_call s k t Hg Hk (or_intror Hd)) as (Hc & He & _).
  destruct (gd_threads _ Hg _ _ Hk) as [F1 F2 _ _ _].
  apply (good_stack s k t _ (stop_requested_ s)); try done.
  - cbn. by destruct (stack t) as [|[] ?].
  - by right; left.
Qed.

Lemma callback_end_good s k t t' :
  good s -> threads s !! k = Some t -> guard_leave t = Some t' ->
  good (s <| threads := <[k := t']> (threads s) |>).
Proof.
  intros Hg Hk Hl. destruct (gd_threads _ Hg _ _ Hk) as [F1 F2 _ _ _].
  unfold guard_leave in Hl. destruct (stack t) as [|[| | |previous| | | | | | |] rest] eqn:E; try done.
  injection Hl as <-. destruct F2 as (-> & Hc & _ & Hu & Hn).
  assert (Hh : holds rest = false) by (by destruct rest as [|[] ?]).
  apply (good_stack s k t _ (stop_requested_ s)); try done; cbn [stack]; rewrite ?E.
  - by rewrite Hh.
  - done.
  - unfold call_ok. by destruct rest as [|[] ?].
  - by right; left.
Qed.

(** A call returns, or goes on, without having held the mutex. *)
Lemma call_good s k t f rest l r :
  good s -> threads s !! k = Some t -> stack t = f :: rest -> is_call f = true -> holds (stack t) = false ->
  (stop_requested_ s = true -> r = true) ->
  l = rest \/ (exists g, l = g :: rest /\ is_call g = true /\ holds l = false /\ call_ok (worker_ s) r k l) ->
  good (set_stack k l (s <| stop_requested_ := r |>)).
Proof.
  intros Hg Hk E Hf Hh Hr Hl. rewrite (set_stack_at k t) by done.
  destruct (gd_threads _ Hg _ _ Hk) as [F1 F2 _ _ _]. rewrite E in F1, F2, Hh.
  destruct F2 as (_ & Hc & _ & Hu & Hn). destruct t as [flag st].
  cbn [stack t_in_observer_callback] in E, F1. subst st.
  assert (Hcb : in_callback (f :: rest) = in_callback rest) by (by destruct f).
  assert (Hwk : is_worker (f :: rest) = is_worker rest) by (by destruct f).
  assert (He : f :: rest <> [Ended]) by (by intros [= -> _]).
  destruct Hl as [->|(g & -> & Hg1 & Hg2 & Hg3)].
  - apply (good_stack s k (mkThread flag (f :: rest)) _ r); try done; cbn [stack t_in_observer_callback]; try congruence.
    + rewrite Hh. by destruct rest as [|[] ?].
    + unfold call_ok. by destruct rest as [|[] ?].
    + by right; left.
  - assert (Hcb' : in_callback (g :: rest) = in_callback rest) by (by destruct g).
    assert (Hwk' : is_worker (g :: rest) = is_worker rest) by (by destruct g).
    apply (good_stack s k (mkThread flag (f :: rest)) _ r); try done; cbn [stack t_in_observer_callback]; try congruence.
    + split_and!; try done; [by destruct g|by destruct g|intros _; by apply Hu].
    + by right; left.
Qed.

(** The mutex is taken or given back by the thread that moves. *)
Lemma good_mutex s k t l m :
  good s -> threads s !! k = Some t ->
  m = Some k /\ stop_mutex_ s = None \/ m = None /\ stop_mutex_ s = Some k ->
  in_callback l = in_callback (stack t) -> is_worker l = is_worker (stack t) -> well_nested l ->
  holds l = bool_decide (m = Some k) -> call_ok (worker_ s) (stop_requested_ s) k l ->
  stack t <> [Ended] -> good (set_stack k l s <| stop_mutex_ := m |>).
Proof.
  intros Hg Hk Hm Hcb Hwk Hn Hh Hc He. rewrite (set_stack_at k t) by done.
  destruct (gd_threads _ Hg _ _ Hk) as [F1 F2 F3 F4 F5].
  apply (good_update s _ k t (mkThread (t_in_observer_callback t) l)); try done; cbn [stack t_in_observer_callback].
  - intros j Hj. split_and!; try done. cbn. destruct Hm as [[-> ->]|[-> ->]]; split; congruence.
  - split; try done; cbn [stack t_in_observer_callback].
    + congruence.
    + rewrite Hh. by rewrite bool_decide_eq_true.
    + destruct F5 as [F5 F6]. split; rewrite Hwk; [|done]. intros Hx.
      destruct (F5 Hx) as [?|(_ & _ & ?)]; [by left|done].
  - cbn. intros v ->. destruct Hm as [[[= ->] _]|[? _]]; [by left|done].
Qed.

(** A thread other than the worker returns to what is below its call. *)
Lemma returns_ok s k t f rest :
  good s -> threads s !! k = Some t -> stack t = f :: rest -> is_call f = true ->
  in_callback rest = in_callback (stack t) /\ is_worker rest = is_worker (stack t) /\ well_nested rest /\
  holds rest = false /\ (forall w r, call_ok w r k rest) /\ stack t <> [Ended] /\
  existsb is_call rest = false /\ (is_worker rest = true -> in_callback rest = true).
Proof.
  intros Hg Hk E Hf. pose proof (ft_nested _ _ _ (gd_threads _ Hg _ _ Hk)) as Hn. rewrite E in *.
  destruct Hn as (_ & Hc & _ & Hu & Hn). split_and!; try done.
  - by destruct f.
  - by destruct f.
  - by destruct rest as [|[] ?].
  - intros w r. unfold call_ok. by destruct rest as [|[] ?].
  - by intros [= -> _].
  - intros Hx. by apply Hu.
Qed.

Lemma start_good s k t rest created :
  good s -> threads s !! k = Some t -> stack t = AtCreate :: rest -> good (start created k rest s).
Proof.
  intros Hg Hk E. destruct (returns_ok s k t _ rest Hg Hk E eq_refl) as (H1 & H2 & H3 & H4 & H5 & H6 & _ & _).
  assert (Hm : stop_mutex_ s = Some k).
  { apply (ft_mutex _ _ _ (gd_threads _ Hg _ _ Hk)). by rewrite E. }
  assert (Hg1 : good (set_stack k rest s <| stop_mutex_ := None |>)).
  { apply (good_mutex s k t rest None); try done; by auto. }
  unfold start. set (s1 := set_stack k rest s <| stop_mutex_ := None |>) in *. cbn zeta.
  destruct (bool_decide _ || _) eqn:Hb; [done|]. destruct created; [|done]. cbn [negb].
  bool_prop. clearbody s1. clear -Hg1 H H0.
  assert (Hw : worker_ s1 = None) by (destruct (worker_ s1); [by destruct H; eexists|done]).
  destruct Hg1 as [G1 G2 G3 G4]. cbn.
  assert (Hnone : forall j tj, threads s1 !! j = Some tj -> is_worker (stack tj) = false).
  { intros j tj Hj. destruct (ft_worker _ _ _ (G1 j tj Hj)) as [F _].
    destruct (is_worker (stack tj)); [|done]. destruct (F eq_refl) as [?|(_ & ? & _)]; congruence. }
  assert (Hlook : forall j tj, (threads s1 ++ [mkThread false [Worker]]) !! j = Some tj ->
    threads s1 !! j = Some tj /\ (j < length (threads s1))%nat \/
    j = length (threads s1) /\ tj = mkThread false [Worker]).
  { intros j tj Hj. apply lookup_app_Some in Hj as [Hj|[Hge Hj]].
    - left. split; [done|by eapply lookup_lt_Some].
    - right. apply list_lookup_singleton_Some in Hj as [? <-]. split; [lia|done]. }
  split; cbn.
  - intros j tj [[Hj Hlt]|[-> ->]]%Hlook.
    + destruct (G1 j tj Hj) as [F1 F2 F3 F4 F5]. split; try done; cbn.
      * unfold call_ok in *. rewrite Hw in F4. destruct (stack tj) as [|[] ?]; try done.
        -- by destruct F4 as (_ & _ & ? & _).
        -- intros Hx. destruct (F4 Hx). congruence.
      * split; [by rewrite (Hnone j tj Hj)|]. intros [= ?]. lia.
    + split; try done; cbn; [|split; [by left|done]]. split; [done|]. intros Hm'%G4. lia.
  - intros j i tj ti [[Hj _]|[-> ->]]%Hlook [[Hi _]|[-> ->]]%Hlook Hwj Hwi; try done.
    + by rewrite (Hnone j tj Hj) in Hwj.
    + by rewrite (Hnone j tj Hj) in Hwj.
    + by rewrite (Hnone i ti Hi) in Hwi.
  - intros w [= <-]. rewrite length_app. cbn. lia.
  - intros m Hm%G4. rewrite length_app. lia.
Qed.

Lemma join_good s s' k t d w rest :
  good s -> threads s !! k = Some t -> stack t = Joining d w :: rest ->
  stop_join d w k rest s = Some s' -> good s'.
Proof.
  intros Hg Hk E Hj. destruct (returns_ok s k t _ rest Hg Hk E eq_refl) as (H1 & H2 & H3 & H4 & H5 & H6 & Hc & Hu).
  destruct (gd_threads _ Hg _ _ Hk) as [F1 F2 F3 F4 F5]. rewrite E in F3, F4.
  destruct F4 as (Hr & Hcb & Hw & Hne). assert (Hm : stop_mutex_ s = Some k) by (by apply F3).
  unfold stop_join in Hj. destruct (threads s !! w) as [tw|] eqn:Htw; [|done]. cbn in Hj.
  case_bool_decide as Hend; [|done]. injection Hj as <-. rewrite (set_stack_at k t) by done.
  set (l := stop_returns d rest). assert (Hl : in_callback l = in_callback rest /\ is_worker l = is_worker rest /\
    well_nested l /\ holds l = false /\ call_ok None true k l) by (by destruct d).
  clearbody l. destruct Hl as (L1 & L2 & L3 & L4 & L5). destruct Hg as [G1 G2 G3 G4].
  assert (Hold : forall j tj, j <> k -> threads s !! j = Some tj -> fits (mkSystem None true None (destroyed s) (threads s)) j tj).
  { intros j tj Hj Htj. destruct (G1 j tj Htj) as [J1 J2 J3 J4 [J5 J6]].
    assert (Hmj : stop_mutex_ s = Some j -> False) by congruence. split; try done; cbn.
    - rewrite J3. split; [by intros ?%Hmj|done].
    - unfold call_ok in *. destruct (stack tj) as [|[] ?]; try done; [by destruct J4|exfalso; by apply Hmj, J3].
    - split; [|done]. intros Hx. right. destruct (J5 Hx) as [Hv|(? & _)]; [|congruence].
      assert (j = w) as -> by congruence. split_and!; try done. congruence. }
  split; cbn.
  - intros j tj [(-> & -> & _)|[Hj Htj]]%lookup_insert_cases.
    + split; cbn [t_in_observer_callback stack]; [congruence|done|by rewrite L4|cbn; by rewrite Hr|]. unfold worker_ok. rewrite L2, H2. split; [|done].
      intros Hx. destruct F5 as [F5 _]. destruct (F5 Hx) as [?|(? & _)]; congruence.
    + destruct (Hold j tj) as [J1 J2 J3 J4 J5]; [congruence|done|]. cbn in *. rewrite <- Hr in J4, J5. by split.
  - assert (Hlk : forall j tj, <[k:=mkThread (t_in_observer_callback t) l]> (threads s) !! j = Some tj ->
      exists t0, threads s !! j = Some t0 /\ is_worker (stack tj) = is_worker (stack t0)).
    { intros j tj [(-> & -> & _)|[_ Hj]]%lookup_insert_cases; [|by eauto]. exists t. split; [done|]. cbn [stack]. congruence. }
    intros j i tj ti (t1 & ? & E1)%Hlk (t2 & ? & E2)%Hlk. rewrite E1, E2. by eapply G2.
  - done.
  - done.
Qed.

Lemma call_good_same s k t f rest l :
  good s -> threads s !! k = Some t -> stack t = f :: rest -> is_call f = true -> holds (stack t) = false ->
  l = rest \/ (exists g, l = g :: rest /\ is_call g = true /\ holds l = false /\
                 call_ok (worker_ s) (stop_requested_ s) k l) ->
  good (set_stack k l s).
Proof.
  intros Hg Hk E Hf Hh Hl. pose proof (call_good s k t f rest l (stop_requested_ s) Hg Hk E Hf Hh) as H.
  destruct s. by apply H.
Qed.

Lemma good_destroyed s : good s -> good (s <| destroyed := true |>).
Proof.
  destruct s as [w r m d ts]. intros [G1 G2 G3 G4]. split; try done.
  intros k t Hk. destruct (G1 k t Hk) as [F1 F2 F3 F4 F5]. by split.
Qed.

Lemma call_step_good created k t s s' :
  good s -> threads s !! k = Some t -> call_step created k t s = Some s' -> good s'.
Proof.
  intros Hg Hk Hs. unfold call_step in Hs.
  destruct (stack t) as [|[| | |p| | |d|d|d|d w|] rest] eqn:E; try done.
  all: destruct (returns_ok s k t _ rest Hg Hk E eq_refl) as (H1 & H2 & H3 & H4 & H5 & H6 & Hc & Hu).
  all: destruct (gd_threads _ Hg _ _ Hk) as [F1 F2 F3 F4 F5]; rewrite E in F3, F4.
  - case_bool_decide as Hm; [done|]. injection Hs as <-. apply (good_mutex s k t (AtCreate :: rest) (Some k)); try done.
    + left. split; [done|]. by destruct (stop_mutex_ s); [destruct Hm; eexists|].
    + symmetry. by apply bool_decide_eq_true.
  - injection Hs as <-. by apply (start_good s k t).
  - injection Hs as <-. apply (call_good s k t (AtStop d) rest (AtTest d :: rest) true); try done; [by rewrite E|].
    right. by eexists.
  - injection Hs as <-. unfold stop_test. destruct (t_in_observer_callback t) eqn:Hflag.
    + apply (call_good_same s k t (AtTest d) rest); try done; [by rewrite E|].
      destruct d; [right|by left]. eexists. split_and!; try done. cbn [call_ok]. intros Hx. congruence.
    + apply (call_good_same s k t (AtTest d) rest); try done; [by rewrite E|].
      right. eexists. split_and!; try done. cbn [call_ok]. split; [done|]. by rewrite H1, <- F1.
  - case_bool_decide as Hm; [done|]. injection Hs as <-. unfold stop_lock. destruct F4 as [Hr Hcb].
    assert (Hfree : stop_mutex_ s = None) by (by destruct (stop_mutex_ s); [destruct Hm; eexists|]).
    assert (Hret : worker_ s = None -> good (set_stack k (stop_returns d rest) s)).
    { intros Hw. apply (call_good_same s k t (AtStopMutex d) rest); try done; [by rewrite E|].
      destruct d; [right|by left]. eexists. by split_and!. }
    destruct (worker_ s) as [w|] eqn:Hw; [|by apply Hret]. case_bool_decide as Hwk.
    { subst w. exfalso. destruct F5 as [_ F5]. rewrite <- H2 in F5. rewrite Hu in Hcb; [done|by apply F5]. }
    apply (good_mutex s k t _ (Some k)); try done; [by left|cbn; symmetry; by apply bool_decide_eq_true].
  - by eapply join_good.
  - injection Hs as <-.
    apply (call_good_same _ k t Deinit rest); try done; [by apply good_destroyed|by rewrite E|by left].
Qed.

Lemma step_good l s s' : good s -> step l s = Some s' -> good s'.
Proof.
  intros Hg. unfold step. set (k := thread_of l). destruct (threads s !! k) as [t|] eqn:Hk; [|done]. cbn [mbind option_bind].
  destruct l; cbn [thread_of] in k.
  1,2,3: destruct (user_code t) eqn:Hu; [|done]; intros [= <-];
    destruct (user_code_no_call s k t Hg Hk (or_introl Hu)) as (? & ? & ?); apply push_good; auto; done.
  - by apply call_step_good.
  - destruct (dispatches t) eqn:Hd; [|done]. intros [= <-]. by apply callback_good.
  - destruct (guard_leave t) as [t'|] eqn:Hl; [|done]. intros [= <-]. by eapply callback_end_good.
  - destruct (stack t) as [|[] rest] eqn:E; try done. intros [= <-]. rewrite <- E.
    destruct (user_code_no_call s k t Hg Hk) as (? & ? & _); [right; unfold dispatches; by rewrite E|].
    apply push_good; auto; try done. intros _. rewrite E.
    pose proof (ft_nested _ _ _ (gd_threads _ Hg _ _ Hk)) as Hn. rewrite E in Hn. by destruct Hn as (_ & _ & -> & _).
  - destruct (stack t) as [|[] rest] eqn:E; try done. intros [= <-].
    destruct (gd_threads _ Hg _ _ Hk) as [F1 F2 _ _ _]. rewrite E in F1, F2. destruct F2 as (_ & Hc & _ & Hu & Hn).
    rewrite (set_stack_at k t) by done. destruct s as [w r m ds ts].
    assert (Hh : holds rest = false) by (by destruct rest as [|[] ?]).
    apply (good_stack (mkSystem w r m ds ts) k t _ r); rewrite ?E; try done; [|by right; left].
    cbn. unfold call_ok. by destruct rest as [|[] ?].
  - destruct (bool_decide _ && _) eqn:Hb; [|done]. apply andb_true_iff in Hb as [Hb Hr]. intros [= <-].
    apply bool_decide_eq_true in Hb. destruct (gd_threads _ Hg _ _ Hk) as [F1 _ _ _ _]. rewrite Hb in F1.
    rewrite (set_stack_at k t) by done. destruct s as [w r m ds ts].
    apply (good_stack (mkSystem w r m ds ts) k t _ r); rewrite ?Hb; try done. by right; right.
Qed.

Lemma reachable_good P n s : reachable P n s -> good s.
Proof. induction 1 as [|l s s' _ IH _ Hs]; [apply good_newborn|by eapply step_good]. Qed.
