(* ===== verification/RuntimeShutdown.v ===== *)
(** * RuntimeShutdown: what [RuntimeLifecycle] promises

    A [stop] that waited is final, every call returns, and the one call that may not
    be made inside an observer callback. *)

From S2P Require Import Prelude RuntimeLifecycle.

(** ** A stop is final *)

(** The worker is over and there will be no other. *)
Definition over (s : system) : Prop :=
  stop_requested_ s = true /\ worker_ s = None /\
  forall k t, threads s !! k = Some t -> Worker ∉ stack t.

Lemma over_intro s : good s -> stop_requested_ s = true -> worker_ s = None -> over s.
Proof.
  intros Hg Hr Hw. split_and!; try done. intros k t Hk Hin.
  destruct (ft_worker _ _ _ (gd_threads _ Hg _ _ Hk)) as [F _].
  assert (Hx : is_worker (stack t) = true).
  { apply existsb_exists. exists Worker. split; [by apply list_elem_of_In|done]. }
  destruct (F Hx) as [?|(_ & _ & E)]; [congruence|]. rewrite E in Hin.
  by apply list_elem_of_singleton in Hin.
Qed.

Lemma set_stack_members k l s :
  worker_ (set_stack k l s) = worker_ s /\ stop_requested_ (set_stack k l s) = stop_requested_ s.
Proof. unfold set_stack. by destruct (threads s !! k). Qed.

Ltac members :=
  repeat match goal with
  | |- context [worker_ (set_stack ?k ?l ?s)] => rewrite (proj1 (set_stack_members k l s))
  | |- context [stop_requested_ (set_stack ?k ?l ?s)] => rewrite (proj2 (set_stack_members k l s))
  end; cbn.

Lemma stopped_step l s s' :
  step l s = Some s' -> stop_requested_ s = true -> worker_ s = None ->
  stop_requested_ s' = true /\ worker_ s' = None.
Proof.
  intros Hs Hr Hw. unfold step in Hs. set (k := thread_of l) in Hs.
  destruct (threads s !! k) as [t|]; [|done]. cbn [mbind option_bind] in Hs.
  assert (Hset : forall f, stop_requested_ (set_stack k f s) = true /\ worker_ (set_stack k f s) = None).
  { intros f. by destruct (set_stack_members k f s) as [-> ->]. }
  destruct l; cbn [thread_of] in k; unfold guard_leave in Hs.
  4: { unfold call_step in Hs. destruct (stack t) as [|[] rest]; try done.
    - case_bool_decide; [done|]. injection Hs as <-. by members.
    - injection Hs as <-. unfold start. cbn zeta. members. rewrite Hw, Hr, orb_true_r. by members.
    - injection Hs as <-. unfold stop_request. by members.
    - injection Hs as <-. unfold stop_test. by destruct (t_in_observer_callback t).
    - case_bool_decide; [done|]. injection Hs as <-. unfold stop_lock. by rewrite Hw.
    - unfold stop_join in Hs. destruct (threads s !! w); [|done]. cbn in Hs. case_bool_decide; [|done].
      injection Hs as <-. by members.
    - injection Hs as <-. by members. }
  all: repeat (branch_in Hs; try done); injection Hs as <-; by try apply Hset.
Qed.

Lemma over_run ls s s' : good s -> over s -> run ls s = Some s' -> over s'.
Proof.
  revert s. induction ls as [|l ls IH]; intros s Hg Hov; cbn [run]; [by intros [= <-]|].
  destruct (step l s) as [s1|] eqn:Hs; [|done]. destruct Hov as (Hr & Hw & _).
  pose proof (step_good l s s1 Hg Hs) as Hg1. destruct (stopped_step l s s1 Hs Hr Hw). apply (IH s1); [done|by apply over_intro].
Qed.

(** [stop] returns outside callbacks. *)
Lemma stop_over s s' k t t' d rest created :
  good s -> threads s !! k = Some t ->
  stack t = AtStopMutex d :: rest \/ (exists w, stack t = Joining d w :: rest) ->
  step (LCall k created) s = Some s' -> threads s' !! k = Some t' -> stack t' = stop_returns d rest -> over s'.
Proof.
  intros Hg Hk Hst Hs Hk' E'. pose proof (step_good _ _ _ Hg Hs) as Hg'.
  destruct (gd_threads _ Hg _ _ Hk) as [F1 F2 F3 F4 F5].
  unfold step in Hs. cbn [thread_of] in Hs. rewrite Hk in Hs. cbn [mbind option_bind] in Hs. unfold call_step in Hs.
  apply over_intro; [done|..]; destruct Hst as [E|[w E]]; rewrite E in *.
  - destruct F4 as [Hr _]. case_bool_decide; [done|]. injection Hs as <-. unfold stop_lock.
    destruct (worker_ s); [case_bool_decide|]; by members.
  - destruct F4 as (Hr & _). unfold stop_join in Hs. destruct (threads s !! w); [|done]. cbn in Hs.
    case_bool_decide; [|done]. injection Hs as <-. by members.
  - destruct F4 as [Hr Hcb]. case_bool_decide; [done|]. injection Hs as <-. revert Hk'. unfold stop_lock.
    destruct (worker_ s) as [w|] eqn:Hw; [|intros _; by members].
    case_bool_decide as Hwk.
    + subst w. exfalso. destruct F5 as [_ F5]. destruct F2 as (_ & _ & _ & Hu & _).
      rewrite Hu in Hcb; [done..|by apply F5].
    + rewrite (set_stack_at k t) by done. cbn. rewrite list_lookup_insert_eq by (by eapply lookup_lt_Some).
      intros [= <-]. cbn in E'. exfalso.
      destruct d; [done|]. apply (f_equal length) in E'. cbn in E'. lia.
  - unfold stop_join in Hs. destruct (threads s !! w); [|done]. cbn in Hs.
    case_bool_decide; [|done]. injection Hs as <-. by members.
Qed.

(** ** Every call returns *)

Definition weight (f : frame) : Z :=
  match f with
  | Worker | InSdk | InCallback _ | Deinit => 1
  | Ended => 0
  | Joining _ _ => 2
  | AtStopMutex _ | AtCreate => 3
  | AtTest _ | AtStart => 4
  | AtStop _ => 5
  end.

Definition thread_work (t : thread) : Z := zsum (map weight (stack t)).
Definition work (s : system) : Z := zsum (map thread_work (threads s)).

(** The steps that finish what was begun; the SDK may wait for every observer callback. *)
Definition finishing (s : system) (l : label) : bool :=
  match l with
  | LCall _ _ | LCallbackEnd _ | LWorkerEnd _ => true
  | LSdkEnd _ => forallb (fun t => negb (in_callback (stack t))) (threads s)
  | _ => false
  end.

Lemma thread_work_nonneg t : 0 <= thread_work t.
Proof. apply zsum_nonneg, List.Forall_map, List.Forall_forall. intros [] _; cbn; lia. Qed.

Lemma work_nonneg s : 0 <= work s.
Proof. apply zsum_nonneg, List.Forall_map, List.Forall_forall. intros t _. apply thread_work_nonneg. Qed.

Lemma work_update s k t t' :
  threads s !! k = Some t ->
  zsum (map thread_work (<[k := t']> (threads s))) = work s - thread_work t + thread_work t'.
Proof.
  intros Hk. unfold work. rewrite list_fmap_insert. apply zsum_insert. rewrite list_lookup_fmap, Hk. done.
Qed.

(** The other members do not count. *)
Lemma set_stack_work s s0 k t l :
  threads s0 = threads s -> threads s !! k = Some t ->
  work (set_stack k l s0) = work s - thread_work t + zsum (map weight l).
Proof.
  intros H0 Hk. rewrite (set_stack_at k t) by (by rewrite H0). unfold work at 1. cbn. rewrite H0.
  by apply work_update.
Qed.

Lemma start_work created k t rest s :
  threads s !! k = Some t -> stack t = AtCreate :: rest -> work (start created k rest s) < work s.
Proof.
  intros Hk E. unfold start. set (s1 := set_stack k rest (s <| stop_mutex_ := None |>)).
  assert (H1 : work s1 = work s - 3).
  { unfold s1. rewrite (set_stack_work s _ k t) by done. unfold thread_work. rewrite E. cbn. lia. }
  cbn zeta. clearbody s1. repeat case_match; [lia..|]. unfold work in *. cbn. rewrite map_app, zsum_app. cbn. lia.
Qed.

Lemma finishing_work l s s' : finishing s l = true -> step l s = Some s' -> 0 <= work s' < work s.
Proof.
  intros Hf Hs. split; [apply work_nonneg|]. unfold step in Hs.
  destruct (threads s !! thread_of l) as [t|] eqn:Hk; [|done]. cbn [mbind option_bind] in Hs.
  destruct l as [| | |k c|k|k| |k|k]; try done; cbn [thread_of] in Hk.
  - unfold call_step in Hs. destruct (stack t) as [|[] rest] eqn:E; try done.
    2: { injection Hs as <-. by eapply start_work. }
    all: pose proof (f_equal (fun l => zsum (map weight l)) E) as Htw; cbn in Htw; fold (thread_work t) in Htw.
    + case_bool_decide; [done|]. injection Hs as <-. rewrite (set_stack_work s _ k t) by done.
      cbn. lia.
    + injection Hs as <-. unfold stop_request. rewrite (set_stack_work s _ k t) by done. cbn. lia.
    + injection Hs as <-. unfold stop_test. destruct (t_in_observer_callback t); rewrite (set_stack_work s _ k t) by done;
        [destruct d|]; cbn; lia.
    + case_bool_decide; [done|]. injection Hs as <-. unfold stop_lock.
      destruct (worker_ s) as [w|]; [case_bool_decide|]; rewrite (set_stack_work s _ k t) by done;
        try destruct d; cbn; lia.
    + unfold stop_join in Hs. destruct (threads s !! w); [|done]. cbn in Hs. case_bool_decide; [|done].
      injection Hs as <-. rewrite (set_stack_work s _ k t) by done. destruct d; cbn; lia.
    + injection Hs as <-. rewrite (set_stack_work s _ k t) by done. cbn. lia.
  - unfold guard_leave in Hs. destruct (stack t) as [|[] rest] eqn:E; try done. injection Hs as <-.
    unfold work at 1. cbn. rewrite (work_update s k t) by done. unfold thread_work. rewrite E. cbn. lia.
  - destruct (stack t) as [|[] rest] eqn:E; try done. injection Hs as <-.
    rewrite (set_stack_work s _ k t) by done. unfold thread_work. rewrite E. cbn. lia.
  - destruct (bool_decide _ && _) eqn:Hb; [|done]. injection Hs as <-. bool_prop.
    rewrite (set_stack_work s _ k t) by done. unfold thread_work.
    match goal with H : stack t = _ |- _ => rewrite H end. cbn. lia.
Qed.

(** With [start] kept out of callbacks. *)
Definition start_ok (l : list frame) : Prop :=
  match l with AtStart :: rest | AtCreate :: rest => in_callback rest = false | _ => True end.

Definition starts_ok (s : system) : Prop := forall k t, threads s !! k = Some t -> start_ok (stack t).

Lemma starts_insert s s' k t' :
  starts_ok s -> threads s' = <[k := t']> (threads s) -> start_ok (stack t') -> starts_ok s'.
Proof.
  intros Hs Ht H j tj. rewrite Ht. intros [(_ & -> & _)|[_ Hj]]%lookup_insert_cases; [done|by eapply Hs].
Qed.

Lemma starts_set_stack s s0 k l : starts_ok s -> threads s0 = threads s -> start_ok l -> starts_ok (set_stack k l s0).
Proof.
  intros Hs H0 Hl. unfold set_stack. rewrite H0. destruct (threads s !! k) as [t|]; [|intros j tj; rewrite H0; apply Hs].
  by eapply (starts_insert s).
Qed.

Lemma starts_step l s s' : good s -> starts_ok s -> starts_outside s l -> step l s = Some s' -> starts_ok s'.
Proof.
  intros Hg Hok Hl Hs. unfold step in Hs.
  destruct (threads s !! thread_of l) as [t|] eqn:Hk; [|done]. cbn [mbind option_bind] in Hs.
  pose proof (ft_nested _ _ _ (gd_threads _ Hg _ _ Hk)) as Hn.
  pose proof (ft_flag _ _ _ (gd_threads _ Hg _ _ Hk)) as Hflag.
  assert (Hrest : forall f rest, stack t = f :: rest -> start_ok rest).
  { intros f rest E. rewrite E in Hn. destruct Hn as (_ & Hc & _). by destruct rest as [|[] ?]. }
  destruct l as [k|k|k|k c|k|k|k|k|k]; cbn [thread_of] in Hk.
  4: { unfold call_step in Hs. pose proof (Hok k t Hk) as Hstart.
    destruct (stack t) as [|[] rest] eqn:E; try done; pose proof (Hrest _ _ eq_refl) as Hr.
    - case_bool_decide; [done|]. injection Hs as <-. by eapply (starts_set_stack s).
    - injection Hs as <-. unfold start. cbn zeta.
      assert (H1 : starts_ok (set_stack k rest (s <| stop_mutex_ := None |>))) by (by eapply (starts_set_stack s)).
      repeat case_match; try done. intros j tj. cbn. rewrite lookup_app_Some.
      intros [Hj|[_ Hj]]; [by eapply H1|]. by apply list_lookup_singleton_Some in Hj as [_ <-].
    - injection Hs as <-. by eapply (starts_set_stack s).
    - injection Hs as <-. unfold stop_test. destruct (t_in_observer_callback t), d; by eapply (starts_set_stack s).
    - case_bool_decide; [done|]. injection Hs as <-. unfold stop_lock.
      destruct (worker_ s) as [w|]; [case_bool_decide|]; try destruct d; by eapply (starts_set_stack s).
    - unfold stop_join in Hs. destruct (threads s !! w); [|done]. cbn in Hs. case_bool_decide; [|done].
      injection Hs as <-. destruct d; by eapply (starts_set_stack s).
    - injection Hs as <-. by eapply (starts_set_stack s). }
  - destruct (user_code t); [|done]. injection Hs as <-. eapply (starts_set_stack s); [done..|].
    cbn. rewrite <- Hflag. by apply Hl.
  - destruct (user_code t); [|done]. injection Hs as <-. by eapply (starts_set_stack s).
  - destruct (user_code t); [|done]. injection Hs as <-. by eapply (starts_set_stack s).
  - destruct (dispatches t); [|done]. injection Hs as <-. by eapply (starts_insert s).
  - unfold guard_leave in Hs. destruct (stack t) as [|[] rest] eqn:E; try done. injection Hs as <-.
    eapply (starts_insert s); [done..|]. by eapply Hrest.
  - destruct (stack t) as [|[] rest]; try done. injection Hs as <-. by eapply (starts_set_stack s).
  - destruct (stack t) as [|[] rest] eqn:E; try done. injection Hs as <-.
    eapply (starts_set_stack s); [done..|]. by eapply Hrest.
  - destruct (bool_decide _ && _); [|done]. injection Hs as <-. by eapply (starts_set_stack s).
Qed.

Lemma reachable_starts n s : reachable starts_outside n s -> starts_ok s.
Proof.
  induction 1 as [|l s s' Hr IH Hl Hs].
  - intros k t [-> _]%lookup_replicate. done.
  - eapply starts_step; [by eapply reachable_good|done..].
Qed.

Definition top (P : frame -> bool) (t : thread) : bool := match stack t with f :: _ => P f | [] => false end.

Lemma find_thread (P : thread -> bool) s :
  (exists k t, threads s !! k = Some t /\ P t = true) \/ forall k t, threads s !! k = Some t -> P t = false.
Proof.
  destruct (existsb P (threads s)) eqn:E; [left|right].
  - apply existsb_exists in E as (t & Hin & HP). apply list_elem_of_In, list_elem_of_lookup in Hin as [k Hk]. eauto.
  - intros k t Hk. destruct (P t) eqn:HP; [|done]. exfalso.
    assert (H : existsb P (threads s) = true); [|congruence]. apply existsb_exists. exists t. split; [|done].
    apply list_elem_of_In. by eapply list_elem_of_lookup_2.
Qed.

(** Steps that are never blocked. *)
Definition free_frame (f : frame) : bool :=
  match f with AtCreate | AtStop _ | AtTest _ | Deinit => true | _ => false end.

Lemma free_step s k t : threads s !! k = Some t -> top free_frame t = true ->
  exists s', step (LCall k true) s = Some s'.
Proof.
  intros Hk Ht. unfold step. cbn [thread_of]. rewrite Hk. cbn [mbind option_bind]. unfold call_step.
  unfold top in Ht. destruct (stack t) as [|[] rest]; try done; by eexists.
Qed.

Lemma callback_end_step s k t : threads s !! k = Some t ->
  top (fun f => match f with InCallback _ => true | _ => false end) t = true ->
  exists s', step (LCallbackEnd k) s = Some s'.
Proof.
  intros Hk Ht. unfold step. cbn [thread_of]. rewrite Hk. cbn [mbind option_bind]. unfold guard_leave.
  unfold top in Ht. destruct (stack t) as [|[] rest]; try done; by eexists.
Qed.

(** No callback is innermost and nothing is free to go on: no callback is in progress. *)
Lemma no_callback s k t :
  good s -> starts_ok s -> threads s !! k = Some t -> top free_frame t = false ->
  top (fun f => match f with InCallback _ => true | _ => false end) t = false -> in_callback (stack t) = false.
Proof.
  intros Hg Hok Hk Hfree Hcb. destruct (gd_threads _ Hg _ _ Hk) as [_ F2 _ F4 _].
  pose proof (Hok k t Hk) as Hst. unfold top in *.
  destruct (stack t) as [|[] rest]; try done; cbn in F2, F4, Hst |- *.
  all: destruct_and?; subst; first [done|congruence].
Qed.

(** The join ends: the worker can return or has returned. *)
Lemma joiner_step s m t d w rest :
  good s -> starts_ok s -> threads s !! m = Some t -> stack t = Joining d w :: rest ->
  (forall k t, threads s !! k = Some t -> top free_frame t = false) ->
  (forall k t, threads s !! k = Some t -> in_callback (stack t) = false) ->
  (forall k t, threads s !! k = Some t -> top (fun f => match f with InSdk => true | _ => false end) t = false) ->
  exists l s', finishing s l = true /\ step l s = Some s'.
Proof.
  intros Hg Hok Hm E Hfree Hcb Hsdk. destruct (gd_threads _ Hg _ _ Hm) as [_ _ _ F4 _].
  rewrite E in F4. destruct F4 as (Hr & _ & Hw & Hne).
  destruct (lookup_lt_is_Some_2 _ _ (gd_worker _ Hg _ Hw)) as [tw Htw].
  destruct (gd_threads _ Hg _ _ Htw) as [_ G2 _ _ [_ G5]]. specialize (G5 Hw).
  pose proof (Hfree w tw Htw) as H1. pose proof (Hcb w tw Htw) as H2. pose proof (Hsdk w tw Htw) as H3.
  unfold top in *. destruct (stack tw) as [|f rest'] eqn:Ew; [done|].
  destruct G2 as (_ & Hc & Hbot & Hu & _).
  assert (Hcall : is_call f = true -> False).
  { intros Hf. assert (Hx : is_worker rest' = true) by (by destruct f). pose proof (Hu Hf Hx).
    assert (in_callback (f :: rest') = in_callback rest') by (by destruct f). congruence. }
  destruct f; try done; try (by exfalso; apply Hcall).
  - subst rest'. exists (LWorkerEnd w). eexists. split; [done|]. unfold step. cbn [thread_of]. rewrite Htw.
    cbn [mbind option_bind]. rewrite Ew, Hr. by rewrite bool_decide_true.
  - subst rest'. exists (LCall m true). eexists. split; [done|]. unfold step. cbn [thread_of]. rewrite Hm.
    cbn [mbind option_bind]. unfold call_step. rewrite E. unfold stop_join. rewrite Htw. cbn [mbind option_bind].
    by rewrite Ew, bool_decide_true.
Qed.

Lemma progress s k t :
  good s -> starts_ok s -> threads s !! k = Some t -> existsb is_call (stack t) = true ->
  exists l s', finishing s l = true /\ step l s = Some s'.
Proof.
  intros Hg Hok Hk Hcall.
  destruct (find_thread (top (fun f => match f with InCallback _ => true | _ => false end)) s)
    as [(j & tj & Hj & Ht)|Hnocb].
  { destruct (callback_end_step s j tj Hj Ht) as [s' Hs]. by exists (LCallbackEnd j), s'. }
  destruct (find_thread (top free_frame) s) as [(j & tj & Hj & Ht)|Hnofree].
  { destruct (free_step s j tj Hj Ht) as [s' Hs]. by exists (LCall j true), s'. }
  assert (Hcb : forall j tj, threads s !! j = Some tj -> in_callback (stack tj) = false).
  { intros j tj Hj. exact (no_callback s j tj Hg Hok Hj (Hnofree j tj Hj) (Hnocb j tj Hj)). }
  destruct (find_thread (top (fun f => match f with InSdk => true | _ => false end)) s) as [(j & tj & Hj & Ht)|Hnosdk].
  { unfold top in Ht. destruct (stack tj) as [|[] rest] eqn:E; try done.
    exists (LSdkEnd j), (set_stack j rest s). split.
    - apply forallb_forall. intros x Hx%list_elem_of_In. apply list_elem_of_lookup in Hx as [i Hi].
      by rewrite (Hcb i x Hi).
    - unfold step. cbn [thread_of]. rewrite Hj. cbn [mbind option_bind]. by rewrite E. }
  assert (Hjoin : forall m, stop_mutex_ s = Some m -> exists l s', finishing s l = true /\ step l s = Some s').
  { intros m Hm. destruct (lookup_lt_is_Some_2 _ _ (gd_mutex _ Hg _ Hm)) as [tm Htm].
    pose proof (proj2 (ft_mutex _ _ _ (gd_threads _ Hg _ _ Htm)) Hm) as Hh. pose proof (Hnofree m tm Htm) as Hf.
    unfold top in Hf. destruct (stack tm) as [|[] rest] eqn:E; try done. by eapply joiner_step. }
  destruct (stop_mutex_ s) as [m|] eqn:Hm; [by apply (Hjoin m)|].
  destruct (gd_threads _ Hg _ _ Hk) as [_ F2 F3 _ _]. pose proof (Hnofree k t Hk) as Hf.
  unfold top in Hf. destruct (stack t) as [|f rest] eqn:E; [done|]. destruct F2 as (_ & Hc & _).
  cbn in Hcall. rewrite Hc, orb_false_r in Hcall. rewrite Hm in F3.
  exists (LCall k true). unfold step. cbn [thread_of]. rewrite Hk. cbn [mbind option_bind]. unfold call_step.
  rewrite E, Hm. destruct f; try done; try (by eexists). by destruct F3 as [F3 _]; specialize (F3 eq_refl).
Qed.

(** ** Theorems *)

(** However [start], [stop], the destructor, observer callbacks on any thread and the
    worker's SDK calls interleave: there is at most one worker thread in the life of
    the runtime; the lock of [stop] and the join are never waited for inside an
    observer callback, and the joined thread is the worker and another one; when a
    [stop] returns that had to wait, the worker is over and no later [start] makes
    another; and the destructor that runs outside callbacks deinitialises the SDK only
    after that.  Claim C15. *)
Theorem stop_is_final n s :
  reachable anything n s ->
  (forall j k tj tk, threads s !! j = Some tj -> threads s !! k = Some tk ->
     is_worker (stack tj) = true -> is_worker (stack tk) = true -> j = k) /\
  (forall k t d rest, threads s !! k = Some t -> in_callback rest = true ->
     stack t <> AtStopMutex d :: rest /\ forall w, stack t <> Joining d w :: rest) /\
  (forall k t d w rest, threads s !! k = Some t -> stack t = Joining d w :: rest ->
     w <> k /\ exists tw, threads s !! w = Some tw /\ is_worker (stack tw) = true) /\
  (forall k t t' d rest created s' ls s'', threads s !! k = Some t ->
     stack t = AtStopMutex d :: rest \/ (exists w, stack t = Joining d w :: rest) ->
     step (LCall k created) s = Some s' -> threads s' !! k = Some t' -> stack t' = stop_returns d rest ->
     run ls s' = Some s'' -> over s'') /\
  (forall k t rest, threads s !! k = Some t -> stack t = Deinit :: rest -> in_callback rest = false -> over s).
Proof.
  intros Hr. pose proof (reachable_good _ _ _ Hr) as Hg. split_and!.
  - apply (gd_one _ Hg).
  - intros k t d rest Hk Hcb. pose proof (ft_call _ _ _ (gd_threads _ Hg _ _ Hk)) as Hc.
    split; [intros E|intros w E]; rewrite E in Hc; destruct Hc as (_ & Hc); [congruence|]. destruct Hc; congruence.
  - intros k t d w rest Hk E. pose proof (ft_call _ _ _ (gd_threads _ Hg _ _ Hk)) as Hc. rewrite E in Hc.
    destruct Hc as (_ & _ & Hw & Hne). split; [done|].
    destruct (lookup_lt_is_Some_2 _ _ (gd_worker _ Hg _ Hw)) as [tw Htw]. exists tw. split; [done|].
    by apply (ft_worker _ _ _ (gd_threads _ Hg _ _ Htw)).
  - intros k t t' d rest created s' ls s'' Hk E Hs Hk' E' Hrun.
    apply (over_run ls s'); [by eapply step_good|by eapply stop_over|done].
  - intros k t rest Hk E Hcb. pose proof (ft_call _ _ _ (gd_threads _ Hg _ _ Hk)) as Hc. rewrite E in Hc.
    destruct (Hc Hcb). by apply over_intro.
Qed.

(** If nobody calls [start] inside an observer callback the calls cannot hang, even
    with an SDK that returns from a call only when no observer callback is running
    anywhere: while some thread is inside [start], [stop] or the destructor a step is
    enabled that finishes something, and every such step decreases the work left.
    Claim C16. *)
Theorem lifecycle_calls_return n s k t :
  reachable starts_outside n s -> threads s !! k = Some t -> existsb is_call (stack t) = true ->
  (exists l s', finishing s l = true /\ step l s = Some s') /\
  forall l s', finishing s l = true -> step l s = Some s' -> 0 <= work s' < work s.
Proof.
  intros Hr Hk Hc. pose proof (reachable_good _ _ _ Hr) as Hg. pose proof (reachable_starts _ _ Hr) as Hok.
  split; [by eapply progress|]. intros l s'. apply finishing_work.
Qed.

(** ** Runs *)

(** Every label meets a condition where it happens. *)
Fixpoint labels_ok (b : system -> label -> bool) (ls : list label) (s : system) : bool :=
  match ls with
  | [] => true
  | l :: ls => b s l && match step l s with Some s' => labels_ok b ls s' | None => false end
  end.

Definition start_outside (s : system) (l : label) : bool :=
  match l with
  | LStart k => match threads s !! k with Some t => negb (t_in_observer_callback t) | None => true end
  | _ => true
  end.

Lemma start_outside_sound s l : start_outside s l = true -> starts_outside s l.
Proof.
  destruct l; try done. cbn. intros H t Ht. rewrite Ht in H. by apply negb_true_iff in H.
Qed.

Lemma lifecycle_run_reachable (P : system -> label -> Prop) (b : system -> label -> bool) n ls s :
  (forall s l, b s l = true -> P s l) -> reachable P n s -> labels_ok b ls s = true ->
  reachable P n (default s (run ls s)).
Proof.
  intros HP. revert s. induction ls as [|l ls IH]; intros s Hr Hb; cbn [run labels_ok] in *; [done|].
  apply andb_true_iff in Hb as [Hl Hb]. destruct (step l s) as [s1|] eqn:Hs; [|done]. cbn [mbind option_bind].
  assert (H1 : reachable P n (default s1 (run ls s1))) by (apply IH; [by eapply reach_step; eauto|done]).
  destruct (run ls s1) eqn:E; [done|]. exfalso. clear -Hb E. revert s1 Hb E.
  induction ls as [|l' ls IH]; intros s1; cbn [run labels_ok]; [done|].
  intros [_ Hb]%andb_true_iff. destruct (step l' s1); [|done]. by apply IH.
Qed.

Definition run_of (ls : list label) : system := default (newborn 2) (run ls (newborn 2)).

(** The worker is in an SDK call that waits for a callback on thread 1; thread 0 stops;
    the callback calls [stop]. *)
Definition stop_in_callback : list label :=
  [LStart 0; LCall 0 true; LCall 0 true; LSdk 2; LCallback 1; LStop 0; LCall 0 true; LCall 0 true; LCall 0 true;
   LStop 1; LCall 1 true]%nat.

(** The rest: the callback's [stop] returns, the callback, the SDK, the worker. *)
Definition then_finishes : list label := [LCall 1 true; LCallbackEnd 1; LSdkEnd 2; LWorkerEnd 2]%nat.

Lemma stop_is_final_witness :
  over (run_of (stop_in_callback ++ then_finishes ++ [LCall 0 true; LStart 1; LCall 1 true; LCall 1 true])%nat).
Proof.
  refine (proj1 (proj2 (proj2 (proj2 (stop_is_final 2 (run_of (stop_in_callback ++ then_finishes)) _))))
    0%nat (mkThread false [Joining false 2]) (mkThread false []) false [] true
    (run_of (stop_in_callback ++ then_finishes ++ [LCall 0 true])%nat) [LStart 1; LCall 1 true; LCall 1 true]%nat
    _ _ _ _ _ _ _).
  - apply (lifecycle_run_reachable _ (fun _ _ => true)); [done|apply reach_newborn|vm_compute; reflexivity].
  - vm_compute. reflexivity.
  - right. exists 2%nat. reflexivity.
  - vm_compute. reflexivity.
  - vm_compute. reflexivity.
  - reflexivity.
  - vm_compute. reflexivity.
Defined.

Lemma lifecycle_calls_return_witness :
  exists l s', finishing (run_of stop_in_callback) l = true /\ step l (run_of stop_in_callback) = Some s'.
Proof.
  refine (proj1 (lifecycle_calls_return 2 (run_of stop_in_callback) 0 (mkThread false [Joining false 2]) _ _ _)).
  - apply (lifecycle_run_reachable _ start_outside); [apply start_outside_sound|apply reach_newborn|vm_compute; reflexivity].
  - vm_compute. reflexivity.
  - vm_compute. reflexivity.
Defined.

(** ** What the code leaves open

    [start] takes [stop_mutex_] without looking whether it is called inside an
    observer callback: a [start] there, while another thread joins the worker and the
    worker's SDK call waits for the callback, waits for ever, and with it everyone. *)

Definition start_in_callback : list label :=
  [LStart 0; LCall 0 true; LCall 0 true; LSdk 2; LCallback 1; LStop 0; LCall 0 true; LCall 0 true; LCall 0 true;
   LStart 1]%nat.

Example start_in_callback_deadlocks :
  map stack (threads (run_of start_in_callback)) =
    [[Joining false 2]; [AtStart; InCallback false]; [InSdk; Worker]]%nat /\
  forall l, finishing (run_of start_in_callback) l = true -> step l (run_of start_in_callback) = None.
Proof.
  split; [vm_compute; reflexivity|]. intros l Hf.
  destruct l as [k|k|k|k c|k|k|k|k|k]; try (by vm_compute in Hf);
    destruct k as [|[|[|k]]]; vm_compute; reflexivity.
Qed.
